(* ===== verification/_CoqProject ===== *)
-Q . S2P
Prelude.v
Common.v
ChatSpec.v
Database.v
Packet.v
Wire.v
Server.v
Client.v
ServerProofs.v
ParseSpec.v
Protocol.v
Session.v
Streams.v
Objects.v
BinaryTheorems.v
Socket.v
Network.v
Console.v
ServerApp.v
ServerAppProofs.v
ServerAppTheorems.v
Threads.v
ThreadsProofs.v
ThreadsTheorems.v
ThreadsLiveness.v
App.v
AppProofs.v
AppTheorems.v
Loops.v
ClientThreads.v
ClientThreadsProofs.v
ClientThreadsTheorems.v
Service.v
System.v
SystemProofs.v
SystemTheorems.v
Liveness.v
Composed.v
ComposedProofs.v
ComposedTheorems.v
Main.v
Tests.v
Tutorial.v
Generated.v
GeneratedTheorems.v
