(* ===== verification/Prelude.v ===== *)
(** * Verification of the chat application

    The repository holds a chat server, a chat client, the libraries they share, an older
    binary protocol for the same service, and two tutorial programs on protobuf. This
    file is the root of the development: the documentation of the whole, then the
    prelude that every other file uses.

    ** The program

    - The {b server application} ([src/server/server_app.cpp]) listens on a TCP port,
      accepts connections and starts a thread for each. The thread waits for a request,
      parses it as a protobuf [Packet], calls the handler of its type on the shared user
      database ([src/server/database.cpp]), sends the answer and closes the connection.
    - The {b client application} ([src/client/app.cpp]) asks for a user name at the
      console, registers it, and runs three threads: one fetches the users every second
      and refreshes two maps between names and IDs, one fetches the messages, and the main
      thread shows a menu, lists the users and chats with one of them. Every exchange
      opens a new connection.
    - The {b console} ([src/console/console.cpp]) lets one thread edit a line below a
      prompt while the others write above it. The {b sockets} ([src/tcp_lib/]) wrap the
      system calls and retry until a whole buffer is through.
    - The {b binary protocol} is the same service over packed records: [MccClient]
      ([src/client/client.cpp]) encodes requests and decodes responses, [MccServer]
      ([src/server/server.cpp]) parses requests and writes responses. [ClientParser]
      ([src/client/client_parser.cpp]) encodes its register request with protobuf.

    ** The files

    - [Prelude] (this file): byte strings, 32-bit integers, outcomes, buffers written and
      read through moving pointers, unordered maps.
    - [Common]: [src/common/common.h]; the packed header and its codes.
    - [ChatSpec]: what a chat service promises. Its state is the history of the accepted
      requests; [ChatService] is the interface, [ChatServiceLaws] its laws, and exactly
      once delivery is proved of every service with these laws.
    - [Database]: [src/server/database.h] and [database.cpp]; the state is the record
      [Database], one definition per method, the iterator with [range_for] for the
      range-based loop, and the invariant [db_inv].
    - [Packet]: [src/common/packet.proto]; the messages as records, and the protobuf
      library as the class [Protobuf] with the documented behaviour in [ProtobufLaws].
      [Wire]: the proto3 wire format as an instance of both.
    - [Server], [Client]: [MccServer] and [MccClient], one definition per method.
      [ServerProofs] gives the exact bytes of every response and the exact cases of
      failure, [ParseSpec] gives [parse] on arbitrary bytes, with a reference definition
      and the bounds of its accesses, [Protocol] composes
      both sides, [Session] is a client connected to a
      server as one machine (four buffers and the server's state) with its simulation
      by the histories, [Streams] is about any sequence of arbitrary packets, and
      [BinaryTheorems] states the properties. [Objects]: the objects
      [MccClient] and [MccServer] with the references they hold, in a store of buffers
      that several of them may share, and the one instance of [Database].
    - [Socket]: [src/tcp_lib/socket.h] and [server_socket.h]; the operations over the
      class [Kernel] of system calls, the promises of a stream socket in [KernelLaws],
      and the [script] kernel, which answers from a list, as an instance. [Network]: the
      laws for several connections, with the kernel [net] as an instance.
    - [Console]: [src/console/console.h] and [console.cpp]; the critical sections as
      functions that emit bytes, and their interleaving as lists of [con_event]. The
      terminal that gets the bytes is not part of the repository: it is the class
      [Terminal], of which [TerminalLaws] says what the console relies on, with a terminal
      that wraps its lines, [wrapping], as an instance.
    - [ServerApp], [ServerAppProofs], [ServerAppTheorems]: the server application; the
      handlers, the thread of one connection, and the accepting loop with connections
      served in turn. [Threads], [ThreadsProofs], [ThreadsTheorems]: the accepting thread
      and the handler threads in any interleaving of their system calls, of the steps of
      [registerUser] and of the turns of the loop over the users. [ThreadsLiveness]: their
      infinite executions. [Service]: these threads as an implementation of [ChatSpec].
    - [App], [AppProofs], [AppTheorems]: the client application in a state monad over
      its fields, the console, the standard output, the characters to be typed and the
      kernel, and [ClientParser]. [Loops]: the background loops over many turns.
      [ClientThreads], [ClientThreadsProofs],
      [ClientThreadsTheorems]: the three threads as programs of accesses to the maps of
      names, the lock and the console, in any interleaving, the responses of the server
      and the characters typed being inputs.
    - [System], [SystemProofs], [SystemTheorems]: the server and any number of clients as
      one machine. The clients' threads move as in [ClientThreads]; a request takes
      effect at the server in one step and its answer arrives in a later one, steps of
      everybody else coming in between. [Liveness]: its infinite executions and what
      fairness gives. [Composed], [ComposedProofs], [ComposedTheorems]:
      the clients' threads with the server's threads of [Threads] over a kernel, connected
      by the bytes of requests and answers, and the simulation by [System]. It holds of
      the steps in which a thread inside [registerUser] is alone with the database
      ([exclusive_step]), a condition that nothing in the source enforces; the same
      condition is behind every theorem on [System] alone.
    - [Main]: the [main] functions of both applications with [std::stoi], the terminal's
      attributes, and the host name ([src/tcp_lib/tcp_util.h]). [Tests]: the tests that are
      not commented out.
    - [Tutorial]: the two programs of [src/protobuf-tutorial/], [cin] being a stream with
      its state bits. [Generated], [GeneratedTheorems]: the address book messages protoc
      generated for them ([addressbook.pb.h], [addressbook.pb.cc]), over a class for the
      runtime library.

    ** How the code is represented

    A function that can fail returns an [outcome]: [Ok], [Abort] for a failed [assert] or
    an exception that nothing catches, [Oob] for an access outside a buffer, which is undefined behaviour and has no
    successor, and [Blocked] for a loop that has used up its fuel. Integers are in [Z]
    with the conversions to 32 bits ([wrap32], [sint32]) written where the code converts;
    the host is little endian, as the code assumes when it copies integers into packets.
    Buffers keep their length and their old contents, so that a short response leaves the
    tail of a longer one behind it. The iteration order of an [unordered_map] is a
    parameter ([UMapOrder]): any permutation of the entries. Objects and threads are
    explicit state: a method takes the state and returns the next one.

    ** What the theorems show

    - {i Refinement of the service} ([BinaryTheorems], [Objects], [Service]). A session of the
      binary protocol answers every request as the history determines, or lacks buffer
      space ([session_implements_spec]), and so do any number of clients, whatever buffers
      they share ([shared_buffers_implement_spec]); hence messages are delivered exactly
      once and in order ([clients_exactly_once]). The threads of the server application
      implement the same service for the requests they answer ([threads_implement_chat]).
    - {i The binary protocol} ([BinaryTheorems], [ParseSpec]). On arbitrary bytes [parse]
      is a reference definition ([parse_equals_spec]); it leaves its buffers exactly when
      the packet announces too much or the response is too large ([parse_oob_iff]), and
      whatever packets arrive, the database is what the history of the decoded packets
      determines ([packets_become_history], in [Streams]). Each
      handler has its functional theorem with the exact bytes and sizes
      ([parseRequestSend_correct] and the like), and
      the registered IDs are characterised with the wrap-around of the counter and the
      insertions of [operator[]] ([registered_ids_dense]).
    - {i The server application} ([ServerAppTheorems], [ThreadsTheorems], [Main]). A request
      that arrives in one piece is answered with exactly the serialised answer, and the
      effect on the database is the one the request asks for ([handleRequest_serves]).
      While a thread inside [registerUser] is alone with the database the threads are
      linearizable ([threads_linearizable]), and the server that takes its connections in turn is one
      of their schedules ([run_turns_is_a_schedule]); without exclusion two threads can
      hand out one ID, which no sequential server does
      ([overlapping_registrations_not_linearizable]). A connection whose thread runs again
      and again and whose peer keeps up is served and closed, with or without exclusion,
      and with it the answer is the one of a sequential server ([requests_are_answered]).
    - {i The client application} ([AppTheorems], [ClientThreadsTheorems]). Registration and
      the refresh of the users are proved against the server's handlers
      ([registration_end_to_end], [online_users_end_to_end]); a turn of the chat and of
      the message loop does what it is for. The loop over the users follows the database
      through any number of turns ([users_loop_follows_database]), because the buffer
      that it parses whole only fills up; the loop over the messages shows what the library
      reads in the new reply and what longer ones have left behind it
      ([message_loop_reads_old_replies]). Of the threads in every interleaving: where
      the only data race is ([races_are_on_id_to_name]) and what it does
      ([race_loses_a_name]), that they never deadlock ([client_never_deadlocks]), what a
      terminal shows of printable texts that fit its lines ([client_terminal]), what holds of the maps when the lock is free
      ([client_names_agree]), and that an uninterrupted turn is the one of [App]
      ([uninterrupted_turns_agree]).
    - {i The whole system} ([SystemTheorems], [ComposedTheorems]). All threads of server
      and clients together refine the system in which requests are atomic, while a thread
      inside [registerUser] is alone with the database ([composed_refines_system]).
      Invariants of all interleavings under this condition: every name that a client knows
      is that of another client ([composed_clients_know_each_other]), and what it sends is
      addressed to one ([composed_messages_are_addressed]). Of [System], where a
      registration is one step and answers fit the buffers: from every state a
      client can catch up with the registrations ([clients_can_catch_up]), and in every fair
      execution it comes to know everybody who has registered and forgets nobody
      ([registrations_spread]). Without the condition these fail: an overlapping
      registration can overwrite a user. The requests
      the server does not answer leave their threads waiting for ever, and so the client's
      data race does not occur with this server ([unanswered_threads_wait]).
    - {i The sockets} ([Socket]). [sendB_delivers], [receiveB_collects] and
      [connectB_connects_or_retries] are total correctness under a fairness hypothesis on
      the kernel; [sendB_sends_prefix] is safety without it.
    - {i The console} ([Console]). Whatever the interleaving, a terminal shows what was
      written and entered above the prompt and the input, as long as the characters are
      printable and fit its lines ([console_shows_transcript]); a line that wraps is not
      redrawn ([wrapped_line_is_not_redrawn]). [read] returns the edited line, undisturbed
      by writes.
    - {i The address book} ([Tutorial], [GeneratedTheorems]). The person typed is the one
      that is listed ([added_person_is_listed]). The generated messages compute the size
      they serialise to, although it goes through sizes cached in the submessages
      ([book_serialized]); their presence bits implement optional fields
      ([person_accessors_refine]); merging is reading one encoding after the other, and a
      copy has the fields and the bytes of the original ([merge_reads_concatenation]).
    - {i Behaviour to know of.} The remaining theorems pin down what the code does where
      it is not what it means to do: the requests to send and to receive that the server
      application never answers, the waits that never end once the peer has closed, the
      request lost when TCP splits it, the length fields that are too large by a header,
      the responses replayed from an old buffer, the registrations of an empty name.

    ** Fuel and bounds

    [range_for] runs with one unit more than the map has entries, [prompt_phones] with
    one more than the input has bytes, the varints of [Wire] with their ten bytes; these
    are definitions' own choices and the theorems show that they never run out. The loops
    that wait for the network or for valid input take fuel from their caller. The
    theorems on the network ask for more fuel than the bytes to transfer plus the
    [patience] of the kernel, a bound on the consecutive calls that make no progress;
    the theorems on loops that do not end hold of every fuel. The infinite executions are
    functions of the number of the step and have no fuel; what they assume is fairness:
    of the threads, of the lock's owner, and of the peer of a connection. Buffers have the sizes of
    the source (1024 bytes in the server, 1000 in the client) and are of arbitrary size
    in the binary protocol, where the source leaves them to the caller.

    ** What is not modelled

    - Log lines on [cout] and [cerr], [perror] and the sleeps between turns: output or
      timing only. The lines the client prints for its user are modelled.
    - The tests that are commented out, the build files. The code protoc generates for
      [packet.proto] is not in the repository: it is the class of [Packet].
    - The arenas, descriptors, reflection and parse tables of the generated address book
      messages: the runtime library interprets them.
    - Finer interleavings than these: an access to a map is one step, in the client and in
      the server, so what a data race does beyond the order of the accesses, which is
      undefined behaviour, is not there. In the server the lookup of the requesting user
      is one step with the dispatch, and an iterator keeps the entries that were to come
      when it was made; the theorems on the threads exclude a registration meanwhile, but
      for the part of [requests_are_answered] that says that threads return.
    - In [System] and [Composed], packets that do not fit the buffers or do not survive the
      wire or are split, and what an old response leaves in a receive buffer: [App],
      [ServerApp] and [Loops] have them for the exchange of one client. There a connection
      delivers a request and its answer whole, and the calls of [Socket] that the client's
      side makes are one step. Registrations that overlap are in [Threads] and its
      theorems, not in [System] and its. Fairness of [Composed]: [registrations_spread] is about
      [System], where a request is handled in one step, and [requests_are_answered] about
      the threads that handle it. Other programs than this client that connect to the
      server.
    - What a terminal does at its right margin and with characters that are not
      printable.
    - In [Objects], a server that parses the buffer it writes its answers to. *)

From stdpp Require Export prelude gmap list strings pretty.
From coqutil Require Export Byte Word.LittleEndianList.
Export Init.Byte.

(** ** Bytes and byte strings

    A [std::string], a [vector<uint8_t>] and a [vector<char>] are lists of bytes. *)

Abbreviation bytes := (list byte).

#[export] Instance byte_eq_decision : EqDecision byte := Byte.byte_eq_dec.

#[export] Instance byte_countable : Countable byte :=
  inj_countable Byte.to_N Byte.of_N Byte.of_to_N.

(** The bytes of a string literal of the source. *)
Definition str (s : string) : bytes := String.list_byte_of_string s.

(** [std::to_string] and [operator<<] on an integer: its decimal digits. *)
Definition dec (z : Z) : bytes := str (pretty z).

(** ** Machine integers *)

Definition u32 (z : Z) : Prop := (0 ≤ z < 2 ^ 32)%Z.

#[export] Instance u32_dec z : Decision (u32 z) := _.

(** Conversion to a 32-bit unsigned type ([length_t], [user_id_t], [uint32_t]). *)
Definition wrap32 (z : Z) : Z := (z mod 2 ^ 32)%Z.

(** Conversion to [int]: two's complement on 32 bits. *)
Definition sint32 (z : Z) : Z := ((z + 2 ^ 31) mod 2 ^ 32 - 2 ^ 31)%Z.

Lemma wrap32_id z : u32 z → wrap32 z = z.
Proof. unfold u32, wrap32. intros H. by apply Z.mod_small. Qed.

Lemma wrap32_add_l a b : wrap32 (wrap32 a + b) = wrap32 (a + b).
Proof. unfold wrap32. apply Zplus_mod_idemp_l. Qed.

Lemma wrap32_u32 z : u32 (wrap32 z).
Proof. unfold u32, wrap32. apply Z.mod_pos_bound. lia. Qed.

Lemma sint32_id z : (- 2 ^ 31 ≤ z < 2 ^ 31)%Z → sint32 z = z.
Proof. unfold sint32. intros H. rewrite Z.mod_small; lia. Qed.

(** A 32-bit integer in memory, least significant byte first. *)
Definition le32 (z : Z) : bytes := le_split 4 z.

Lemma length_le32 z : length (le32 z) = 4%nat.
Proof. apply length_le_split. Qed.

Lemma le_combine_le32 z : le_combine (le32 z) = wrap32 z.
Proof. unfold le32. by rewrite le_combine_split. Qed.

Lemma le32_wrap32 z : le32 (wrap32 z) = le32 z.
Proof. unfold le32, wrap32. symmetry. apply (le_split_mod z 4). Qed.

(** ** Outcomes of C++ code

    [Oob] is undefined behaviour by an access outside a buffer, [Abort] a failed
    [assert] or an exception nothing catches, and [Blocked] a computation that has consumed the whole script of
    environment answers (system calls, typed characters) without returning. *)

Inductive outcome (A : Type) : Type :=
| Ok (a : A)
| Abort
| Oob
| Blocked.
Arguments Ok {A} a.
Arguments Abort {A}.
Arguments Oob {A}.
Arguments Blocked {A}.

#[export] Instance outcome_ret : MRet outcome := @Ok.
#[export] Instance outcome_bind : MBind outcome := λ A B f m,
  match m with
  | Ok a => f a
  | Abort => Abort
  | Oob => Oob
  | Blocked => Blocked
  end.
#[export] Instance outcome_fmap : FMap outcome := λ A B f m,
  match m with
  | Ok a => Ok (f a)
  | Abort => Abort
  | Oob => Oob
  | Blocked => Blocked
  end.

Definition is_Ok {A} (m : outcome A) : Prop := ∃ a, m = Ok a.

(** [assert(b)] of [<cassert>]. *)
Definition cassert (b : bool) : outcome unit := if b then Ok () else Abort.

Lemma outcome_bind_ok {A B} (f : A → outcome B) m b :
  m ≫= f = Ok b ↔ ∃ a, m = Ok a ∧ f a = Ok b.
Proof. split; [destruct m; naive_solver | by intros (a & -> & ?)]. Qed.

Lemma outcome_bind_assoc {A B C} (f : A → outcome B) (g : B → outcome C) m :
  (m ≫= f) ≫= g = m ≫= (λ x, f x ≫= g).
Proof. by destruct m. Qed.

(** Splits every hypothesis [x ← m; f x = Ok b] into its steps. *)
Ltac inv_ok :=
  repeat match goal with
  | H : _ ≫= _ = Ok _ |- _ =>
      apply outcome_bind_ok in H; destruct H as (? & ? & H)
  | H : (let '(_, _) := ?x in _) = Ok _ |- _ => destruct x; cbn beta iota in H
  | H : Ok _ = Ok _ |- _ => injection H as H
  | H : Oob = Ok _ |- _ => discriminate H
  | H : Abort = Ok _ |- _ => discriminate H
  | H : Blocked = Ok _ |- _ => discriminate H
  | H : cassert ?b = Ok _ |- _ => destruct b eqn:?; simpl in H
  end; simplify_eq/=.

(** A loop [for (x : l) a = f(a, x)] whose body can fail. *)
Fixpoint mfold {A B} (f : A → B → outcome A) (l : list B) (a : A) : outcome A :=
  match l with
  | [] => Ok a
  | x :: l => a' ← f a x; mfold f l a'
  end.

Lemma mfold_app {A B} (f : A → B → outcome A) l1 l2 a :
  mfold f (l1 ++ l2) a = a' ← mfold f l1 a; mfold f l2 a'.
Proof.
  revert a. induction l1 as [|x l1 IH]; intros a; [done|]; simpl.
  rewrite outcome_bind_assoc. destruct (f a x); simpl; auto.
Qed.

(** ** Writing into a buffer through a moving pointer *)

(** A pointer [dest] into a buffer: the buffer and the offset of [dest] in it. *)
Record cursor := Cursor { c_buf : bytes; c_pos : nat }.

Definition splice (buf : bytes) (off : nat) (bs : bytes) : bytes :=
  take off buf ++ bs ++ drop (off + length bs) buf.

(** [memcpy(dest, bs, |bs|); dest += |bs|]. *)
Definition put (bs : bytes) (c : cursor) : outcome cursor :=
  if decide (c_pos c + length bs ≤ length (c_buf c))%nat
  then Ok (Cursor (splice (c_buf c) (c_pos c) bs) (c_pos c + length bs))
  else Oob.

(** [dest += n] without a write. *)
Definition skip (n : nat) (c : cursor) : cursor := Cursor (c_buf c) (c_pos c + n).

(** [dest = &buf[0]]. *)
Definition rewind (c : cursor) : cursor := Cursor (c_buf c) 0.

Lemma length_splice buf off bs :
  (off + length bs ≤ length buf)%nat → length (splice buf off bs) = length buf.
Proof. intros H. unfold splice. rewrite !length_app, length_take, length_drop. lia. Qed.

Lemma splice_splice buf off a b :
  (off ≤ length buf)%nat →
  splice (splice buf off a) (off + length a) b = splice buf off (a ++ b).
Proof.
  intros H. unfold splice.
  rewrite !app_assoc, length_app.
  rewrite take_app_length' by (rewrite length_app, length_take; lia).
  rewrite <- !app_assoc. do 3 f_equal.
  rewrite !drop_app_ge by (rewrite ?length_take; lia).
  rewrite drop_drop, length_take. f_equal. lia.
Qed.

Lemma splice_0 buf bs : splice buf 0 bs = bs ++ drop (length bs) buf.
Proof. done. Qed.

Lemma splice_nil buf off : splice buf off [] = buf.
Proof. unfold splice. simpl. by rewrite Nat.add_0_r, take_drop. Qed.

Lemma put_ok bs c :
  (c_pos c + length bs ≤ length (c_buf c))%nat →
  put bs c = Ok (Cursor (splice (c_buf c) (c_pos c) bs) (c_pos c + length bs)).
Proof. intros. unfold put. by rewrite decide_True. Qed.

Lemma put_oob bs c :
  (length (c_buf c) < c_pos c + length bs)%nat → put bs c = Oob.
Proof. intros. unfold put. rewrite decide_False; [done | lia]. Qed.

Lemma put_inv bs c c' :
  put bs c = Ok c' →
  length (c_buf c') = length (c_buf c) ∧ c_pos c' = (c_pos c + length bs)%nat ∧
  (c_pos c' ≤ length (c_buf c'))%nat.
Proof.
  unfold put. case_decide; intros ?; simplify_eq/=. by rewrite length_splice.
Qed.

Lemma put_bind_ext {A} bs c (f g : cursor → outcome A) :
  (∀ c', (c_pos c' ≤ length (c_buf c'))%nat → f c' = g c') →
  put bs c ≫= f = put bs c ≫= g.
Proof.
  intros Hfg. destruct (put bs c) as [c'| | |] eqn:E; cbn; try done.
  apply Hfg. by apply put_inv in E as (_ & _ & ?).
Qed.

Lemma put_put a b c : put a c ≫= put b = put (a ++ b) c.
Proof.
  destruct (decide (c_pos c + length a ≤ length (c_buf c))%nat) as [Ha|Ha].
  - rewrite put_ok by done. simpl. unfold put. simpl.
    rewrite length_splice by done. rewrite length_app.
    repeat case_decide; try lia; [|done].
    rewrite splice_splice by lia. by rewrite Nat.add_assoc.
  - rewrite !put_oob by (rewrite ?length_app; lia). done.
Qed.

Lemma put_put_k {A} a b c (k : cursor → outcome A) :
  (put a c ≫= λ c', put b c' ≫= k) = put (a ++ b) c ≫= k.
Proof. by rewrite <- put_put, outcome_bind_assoc. Qed.

Lemma put_start bs buf :
  (length bs ≤ length buf)%nat →
  put bs (Cursor buf 0) = Ok (Cursor (bs ++ drop (length bs) buf) (length bs)).
Proof. intros H. by rewrite put_ok. Qed.

Lemma put_nil c : (c_pos c ≤ length (c_buf c))%nat → put [] c = Ok c.
Proof.
  intros H. rewrite put_ok by (simpl; lia). simpl.
  rewrite splice_nil, Nat.add_0_r. by destruct c.
Qed.

(** A loop that writes one record per element writes their concatenation. *)
Lemma mfold_put {A} (enc : A → bytes) l c :
  (c_pos c ≤ length (c_buf c))%nat →
  mfold (λ c x, put (enc x) c) l c = put (concat (map enc l)) c.
Proof.
  revert c. induction l as [|x l IH]; intros c Hc; simpl.
  - by rewrite put_nil.
  - rewrite <- put_put. destruct (put (enc x) c) as [c'| | |] eqn:E; try done.
    apply IH. by apply put_inv in E as (_ & _ & ?).
Qed.

(** Writing a body after a gap of [length hdr] bytes and then the header over the gap. *)
Lemma put_patch hdr body buf :
  (length hdr + length body ≤ length buf)%nat →
  (c ← put body (skip (length hdr) (Cursor buf 0)); put hdr (rewind c))
  = Ok (Cursor (hdr ++ body ++ drop (length hdr + length body) buf) (length hdr)).
Proof.
  intros H. rewrite put_ok by done. simpl. rewrite put_ok; simpl.
  - do 2 f_equal. unfold splice. simpl.
    rewrite drop_app_ge by (rewrite length_take; lia).
    by rewrite length_take, Nat.min_l, Nat.sub_diag by lia.
  - rewrite length_splice by done. lia.
Qed.

Lemma put_patch_oob hdr body buf :
  (length buf < length hdr + length body)%nat →
  (c ← put body (skip (length hdr) (Cursor buf 0)); put hdr (rewind c)) = Oob.
Proof. intros H. by rewrite put_oob. Qed.

(** ** Decimal numbers in text *)

Definition isspace (b : byte) : bool :=
  bool_decide (b ∈ [x20; x09; x0a; x0b; x0c; x0d]).
Definition isdigit (b : byte) : bool :=
  (48 <=? byte.unsigned b)%Z && (byte.unsigned b <=? 57)%Z.

(** The longest prefix whose bytes satisfy [p], and the rest. *)
Fixpoint span (p : byte → bool) (l : bytes) : bytes * bytes :=
  match l with
  | [] => ([], [])
  | b :: l' => if p b then let '(a, r) := span p l' in (b :: a, r) else ([], l)
  end.

Definition number_of (digits : bytes) : Z :=
  foldl (λ n d, n * 10 + (byte.unsigned d - 48))%Z 0%Z digits.

Lemma isdigit_facts b :
  isdigit b = true → isspace b = false ∧ b ≠ x2d ∧ b ≠ x2b ∧ b ≠ x0a.
Proof.
  intros Hb. assert (∀ c, isdigit c = false → b ≠ c) as Hne by (intros c Hc ->; congruence).
  split_and!; try (by apply Hne). apply bool_decide_eq_false_2. intros Hin.
  repeat (apply elem_of_cons in Hin as [->|Hin]; [done|]). by apply not_elem_of_nil in Hin.
Qed.

Lemma span_digits ds rest :
  Forall (λ b, isdigit b = true) ds → span isdigit (ds ++ x0a :: rest) = (ds, x0a :: rest).
Proof. induction 1 as [|b ds Hb Hds IH]; [done|]. cbn. by rewrite Hb, IH. Qed.

Lemma span_all_digits ds : Forall (λ b, isdigit b = true) ds → span isdigit ds = (ds, []).
Proof. induction 1 as [|b ds Hb Hds IH]; [done|]. cbn. by rewrite Hb, IH. Qed.

Lemma number_of_nonneg ds : Forall (λ b, isdigit b = true) ds → (0 ≤ number_of ds)%Z.
Proof.
  unfold number_of. cut (∀ n, 0 ≤ n → Forall (λ b, isdigit b = true) ds →
    0 ≤ foldl (λ n d, n * 10 + (byte.unsigned d - 48)) n ds)%Z; [intros H; by apply H|].
  induction ds as [|b ds IH]; intros n Hn Hds; [done|]. cbn.
  apply Forall_cons in Hds as [Hb Hds]. apply IH; [|done].
  apply andb_true_iff in Hb as [Hb _]. apply Z.leb_le in Hb. lia.
Qed.

(** ** Reading from a buffer through a moving pointer

    A read pointer is the list of the bytes from it to the end of the buffer. *)

Definition rd (n : Z) (p : bytes) : outcome (bytes * bytes) :=
  if (Z.of_nat (length p) <? n)%Z then Oob
  else Ok (take (Z.to_nat n) p, drop (Z.to_nat n) p).

Definition rd32 (p : bytes) : outcome (Z * bytes) :=
  '(b, p) ← rd 4 p; Ok (le_combine b, p).

Definition rd8 (p : bytes) : outcome (byte * bytes) :=
  match p with
  | [] => Oob
  | b :: p => Ok (b, p)
  end.

Arguments put : simpl never.
Arguments le32 : simpl never.
Arguments rd : simpl never.
Arguments rd32 : simpl never.
Arguments splice : simpl never.

(** The pointer [&buf[n]] used for reading. *)
Definition at_offset (n : nat) (buf : bytes) : bytes := drop n buf.

Lemma rd_app n a b : n = Z.of_nat (length a) → rd n (a ++ b) = Ok (a, b).
Proof.
  intros ->. unfold rd. rewrite length_app.
  rewrite (proj2 (Z.ltb_ge _ _)) by lia.
  by rewrite Nat2Z.id, take_app_length, drop_app_length.
Qed.

Lemma rd_all n a : n = Z.of_nat (length a) → rd n a = Ok (a, []).
Proof. intros ->. rewrite <- (app_nil_r a) at 2. by apply rd_app. Qed.

Lemma rd32_le32 z p : rd32 (le32 z ++ p) = Ok (wrap32 z, p).
Proof.
  unfold rd32. rewrite rd_app by (by rewrite length_le32). simpl.
  by rewrite le_combine_le32.
Qed.

Lemma rd_ok n p a q :
  (0 ≤ n)%Z → rd n p = Ok (a, q) → p = a ++ q ∧ Z.of_nat (length a) = n.
Proof.
  intros Hn. unfold rd. case_match eqn:E; intros ?; simplify_eq.
  apply Z.ltb_ge in E. rewrite take_drop. split; [done|].
  rewrite length_take. lia.
Qed.

Lemma rd32_u32 p z q : rd32 p = Ok (z, q) → u32 z.
Proof.
  unfold rd32. destruct (rd 4 p) as [[b r]| | |] eqn:E; cbn; [|done..].
  intros ?; simplify_eq. apply rd_ok in E as [_ Hl]; [|lia].
  pose proof (le_combine_bound b). unfold u32.
  replace (2 ^ 32)%Z with (2 ^ (8 * Z.of_nat (length b)))%Z by (by rewrite Hl). done.
Qed.

(** ** Unordered maps

    A [std::unordered_map] iterates over its entries in an order the standard
    leaves open: a permutation of the entries, supplied by an instance. *)

Class UMapOrder (K V : Type) `{Countable K} := {
  umap_seq : gmap K V → list (K * V);
  umap_seq_perm m : umap_seq m ≡ₚ map_to_list m;
}.

(** One possible order, used on concrete inputs. *)
Definition canonical_order {K V} `{Countable K} : UMapOrder K V :=
  {| umap_seq := map_to_list; umap_seq_perm m := reflexivity _ |}.

Section umap.
  Context {K V : Type} `{Countable K} {ord : UMapOrder K V}.
  Implicit Types m : gmap K V.

Lemma elem_of_umap_seq m k v : (k, v) ∈ umap_seq m ↔ m !! k = Some v.
Proof. rewrite umap_seq_perm. apply elem_of_map_to_list. Qed.

Lemma NoDup_umap_seq_fst m : NoDup (umap_seq m).*1.
Proof. rewrite umap_seq_perm. apply NoDup_fst_map_to_list. Qed.

Lemma length_umap_seq m : length (umap_seq m) = size m.
Proof. by rewrite umap_seq_perm, length_map_to_list. Qed.

Lemma list_to_map_umap_seq m : list_to_map (umap_seq m) = m.
Proof.
  rewrite <- (list_to_map_to_list m) at 2.
  apply list_to_map_proper; [apply NoDup_umap_seq_fst | apply umap_seq_perm].
Qed.
End umap.

Create HintDb chat discriminated.
Create Rewrite HintDb chat_len.
#[export] Hint Resolve wrap32_u32 length_le32 : chat.
#[export] Hint Rewrite length_le32 @length_cons @length_nil @length_app @length_drop @length_take : chat_len.

(** Normalises the lengths of byte strings in the goal and closes it with [lia]. *)
Ltac len :=
  autorewrite with chat_len in *; autounfold with chat in *; cbn [length app c_buf c_pos skip rewind] in *; lia.

(** ** Infinite executions *)

(** What holds again and again. *)
Definition again (P : nat → Prop) : Prop := ∀ m, ∃ m', (m ≤ m')%nat ∧ P m'.

Lemma lex_ind (P : nat → nat → Prop) :
  (∀ a b, (∀ a' b', (a' < a ∨ a' = a ∧ b' < b)%nat → P a' b') → P a b) → ∀ a b, P a b.
Proof.
  intros Hstep a. induction (lt_wf a) as [a _ IHa]. intros b. induction (lt_wf b) as [b _ IHb].
  apply Hstep. intros a' b' [Ha|[-> Hb]]; auto.
Qed.
