(* ===== verification/Common.v ===== *)
(** Data shared by the client and the server ([src/common/common.h]): the packet
    header and its types, the status of a send, the messages and the data kept per
    user, with the byte layout of the packed header. *)

From S2P Require Import Prelude.

(** ** [enum class PacketType : uint8_t]

    The underlying type is fixed, so an object of the enumeration can hold any byte:
    [kOtherType b] is a value without an enumerator. *)
Inductive PacketType :=
| kRequestRegister
| kRequestUsers
| kRequestSend
| kRequestRecv
| kRespRegister
| kRespUsers
| kRespSend
| kRespRecv
| kOtherType (b : byte).

#[export] Instance PacketType_eq_decision : EqDecision PacketType.
Proof. solve_decision. Defined.

Definition byte_of_PacketType (t : PacketType) : byte :=
  match t with
  | kRequestRegister => x00
  | kRequestUsers => x01
  | kRequestSend => x02
  | kRequestRecv => x03
  | kRespRegister => xf0
  | kRespUsers => xf1
  | kRespSend => xf2
  | kRespRecv => xf3
  | kOtherType b => b
  end.

Definition PacketType_of_byte (b : byte) : PacketType :=
  match b with
  | x00 => kRequestRegister
  | x01 => kRequestUsers
  | x02 => kRequestSend
  | x03 => kRequestRecv
  | xf0 => kRespRegister
  | xf1 => kRespUsers
  | xf2 => kRespSend
  | xf3 => kRespRecv
  | _ => kOtherType b
  end.

(** ** [enum class SendStatus : uint8_t] *)
Inductive SendStatus :=
| kSuccess
| kErrSrcId
| kErrTrgtId
| kOtherStatus (b : byte).

#[export] Instance SendStatus_eq_decision : EqDecision SendStatus.
Proof. solve_decision. Defined.

(** [static_cast<SendStatus>(b)]. *)
Definition SendStatus_of_byte (b : byte) : SendStatus :=
  match b with
  | x00 => kSuccess
  | x01 => kErrSrcId
  | x02 => kErrTrgtId
  | _ => kOtherStatus b
  end.

Definition byte_of_SendStatus (s : SendStatus) : byte :=
  match s with
  | kSuccess => x00
  | kErrSrcId => x01
  | kErrTrgtId => x02
  | kOtherStatus b => b
  end.

(** ** [struct __attribute__((packed)) Header] *)
Record Header := mkHeader { type : PacketType; len : Z }.

Definition sizeof_Header : nat := 5.
Definition sizeof_user_id_t : nat := 4.

(** The object representation of a header: the type byte, then the length. *)
Definition header_bytes (h : Header) : bytes :=
  byte_of_PacketType (type h) :: le32 (len h).

(** [*reinterpret_cast<Header*>(p)], with the pointer moved past the header. *)
Definition rd_header (p : bytes) : outcome (Header * bytes) :=
  '(t, p) ← rd8 p;
  '(l, p) ← rd32 p;
  Ok (mkHeader (PacketType_of_byte t) l, p).

(** Stores all message details to be forwarded to the recipient of the message. *)
Record Msg := mkMsg { sender_id : Z; msg : bytes }.

#[export] Instance Msg_eq_decision : EqDecision Msg.
Proof. solve_decision. Defined.

(** Data persisted for each user. *)
Record UserMetadata := mkUserMetadata { username : bytes; msg_q : list Msg }.

#[export] Instance UserMetadata_eq_decision : EqDecision UserMetadata.
Proof. solve_decision. Defined.

Definition kReqUsersPayloadLen : Z := 4.
Definition kReqSendMinPayloadLen : Z := 8.
Definition kReqRecvPayloadLen : Z := 4.

#[export] Hint Unfold sizeof_Header sizeof_user_id_t kReqUsersPayloadLen
  kReqSendMinPayloadLen kReqRecvPayloadLen : chat.

(** ** Properties of the encodings *)

Lemma PacketType_of_byte_of_PacketType b :
  byte_of_PacketType (PacketType_of_byte b) = b.
Proof. by destruct b. Qed.

Lemma byte_of_SendStatus_of_byte b : byte_of_SendStatus (SendStatus_of_byte b) = b.
Proof. by destruct b. Qed.

(** A value of the enumeration is canonical when it is not an enumerator in disguise. *)
Definition canonical_type (t : PacketType) : Prop :=
  PacketType_of_byte (byte_of_PacketType t) = t.

Lemma length_header_bytes h : length (header_bytes h) = sizeof_Header.
Proof. unfold header_bytes. by rewrite length_cons, length_le32. Qed.
#[export] Hint Rewrite length_header_bytes : chat_len.
#[export] Hint Resolve length_header_bytes : chat.

Lemma rd_header_header_bytes h p :
  canonical_type (type h) →
  rd_header (header_bytes h ++ p) = Ok (mkHeader (type h) (wrap32 (len h)), p).
Proof.
  intros Ht. unfold rd_header, header_bytes. cbn. rewrite rd32_le32. cbn.
  by rewrite Ht.
Qed.

Lemma rd_header_oob p : (length p < sizeof_Header)%nat → rd_header p = Oob.
Proof.
  intros H. unfold rd_header. destruct p as [|b p]; [done|]; simpl in *.
  unfold rd32, rd. rewrite (proj2 (Z.ltb_lt _ _)); [done|].
  unfold sizeof_Header in H. lia.
Qed.
