(* ===== verification/ChatSpec.v ===== *)
(** What a chat service promises, independently of how it is implemented.

    The state of the service is the history of the requests it has accepted. User IDs
    are positions in the order of registration; the inbox of a user holds the messages
    sent to it since its last receive. [ChatService] is the interface of a service as a
    client sees it, [ChatServiceLaws] states that every answer is the one the history
    determines, and the theorems below hold of every service that satisfies it:
    messages are delivered exactly once and in order. *)

From S2P Require Import Prelude.
From S2P Require Import Common.

(** ** Histories *)

Inductive event :=
| EvRegister (name : bytes)
| EvSend (src tgt : Z) (m : bytes)
| EvRecv (id : Z) (ms : list Msg).

Abbreviation history := (list event).

(** The names in the order of their registration. *)
Definition registered (h : history) : list bytes :=
  omap (λ e, match e with EvRegister name => Some name | _ => None end) h.

(** The name registered under an ID. *)
Definition name_of (id : Z) (h : history) : option bytes :=
  if decide (0 ≤ id)%Z then registered h !! Z.to_nat id else None.

Definition step_pending (id : Z) (q : list Msg) (e : event) : list Msg :=
  match e with
  | EvSend src tgt m => if decide (tgt = id) then q ++ [mkMsg src m] else q
  | EvRecv id' _ => if decide (id' = id) then [] else q
  | EvRegister _ => q
  end.

(** The inbox of a user. *)
Definition pending (id : Z) (h : history) : list Msg := foldl (step_pending id) [] h.

(** All that was ever sent to a user, and all that it ever received. *)
Definition sent_to (id : Z) (h : history) : list Msg :=
  omap (λ e, match e with
             | EvSend src tgt m => if decide (tgt = id) then Some (mkMsg src m) else None
             | _ => None
             end) h.

Definition received_by (id : Z) (h : history) : list Msg :=
  concat (omap (λ e, match e with
                     | EvRecv id' ms => if decide (id' = id) then Some ms else None
                     | _ => None
                     end) h).

(** An event that can follow a history. *)
Definition event_ok (h : history) (e : event) : Prop :=
  match e with
  | EvRegister name => u32 (Z.of_nat (length name))
  | EvSend src tgt m =>
      is_Some (name_of src h) ∧ is_Some (name_of tgt h) ∧
      u32 src ∧ u32 (Z.of_nat (length m))
  | EvRecv id ms => ms = pending id h
  end.

Inductive valid : history → Prop :=
| valid_nil : valid []
| valid_snoc h e : valid h → event_ok h e → valid (h ++ [e]).

(** ** Requests and answers *)

Inductive request :=
| RRegister (name : bytes)
| RUsers (id : Z)
| RSend (src tgt : Z) (m : bytes)
| RRecv (id : Z).

(** Every answer carries the boolean the client's handler returns. *)
Inductive response :=
| PRegister (ok : bool) (id : Z)
| PUsers (ok : bool) (name_to_id : gmap bytes Z)
| PSend (ok : bool) (st : SendStatus)
| PRecv (ok : bool) (ms : list Msg).

(** The map of online users a user may be given: it has the name of every other user,
    each with the ID of a user of that name. *)
Definition users_spec (id : Z) (h : history) (m : gmap bytes Z) : Prop :=
  (∀ name k, m !! name = Some k → k ≠ id ∧ name_of k h = Some name) ∧
  (∀ k name, k ≠ id → name_of k h = Some name → is_Some (m !! name)).

(** The status of a send: the source is checked before the target. *)
Definition status_spec (src tgt : Z) (h : history) : SendStatus :=
  match name_of src h, name_of tgt h with
  | None, _ => kErrSrcId
  | Some _, None => kErrTrgtId
  | Some _, Some _ => kSuccess
  end.

(** The answers a history allows. *)
Definition answer_spec (h : history) (r : request) (p : response) : Prop :=
  match r, p with
  | RRegister _, PRegister ok id => ok = true ∧ id = Z.of_nat (length (registered h))
  | RUsers id, PUsers ok m =>
      match name_of id h with
      | Some _ => ok = true ∧ users_spec id h m
      | None => ok = false ∧ m = ∅
      end
  | RSend src tgt _, PSend ok st => ok = true ∧ st = status_spec src tgt h
  | RRecv id, PRecv ok ms => ok = true ∧ ms = pending id h
  | _, _ => False
  end.

(** What a request and its answer add to the history. *)
Definition log (r : request) (p : response) : history :=
  match r, p with
  | RRegister name, PRegister _ _ => [EvRegister name]
  | RSend src tgt m, PSend _ kSuccess => [EvSend src tgt m]
  | RRecv id, PRecv _ ms => [EvRecv id ms]
  | _, _ => []
  end.

(** The requests a client may make: IDs and lengths fit their 32-bit fields, a message
    is not empty, only a registered user receives, and fewer than 2^32 users register. *)
Definition request_ok (h : history) (r : request) : Prop :=
  match r with
  | RRegister name =>
      u32 (Z.of_nat (length name)) ∧ (Z.of_nat (length (registered h)) + 1 < 2 ^ 32)%Z
  | RUsers id => u32 id
  | RSend src tgt m => u32 src ∧ u32 tgt ∧ m ≠ [] ∧ u32 (8 + Z.of_nat (length m))
  | RRecv id => is_Some (name_of id h)
  end.

#[export] Instance request_ok_dec h r : Decision (request_ok h r).
Proof. destruct r; cbn; apply _. Defined.

(** Every request of a sequence is one the client may make when its turn comes. *)
Fixpoint requests_ok (h : history) (rs : list request) (ps : list response) : Prop :=
  match rs, ps with
  | r :: rs, p :: ps => request_ok h r ∧ requests_ok (h ++ log r p) rs ps
  | _, _ => True
  end.

#[export] Instance requests_ok_dec h rs ps : Decision (requests_ok h rs ps).
Proof. revert h ps. induction rs; intros h [|p ps]; cbn; apply _. Defined.

(** ** The interface *)

Class ChatService (S : Type) := {
  handle : request → S → outcome (response * S);
}.

Class ChatServiceLaws (S : Type) `{ChatService S} := {
  models : history → S → Prop;
  models_valid h s : models h s → valid h;
  (** A request is refused for lack of buffer space or answered as the history says. *)
  handle_refines h s r :
    models h s → request_ok h r →
    handle r s = Oob ∨
    ∃ p s', handle r s = Ok (p, s') ∧ answer_spec h r p ∧ models (h ++ log r p) s';
}.

(** ** Consequences for histories *)

Lemma pending_snoc id h e : pending id (h ++ [e]) = step_pending id (pending id h) e.
Proof. unfold pending. by rewrite foldl_app. Qed.

Lemma registered_app h1 h2 : registered (h1 ++ h2) = registered h1 ++ registered h2.
Proof. apply omap_app. Qed.

Lemma sent_to_app id h1 h2 : sent_to id (h1 ++ h2) = sent_to id h1 ++ sent_to id h2.
Proof. apply omap_app. Qed.

Lemma received_by_app id h1 h2 :
  received_by id (h1 ++ h2) = received_by id h1 ++ received_by id h2.
Proof. unfold received_by. by rewrite omap_app, concat_app. Qed.

Lemma valid_snoc_inv h e : valid (h ++ [e]) → valid h ∧ event_ok h e.
Proof.
  intros Hv. inversion Hv as [E|h' e' Hv' He E].
  - by destruct h.
  - by apply app_inj_tail in E as [-> ->].
Qed.

(** What was sent is what was received followed by what is still pending. *)
Lemma exactly_once_snoc id h e :
  (∀ id' ms, e = EvRecv id' ms → ms = pending id' h) →
  sent_to id h = received_by id h ++ pending id h →
  sent_to id (h ++ [e]) = received_by id (h ++ [e]) ++ pending id (h ++ [e]).
Proof.
  intros He IH. rewrite sent_to_app, received_by_app, pending_snoc, IH.
  destruct e as [name|src tgt m|id' ms]; cbn in *.
  - by rewrite !app_nil_r.
  - unfold received_by. cbn. case_decide; cbn; by rewrite app_nil_r, <- ?app_assoc, ?app_nil_r.
  - rewrite (He id' ms eq_refl). unfold received_by. cbn.
    case_decide; subst; cbn; by rewrite ?app_nil_r.
Qed.

Lemma valid_exactly_once id h :
  valid h → sent_to id h = received_by id h ++ pending id h.
Proof.
  induction 1 as [|h e Hv IH He]; [done|]. apply exactly_once_snoc; [|done].
  by intros id' ms ->.
Qed.

Lemma name_of_app_Some id h1 h2 name :
  name_of id h1 = Some name → name_of id (h1 ++ h2) = Some name.
Proof.
  unfold name_of. case_decide; [|done]. rewrite registered_app. apply lookup_app_l_Some.
Qed.

Lemma name_of_lt id h : is_Some (name_of id h) ↔ (0 ≤ id < Z.of_nat (length (registered h)))%Z.
Proof.
  unfold name_of. case_decide; [rewrite lookup_lt_is_Some; lia|].
  split; [by intros []|lia].
Qed.

Lemma pending_In h id m :
  valid h → m ∈ pending id h →
  u32 (sender_id m) ∧ u32 (Z.of_nat (length (msg m))) ∧ is_Some (name_of (sender_id m) h).
Proof.
  intros Hv Hin. cut (∃ h1 h2, h = h1 ++ h2 ∧ u32 (sender_id m) ∧
    u32 (Z.of_nat (length (msg m))) ∧ is_Some (name_of (sender_id m) h1)).
  { intros (h1 & h2 & -> & ? & ? & [n Hn]). split_and!; [done..|].
    exists n. by apply name_of_app_Some. }
  assert (m ∈ sent_to id h) as Hs.
  { rewrite valid_exactly_once by done. apply elem_of_app. auto. }
  clear Hin. induction Hv as [|h e Hv IH He]; [by apply not_elem_of_nil in Hs|].
  rewrite sent_to_app in Hs. apply elem_of_app in Hs as [Hs|Hs].
  - destruct (IH Hs) as (h1 & h2 & -> & ?). exists h1, (h2 ++ [e]). by rewrite app_assoc.
  - exists h, [e]. split; [done|]. destruct e; cbn in Hs; try by apply not_elem_of_nil in Hs.
    case_decide; [|by apply not_elem_of_nil in Hs].
    apply list_elem_of_singleton in Hs as ->. cbn in *. intuition.
Qed.

(** ** Consequences for every service *)

Section service.
  Context {S : Type} `{ChatServiceLaws S}.

(** A sequence of requests, the answers and the last state. *)
Fixpoint serve (rs : list request) (s : S) : outcome (list response * S) :=
  match rs with
  | [] => Ok ([], s)
  | r :: rs =>
      '(p, s) ← handle r s;
      '(ps, s) ← serve rs s;
      Ok (p :: ps, s)
  end.

(** The history a sequence of requests and answers adds. *)
Definition log_all (rs : list request) (ps : list response) : history :=
  concat (zip_with log rs ps).

Lemma serve_models h s rs ps s' :
  models h s → serve rs s = Ok (ps, s') → requests_ok h rs ps →
  models (h ++ log_all rs ps) s'.
Proof.
  revert h s ps. induction rs as [|r rs IH]; intros h s ps Hm Hs Hok; cbn in Hs.
  { inv_ok. unfold log_all. cbn. by rewrite app_nil_r. }
  inv_ok. destruct Hok as [Hr Hok].
  destruct (handle_refines h s r Hm Hr) as [?|(p & s1 & Hh & _ & Hm')]; [congruence|].
  rewrite Hh in *; simplify_eq. unfold log_all. cbn. rewrite app_assoc. eapply IH; eauto.
Qed.

(** The messages a sequence of answers delivers to a user. *)
Definition delivered (id : Z) (rs : list request) (ps : list response) : list Msg :=
  received_by id (log_all rs ps).

(** The messages for a user whose sends a sequence of answers acknowledged. *)
Definition acknowledged (id : Z) (rs : list request) (ps : list response) : list Msg :=
  sent_to id (log_all rs ps).

Lemma serve_exactly_once id s rs ps s' :
  models [] s → serve rs s = Ok (ps, s') → requests_ok [] rs ps →
  acknowledged id rs ps = delivered id rs ps ++ pending id (log_all rs ps) ∧
  models (log_all rs ps) s'.
Proof.
  intros Hm Hs Hok. pose proof (serve_models [] s rs ps s' Hm Hs Hok) as Hm'.
  split; [|done]. apply valid_exactly_once. by apply models_valid in Hm'.
Qed.

End service.
