(* ===== verification/Database.v ===== *)
(** The in-memory user database ([src/server/database.h], [src/server/database.cpp]):
    the map from user IDs to their metadata and the next ID to hand out, its
    operations, its iterator, and the invariant that ties the set of registered IDs to
    the number of registrations, wrap-around of the 32-bit counter included. *)

From S2P Require Import Prelude.
From S2P Require Import Common.

(** ** State and operations *)

Record Database := mkDatabase {
  next_id_ : Z;
  user_map_ : gmap Z UserMetadata;
}.

(** [Database(){}], the state of the singleton when [getInstance] first runs. *)
Definition Database_init : Database := mkDatabase 0 ∅.

Definition registerUser (name : bytes) (db : Database) : Z * Database :=
  (next_id_ db,
   mkDatabase (wrap32 (next_id_ db + 1))
              (<[next_id_ db := mkUserMetadata name []]> (user_map_ db))).

Definition userExists (id : Z) (db : Database) : bool :=
  bool_decide (is_Some (user_map_ db !! id)).

Definition getNumUsers (db : Database) : Z :=
  wrap32 (Z.of_nat (size (user_map_ db))).

(** [UserMetadata()]. *)
Definition UserMetadata_default : UserMetadata := mkUserMetadata [] [].

(** [user_map_[id]]: a missing entry is inserted with a default value. *)
Definition db_index (id : Z) (db : Database) : UserMetadata * Database :=
  match user_map_ db !! id with
  | Some u => (u, db)
  | None => (UserMetadata_default,
             mkDatabase (next_id_ db) (<[id := UserMetadata_default]> (user_map_ db)))
  end.

(** A mutation of the object [user_map_[id]] refers to. *)
Definition db_modify (id : Z) (f : UserMetadata → UserMetadata) (db : Database) : Database :=
  let '(u, db) := db_index id db in
  mkDatabase (next_id_ db) (<[id := f u]> (user_map_ db)).

Definition push_back (m : Msg) (u : UserMetadata) : UserMetadata :=
  mkUserMetadata (username u) (msg_q u ++ [m]).

Definition clear_q (u : UserMetadata) : UserMetadata := mkUserMetadata (username u) [].

Definition queueMsg (recepient_id : Z) (m : Msg) (db : Database) : bool * Database :=
  if negb (userExists recepient_id db) then (false, db)
  else (true, db_modify recepient_id (push_back m) db).

Definition getUsername (id : Z) (db : Database) : bytes * Database :=
  if bool_decide (user_map_ db !! id ≠ user_map_ db !! id)
  then let '(u, db) := db_index id db in (username u, db)
  else ([], db).

(** ** Iteration *)

Section iteration.
  Context {ord : UMapOrder Z UserMetadata}.

(** A forward iterator: the entries from the current one to the last. *)
Record ConstIterator := mkConstIterator { it_ : list (Z * UserMetadata) }.

Definition db_begin (db : Database) : ConstIterator :=
  mkConstIterator (umap_seq (user_map_ db)).
Definition db_end (db : Database) : ConstIterator := mkConstIterator [].

(** [operator*]; past the last entry it is undefined. *)
Definition it_deref (it : ConstIterator) : outcome (Z * UserMetadata) :=
  match it_ it with
  | [] => Oob
  | x :: _ => Ok x
  end.

(** [operator++]. *)
Definition it_next (it : ConstIterator) : ConstIterator := mkConstIterator (tail (it_ it)).

(** [operator!=]: two iterators into one map differ when what remains differs. *)
Definition it_neq (it other : ConstIterator) : bool :=
  negb (bool_decide (length (it_ other) = length (it_ it))).

(** [for(auto &it : db) body]. *)
Fixpoint range_for {A} (fuel : nat) (it e : ConstIterator)
    (body : A → Z * UserMetadata → outcome A) (a : A) : outcome A :=
  match fuel with
  | O => Blocked
  | S fuel =>
      if it_neq it e then
        x ← it_deref it;
        a ← body a x;
        range_for fuel (it_next it) e body a
      else Ok a
  end.

Definition for_db {A} (db : Database) (body : A → Z * UserMetadata → outcome A) (a : A) :
    outcome A :=
  range_for (S (size (user_map_ db))) (db_begin db) (db_end db) body a.

(** [Database::print]: the text written to the standard output. [msg_count] is never
    incremented by the source. *)
Definition print_msg (msg_count : nat) (m : Msg) : bytes :=
  str "Message #" ++ dec (Z.of_nat msg_count) ++ str ": " ++ [x0a] ++
  str "Sender ID: " ++ dec (sender_id m) ++ [x0a] ++
  str "Message: " ++ msg m ++ [x0a] ++ [x0a].

Definition print_group (group : Z * UserMetadata) : bytes :=
  str "User ID: " ++ dec group.1 ++ [x0a] ++
  str "Username : " ++ username group.2 ++ [x0a] ++
  concat (map (print_msg 1) (msg_q group.2)) ++
  str "--------------------------------" ++ [x0a].

Definition print (db : Database) : bytes :=
  concat (map print_group (umap_seq (user_map_ db))).

(** ** Iterating visits every entry once and terminates *)

Lemma range_for_spec {A} (body : A → Z * UserMetadata → outcome A) l fuel a :
  (length l < fuel)%nat →
  range_for fuel (mkConstIterator l) (mkConstIterator []) body a = mfold body l a.
Proof.
  revert fuel a. induction l as [|x l IH]; intros [|fuel] a Hf; simpl in *; try lia; [done|].
  destruct (body a x); try done. apply IH. lia.
Qed.

Lemma for_db_spec {A} db (body : A → Z * UserMetadata → outcome A) a :
  for_db db body a = mfold body (umap_seq (user_map_ db)) a.
Proof. apply range_for_spec. rewrite length_umap_seq. lia. Qed.

End iteration.

Arguments for_db : simpl never.

(** ** Algebra of the operations *)

Lemma userExists_true id db : userExists id db = true ↔ is_Some (user_map_ db !! id).
Proof. unfold userExists. by rewrite bool_decide_eq_true. Qed.

Lemma userExists_false id db : userExists id db = false ↔ user_map_ db !! id = None.
Proof. unfold userExists. by rewrite bool_decide_eq_false, eq_None_not_Some. Qed.

Lemma db_index_present id u db :
  user_map_ db !! id = Some u → db_index id db = (u, db).
Proof. unfold db_index. by intros ->. Qed.

Lemma db_modify_present id u f db :
  user_map_ db !! id = Some u →
  db_modify id f db = mkDatabase (next_id_ db) (<[id := f u]> (user_map_ db)).
Proof. intros H. unfold db_modify. by rewrite (db_index_present id u). Qed.

Lemma queueMsg_present id u m db :
  user_map_ db !! id = Some u →
  queueMsg id m db =
    (true, mkDatabase (next_id_ db) (<[id := push_back m u]> (user_map_ db))).
Proof.
  intros H. unfold queueMsg. rewrite (proj2 (userExists_true id db)) by eauto. simpl.
  by rewrite (db_modify_present id u).
Qed.

Lemma queueMsg_absent id m db :
  user_map_ db !! id = None → queueMsg id m db = (false, db).
Proof. intros H. unfold queueMsg. by rewrite (proj2 (userExists_false id db)). Qed.

(** ** The invariant

    After [n] registrations the counter is [n] modulo 2^32 and the registered IDs are
    exactly the numbers below [n], or all the 32-bit numbers once [n] reaches 2^32. *)
Record db_inv (n : Z) (db : Database) : Prop := {
  inv_n : (0 ≤ n)%Z;
  inv_next : next_id_ db = wrap32 n;
  inv_dom id : is_Some (user_map_ db !! id) ↔ (0 ≤ id < n `min` 2 ^ 32)%Z;
}.

Lemma db_inv_init : db_inv 0 Database_init.
Proof.
  split; [lia|done|]. intros id. simpl. rewrite lookup_empty. split; [by intros []|lia].
Qed.

Lemma db_inv_insert_existing n db id u :
  db_inv n db → is_Some (user_map_ db !! id) →
  db_inv n (mkDatabase (next_id_ db) (<[id := u]> (user_map_ db))).
Proof.
  intros [Hn Hnext Hdom] Hid. split; simpl; [done..|]. intros id'.
  rewrite <- Hdom. destruct (decide (id = id')) as [->|]; simplify_map_eq; [|done].
  split; eauto.
Qed.

Lemma db_inv_modify n db id f :
  db_inv n db → is_Some (user_map_ db !! id) → db_inv n (db_modify id f db).
Proof.
  intros Hinv [u Hu]. rewrite (db_modify_present _ u) by done.
  apply db_inv_insert_existing; eauto.
Qed.

Lemma db_inv_register n db name :
  db_inv n db → db_inv (n + 1) (registerUser name db).2.
Proof.
  intros [Hn Hnext Hdom]. split; simpl; [lia| |].
  - rewrite Hnext. unfold wrap32. by rewrite Zplus_mod_idemp_l.
  - intros id. rewrite Hnext. unfold wrap32.
    pose proof (Z.mod_pos_bound n (2 ^ 32) ltac:(lia)).
    destruct (decide (n < 2 ^ 32)%Z) as [Hlt|Hge].
    + rewrite Z.mod_small by lia.
      destruct (decide (n = id)) as [->|]; simplify_map_eq; [split; [lia|eauto]|].
      rewrite Hdom. lia.
    + destruct (decide (n `mod` 2 ^ 32 = id)%Z) as [<-|]; simplify_map_eq; [split; [lia|eauto]|].
      rewrite Hdom. lia.
Qed.

Lemma db_inv_queueMsg n db id m : db_inv n db → db_inv n (queueMsg id m db).2.
Proof.
  intros Hinv. destruct (user_map_ db !! id) as [u|] eqn:E.
  - rewrite (queueMsg_present _ u) by done. apply db_inv_insert_existing; eauto.
  - by rewrite queueMsg_absent.
Qed.

Lemma db_inv_u32 n db id : db_inv n db → is_Some (user_map_ db !! id) → u32 id.
Proof. intros Hinv Hid%(inv_dom _ _ Hinv). unfold u32. lia. Qed.

Lemma db_inv_fresh n db :
  db_inv n db → (n < 2 ^ 32)%Z → user_map_ db !! next_id_ db = None.
Proof.
  intros Hinv Hn. apply eq_None_not_Some. rewrite (inv_dom _ _ Hinv), (inv_next _ _ Hinv).
  pose proof (inv_n _ _ Hinv). rewrite wrap32_id; unfold u32; lia.
Qed.

Lemma db_inv_size n db :
  db_inv n db → Z.of_nat (size (user_map_ db)) = (n `min` 2 ^ 32)%Z.
Proof.
  intros Hinv.
  assert (dom (user_map_ db) = list_to_set (seqZ 0 (n `min` 2 ^ 32))) as Hd.
  { apply set_eq. intros id. rewrite elem_of_dom, (inv_dom _ _ Hinv).
    rewrite elem_of_list_to_set, elem_of_seqZ. lia. }
  rewrite <- size_dom, Hd, size_list_to_set by apply NoDup_seqZ.
  pose proof (inv_n _ _ Hinv). rewrite length_seqZ. lia.
Qed.
