(* ===== verification/Packet.v ===== *)
(** The protobuf messages of [src/common/packet.proto] and the interface of the
    protobuf library the client and the server call.

    Every field of the schema is [optional] or [repeated]: an optional field is an
    [option], [has_x()] is [is_some], [x()] reads the field or its default value, and
    [mutable_x()] creates an absent submessage. The encoder and the parser are the
    library's: they are the members of the class [Protobuf], and what the callers rely
    on is the class [ProtobufLaws]. *)

From S2P Require Import Prelude.

(** ** The schema *)

(** [mcc.Header.PacketType]; proto3 enumerations are open, [PT_UNKNOWN v] is a number
    the schema does not name. *)
Inductive mcc_PacketType :=
| PACKET_TYPE_REQUEST_REGISTER
| PACKET_TYPE_REQUEST_USERS
| PACKET_TYPE_REQUEST_SEND
| PACKET_TYPE_REQUEST_RECV
| PACKET_TYPE_RESP_REGISTER
| PACKET_TYPE_RESP_USERS
| PACKET_TYPE_RESP_SEND
| PACKET_TYPE_RESP_RECV
| PT_UNKNOWN (v : Z).

#[export] Instance mcc_PacketType_eq_decision : EqDecision mcc_PacketType.
Proof. solve_decision. Defined.

Definition PacketType_number (t : mcc_PacketType) : Z :=
  match t with
  | PACKET_TYPE_REQUEST_REGISTER => 0
  | PACKET_TYPE_REQUEST_USERS => 1
  | PACKET_TYPE_REQUEST_SEND => 2
  | PACKET_TYPE_REQUEST_RECV => 3
  | PACKET_TYPE_RESP_REGISTER => 4
  | PACKET_TYPE_RESP_USERS => 5
  | PACKET_TYPE_RESP_SEND => 6
  | PACKET_TYPE_RESP_RECV => 7
  | PT_UNKNOWN v => v
  end.

Record OnlineUser := mkOnlineUser { ou_user_id : option Z; ou_username : option bytes }.
Record mcc_Header := mkHdr { packet_type : option mcc_PacketType }.
Record UserMessage := mkUserMessage { um_user_id : option Z; um_message : option bytes }.
Record RequestRegister := mkRequestRegister { rr_username : option bytes }.
Record RequestUsers := mkRequestUsers { ru_requestor_id : option Z }.
Record RequestSend := mkRequestSend {
  rs_source_id : option Z; rs_target_id : option Z; rs_message : option bytes }.
Record RequestRecv := mkRequestRecv { rv_requestor_id : option Z }.
Record RespRegister := mkRespRegister {
  pr_resp_value : option Z; pr_assigned_id : option Z }.
Record RespUsers := mkRespUsers {
  pu_resp_value : option Z; online_users : list OnlineUser }.
Record RespSend := mkRespSend { ps_resp_value : option Z }.
Record RespRecv := mkRespRecv { pv_resp_value : option Z; messages : list UserMessage }.

Record Packet := mkPacket {
  hdr : option mcc_Header;
  req_reg : option RequestRegister;
  req_users : option RequestUsers;
  req_send : option RequestSend;
  req_recv : option RequestRecv;
  resp_reg : option RespRegister;
  resp_users : option RespUsers;
  resp_send : option RespSend;
  resp_recv : option RespRecv;
}.

(** ** Default instances and accessors *)

Definition mcc_Header_default : mcc_Header := mkHdr None.
Definition RequestRegister_default : RequestRegister := mkRequestRegister None.
Definition RequestUsers_default : RequestUsers := mkRequestUsers None.
Definition RequestSend_default : RequestSend := mkRequestSend None None None.
Definition RequestRecv_default : RequestRecv := mkRequestRecv None.
Definition RespRegister_default : RespRegister := mkRespRegister None None.
Definition RespUsers_default : RespUsers := mkRespUsers None [].
Definition RespSend_default : RespSend := mkRespSend None.
Definition RespRecv_default : RespRecv := mkRespRecv None [].
Definition Packet_default : Packet :=
  mkPacket None None None None None None None None None.

(** [x()] of a numeric field, of a string field and of the packet type. *)
Definition get_u32 (o : option Z) : Z := default 0%Z o.
Definition get_str (o : option bytes) : bytes := default [] o.
Definition get_type (h : mcc_Header) : mcc_PacketType :=
  default PACKET_TYPE_REQUEST_REGISTER (packet_type h).

(** A packet that holds a header of type [t] and nothing else, as every
    [mutable_hdr()->set_packet_type(t)] on a fresh packet leaves it. *)
Definition packet_of_type (t : mcc_PacketType) : Packet :=
  mkPacket (Some (mkHdr (Some t))) None None None None None None None None.

Definition with_req_reg (r : RequestRegister) (p : Packet) : Packet :=
  mkPacket (hdr p) (Some r) (req_users p) (req_send p) (req_recv p)
           (resp_reg p) (resp_users p) (resp_send p) (resp_recv p).
Definition with_req_users (r : RequestUsers) (p : Packet) : Packet :=
  mkPacket (hdr p) (req_reg p) (Some r) (req_send p) (req_recv p)
           (resp_reg p) (resp_users p) (resp_send p) (resp_recv p).
Definition with_req_send (r : RequestSend) (p : Packet) : Packet :=
  mkPacket (hdr p) (req_reg p) (req_users p) (Some r) (req_recv p)
           (resp_reg p) (resp_users p) (resp_send p) (resp_recv p).
Definition with_req_recv (r : RequestRecv) (p : Packet) : Packet :=
  mkPacket (hdr p) (req_reg p) (req_users p) (req_send p) (Some r)
           (resp_reg p) (resp_users p) (resp_send p) (resp_recv p).
Definition with_resp_reg (r : RespRegister) (p : Packet) : Packet :=
  mkPacket (hdr p) (req_reg p) (req_users p) (req_send p) (req_recv p)
           (Some r) (resp_users p) (resp_send p) (resp_recv p).
Definition with_resp_users (r : RespUsers) (p : Packet) : Packet :=
  mkPacket (hdr p) (req_reg p) (req_users p) (req_send p) (req_recv p)
           (resp_reg p) (Some r) (resp_send p) (resp_recv p).
Definition with_resp_recv (r : RespRecv) (p : Packet) : Packet :=
  mkPacket (hdr p) (req_reg p) (req_users p) (req_send p) (req_recv p)
           (resp_reg p) (resp_users p) (resp_send p) (Some r).

(** ** What a packet must satisfy to survive the wire *)

(** 7-bit text, which is valid in a proto3 [string] field. *)
Definition ascii (bs : bytes) : Prop := Forall (λ b, (byte.unsigned b < 128)%Z) bs.

Definition wf_num (o : option Z) : Prop := from_option u32 True o.
Definition wf_str (o : option bytes) : Prop := from_option ascii True o.
Definition wf_type (t : mcc_PacketType) : Prop :=
  match t with PT_UNKNOWN v => (8 ≤ v < 2 ^ 31)%Z | _ => True end.

Definition wf_online_user (u : OnlineUser) : Prop :=
  wf_num (ou_user_id u) ∧ wf_str (ou_username u).
Definition wf_user_message (m : UserMessage) : Prop :=
  wf_num (um_user_id m) ∧ wf_str (um_message m).

Record wf_packet (p : Packet) : Prop := {
  wf_hdr : from_option (λ h, from_option wf_type True (packet_type h)) True (hdr p);
  wf_req_reg : from_option (λ r, wf_str (rr_username r)) True (req_reg p);
  wf_req_users : from_option (λ r, wf_num (ru_requestor_id r)) True (req_users p);
  wf_req_send : from_option (λ r, wf_num (rs_source_id r) ∧ wf_num (rs_target_id r) ∧
                                  wf_str (rs_message r)) True (req_send p);
  wf_req_recv : from_option (λ r, wf_num (rv_requestor_id r)) True (req_recv p);
  wf_resp_reg : from_option (λ r, wf_num (pr_resp_value r) ∧ wf_num (pr_assigned_id r))
                            True (resp_reg p);
  wf_resp_users : from_option (λ r, wf_num (pu_resp_value r) ∧
                                    Forall wf_online_user (online_users r)) True (resp_users p);
  wf_resp_send : from_option (λ r, wf_num (ps_resp_value r)) True (resp_send p);
  wf_resp_recv : from_option (λ r, wf_num (pv_resp_value r) ∧
                                   Forall wf_user_message (messages r)) True (resp_recv p);
}.

#[export] Instance ascii_dec bs : Decision (ascii bs) := Forall_dec _ bs.

#[export] Instance from_option_dec {A} (P : A → Prop) (o : option A) :
  (∀ a, Decision (P a)) → Decision (from_option P True o).
Proof. intros HP. destruct o; apply _. Defined.

#[export] Instance wf_num_dec o : Decision (wf_num o) := from_option_dec u32 o _.
#[export] Instance wf_str_dec o : Decision (wf_str o) := from_option_dec ascii o _.
#[export] Instance wf_type_dec t : Decision (wf_type t).
Proof. destruct t; apply _. Defined.
#[export] Instance wf_online_user_dec u : Decision (wf_online_user u) := and_dec _ _.
#[export] Instance wf_user_message_dec m : Decision (wf_user_message m) := and_dec _ _.

#[export] Instance wf_packet_dec p : Decision (wf_packet p).
Proof.
  refine (cast_if (decide (
    from_option (λ h, from_option wf_type True (packet_type h)) True (hdr p) ∧
    from_option (λ r, wf_str (rr_username r)) True (req_reg p) ∧
    from_option (λ r, wf_num (ru_requestor_id r)) True (req_users p) ∧
    from_option (λ r, wf_num (rs_source_id r) ∧ wf_num (rs_target_id r) ∧ wf_str (rs_message r)) True (req_send p) ∧
    from_option (λ r, wf_num (rv_requestor_id r)) True (req_recv p) ∧
    from_option (λ r, wf_num (pr_resp_value r) ∧ wf_num (pr_assigned_id r)) True (resp_reg p) ∧
    from_option (λ r, wf_num (pu_resp_value r) ∧ Forall wf_online_user (online_users r)) True (resp_users p) ∧
    from_option (λ r, wf_num (ps_resp_value r)) True (resp_send p) ∧
    from_option (λ r, wf_num (pv_resp_value r) ∧ Forall wf_user_message (messages r)) True (resp_recv p)))).
  - by split; tauto.
  - abstract (intros []; tauto).
Defined.

(** ** The library's interface *)

Class Protobuf := {
  (** [p.ByteSizeLong()]. *)
  ByteSizeLong : Packet → Z;
  (** [p.SerializeToArray(data, size)]: the result and the array afterwards. *)
  SerializeToArray : Packet → bytes → Z → bool * bytes;
  (** [p.ParseFromArray(data, size)]: the result and the fields of [p] afterwards. *)
  ParseFromArray : bytes → bool * Packet;
  (** [h.SerializeToOstream(&oss)]: the result and the stream afterwards. *)
  Header_SerializeToOstream : mcc_Header → bytes → bool * bytes;
  RequestRegister_SerializeToOstream : RequestRegister → bytes → bool * bytes;
  (** [h.ParseFromIstream(&iss)]: the result, the fields, what is left of the stream. *)
  Header_ParseFromIstream : bytes → bool * mcc_Header * bytes;
  RequestRegister_ParseFromIstream : bytes → bool * RequestRegister * bytes;
}.

Class ProtobufLaws `{Protobuf} := {
  (** The wire encoding of a packet. *)
  wire : Packet → bytes;
  ByteSizeLong_wire p : ByteSizeLong p = Z.of_nat (length (wire p));
  (** A packet that fits is written to the front of the array. *)
  SerializeToArray_fits p buf size :
    (ByteSizeLong p ≤ size ≤ Z.of_nat (length buf))%Z →
    SerializeToArray p buf size = (true, wire p ++ drop (length (wire p)) buf);
  (** A packet that does not fit is reported and nothing is written. *)
  SerializeToArray_too_big p buf size :
    (size < ByteSizeLong p)%Z → SerializeToArray p buf size = (false, buf);
  (** A tag is never zero, so a parser stops at the first zero byte after a packet and
      keeps the fields it has read; the boolean result is left open. A packet is at most
      2 GiB. *)
  ParseFromArray_padded p n :
    wf_packet p → (ByteSizeLong p < 2 ^ 31)%Z →
    (ParseFromArray (wire p ++ replicate n x00)).2 = p;
  (** A successful [ParseFromIstream] consumes the whole stream. *)
  Header_ParseFromIstream_consumes bs h rest :
    Header_ParseFromIstream bs = (true, h, rest) → rest = [];
  (** The empty string is the encoding of a message without fields. *)
  RequestRegister_ParseFromIstream_empty :
    RequestRegister_ParseFromIstream [] = (true, RequestRegister_default, []);
}.
