(* ===== verification/Wire.v ===== *)
(** A concrete protobuf library: the proto3 wire format restricted to the two wire types
    the schema uses. It satisfies the laws of [Packet], so that the properties of the
    code that are proved against those laws can be evaluated on concrete inputs. *)

From S2P Require Import Prelude.
From S2P Require Import Packet.

Local Open Scope Z_scope.

(** ** Varints *)

Fixpoint varint (fuel : nat) (z : Z) : bytes :=
  match fuel with
  | O => []
  | S fuel => if z <? 128 then [byte.of_Z z]
              else byte.of_Z (z mod 128 + 128) :: varint fuel (z / 128)
  end.

Definition enc_varint (z : Z) : bytes := varint 10 z.

Fixpoint read_varint (fuel : nat) (bs : bytes) : option (Z * bytes) :=
  match fuel, bs with
  | O, _ | _, [] => None
  | S fuel, b :: bs =>
      let v := byte.unsigned b in
      if v <? 128 then Some (v, bs)
      else '(hi, bs) ← read_varint fuel bs; Some (v - 128 + 128 * hi, bs)
  end.

Definition dec_varint (bs : bytes) : option (Z * bytes) := read_varint 10 bs.

Lemma unsigned_of_small z : 0 ≤ z < 256 → byte.unsigned (byte.of_Z z) = z.
Proof. intros H. rewrite byte.unsigned_of_Z. by apply Z.mod_small. Qed.

Lemma read_varint_varint fuel z rest :
  0 ≤ z < 128 ^ Z.of_nat (S fuel) →
  read_varint (S fuel) (varint (S fuel) z ++ rest) = Some (z, rest).
Proof.
  revert z. induction fuel as [|fuel IH]; intros z Hz;
    rewrite Nat2Z.inj_succ, Z.pow_succ_r in Hz by lia; cbn [varint];
    destruct (Z.ltb_spec z 128) as [Hlt|Hge]; cbn [app read_varint].
  - rewrite unsigned_of_small by lia. by rewrite (proj2 (Z.ltb_lt _ _)).
  - change (128 ^ Z.of_nat 0) with 1 in Hz. lia.
  - rewrite unsigned_of_small by lia. by rewrite (proj2 (Z.ltb_lt _ _)).
  - pose proof (Z.mod_pos_bound z 128 ltac:(lia)).
    rewrite unsigned_of_small, (proj2 (Z.ltb_ge _ _)) by lia.
    cbn [varint read_varint] in IH.
    rewrite IH by (split; [apply Z.div_pos; lia | apply Z.div_lt_upper_bound; lia]).
    cbn. do 2 f_equal. pose proof (Z.div_mod z 128). lia.
Qed.

Lemma dec_enc_varint z rest : 0 ≤ z < 2 ^ 64 → dec_varint (enc_varint z ++ rest) = Some (z, rest).
Proof. intros Hz. apply read_varint_varint. change (128 ^ Z.of_nat 10) with (2 ^ 70). lia. Qed.

Lemma enc_varint_nonempty z : ∃ b bs, enc_varint z = b :: bs.
Proof. unfold enc_varint. cbn [varint]. case_match; eauto. Qed.

Arguments enc_varint : simpl never.
Arguments dec_varint : simpl never.

(** ** Fields *)

Inductive field :=
| FVarint (num v : Z)
| FLen (num : Z) (bs : bytes).

Definition enc_field (f : field) : bytes :=
  match f with
  | FVarint num v => enc_varint (num * 8) ++ enc_varint v
  | FLen num bs => enc_varint (num * 8 + 2) ++ enc_varint (Z.of_nat (length bs)) ++ bs
  end.

Definition enc_fields (fs : list field) : bytes := concat (map enc_field fs).

(** One field, or [None] at the end of the input, at a zero tag, or at an error. *)
Definition dec_field (bs : bytes) : option (field * bytes) :=
  '(tag, bs) ← dec_varint bs;
  if tag =? 0 then None else
  match tag mod 8 with
  | 0 => '(v, bs) ← dec_varint bs; Some (FVarint (tag / 8) v, bs)
  | 2 => '(n, bs) ← dec_varint bs;
         if Z.of_nat (length bs) <? n then None
         else Some (FLen (tag / 8) (take (Z.to_nat n) bs), drop (Z.to_nat n) bs)
  | _ => None
  end.

Fixpoint dec_fields (fuel : nat) (bs : bytes) : bool * list field :=
  match fuel with
  | O => (false, [])
  | S fuel =>
      match dec_field bs with
      | Some (f, bs) => let '(ok, fs) := dec_fields fuel bs in (ok, f :: fs)
      | None => (bool_decide (bs = []), [])
      end
  end.

Definition fields (bs : bytes) : bool * list field := dec_fields (S (length bs)) bs.

Definition field_ok (f : field) : Prop :=
  match f with
  | FVarint num v => 1 ≤ num < 2 ^ 29 ∧ 0 ≤ v < 2 ^ 64
  | FLen num bs => 1 ≤ num < 2 ^ 29 ∧ Z.of_nat (length bs) < 2 ^ 64
  end.

Lemma dec_enc_field f rest : field_ok f → dec_field (enc_field f ++ rest) = Some (f, rest).
Proof.
  destruct f as [num v|num bs]; intros [Hn Hv]; unfold dec_field; cbn [enc_field];
    rewrite <- !app_assoc, dec_enc_varint by lia; cbn.
  - rewrite (proj2 (Z.eqb_neq _ _)), Z.mod_mul, Z.div_mul, dec_enc_varint by lia. done.
  - rewrite (proj2 (Z.eqb_neq _ _)) by lia.
    replace ((num * 8 + 2) mod 8) with 2 by (rewrite Z.add_comm, Z.mod_add; done).
    replace ((num * 8 + 2) / 8) with num by (rewrite Z.div_add_l; [change (2 / 8) with 0|]; lia).
    rewrite dec_enc_varint by lia. cbn.
    rewrite (proj2 (Z.ltb_ge _ _)) by (rewrite length_app; lia).
    by rewrite Nat2Z.id, take_app_length, drop_app_length.
Qed.

Lemma enc_field_nonempty f : (0 < length (enc_field f))%nat.
Proof.
  destruct f as [num v|num bs]; cbn.
  - destruct (enc_varint_nonempty (num * 8)) as (b & bs & ->). cbn. lia.
  - destruct (enc_varint_nonempty (num * 8 + 2)) as (b & bs' & ->). cbn. lia.
Qed.

Lemma dec_field_zeros n : dec_field (replicate n x00) = None.
Proof. by destruct n. Qed.

Lemma dec_enc_fields fs n fuel :
  Forall field_ok fs → (length (enc_fields fs) < fuel)%nat →
  (dec_fields fuel (enc_fields fs ++ replicate n x00)).2 = fs.
Proof.
  intros Hfs. revert fuel. induction Hfs as [|f fs Hf Hfs IH]; intros [|fuel] Hl; try lia.
  - cbn [dec_fields enc_fields map concat app]. by rewrite dec_field_zeros.
  - change (enc_fields (f :: fs)) with (enc_field f ++ enc_fields fs) in *.
    pose proof (enc_field_nonempty f). rewrite length_app in Hl.
    cbn [dec_fields]. rewrite <- app_assoc, dec_enc_field by done.
    specialize (IH fuel ltac:(lia)). destruct (dec_fields fuel _) as [ok fs']. cbn in *. by subst.
Qed.

Lemma fields_padded fs n :
  Forall field_ok fs → (fields (enc_fields fs ++ replicate n x00)).2 = fs.
Proof. intros Hfs. apply dec_enc_fields; [done|]. rewrite length_app. lia. Qed.

Lemma fields_enc fs : Forall field_ok fs → (fields (enc_fields fs)).2 = fs.
Proof. intros Hfs. rewrite <- (app_nil_r (enc_fields fs)). by apply (fields_padded fs 0). Qed.

Lemma enc_fields_In num bs fs :
  In (FLen num bs) fs → (length bs ≤ length (enc_fields fs))%nat.
Proof.
  induction fs as [|f fs IH]; [done|].
  change (enc_fields (f :: fs)) with (enc_field f ++ enc_fields fs). rewrite length_app.
  intros [->|Hin]; [cbn; rewrite !length_app; lia | specialize (IH Hin); lia].
Qed.

(** ** Messages: the fields of a message, and a message from its fields *)

Definition opt_varint (num : Z) (o : option Z) : list field :=
  from_option (λ v, [FVarint num v]) [] o.
Definition opt_len (num : Z) (o : option bytes) : list field :=
  from_option (λ bs, [FLen num bs]) [] o.

Definition type_of_number (v : Z) : mcc_PacketType :=
  match v with
  | 0 => PACKET_TYPE_REQUEST_REGISTER
  | 1 => PACKET_TYPE_REQUEST_USERS
  | 2 => PACKET_TYPE_REQUEST_SEND
  | 3 => PACKET_TYPE_REQUEST_RECV
  | 4 => PACKET_TYPE_RESP_REGISTER
  | 5 => PACKET_TYPE_RESP_USERS
  | 6 => PACKET_TYPE_RESP_SEND
  | 7 => PACKET_TYPE_RESP_RECV
  | _ => PT_UNKNOWN v
  end.

Definition f_Header (h : mcc_Header) : list field :=
  opt_varint 1 (PacketType_number <$> packet_type h).
Definition s_Header (h : mcc_Header) (f : field) : mcc_Header :=
  match f with FVarint 1 v => mkHdr (Some (type_of_number v)) | _ => h end.

Definition f_OnlineUser (u : OnlineUser) : list field :=
  opt_varint 1 (ou_user_id u) ++ opt_len 2 (ou_username u).
Definition s_OnlineUser (u : OnlineUser) (f : field) : OnlineUser :=
  match f with
  | FVarint 1 v => mkOnlineUser (Some v) (ou_username u)
  | FLen 2 bs => mkOnlineUser (ou_user_id u) (Some bs)
  | _ => u
  end.

Definition f_UserMessage (m : UserMessage) : list field :=
  opt_varint 1 (um_user_id m) ++ opt_len 2 (um_message m).
Definition s_UserMessage (m : UserMessage) (f : field) : UserMessage :=
  match f with
  | FVarint 1 v => mkUserMessage (Some v) (um_message m)
  | FLen 2 bs => mkUserMessage (um_user_id m) (Some bs)
  | _ => m
  end.

Definition f_RequestRegister (r : RequestRegister) : list field := opt_len 1 (rr_username r).
Definition s_RequestRegister (r : RequestRegister) (f : field) : RequestRegister :=
  match f with FLen 1 bs => mkRequestRegister (Some bs) | _ => r end.

Definition f_RequestUsers (r : RequestUsers) : list field := opt_varint 1 (ru_requestor_id r).
Definition s_RequestUsers (r : RequestUsers) (f : field) : RequestUsers :=
  match f with FVarint 1 v => mkRequestUsers (Some v) | _ => r end.

Definition f_RequestSend (r : RequestSend) : list field :=
  opt_varint 1 (rs_source_id r) ++ opt_varint 2 (rs_target_id r) ++ opt_len 3 (rs_message r).
Definition s_RequestSend (r : RequestSend) (f : field) : RequestSend :=
  match f with
  | FVarint 1 v => mkRequestSend (Some v) (rs_target_id r) (rs_message r)
  | FVarint 2 v => mkRequestSend (rs_source_id r) (Some v) (rs_message r)
  | FLen 3 bs => mkRequestSend (rs_source_id r) (rs_target_id r) (Some bs)
  | _ => r
  end.

Definition f_RequestRecv (r : RequestRecv) : list field := opt_varint 1 (rv_requestor_id r).
Definition s_RequestRecv (r : RequestRecv) (f : field) : RequestRecv :=
  match f with FVarint 1 v => mkRequestRecv (Some v) | _ => r end.

Definition f_RespRegister (r : RespRegister) : list field :=
  opt_varint 1 (pr_resp_value r) ++ opt_varint 2 (pr_assigned_id r).
Definition s_RespRegister (r : RespRegister) (f : field) : RespRegister :=
  match f with
  | FVarint 1 v => mkRespRegister (Some v) (pr_assigned_id r)
  | FVarint 2 v => mkRespRegister (pr_resp_value r) (Some v)
  | _ => r
  end.

Definition f_RespSend (r : RespSend) : list field := opt_varint 1 (ps_resp_value r).
Definition s_RespSend (r : RespSend) (f : field) : RespSend :=
  match f with FVarint 1 v => mkRespSend (Some v) | _ => r end.

(** A submessage: its fields applied to the value read so far. *)
Definition sub {A} (step : A → field → A) (a : A) (bs : bytes) : A :=
  foldl step a (fields bs).2.

Definition f_RespUsers (r : RespUsers) : list field :=
  opt_varint 1 (pu_resp_value r) ++
  map (λ u, FLen 2 (enc_fields (f_OnlineUser u))) (online_users r).
Definition s_RespUsers (r : RespUsers) (f : field) : RespUsers :=
  match f with
  | FVarint 1 v => mkRespUsers (Some v) (online_users r)
  | FLen 2 bs => mkRespUsers (pu_resp_value r)
                   (online_users r ++ [sub s_OnlineUser (mkOnlineUser None None) bs])
  | _ => r
  end.

Definition f_RespRecv (r : RespRecv) : list field :=
  opt_varint 1 (pv_resp_value r) ++
  map (λ m, FLen 2 (enc_fields (f_UserMessage m))) (messages r).
Definition s_RespRecv (r : RespRecv) (f : field) : RespRecv :=
  match f with
  | FVarint 1 v => mkRespRecv (Some v) (messages r)
  | FLen 2 bs => mkRespRecv (pv_resp_value r)
                   (messages r ++ [sub s_UserMessage (mkUserMessage None None) bs])
  | _ => r
  end.

Definition opt_sub {A} (num : Z) (f : A → list field) (o : option A) : list field :=
  opt_len num (enc_fields ∘ f <$> o).

Definition f_Packet (p : Packet) : list field :=
  opt_sub 1 f_Header (hdr p) ++ opt_sub 2 f_RequestRegister (req_reg p) ++
  opt_sub 3 f_RequestUsers (req_users p) ++ opt_sub 4 f_RequestSend (req_send p) ++
  opt_sub 5 f_RequestRecv (req_recv p) ++ opt_sub 6 f_RespRegister (resp_reg p) ++
  opt_sub 7 f_RespUsers (resp_users p) ++ opt_sub 8 f_RespSend (resp_send p) ++
  opt_sub 9 f_RespRecv (resp_recv p).

(** An optional submessage: read into the value present or into a fresh one. *)
Definition merge {A} (step : A → field → A) (d : A) (o : option A) (bs : bytes) : option A :=
  Some (sub step (default d o) bs).

Definition s_Packet (p : Packet) (f : field) : Packet :=
  match f with
  | FLen 1 bs => mkPacket (merge s_Header mcc_Header_default (hdr p) bs) (req_reg p)
      (req_users p) (req_send p) (req_recv p) (resp_reg p) (resp_users p) (resp_send p) (resp_recv p)
  | FLen 2 bs => with_req_reg (sub s_RequestRegister (default RequestRegister_default (req_reg p)) bs) p
  | FLen 3 bs => with_req_users (sub s_RequestUsers (default RequestUsers_default (req_users p)) bs) p
  | FLen 4 bs => with_req_send (sub s_RequestSend (default RequestSend_default (req_send p)) bs) p
  | FLen 5 bs => with_req_recv (sub s_RequestRecv (default RequestRecv_default (req_recv p)) bs) p
  | FLen 6 bs => with_resp_reg (sub s_RespRegister (default RespRegister_default (resp_reg p)) bs) p
  | FLen 7 bs => with_resp_users (sub s_RespUsers (default RespUsers_default (resp_users p)) bs) p
  | FLen 8 bs => mkPacket (hdr p) (req_reg p) (req_users p) (req_send p) (req_recv p)
      (resp_reg p) (resp_users p) (merge s_RespSend RespSend_default (resp_send p) bs) (resp_recv p)
  | FLen 9 bs => with_resp_recv (sub s_RespRecv (default RespRecv_default (resp_recv p)) bs) p
  | _ => p
  end.

Definition wire_Packet (p : Packet) : bytes := enc_fields (f_Packet p).

#[export] Instance wire_protobuf : Protobuf := {
  ByteSizeLong p := Z.of_nat (length (wire_Packet p));
  SerializeToArray p buf size :=
    if Z.of_nat (length (wire_Packet p)) <=? size
    then (true, wire_Packet p ++ drop (length (wire_Packet p)) buf) else (false, buf);
  ParseFromArray bs := let '(ok, fs) := fields bs in (ok, foldl s_Packet Packet_default fs);
  Header_SerializeToOstream h oss := (true, oss ++ enc_fields (f_Header h));
  RequestRegister_SerializeToOstream r oss := (true, oss ++ enc_fields (f_RequestRegister r));
  Header_ParseFromIstream bs :=
    let '(ok, fs) := fields bs in (ok, foldl s_Header mcc_Header_default fs, []);
  RequestRegister_ParseFromIstream bs :=
    let '(ok, fs) := fields bs in (ok, foldl s_RequestRegister RequestRegister_default fs, []);
}.

(** ** The laws hold *)

(** A field whose number and value are in range; its length is bounded separately. *)
Definition num_ok (f : field) : Prop :=
  match f with
  | FVarint num v => 1 ≤ num < 2 ^ 29 ∧ 0 ≤ v < 2 ^ 64
  | FLen num _ => 1 ≤ num < 2 ^ 29
  end.

Lemma field_ok_intro fs :
  Forall num_ok fs → Z.of_nat (length (enc_fields fs)) < 2 ^ 31 → Forall field_ok fs.
Proof.
  intros Hn Hl. apply Forall_forall. intros f Hf. rewrite Forall_forall in Hn.
  specialize (Hn f Hf). destruct f as [|num bs]; [done|]. cbn in *.
  apply list_elem_of_In, enc_fields_In in Hf. lia.
Qed.

Lemma sub_reads {A} (f : A → list field) step d m :
  foldl step d (f m) = m → Forall num_ok (f m) →
  Z.of_nat (length (enc_fields (f m))) < 2 ^ 31 → sub step d (enc_fields (f m)) = m.
Proof. intros Hm Hn Hl. unfold sub. by rewrite fields_enc by by apply field_ok_intro. Qed.

Lemma type_of_number_number t : wf_type t → type_of_number (PacketType_number t) = t.
Proof.
  destruct t as [| | | | | | | |v]; try done. cbn. intros Hv.
  destruct v as [|p|p]; [lia| |lia]. do 3 (destruct p as [p|p|]; try lia; try done).
Qed.

Lemma num_ok_opt_varint num o :
  1 ≤ num < 2 ^ 29 → wf_num o → Forall num_ok (opt_varint num o).
Proof.
  intros Hn Ho. destruct o as [v|]; [|constructor]. apply Forall_singleton. cbn in *.
  unfold u32 in Ho. lia.
Qed.

Lemma num_ok_opt_len num o : 1 ≤ num < 2 ^ 29 → Forall num_ok (opt_len num o).
Proof. intros Hn. destruct o; [by apply Forall_singleton|constructor]. Qed.

Lemma num_ok_map {A} num (g : A → bytes) l :
  1 ≤ num < 2 ^ 29 → Forall num_ok (map (λ x, FLen num (g x)) l).
Proof. intros Hn. induction l; by constructor. Qed.

Ltac num_ok := autounfold with wire;
  repeat lazymatch goal with |- Forall _ (_ ++ _) => apply Forall_app_2 end;
  (apply num_ok_opt_varint || apply num_ok_opt_len || apply num_ok_map);
  (done || lia || tauto).

Definition short_enc {A} (f : A → list field) (m : A) : Prop :=
  Z.of_nat (length (enc_fields (f m))) < 2 ^ 31.

(** The flat messages are read back: every field is set at most once. *)
Ltac flat := intros Hwf Hl; apply sub_reads; [|num_ok|done];
  repeat match goal with r : option _ |- _ => destruct r end; done.

Create HintDb wire.
#[local] Hint Unfold f_OnlineUser f_UserMessage f_RequestRegister f_RequestUsers f_RequestSend
  f_RequestRecv f_RespRegister f_RespSend f_RespUsers f_RespRecv wf_online_user
  wf_user_message : wire.

Lemma reads_Header h :
  from_option wf_type True (packet_type h) → short_enc f_Header h →
  sub s_Header mcc_Header_default (enc_fields (f_Header h)) = h.
Proof.
  intros Ht Hl. apply sub_reads; [| |done]; destruct h as [[t|]]; cbn in *; try done.
  - by rewrite type_of_number_number.
  - apply Forall_singleton. destruct t; cbn in *; lia.
Qed.

Lemma reads_OnlineUser u :
  wf_online_user u → short_enc f_OnlineUser u →
  sub s_OnlineUser (mkOnlineUser None None) (enc_fields (f_OnlineUser u)) = u.
Proof. destruct u as [a b]; unfold wf_online_user. flat. Qed.

Lemma reads_UserMessage m :
  wf_user_message m → short_enc f_UserMessage m →
  sub s_UserMessage (mkUserMessage None None) (enc_fields (f_UserMessage m)) = m.
Proof. destruct m as [a b]; unfold wf_user_message. flat. Qed.

Lemma reads_RequestRegister r :
  wf_str (rr_username r) → short_enc f_RequestRegister r →
  sub s_RequestRegister RequestRegister_default (enc_fields (f_RequestRegister r)) = r.
Proof. destruct r as [a]. flat. Qed.

Lemma reads_RequestUsers r :
  wf_num (ru_requestor_id r) → short_enc f_RequestUsers r →
  sub s_RequestUsers RequestUsers_default (enc_fields (f_RequestUsers r)) = r.
Proof. destruct r as [a]. flat. Qed.

Lemma reads_RequestSend r :
  wf_num (rs_source_id r) ∧ wf_num (rs_target_id r) ∧ wf_str (rs_message r) →
  short_enc f_RequestSend r →
  sub s_RequestSend RequestSend_default (enc_fields (f_RequestSend r)) = r.
Proof. destruct r as [a b c]. flat. Qed.

Lemma reads_RequestRecv r :
  wf_num (rv_requestor_id r) → short_enc f_RequestRecv r →
  sub s_RequestRecv RequestRecv_default (enc_fields (f_RequestRecv r)) = r.
Proof. destruct r as [a]. flat. Qed.

Lemma reads_RespRegister r :
  wf_num (pr_resp_value r) ∧ wf_num (pr_assigned_id r) → short_enc f_RespRegister r →
  sub s_RespRegister RespRegister_default (enc_fields (f_RespRegister r)) = r.
Proof. destruct r as [a b]. flat. Qed.

Lemma reads_RespSend r :
  wf_num (ps_resp_value r) → short_enc f_RespSend r →
  sub s_RespSend RespSend_default (enc_fields (f_RespSend r)) = r.
Proof. destruct r as [a]. flat. Qed.

(** A nested message is no longer than the message around it. *)
Lemma short_nested num bs fs :
  Z.of_nat (length (enc_fields fs)) < 2 ^ 31 → In (FLen num bs) fs →
  Z.of_nat (length bs) < 2 ^ 31.
Proof. intros Hl Hin%enc_fields_In. lia. Qed.

Lemma foldl_RespUsers v acc l :
  Forall (λ u, wf_online_user u ∧ short_enc f_OnlineUser u) l →
  foldl s_RespUsers (mkRespUsers v acc) (map (λ u, FLen 2 (enc_fields (f_OnlineUser u))) l)
  = mkRespUsers v (acc ++ l).
Proof.
  intros Hl. revert acc. induction Hl as [|u l [Hu Hs] Hl IH]; intros acc; cbn;
    [by rewrite app_nil_r|].
  by rewrite reads_OnlineUser, IH, <- app_assoc by done.
Qed.

Lemma reads_RespUsers r :
  wf_num (pu_resp_value r) ∧ Forall wf_online_user (online_users r) → short_enc f_RespUsers r →
  sub s_RespUsers RespUsers_default (enc_fields (f_RespUsers r)) = r.
Proof.
  intros [Hv Hu] Hl. apply sub_reads; [|num_ok|done]. destruct r as [v us]. cbn in *.
  unfold f_RespUsers. cbn. rewrite foldl_app.
  assert (Forall (λ u, wf_online_user u ∧ short_enc f_OnlineUser u) us) as Hus.
  { rewrite Forall_forall in Hu |- *. intros u Hin. split; [auto|].
    eapply short_nested; [exact Hl|]. apply in_or_app. right.
    apply (in_map (λ u, FLen 2 (enc_fields (f_OnlineUser u)))). by apply list_elem_of_In. }
  unfold RespUsers_default. destruct v; cbn; by rewrite foldl_RespUsers.
Qed.

Lemma foldl_RespRecv v acc l :
  Forall (λ u, wf_user_message u ∧ short_enc f_UserMessage u) l →
  foldl s_RespRecv (mkRespRecv v acc) (map (λ u, FLen 2 (enc_fields (f_UserMessage u))) l)
  = mkRespRecv v (acc ++ l).
Proof.
  intros Hl. revert acc. induction Hl as [|u l [Hu Hs] Hl IH]; intros acc; cbn;
    [by rewrite app_nil_r|].
  by rewrite reads_UserMessage, IH, <- app_assoc by done.
Qed.

Lemma reads_RespRecv r :
  wf_num (pv_resp_value r) ∧ Forall wf_user_message (messages r) → short_enc f_RespRecv r →
  sub s_RespRecv RespRecv_default (enc_fields (f_RespRecv r)) = r.
Proof.
  intros [Hv Hu] Hl. apply sub_reads; [|num_ok|done]. destruct r as [v us]. cbn in *.
  unfold f_RespRecv. cbn. rewrite foldl_app.
  assert (Forall (λ u, wf_user_message u ∧ short_enc f_UserMessage u) us) as Hus.
  { rewrite Forall_forall in Hu |- *. intros u Hin. split; [auto|].
    eapply short_nested; [exact Hl|]. apply in_or_app. right.
    apply (in_map (λ u, FLen 2 (enc_fields (f_UserMessage u)))). by apply list_elem_of_In. }
  unfold RespRecv_default. destruct v; cbn; by rewrite foldl_RespRecv.
Qed.

(** The nine submessages of a packet. *)
Definition reads {A} (f : A → list field) (step : A → field → A) (d : A) (o : option A) : Prop :=
  from_option (λ m, sub step d (enc_fields (f m)) = m) True o.

Lemma foldl_opt {A} num f step (d : A) o p0 (g : option A → Packet) :
  reads f step d o → g None = p0 →
  (∀ bs, s_Packet p0 (FLen num bs) = g (Some (sub step d bs))) →
  foldl s_Packet p0 (opt_sub num f o) = g o.
Proof. intros Hr Hn Hs. destruct o as [m|]; [|done]. cbn in *. by rewrite Hs, Hr. Qed.

Lemma foldl_Packet p :
  reads f_Header s_Header mcc_Header_default (hdr p) →
  reads f_RequestRegister s_RequestRegister RequestRegister_default (req_reg p) →
  reads f_RequestUsers s_RequestUsers RequestUsers_default (req_users p) →
  reads f_RequestSend s_RequestSend RequestSend_default (req_send p) →
  reads f_RequestRecv s_RequestRecv RequestRecv_default (req_recv p) →
  reads f_RespRegister s_RespRegister RespRegister_default (resp_reg p) →
  reads f_RespUsers s_RespUsers RespUsers_default (resp_users p) →
  reads f_RespSend s_RespSend RespSend_default (resp_send p) →
  reads f_RespRecv s_RespRecv RespRecv_default (resp_recv p) →
  foldl s_Packet Packet_default (f_Packet p) = p.
Proof.
  destruct p as [a b c d e f g h i]. unfold f_Packet. cbn [hdr req_reg req_users
    req_send req_recv resp_reg resp_users resp_send resp_recv]. intros. rewrite !foldl_app.
  rewrite (foldl_opt 1 f_Header s_Header mcc_Header_default a _
    (λ o, mkPacket o None None None None None None None None)) by done.
  rewrite (foldl_opt 2 f_RequestRegister s_RequestRegister RequestRegister_default b _
    (λ o, mkPacket a o None None None None None None None)) by done.
  rewrite (foldl_opt 3 f_RequestUsers s_RequestUsers RequestUsers_default c _
    (λ o, mkPacket a b o None None None None None None)) by done.
  rewrite (foldl_opt 4 f_RequestSend s_RequestSend RequestSend_default d _
    (λ o, mkPacket a b c o None None None None None)) by done.
  rewrite (foldl_opt 5 f_RequestRecv s_RequestRecv RequestRecv_default e _
    (λ o, mkPacket a b c d o None None None None)) by done.
  rewrite (foldl_opt 6 f_RespRegister s_RespRegister RespRegister_default f _
    (λ o, mkPacket a b c d e o None None None)) by done.
  rewrite (foldl_opt 7 f_RespUsers s_RespUsers RespUsers_default g _
    (λ o, mkPacket a b c d e f o None None)) by done.
  rewrite (foldl_opt 8 f_RespSend s_RespSend RespSend_default h _
    (λ o, mkPacket a b c d e f g o None)) by done.
  by rewrite (foldl_opt 9 f_RespRecv s_RespRecv RespRecv_default i _
    (λ o, mkPacket a b c d e f g h o)) by done.
Qed.

Lemma num_ok_Packet p : Forall num_ok (f_Packet p).
Proof. unfold f_Packet, opt_sub. repeat apply Forall_app_2; apply num_ok_opt_len; lia. Qed.

Lemma reads_intro {A} (f : A → list field) step d (P : A → Prop) num o fs :
  (∀ m, P m → short_enc f m → sub step d (enc_fields (f m)) = m) →
  from_option P True o → Z.of_nat (length (enc_fields fs)) < 2 ^ 31 →
  (∀ m, o = Some m → In (FLen num (enc_fields (f m))) fs) → reads f step d o.
Proof.
  intros Hread Hp Hl Hin. destruct o as [m|]; [|done]. cbn in *.
  apply Hread; [done|]. eapply short_nested; [exact Hl|by apply Hin].
Qed.

Lemma wire_parse_padded p n :
  wf_packet p → Z.of_nat (length (wire_Packet p)) < 2 ^ 31 →
  (ParseFromArray (wire_Packet p ++ replicate n x00)).2 = p.
Proof.
  intros [] Hl. cbn [ParseFromArray wire_protobuf]. unfold wire_Packet.
  pose proof (fields_padded (f_Packet p) n) as Hf.
  destruct (fields _) as [ok fs]. cbn in *. rewrite Hf by (apply field_ok_intro; [apply num_ok_Packet|done]).
  assert (∀ {A} num (f : A → list field) o, opt_sub num f o ⊆ f_Packet p →
    ∀ m, o = Some m → In (FLen num (enc_fields (f m))) (f_Packet p)) as Hin.
  { intros A num f o Hsub m ->. apply list_elem_of_In, Hsub. cbn. left. }
  assert (∀ {A} num (f : A → list field) step d (P : A → Prop) o,
    (∀ m, P m → short_enc f m → sub step d (enc_fields (f m)) = m) →
    from_option P True o → opt_sub num f o ⊆ f_Packet p → reads f step d o) as Hr.
  { intros. eapply reads_intro; eauto. }
  apply foldl_Packet;
    [eapply Hr; [exact reads_Header|..] | eapply Hr; [exact reads_RequestRegister|..] |
     eapply Hr; [exact reads_RequestUsers|..] | eapply Hr; [exact reads_RequestSend|..] |
     eapply Hr; [exact reads_RequestRecv|..] | eapply Hr; [exact reads_RespRegister|..] |
     eapply Hr; [exact reads_RespUsers|..] | eapply Hr; [exact reads_RespSend|..] |
     eapply Hr; [exact reads_RespRecv|..]];
    try eassumption; intros x Hx; unfold f_Packet; rewrite !elem_of_app; eauto 12.
Qed.

#[export] Program Instance wire_laws : ProtobufLaws := {
  wire := wire_Packet;
}.
Next Obligation. done. Qed.
Next Obligation. intros p buf size [H _]. cbn in *. by rewrite (proj2 (Z.leb_le _ _)). Qed.
Next Obligation. intros p buf size H. cbn in *. by rewrite (proj2 (Z.leb_gt _ _)). Qed.
Next Obligation. intros p n Hwf Hl. by apply wire_parse_padded. Qed.
Next Obligation.
  intros bs h rest H. cbn [Header_ParseFromIstream wire_protobuf] in H.
  destruct (fields bs). by simplify_eq.
Qed.
Next Obligation. done. Qed.
