(* ===== verification/Server.v ===== *)
(** The server side of the binary protocol ([src/server/server.h],
    [src/server/server.cpp]): one handler per request, each a function of the request
    payload and of the server's state (the database and the transmit buffer). *)

From S2P Require Import Prelude.
From S2P Require Import Common.
From S2P Require Import Database.
From S2P Require Import Packet.

Section MccServer.
  Context {ord : UMapOrder Z UserMetadata} `{Protobuf}.

Record MccServer := mkMccServer { db_ : Database; tx_buffer_ : bytes }.

(** The response every register request gets. *)
Definition parseRequestRegister (data : bytes) (payload_len : Z) (s : MccServer) :
    outcome (Z * MccServer) :=
  '(name, _) ← rd payload_len data;
  let '(id, db) := registerUser name (db_ s) in
  let dest := Cursor (tx_buffer_ s) 0 in
  let resp_value := x00 in
  let payload_size := (1 + 4)%Z in
  let resp_hdr := mkHeader kRespRegister payload_size in
  dest ← put (header_bytes resp_hdr) dest;
  dest ← put [resp_value] dest;
  dest ← put (le32 id) dest;
  Ok (Z.of_nat sizeof_Header + payload_size, mkMccServer db (c_buf dest))%Z.

(** The results of the two parses are only logged; their failure changes nothing else. *)
Definition parseRequestRegisterProto (rx_buffer : bytes) (s : MccServer) :
    outcome (Z * MccServer) :=
  let '(_, hdr, iss) := Header_ParseFromIstream rx_buffer in
  let '(_, req, _) := RequestRegister_ParseFromIstream iss in
  let name := get_str (rr_username req) in
  let '(id, db) := registerUser name (db_ s) in
  let dest := Cursor (tx_buffer_ s) 0 in
  let resp_value := x00 in
  let payload_size := (1 + 4)%Z in
  let resp_hdr := mkHeader kRespRegister payload_size in
  dest ← put (header_bytes resp_hdr) dest;
  dest ← put [resp_value] dest;
  dest ← put (le32 id) dest;
  Ok (Z.of_nat sizeof_Header + payload_size, mkMccServer db (c_buf dest))%Z.

(** One turn of the loop of [parseRequestUsers] over the database. *)
Definition put_user (id : Z) (acc : cursor * Z) (it : Z * UserMetadata) :
    outcome (cursor * Z) :=
  let '(dest, curr_payload_len) := acc in
  if (it.1 =? id)%Z then Ok (dest, curr_payload_len) else
  let size := Z.of_nat (length (username it.2)) in
  dest ← put (le32 it.1) dest;
  dest ← put (le32 size) dest;
  dest ← put (username it.2) dest;
  Ok (dest, wrap32 (curr_payload_len + (4 + 4 + size))).

Definition parseRequestUsers (data : bytes) (payload_len : Z) (s : MccServer) :
    outcome (Z * MccServer) :=
  _ ← cassert (payload_len =? 4)%Z;
  '(id, _) ← rd32 data;
  let dest := Cursor (tx_buffer_ s) 0 in
  if negb (userExists id (db_ s)) then
    let resp_hdr := mkHeader kRespUsers 1 in
    dest ← put (header_bytes resp_hdr) dest;
    dest ← put [x01] dest;
    Ok (Z.of_nat sizeof_Header + len resp_hdr, mkMccServer (db_ s) (c_buf dest))%Z
  else
  let num_users := wrap32 (getNumUsers (db_ s) - 1) in
  if (num_users =? 0)%Z then
    let resp_hdr := mkHeader kRespUsers (1 + 4) in
    dest ← put (header_bytes resp_hdr) dest;
    dest ← put [x00] dest;
    dest ← put (le32 num_users) dest;
    Ok (Z.of_nat sizeof_Header + len resp_hdr, mkMccServer (db_ s) (c_buf dest))%Z
  else
  let curr_payload_len := Z.of_nat sizeof_Header in
  let dest := skip sizeof_Header dest in
  dest ← put [x00] dest;
  let curr_payload_len := (curr_payload_len + 1)%Z in
  dest ← put (le32 num_users) dest;
  let curr_payload_len := (curr_payload_len + 4)%Z in
  '(dest, curr_payload_len) ← for_db (db_ s) (put_user id) (dest, curr_payload_len);
  let resp_hdr := mkHeader kRespUsers curr_payload_len in
  dest ← put (header_bytes resp_hdr) (rewind dest);
  Ok (Z.of_nat sizeof_Header + len resp_hdr, mkMccServer (db_ s) (c_buf dest))%Z.

Definition parseRequestSend (data : bytes) (payload_len : Z) (s : MccServer) :
    outcome (Z * MccServer) :=
  _ ← cassert (4 * 2 <? payload_len)%Z;
  let msg_len := (payload_len - 4 * 2)%Z in
  '(source_id, data) ← rd32 data;
  '(target_id, data) ← rd32 data;
  '(m, _) ← rd msg_len data;
  let h := mkHeader kRespSend 1 in
  let '(resp_value, db) :=
    if negb (userExists source_id (db_ s)) then (x01, db_ s)
    else if negb (userExists target_id (db_ s)) then (x02, db_ s)
    else (x00, (queueMsg target_id (mkMsg source_id m) (db_ s)).2) in
  let dest := Cursor (tx_buffer_ s) 0 in
  dest ← put (header_bytes h) dest;
  dest ← put [resp_value] dest;
  Ok (Z.of_nat sizeof_Header + 1, mkMccServer db (c_buf dest))%Z.

(** One turn of the loop of [parseRequestRecv] over the queue. *)
Definition put_msg (acc : cursor * Z) (m : Msg) : outcome (cursor * Z) :=
  let '(dest, resp_pl) := acc in
  dest ← put (le32 (sender_id m)) dest;
  let resp_pl := wrap32 (resp_pl + 4) in
  let msg_len := wrap32 (Z.of_nat (length (msg m))) in
  dest ← put (le32 msg_len) dest;
  let resp_pl := wrap32 (resp_pl + 4) in
  dest ← put (take (Z.to_nat msg_len) (msg m)) dest;
  Ok (dest, wrap32 (resp_pl + msg_len)).

Definition parseRequestRecv (data : bytes) (payload_len : Z) (s : MccServer) :
    outcome (Z * MccServer) :=
  _ ← cassert (payload_len =? 4)%Z;
  '(id, _) ← rd32 data;
  let dest := Cursor (tx_buffer_ s) 0 in
  if negb (userExists id (db_ s)) then
    let resp_hdr := mkHeader kRespRecv 1 in
    dest ← put (header_bytes resp_hdr) dest;
    dest ← put [x01] dest;
    Ok (Z.of_nat sizeof_Header + len resp_hdr, mkMccServer (db_ s) (c_buf dest))%Z
  else
  let dest := skip sizeof_Header dest in
  let resp_pl := Z.of_nat sizeof_Header in
  dest ← put [x00] dest;
  let resp_pl := (resp_pl + 1)%Z in
  let '(u, db) := db_index id (db_ s) in
  let num_messages := wrap32 (Z.of_nat (length (msg_q u))) in
  dest ← put (le32 num_messages) dest;
  let resp_pl := (resp_pl + 4)%Z in
  '(dest, resp_pl) ← mfold put_msg (msg_q u) (dest, resp_pl);
  let resp_hdr := mkHeader kRespRecv resp_pl in
  dest ← put (header_bytes resp_hdr) (rewind dest);
  let db := db_modify id clear_q db in
  Ok (Z.of_nat sizeof_Header + resp_pl, mkMccServer db (c_buf dest))%Z.

(** [parse(data, size)]: the response types fall through to [default]. *)
Definition parse (data : bytes) (size : Z) (s : MccServer) : outcome (Z * MccServer) :=
  '(h, payload) ← rd_header data;
  match type h with
  | kRequestRegister => parseRequestRegister payload (len h) s
  | kRequestUsers => parseRequestUsers payload (len h) s
  | kRequestSend => parseRequestSend payload (len h) s
  | kRequestRecv => parseRequestRecv payload (len h) s
  | _ =>
      '(rx_buffer, _) ← rd size data;
      parseRequestRegisterProto rx_buffer s
  end.

End MccServer.

Arguments put_user : simpl never.
Arguments put_msg : simpl never.
Arguments parseRequestRegister : simpl never.
Arguments parseRequestRegisterProto : simpl never.
Arguments parseRequestUsers : simpl never.
Arguments parseRequestSend : simpl never.
Arguments parseRequestRecv : simpl never.
