(* ===== verification/Client.v ===== *)
(** The client side of the binary protocol ([src/client/client.h],
    [src/client/client.cpp]): the encoders of the four requests, which write the
    transmit buffer, and the handlers of the four responses, which read the receive
    buffer. An out-parameter is an argument and a component of the result. *)

From S2P Require Import Prelude.
From S2P Require Import Common.

(** ** Encoders: the number of bytes encoded and the transmit buffer afterwards *)

Definition encodeRequestRegister (name : bytes) (tx_buffer : bytes) : outcome (Z * bytes) :=
  let size := Z.of_nat (length name) in
  let h := mkHeader kRequestRegister (wrap32 size) in
  pDest ← put (header_bytes h) (Cursor tx_buffer 0);
  pDest ← put name pDest;
  Ok (Z.of_nat sizeof_Header + size, c_buf pDest)%Z.

Definition encodeRequestUsers (id : Z) (tx_buffer : bytes) : outcome (Z * bytes) :=
  let h := mkHeader kRequestUsers kReqUsersPayloadLen in
  pDest ← put (header_bytes h) (Cursor tx_buffer 0);
  pDest ← put (le32 id) pDest;
  Ok (Z.of_nat sizeof_Header + kReqUsersPayloadLen, c_buf pDest)%Z.

Definition encodeRequestSend (src_id target_id : Z) (m : bytes) (tx_buffer : bytes) :
    outcome (Z * bytes) :=
  let size := Z.of_nat (length m) in
  let h := mkHeader kRequestSend (wrap32 (kReqSendMinPayloadLen + size)) in
  pDest ← put (header_bytes h) (Cursor tx_buffer 0);
  pDest ← put (le32 src_id) pDest;
  pDest ← put (le32 target_id) pDest;
  pDest ← put m pDest;
  Ok (Z.of_nat sizeof_Header + kReqSendMinPayloadLen + size, c_buf pDest)%Z.

Definition encodeRequestRecv (id : Z) (tx_buffer : bytes) : outcome (Z * bytes) :=
  let h := mkHeader kRequestRecv kReqRecvPayloadLen in
  pDest ← put (header_bytes h) (Cursor tx_buffer 0);
  pDest ← put (le32 id) pDest;
  Ok (Z.of_nat sizeof_Header + kReqRecvPayloadLen, c_buf pDest)%Z.

(** ** Handlers: the boolean result and the out-parameter afterwards *)

Definition validateRespHeader (expected_type : PacketType) (rx_buffer : bytes) :
    outcome bool :=
  '(h, _) ← rd_header rx_buffer;
  Ok (bool_decide (type h = expected_type)).

Definition handleRespRegister (rx_buffer : bytes) (id : Z) : outcome (bool * Z) :=
  valid ← validateRespHeader kRespRegister rx_buffer;
  if negb valid then Ok (false, id) else
  let data := at_offset sizeof_Header rx_buffer in
  '(resp_value, data) ← rd8 data;
  if negb (bool_decide (resp_value = x00)) then Ok (false, id) else
  '(id, _) ← rd32 data;
  Ok (true, id).

(** The loop of [handleRespUsers], [n] turns still to run. *)
Fixpoint read_users (n : nat) (payload : bytes) (name_to_id : gmap bytes Z) :
    outcome (gmap bytes Z) :=
  match n with
  | O => Ok name_to_id
  | S n =>
      '(curr_user_id, payload) ← rd32 payload;
      '(username_size, payload) ← rd32 payload;
      '(name, payload) ← rd username_size payload;
      read_users n payload (<[name := curr_user_id]> name_to_id)
  end.

Definition handleRespUsers (rx_buffer : bytes) (name_to_id : gmap bytes Z) :
    outcome (bool * gmap bytes Z) :=
  valid ← validateRespHeader kRespUsers rx_buffer;
  if negb valid then Ok (false, name_to_id) else
  let payload := at_offset sizeof_Header rx_buffer in
  '(resp_value, payload) ← rd8 payload;
  if negb (bool_decide (resp_value = x00)) then Ok (false, name_to_id) else
  '(num_users, payload) ← rd32 payload;
  name_to_id ← read_users (Z.to_nat num_users) payload ∅;
  Ok (true, name_to_id).

Definition handleRespSend (rx_buffer : bytes) (stat : SendStatus) :
    outcome (bool * SendStatus) :=
  valid ← validateRespHeader kRespSend rx_buffer;
  if negb valid then Ok (false, stat) else
  let payload := at_offset sizeof_Header rx_buffer in
  '(b, _) ← rd8 payload;
  Ok (true, SendStatus_of_byte b).

(** The loop of [handleRespRecv], [n] turns still to run. *)
Fixpoint read_msgs (n : nat) (payload : bytes) (msgs : list Msg) : outcome (list Msg) :=
  match n with
  | O => Ok msgs
  | S n =>
      '(id, payload) ← rd32 payload;
      '(msg_len, payload) ← rd32 payload;
      '(m, payload) ← rd msg_len payload;
      read_msgs n payload (msgs ++ [mkMsg id m])
  end.

(** A negative response value is logged and the parse goes on. *)
Definition handleRespRecv (rx_buffer : bytes) (msgs : list Msg) :
    outcome (bool * list Msg) :=
  valid ← validateRespHeader kRespRecv rx_buffer;
  if negb valid then Ok (false, msgs) else
  let payload := at_offset sizeof_Header rx_buffer in
  '(resp_val, payload) ← rd8 payload;
  '(num_messages, payload) ← rd32 payload;
  msgs ← read_msgs (Z.to_nat num_messages) payload msgs;
  Ok (true, msgs).
