(* ===== verification/ServerProofs.v ===== *)
(** Functional behaviour of the handlers of the binary-protocol server: the exact
    response bytes, the effect on the database, and the cases that abort or overrun
    the transmit buffer. *)

From S2P Require Import Prelude.
From S2P Require Import Common.
From S2P Require Import Database.
From S2P Require Import Packet.
From S2P Require Import Server.

(** ** The bytes of the responses *)

Definition user_record (it : Z * UserMetadata) : bytes :=
  le32 it.1 ++ le32 (Z.of_nat (length (username it.2))) ++ username it.2.

Definition msg_record (m : Msg) : bytes :=
  le32 (sender_id m) ++ le32 (Z.of_nat (length (msg m))) ++ msg m.

Definition others (id : Z) (l : list (Z * UserMetadata)) : list (Z * UserMetadata) :=
  filter (λ it, it.1 ≠ id) l.

Definition users_body (id : Z) (l : list (Z * UserMetadata)) : bytes :=
  concat (map user_record (others id l)).

Definition msgs_body (q : list Msg) : bytes := concat (map msg_record q).

Definition short_resp (t : PacketType) (status : byte) : bytes :=
  header_bytes (mkHeader t 1) ++ [status].

Definition register_resp (id : Z) : bytes :=
  header_bytes (mkHeader kRespRegister 5) ++ x00 :: le32 id.

Arguments short_resp : simpl never.
Arguments register_resp : simpl never.
Arguments header_bytes : simpl never.

Lemma length_short_resp t b : length (short_resp t b) = 6%nat.
Proof. unfold short_resp. by rewrite length_app, length_header_bytes. Qed.

Lemma length_register_resp id : length (register_resp id) = 10%nat.
Proof. unfold register_resp. by rewrite length_app, length_header_bytes, length_cons, length_le32. Qed.

#[export] Hint Rewrite length_short_resp length_register_resp : chat_len.

(** Fuses consecutive writes and runs the one that remains at the start of a buffer. *)
Ltac fuse_puts := repeat (rewrite put_put_k || rewrite put_put); rewrite <- ?app_assoc.
Ltac run_puts := fuse_puts; rewrite put_start by len; cbn.

(** A response whose body is written before its header, the records of the body by a
    loop that also adds up the announced length. *)
Section patched.
  Context {X A : Type} (step : cursor * Z → X → outcome (cursor * Z)) (l : list X).
  Context (t : PacketType) (p body buf : bytes) (k : cursor → Z → outcome A).

  Hypothesis step_writes : ∀ c, (c_pos c ≤ length (c_buf c))%nat →
    mfold step l (c, 10%Z) =
    c' ← put body c; Ok (c', wrap32 (10 + Z.of_nat (length body))).

Definition patched_resp : bytes :=
  header_bytes (mkHeader t (wrap32 (10 + Z.of_nat (length body)))) ++ p ++ body.

Definition patched_run : outcome A :=
  c ← put p (skip sizeof_Header (Cursor buf 0));
  '(c, n) ← mfold step l (c, 10%Z);
  c ← put (header_bytes (mkHeader t n)) (rewind c);
  k c n.

Lemma patched_run_puts :
  patched_run =
  c ← put (p ++ body) (skip sizeof_Header (Cursor buf 0));
  c ← put (header_bytes (mkHeader t (wrap32 (10 + Z.of_nat (length body))))) (rewind c);
  k c (wrap32 (10 + Z.of_nat (length body))).
Proof using step_writes.
  rewrite <- put_put_k. apply put_bind_ext. intros c Hc.
  rewrite step_writes by done. by rewrite outcome_bind_assoc.
Qed.

Lemma length_patched_resp :
  length patched_resp = (sizeof_Header + length p + length body)%nat.
Proof. unfold patched_resp. len. Qed.

Lemma patched_run_ok :
  (length patched_resp ≤ length buf)%nat →
  patched_run = k (Cursor (patched_resp ++ drop (length patched_resp) buf) sizeof_Header)
                  (wrap32 (10 + Z.of_nat (length body))).
Proof using step_writes.
  rewrite length_patched_resp. intros Hb. rewrite patched_run_puts.
  rewrite <- outcome_bind_assoc. set (h := mkHeader t _).
  rewrite <- (length_header_bytes h) at 1. rewrite put_patch by len.
  cbn. unfold patched_resp. rewrite <- !app_assoc, !length_header_bytes, length_app.
  by rewrite Nat.add_assoc.
Qed.

Lemma patched_run_oob :
  (length buf < length patched_resp)%nat → patched_run = Oob.
Proof using step_writes.
  rewrite length_patched_resp. intros Hb. rewrite patched_run_puts.
  by rewrite put_oob by (cbn; len).
Qed.
End patched.

Section handlers.
  Context {ord : UMapOrder Z UserMetadata} `{Protobuf}.

Lemma put_short_resp t b buf :
  (6 ≤ length buf)%nat →
  (dest ← put (header_bytes (mkHeader t 1)) (Cursor buf 0); put [b] dest)
  = Ok (Cursor (short_resp t b ++ drop 6 buf) 6).
Proof. intros Hb. rewrite put_put. fold (short_resp t b). rewrite put_start by len. by rewrite length_short_resp. Qed.

(** *** Register *)

Lemma parseRequestRegister_run name rest s :
  (10 ≤ length (tx_buffer_ s))%nat →
  parseRequestRegister (name ++ rest) (Z.of_nat (length name)) s =
  Ok (10%Z, mkMccServer (registerUser name (db_ s)).2
              (register_resp (next_id_ (db_ s)) ++ drop 10 (tx_buffer_ s))).
Proof.
  intros Hb. unfold parseRequestRegister. rewrite rd_app by done. cbn.
  by run_puts.
Qed.

(** *** Send *)

Definition send_status (src tgt : Z) (db : Database) : SendStatus :=
  if negb (userExists src db) then kErrSrcId
  else if negb (userExists tgt db) then kErrTrgtId
  else kSuccess.

Definition send_effect (src tgt : Z) (m : bytes) (db : Database) : Database :=
  match send_status src tgt db with
  | kSuccess => (queueMsg tgt (mkMsg src m) db).2
  | _ => db
  end.

Lemma parseRequestSend_run src tgt m rest s :
  u32 src → u32 tgt → m ≠ [] → (6 ≤ length (tx_buffer_ s))%nat →
  parseRequestSend (le32 src ++ le32 tgt ++ m ++ rest) (8 + Z.of_nat (length m)) s =
  Ok (6%Z, mkMccServer (send_effect src tgt m (db_ s))
             (short_resp kRespSend (byte_of_SendStatus (send_status src tgt (db_ s)))
              ++ drop 6 (tx_buffer_ s))).
Proof.
  intros Hs Ht Hm Hb. unfold parseRequestSend, send_effect, send_status.
  assert (0 < length m)%nat by (destruct m; simpl; [done|lia]).
  rewrite (proj2 (Z.ltb_lt _ _)) by lia. cbn.
  rewrite rd32_le32, (wrap32_id src) by done. cbn.
  rewrite rd32_le32, (wrap32_id tgt) by done. cbn.
  rewrite rd_app by lia. cbn.
  destruct (userExists src (db_ s)), (userExists tgt (db_ s)); cbn;
    rewrite put_put_k; fold (short_resp kRespSend x00);
    by rewrite put_start by len.
Qed.

(** *** Users *)

Lemma users_body_cons id it l :
  users_body id (it :: l) = (if (it.1 =? id)%Z then [] else user_record it) ++ users_body id l.
Proof.
  unfold users_body, others. rewrite filter_cons.
  destruct (Z.eqb_spec it.1 id) as [->|]; by case_decide.
Qed.

Lemma length_user_record it :
  length (user_record it) = (8 + length (username it.2))%nat.
Proof. unfold user_record. rewrite !length_app, !length_le32. lia. Qed.

Lemma put_user_self id c n it : it.1 = id → put_user id (c, n) it = Ok (c, n).
Proof. intros <-. unfold put_user. by rewrite Z.eqb_refl. Qed.

Lemma put_user_other id c n it :
  it.1 ≠ id →
  put_user id (c, n) it =
  c' ← put (user_record it) c; Ok (c', wrap32 (n + Z.of_nat (length (user_record it)))).
Proof.
  intros Hne. unfold put_user. rewrite (proj2 (Z.eqb_neq _ _)) by done. fuse_puts.
  rewrite length_user_record.
  by replace (Z.of_nat (8 + length (username it.2)))
     with (4 + 4 + Z.of_nat (length (username it.2)))%Z by lia.
Qed.

Lemma mfold_put_user id l c n :
  (c_pos c ≤ length (c_buf c))%nat → u32 n →
  mfold (put_user id) l (c, n) =
  c' ← put (users_body id l) c; Ok (c', wrap32 (n + Z.of_nat (length (users_body id l)))).
Proof.
  revert c n. induction l as [|it l IH]; intros c n Hc Hn.
  { cbn. rewrite put_nil by done. cbn. by rewrite Z.add_0_r, wrap32_id. }
  rewrite users_body_cons. cbn [mfold].
  destruct (Z.eqb_spec it.1 id).
  { rewrite put_user_self by done. cbn. by apply IH. }
  rewrite put_user_other, <- put_put, !outcome_bind_assoc by done.
  destruct (put (user_record it) c) as [c'| | |] eqn:E; cbn; try done.
  apply put_inv in E as (_ & _ & ?). rewrite IH by auto with chat.
  rewrite wrap32_add_l, length_app. by rewrite Nat2Z.inj_add, Z.add_assoc.
Qed.

Lemma others_perm id m :
  others id (umap_seq m) ≡ₚ map_to_list (delete id m).
Proof.
  unfold others. rewrite umap_seq_perm.
  apply NoDup_Permutation.
  - apply NoDup_filter, NoDup_map_to_list.
  - apply NoDup_map_to_list.
  - intros [k u]. rewrite list_elem_of_filter, !elem_of_map_to_list, lookup_delete_Some. intuition.
Qed.

Lemma length_others id m :
  is_Some (m !! id) → (length (others id (umap_seq m)) + 1 = size m)%nat.
Proof.
  intros [u Hu]. rewrite others_perm, length_map_to_list.
  rewrite map_size_delete_Some by eauto. 
  pose proof (map_size_ne_0_lookup_2 m id ltac:(eauto)). lia.
Qed.

(** The header's own size, which the length counts when there is another user. *)
Definition header_excess (id : Z) (l : list (Z * UserMetadata)) : Z :=
  match others id l with [] => 0 | _ => 5 end.

(** The response to a users request of a registered user: the header announces the
    response value, the number of other users and their records, and the excess. *)
Definition users_resp (id : Z) (m : gmap Z UserMetadata) : bytes :=
  let l := umap_seq m in
  header_bytes (mkHeader kRespUsers
    (wrap32 (5 + header_excess id l + Z.of_nat (length (users_body id l))))) ++
  [x00] ++ le32 (Z.of_nat (length (others id l))) ++ users_body id l.

Lemma length_users_resp id m :
  length (users_resp id m) = (10 + length (users_body id (umap_seq m)))%nat.
Proof. unfold users_resp. rewrite !length_app, length_header_bytes, length_le32. done. Qed.

Lemma users_resp_nil id m :
  others id (umap_seq m) = [] →
  users_resp id m = header_bytes (mkHeader kRespUsers 5) ++ [x00] ++ le32 0.
Proof. intros E. unfold users_resp, header_excess, users_body. by rewrite E. Qed.

Lemma num_users_others id db :
  is_Some (user_map_ db !! id) → (Z.of_nat (size (user_map_ db)) ≤ 2 ^ 32)%Z →
  wrap32 (getNumUsers db - 1) = Z.of_nat (length (others id (umap_seq (user_map_ db)))).
Proof.
  intros Hid Hsz. pose proof (length_others id _ Hid). unfold getNumUsers, wrap32.
  rewrite Zminus_mod_idemp_l, Z.mod_small; lia.
Qed.

Lemma parseRequestUsers_unknown id rest s :
  u32 id → user_map_ (db_ s) !! id = None → (6 ≤ length (tx_buffer_ s))%nat →
  parseRequestUsers (le32 id ++ rest) 4 s =
  Ok (6%Z, mkMccServer (db_ s) (short_resp kRespUsers x01 ++ drop 6 (tx_buffer_ s))).
Proof.
  intros Hid Hn Hb. unfold parseRequestUsers. cbn.
  rewrite rd32_le32, (wrap32_id id) by done. cbn.
  rewrite (proj2 (userExists_false id (db_ s))) by done. cbn.
  by rewrite put_put_k, put_start by len.
Qed.

Lemma parseRequestUsers_known id rest s :
  u32 id → is_Some (user_map_ (db_ s) !! id) →
  (Z.of_nat (size (user_map_ (db_ s))) ≤ 2 ^ 32)%Z →
  let r := users_resp id (user_map_ (db_ s)) in
  (length r ≤ length (tx_buffer_ s))%nat →
  parseRequestUsers (le32 id ++ rest) 4 s =
  Ok (5 + wrap32 (5 + header_excess id (umap_seq (user_map_ (db_ s))) +
                  Z.of_nat (length (users_body id (umap_seq (user_map_ (db_ s)))))),
      mkMccServer (db_ s) (r ++ drop (length r) (tx_buffer_ s)))%Z.
Proof.
  intros Hid Hsome Hsz r Hb. unfold parseRequestUsers. cbn.
  rewrite rd32_le32, (wrap32_id id) by done. cbn.
  rewrite (proj2 (userExists_true id (db_ s))) by done. cbn.
  rewrite (num_users_others id) by done. set (l := umap_seq (user_map_ (db_ s))).
  destruct (others id l) as [|o os] eqn:E.
  - unfold r, header_excess, users_body in *. rewrite users_resp_nil, E in * by done. cbn.
    fuse_puts. by rewrite put_start.
  - rewrite (proj2 (Z.eqb_neq _ _)) by (simpl; lia). cbn [negb].
    trans (patched_run (put_user id) l kRespUsers ([x00] ++ le32 (Z.of_nat (length (others id l))))
             (tx_buffer_ s) (λ c n, Ok (5 + n, mkMccServer (db_ s) (c_buf c)))%Z).
    { rewrite E, put_put_k. apply put_bind_ext. intros c Hc. by rewrite for_db_spec. }
    assert (users_resp id (user_map_ (db_ s)) = patched_resp kRespUsers
              ([x00] ++ le32 (Z.of_nat (length (others id l)))) (users_body id l)) as Hr.
    { unfold users_resp, patched_resp, header_excess. fold l. by rewrite E, <- app_assoc. }
    unfold r in *. rewrite Hr in *. unfold header_excess. rewrite E.
    by rewrite (patched_run_ok _ _ _ _ (users_body id l))
      by (done || by intros; apply mfold_put_user).
Qed.

Lemma parseRequestUsers_oob id rest s :
  u32 id → is_Some (user_map_ (db_ s) !! id) →
  (Z.of_nat (size (user_map_ (db_ s))) ≤ 2 ^ 32)%Z →
  (length (tx_buffer_ s) < length (users_resp id (user_map_ (db_ s))))%nat →
  parseRequestUsers (le32 id ++ rest) 4 s = Oob.
Proof.
  intros Hid Hsome Hsz Hb. unfold parseRequestUsers. cbn.
  rewrite rd32_le32, (wrap32_id id) by done. cbn.
  rewrite (proj2 (userExists_true id (db_ s))) by done. cbn.
  rewrite (num_users_others id) by done. set (l := umap_seq (user_map_ (db_ s))).
  rewrite length_users_resp in Hb. fold l in Hb.
  destruct (others id l) as [|o os] eqn:E.
  - unfold users_body in Hb. rewrite E in Hb. cbn in *. change (Z.of_nat 0 =? 0)%Z with true. cbn. fuse_puts.
    by rewrite put_oob by (cbn; len).
  - rewrite (proj2 (Z.eqb_neq _ _)) by (simpl; lia). cbn [negb].
    trans (patched_run (put_user id) l kRespUsers ([x00] ++ le32 (Z.of_nat (length (others id l))))
             (tx_buffer_ s) (λ c n, Ok (5 + n, mkMccServer (db_ s) (c_buf c)))%Z).
    { rewrite E, put_put_k. apply put_bind_ext. intros c Hc. by rewrite for_db_spec. }
    apply (patched_run_oob _ _ _ _ (users_body id l));
      [by intros; apply mfold_put_user | rewrite length_patched_resp; len].
Qed.

(** *** Recv *)

(** A message whose length a 32-bit field can hold. *)
Definition short_msg (m : Msg) : Prop := (Z.of_nat (length (msg m)) < 2 ^ 32)%Z.

Lemma length_msg_record m : length (msg_record m) = (8 + length (msg m))%nat.
Proof. unfold msg_record. rewrite !length_app, !length_le32. lia. Qed.

Lemma put_msg_eq c n m :
  short_msg m →
  put_msg (c, n) m =
  c' ← put (msg_record m) c; Ok (c', wrap32 (n + Z.of_nat (length (msg_record m)))).
Proof.
  unfold short_msg. intros Hm. unfold put_msg.
  rewrite (wrap32_id (Z.of_nat _)) by (unfold u32; lia).
  rewrite Nat2Z.id, take_ge by done. fuse_puts. fold (msg_record m).
  rewrite (wrap32_add_l (n + 4)), wrap32_add_l, length_msg_record.
  by replace (n + Z.of_nat (8 + length (msg m)))%Z
     with (n + 4 + 4 + Z.of_nat (length (msg m)))%Z by lia.
Qed.

Lemma mfold_put_msg q c n :
  Forall short_msg q → (c_pos c ≤ length (c_buf c))%nat → u32 n →
  mfold put_msg q (c, n) =
  c' ← put (msgs_body q) c; Ok (c', wrap32 (n + Z.of_nat (length (msgs_body q)))).
Proof.
  intros Hq. revert c n. induction Hq as [|m q Hm Hq IH]; intros c n Hc Hn.
  { cbn. rewrite put_nil by done. cbn. by rewrite Z.add_0_r, wrap32_id. }
  cbn [mfold]. rewrite put_msg_eq, !outcome_bind_assoc by done.
  change (msgs_body (m :: q)) with (msg_record m ++ msgs_body q).
  rewrite <- put_put_k. apply put_bind_ext. intros c' Hc'. cbn.
  rewrite IH by auto with chat. by rewrite wrap32_add_l, length_app, Nat2Z.inj_add, Z.add_assoc.
Qed.

(** The response to a receive request of a registered user; its length always counts
    the header's own size. *)
Definition recv_resp (q : list Msg) : bytes :=
  patched_resp kRespRecv ([x00] ++ le32 (Z.of_nat (length q))) (msgs_body q).

Lemma length_recv_resp q : length (recv_resp q) = (10 + length (msgs_body q))%nat.
Proof. unfold recv_resp. rewrite length_patched_resp. len. Qed.

Lemma parseRequestRecv_unknown id rest s :
  u32 id → user_map_ (db_ s) !! id = None → (6 ≤ length (tx_buffer_ s))%nat →
  parseRequestRecv (le32 id ++ rest) 4 s =
  Ok (6%Z, mkMccServer (db_ s) (short_resp kRespRecv x01 ++ drop 6 (tx_buffer_ s))).
Proof.
  intros Hid Hn Hb. unfold parseRequestRecv. cbn.
  rewrite rd32_le32, (wrap32_id id) by done. cbn.
  rewrite (proj2 (userExists_false id (db_ s))) by done. cbn.
  by rewrite put_put_k, put_start by len.
Qed.

(** The handler for a registered user, its writes gathered. *)
Lemma parseRequestRecv_patched id u rest s :
  u32 id → user_map_ (db_ s) !! id = Some u →
  parseRequestRecv (le32 id ++ rest) 4 s =
  patched_run put_msg (msg_q u) kRespRecv ([x00] ++ le32 (Z.of_nat (length (msg_q u))))
    (tx_buffer_ s)
    (λ c n, Ok (5 + n, mkMccServer (db_modify id clear_q (db_ s)) (c_buf c)))%Z.
Proof.
  intros Hid Hu. unfold parseRequestRecv. cbn.
  rewrite rd32_le32, (wrap32_id id) by done. cbn.
  rewrite (proj2 (userExists_true id (db_ s))) by eauto. cbn.
  rewrite (db_index_present _ u) by done. cbn.
  by rewrite le32_wrap32, put_put_k.
Qed.

Lemma parseRequestRecv_known id u rest s :
  u32 id → user_map_ (db_ s) !! id = Some u →
  Forall short_msg (msg_q u) →
  let r := recv_resp (msg_q u) in
  (length r ≤ length (tx_buffer_ s))%nat →
  parseRequestRecv (le32 id ++ rest) 4 s =
  Ok (5 + wrap32 (10 + Z.of_nat (length (msgs_body (msg_q u)))),
      mkMccServer (db_modify id clear_q (db_ s)) (r ++ drop (length r) (tx_buffer_ s)))%Z.
Proof.
  intros Hid Hu Hm r Hb. rewrite (parseRequestRecv_patched _ u) by done.
  by rewrite (patched_run_ok _ _ _ _ (msgs_body (msg_q u)))
    by (done || by intros; apply mfold_put_msg).
Qed.

Lemma parseRequestRecv_oob id u rest s :
  u32 id → user_map_ (db_ s) !! id = Some u →
  Forall short_msg (msg_q u) →
  (length (tx_buffer_ s) < length (recv_resp (msg_q u)))%nat →
  parseRequestRecv (le32 id ++ rest) 4 s = Oob.
Proof.
  intros Hid Hu Hm Hb. rewrite (parseRequestRecv_patched _ u) by done.
  apply (patched_run_oob _ _ _ _ (msgs_body (msg_q u))); [|done].
  by intros; apply mfold_put_msg.
Qed.

End handlers.
