(* ===== verification/ParseSpec.v ===== *)
(** [MccServer::parse] on arbitrary bytes ([src/server/server.cpp]): a reference
    definition that first decodes the packet and then serves it, the equivalence of the
    two, and the exact inputs on which the code leaves its buffers. *)

From S2P Require Import Prelude.
From S2P Require Import Common.
From S2P Require Import Database.
From S2P Require Import Packet.
From S2P Require Import Wire.
From S2P Require Import Server.
From S2P Require Import ServerProofs.

Open Scope Z_scope.

(** ** The reference definition *)

(** What a packet asks for; [PkProto] is what falls through to the protobuf handler. *)
Inductive packet :=
| PkRegister (name : bytes)
| PkUsers (id : Z)
| PkSend (src tgt : Z) (m : bytes)
| PkRecv (id : Z)
| PkProto (rx_buffer : bytes).

(** [data] is what can be read from the pointer on. *)
Definition decode (data : bytes) (size : Z) : outcome packet :=
  '(h, p) ← rd_header data;
  match type h with
  | kRequestRegister => '(name, _) ← rd (len h) p; Ok (PkRegister name)
  | kRequestUsers =>
      _ ← cassert (len h =? kReqUsersPayloadLen);
      '(id, _) ← rd32 p; Ok (PkUsers id)
  | kRequestSend =>
      _ ← cassert (kReqSendMinPayloadLen <? len h);
      '(src, p) ← rd32 p;
      '(tgt, p) ← rd32 p;
      '(m, _) ← rd (len h - kReqSendMinPayloadLen) p; Ok (PkSend src tgt m)
  | kRequestRecv =>
      _ ← cassert (len h =? kReqRecvPayloadLen);
      '(id, _) ← rd32 p; Ok (PkRecv id)
  | _ => '(rx_buffer, _) ← rd size data; Ok (PkProto rx_buffer)
  end.

Section spec.
  Context {ord : UMapOrder Z UserMetadata} `{Protobuf}.

(** The name that the protobuf handler finds. *)
Definition proto_name (rx_buffer : bytes) : bytes :=
  let '(_, _, iss) := Header_ParseFromIstream rx_buffer in
  let '(_, req, _) := RequestRegister_ParseFromIstream iss in
  get_str (rr_username req).

(** The bytes of the response, the size that is returned, and the database afterwards. *)
Definition serve_packet (pk : packet) (db : Database) : bytes * Z * Database :=
  match pk with
  | PkRegister name =>
      let '(id, db) := registerUser name db in (register_resp id, 10, db)
  | PkProto rx_buffer =>
      let '(id, db) := registerUser (proto_name rx_buffer) db in (register_resp id, 10, db)
  | PkUsers id =>
      let l := umap_seq (user_map_ db) in
      if userExists id db
      then (users_resp id (user_map_ db),
            5 + wrap32 (5 + header_excess id l + Z.of_nat (length (users_body id l))), db)
      else (short_resp kRespUsers x01, 6, db)
  | PkSend src tgt m =>
      (short_resp kRespSend (byte_of_SendStatus (send_status src tgt db)), 6,
       send_effect src tgt m db)
  | PkRecv id =>
      match user_map_ db !! id with
      | Some u => (recv_resp (msg_q u), 5 + wrap32 (10 + Z.of_nat (length (msgs_body (msg_q u)))),
                   db_modify id clear_q db)
      | None => (short_resp kRespRecv x01, 6, db)
      end
  end.

(** Writes a response at the front of the transmit buffer, if it fits. *)
Definition respond (r : bytes * Z * Database) (tx : bytes) : outcome (Z * MccServer) :=
  let '(resp, n, db) := r in
  if decide (length resp ≤ length tx)%nat
  then Ok (n, mkMccServer db (resp ++ drop (length resp) tx))
  else Oob.

(** Decode, serve, and respond. *)
Definition parse_spec (data : bytes) (size : Z) (s : MccServer) : outcome (Z * MccServer) :=
  pk ← decode data size; respond (serve_packet pk (db_ s)) (tx_buffer_ s).

End spec.
Arguments respond : simpl never.

(** ** Ranges

    Every ID is a 32-bit number, and every queued message has a length that the
    32-bit field of a record can hold. *)
Record db_typed (db : Database) : Prop := {
  ty_next : u32 (next_id_ db);
  ty_users : map_Forall (λ k u, u32 k ∧ Forall (λ m, u32 (sender_id m) ∧ short_msg m) (msg_q u))
               (user_map_ db);
}.

(** The same of a decoded packet. *)
Definition packet_typed (pk : packet) : Prop :=
  match pk with
  | PkRegister name => u32 (Z.of_nat (length name))
  | PkUsers id | PkRecv id => u32 id
  | PkSend src tgt m => u32 src ∧ u32 tgt ∧ m ≠ [] ∧ u32 (8 + Z.of_nat (length m))
  | PkProto _ => True
  end.

Lemma db_typed_init : db_typed Database_init.
Proof. split; [done|]. apply map_Forall_empty. Qed.

Lemma db_typed_size db : db_typed db → Z.of_nat (size (user_map_ db)) ≤ 2 ^ 32.
Proof.
  intros [_ Hu].
  assert (dom (user_map_ db) ⊆ (list_to_set (seqZ 0 (2 ^ 32)) : gset Z)) as Hd.
  { intros k [u Hk]%elem_of_dom. apply elem_of_list_to_set, elem_of_seqZ.
    destruct (Hu k u Hk) as [Hk' _]. unfold u32 in Hk'. lia. }
  apply subseteq_size in Hd. rewrite size_dom in Hd.
  rewrite size_list_to_set, length_seqZ in Hd by apply NoDup_seqZ. lia.
Qed.

Lemma db_typed_insert db k u :
  db_typed db → u32 k → Forall (λ m, u32 (sender_id m) ∧ short_msg m) (msg_q u) →
  db_typed (mkDatabase (next_id_ db) (<[k := u]> (user_map_ db))).
Proof. intros [Hn Hu] Hk Hq. split; [done|]. by apply map_Forall_insert_2. Qed.

Lemma db_typed_register name db : db_typed db → db_typed (registerUser name db).2.
Proof.
  intros Hdb. destruct (db_typed_insert db (next_id_ db) (mkUserMetadata name []) Hdb) as [_ Hu];
    [apply (ty_next _ Hdb)|by constructor|]. split; [apply wrap32_u32|exact Hu].
Qed.

Lemma db_typed_queueMsg id m db :
  db_typed db → u32 (sender_id m) → short_msg m → db_typed (queueMsg id m db).2.
Proof.
  intros Hdb Hs Hm. destruct (user_map_ db !! id) as [u|] eqn:E;
    [|by rewrite queueMsg_absent].
  destruct (ty_users _ Hdb id u E) as [Hid Hq].
  rewrite (queueMsg_present _ u) by done. apply db_typed_insert; [done..|].
  cbn. apply Forall_app. split; [done|by apply Forall_singleton].
Qed.

Lemma db_typed_clear id u db :
  db_typed db → user_map_ db !! id = Some u → db_typed (db_modify id clear_q db).
Proof.
  intros Hdb E. rewrite (db_modify_present _ u) by done.
  destruct (ty_users _ Hdb id u E) as [Hid _]. apply db_typed_insert; [done..|by constructor].
Qed.

Lemma rd_length n p a q : 0 ≤ n → rd n p = Ok (a, q) → Z.of_nat (length a) = n.
Proof. intros Hn Hr. by apply rd_ok in Hr as [_ ?]. Qed.

Lemma rd32_ok p z q : rd32 p = Ok (z, q) → p = le32 z ++ q ∧ u32 z.
Proof.
  intros Hr. split; [|by apply (rd32_u32 p z q)]. unfold rd32 in Hr.
  destruct (rd 4 p) as [[b r]| | |] eqn:E; cbn in Hr; simplify_eq.
  apply rd_ok in E as [-> Hl]; [|lia]. f_equal. symmetry. unfold le32.
  replace 4%nat with (length b) by lia. apply split_le_combine.
Qed.

Lemma rd_header_u32 p h q : rd_header p = Ok (h, q) → u32 (len h).
Proof. unfold rd_header. intros Hr. inv_ok. by eapply rd32_u32. Qed.

Lemma decode_typed data size pk : decode data size = Ok pk → packet_typed pk.
Proof.
  unfold decode. intros Hd. inv_ok.
  match goal with H : rd_header _ = Ok (?h, _) |- _ =>
    pose proof (rd_header_u32 _ _ _ H) as Hl; destruct (type h) end; inv_ok; cbn;
    repeat match goal with
    | H : rd32 _ = Ok (_, _) |- _ => apply rd32_ok in H as [-> ?]
    | H : rd ?n _ = Ok (_, _) |- _ => apply rd_length in H; [|unfold u32 in *; lia]
    end; try done; unfold u32 in *; try (split_and!; try done); try lia.
  all: unfold kReqSendMinPayloadLen in *.
  all: apply Z.ltb_lt in Heqb.
  - intros ->. cbn in *. lia.
  - lia.
Qed.

(** ** The handlers against the reference definition *)

Lemma put_respond resp n db tx :
  (dest ← put resp (Cursor tx 0); Ok (n, mkMccServer db (c_buf dest))) = respond (resp, n, db) tx.
Proof.
  unfold respond. case_decide; [by rewrite put_start|]. by rewrite put_oob by (cbn; lia).
Qed.

Section handlers.
  Context {ord : UMapOrder Z UserMetadata} `{Protobuf}.

Lemma parseRequestRegister_spec data n name rest s :
  rd n data = Ok (name, rest) →
  parseRequestRegister data n s = respond (serve_packet (PkRegister name) (db_ s)) (tx_buffer_ s).
Proof.
  intros Hr. unfold parseRequestRegister. rewrite Hr. cbn [mbind outcome_bind serve_packet registerUser].
  rewrite <- put_respond. by fuse_puts.
Qed.

Lemma parseRequestRegisterProto_spec rx s :
  parseRequestRegisterProto rx s = respond (serve_packet (PkProto rx) (db_ s)) (tx_buffer_ s).
Proof.
  unfold parseRequestRegisterProto. cbn [serve_packet]. unfold proto_name.
  destruct (Header_ParseFromIstream rx) as [[? ?] iss].
  destruct (RequestRegister_ParseFromIstream iss) as [[? req] ?]. cbn [registerUser].
  rewrite <- put_respond. by fuse_puts.
Qed.

Lemma parse_proto_spec data size s :
  ('(rx, _) ← rd size data; parseRequestRegisterProto rx s) =
  pk ← ('(rx, _) ← rd size data; Ok (PkProto rx)); respond (serve_packet pk (db_ s)) (tx_buffer_ s).
Proof. destruct (rd size data) as [[rx ?]| | |]; [apply parseRequestRegisterProto_spec|done..]. Qed.

Lemma parseRequestUsers_spec id rest s :
  db_typed (db_ s) → u32 id →
  parseRequestUsers (le32 id ++ rest) 4 s =
  respond (serve_packet (PkUsers id) (db_ s)) (tx_buffer_ s).
Proof.
  intros Hdb Hid. pose proof (db_typed_size _ Hdb). cbn [serve_packet].
  destruct (userExists id (db_ s)) eqn:E.
  - apply userExists_true in E. unfold respond. case_decide.
    + by apply parseRequestUsers_known.
    + apply parseRequestUsers_oob; [done..|lia].
  - unfold parseRequestUsers. cbn. rewrite rd32_le32, (wrap32_id id) by done. cbn. rewrite E. cbn.
    rewrite <- put_respond. by fuse_puts.
Qed.

Lemma parseRequestSend_spec src tgt m rest s :
  u32 src → u32 tgt → m ≠ [] →
  parseRequestSend (le32 src ++ le32 tgt ++ m ++ rest) (8 + Z.of_nat (length m)) s =
  respond (serve_packet (PkSend src tgt m) (db_ s)) (tx_buffer_ s).
Proof.
  intros Hs Ht Hm. unfold respond. cbn [serve_packet]. rewrite length_short_resp.
  case_decide; [by apply parseRequestSend_run|].
  assert (0 < length m)%nat by (destruct m; cbn; [done|lia]).
  unfold parseRequestSend. rewrite (proj2 (Z.ltb_lt _ _)) by lia. cbn.
  rewrite rd32_le32; cbn. rewrite rd32_le32; cbn. rewrite rd_app by lia. cbn.
  repeat case_match; fuse_puts; by rewrite put_oob by (cbn; len).
Qed.

Lemma parseRequestSend_decode p n s :
  8 < n → u32 n →
  parseRequestSend p n s =
  pk ← ('(src, p) ← rd32 p; '(tgt, p) ← rd32 p; '(m, _) ← rd (n - kReqSendMinPayloadLen) p;
        Ok (PkSend src tgt m));
  respond (serve_packet pk (db_ s)) (tx_buffer_ s).
Proof.
  intros Hn Hu. unfold kReqSendMinPayloadLen.
  assert (∀ A (f : unit → outcome A), (cassert (4 * 2 <? n) ≫= f) = f tt) as Hc
    by (intros; by rewrite (proj2 (Z.ltb_lt _ _))).
  destruct (rd32 p) as [[src p1]| | |] eqn:E1; cbn;
    [|by unfold parseRequestSend; rewrite Hc, E1..].
  apply rd32_ok in E1 as [-> Hs].
  destruct (rd32 p1) as [[tgt p2]| | |] eqn:E2; cbn;
    [|by unfold parseRequestSend; rewrite Hc, rd32_le32; cbn; rewrite E2..].
  apply rd32_ok in E2 as [-> Ht].
  destruct (rd _ p2) as [[m p3]| | |] eqn:E3; cbn;
    [|by unfold parseRequestSend; rewrite Hc, rd32_le32; cbn; rewrite rd32_le32; cbn;
      change (4 * 2) with 8; rewrite E3..].
  apply rd_ok in E3 as [-> Hm]; [|lia].
  replace n with (8 + Z.of_nat (length m)) by lia. apply parseRequestSend_spec; [done..|].
  intros ->. cbn in *. lia.
Qed.

Lemma parseRequestRecv_spec id rest s :
  db_typed (db_ s) → u32 id →
  parseRequestRecv (le32 id ++ rest) 4 s =
  respond (serve_packet (PkRecv id) (db_ s)) (tx_buffer_ s).
Proof.
  intros Hdb Hid. cbn [serve_packet].
  destruct (user_map_ (db_ s) !! id) as [u|] eqn:E.
  - assert (Forall short_msg (msg_q u)) as Hq.
    { destruct (ty_users _ Hdb id u E) as [_ Hq]. eapply Forall_impl; [exact Hq|]. by intros m []. }
    unfold respond. case_decide.
    + by apply parseRequestRecv_known.
    + apply (parseRequestRecv_oob id u); [done..|lia].
  - unfold parseRequestRecv. cbn. rewrite rd32_le32, (wrap32_id id) by done. cbn.
    rewrite (proj2 (userExists_false id (db_ s))) by done. cbn.
    rewrite <- put_respond. by fuse_puts.
Qed.

(** The code against the reference definition. *)
Lemma parse_decodes data size s :
  db_typed (db_ s) → parse data size s = parse_spec data size s.
Proof.
  intros Hdb. unfold parse, parse_spec, decode.
  destruct (rd_header data) as [[h p]| | |] eqn:Eh; cbn; try done.
  pose proof (rd_header_u32 _ _ _ Eh) as Hl.
  destruct (type h); try apply parse_proto_spec.
  - destruct (rd (len h) p) as [[name r]| | |] eqn:E; cbn;
      [by apply (parseRequestRegister_spec _ _ _ r)|by unfold parseRequestRegister; rewrite E..].
  - destruct (Z.eqb_spec (len h) kReqUsersPayloadLen) as [El|El]; cbn;
      [|by unfold parseRequestUsers; rewrite (proj2 (Z.eqb_neq (len h) 4) El)].
    change kReqUsersPayloadLen with 4 in El. rewrite El.
    destruct (rd32 p) as [[id r]| | |] eqn:E; cbn; [|by unfold parseRequestUsers; cbn; rewrite E..].
    apply rd32_ok in E as [-> Hid]. by apply parseRequestUsers_spec.
  - destruct (Z.ltb_spec kReqSendMinPayloadLen (len h)) as [El|El]; cbn;
      [|by unfold parseRequestSend; rewrite (proj2 (Z.ltb_ge (4 * 2) (len h)) El)].
    by apply parseRequestSend_decode.
  - destruct (Z.eqb_spec (len h) kReqRecvPayloadLen) as [El|El]; cbn;
      [|by unfold parseRequestRecv; rewrite (proj2 (Z.eqb_neq (len h) 4) El)].
    change kReqRecvPayloadLen with 4 in El. rewrite El.
    destruct (rd32 p) as [[id r]| | |] eqn:E; cbn; [|by unfold parseRequestRecv; cbn; rewrite E..].
    apply rd32_ok in E as [-> Hid]. by apply parseRequestRecv_spec.
Qed.

End handlers.

(** ** Bounds *)

(** The number of bytes the code reads from the pointer on: the length checks of [parse]
    are commented out, so it is the sender who chooses it. *)
Definition read_extent (data : bytes) (size : Z) : Z :=
  match rd_header data with
  | Ok (h, _) =>
      match type h with
      | kRequestRegister => 5 + len h
      | kRequestUsers | kRequestRecv => if len h =? 4 then 9 else 5
      | kRequestSend => if 8 <? len h then 5 + len h else 5
      | _ => size
      end
  | _ => 5
  end.

(** The number of bytes the code writes to the transmit buffer. *)
Definition write_extent (pk : packet) (db : Database) : Z :=
  match pk with
  | PkRegister _ | PkProto _ => 10
  | PkUsers id =>
      if userExists id db
      then 10 + Z.of_nat (sum_list_with (λ it, 8 + length (username it.2))%nat
                            (map_to_list (delete id (user_map_ db))))
      else 6
  | PkSend _ _ _ => 6
  | PkRecv id =>
      match user_map_ db !! id with
      | Some u => 10 + Z.of_nat (sum_list_with (λ m, 8 + length (msg m))%nat (msg_q u))
      | None => 6
      end
  end.

Lemma length_concat_map {A} (f : A → bytes) l :
  length (concat (map f l)) = sum_list_with (λ x, length (f x)) l.
Proof. induction l as [|x l IH]; [done|]. cbn. by rewrite length_app, IH. Qed.

Lemma sum_list_with_ext {A} (f g : A → nat) l :
  (∀ x, f x = g x) → sum_list_with f l = sum_list_with g l.
Proof. intros Hfg. induction l as [|x l IH]; [done|]. cbn. by rewrite Hfg, IH. Qed.

Lemma rd_oob_iff n p : rd n p = Oob ↔ Z.of_nat (length p) < n.
Proof. unfold rd. case_match eqn:E; split; try done; intros; [by apply Z.ltb_lt|apply Z.ltb_ge in E; lia]. Qed.

Lemma rd_cases n p :
  (Z.of_nat (length p) < n ∧ rd n p = Oob) ∨
  (n ≤ Z.of_nat (length p) ∧ ∃ a, rd n p = Ok (a, drop (Z.to_nat n) p)).
Proof. unfold rd. destruct (Z.ltb_spec (Z.of_nat (length p)) n); eauto. Qed.

Lemma rd32_cases p :
  (Z.of_nat (length p) < 4 ∧ rd32 p = Oob) ∨
  (4 ≤ Z.of_nat (length p) ∧ ∃ z, rd32 p = Ok (z, drop 4 p)).
Proof.
  unfold rd32. destruct (rd_cases 4 p) as [[? ->]|[? [a ->]]]; cbn; [by left|right; eauto].
Qed.

Lemma rd_header_cases p :
  (Z.of_nat (length p) < 5 ∧ rd_header p = Oob) ∨
  (5 ≤ Z.of_nat (length p) ∧ ∃ h, rd_header p = Ok (h, drop 5 p)).
Proof.
  unfold rd_header. destruct p as [|b p]; [by left|]. cbn [rd8 mbind outcome_bind].
  destruct (rd32_cases p) as [[? ->]|[? [z ->]]]; cbn; [left|right]; split; eauto; lia.
Qed.

(** Decoding reads outside the packet exactly when the extent exceeds what is there. *)
Lemma decode_oob_iff data size :
  decode data size = Oob ↔ Z.of_nat (length data) < read_extent data size.
Proof.
  unfold decode, read_extent.
  destruct (rd_header_cases data) as [[? ->]|[? [h Hh]]]; [by cbn|].
  rewrite Hh. cbn [mbind outcome_bind]. apply rd_header_u32 in Hh as Hl.
  assert (Z.of_nat (length (drop 5 data)) = Z.of_nat (length data) - 5) as Hd by len.
  destruct (type h);
    try (destruct (rd_cases size data) as [[? ->]|[? [? ->]]]; cbn; split; [done|done|done|lia]).
  all: unfold u32, kReqUsersPayloadLen, kReqSendMinPayloadLen, kReqRecvPayloadLen in *.
  - destruct (rd_cases (len h) (drop 5 data)) as [[? ->]|[? [? ->]]]; cbn; split; (done || lia).
  - destruct (Z.eqb_spec (len h) 4); cbn; [|split; (done || lia)].
    destruct (rd32_cases (drop 5 data)) as [[? ->]|[? [? ->]]]; cbn; split; (done || lia).
  - destruct (Z.ltb_spec 8 (len h)); cbn; [|split; (done || lia)].
    destruct (rd32_cases (drop 5 data)) as [[? ->]|[? [? ->]]]; cbn; [split; (done || lia)|].
    destruct (rd32_cases (drop 4 (drop 5 data))) as [[? ->]|[? [? ->]]]; cbn;
      [split; [len|done]|].
    destruct (rd_cases (len h - 8) (drop 4 (drop 4 (drop 5 data)))) as [[? ->]|[? [? ->]]];
      cbn; (split; [done || len|done || len]).
  - destruct (Z.eqb_spec (len h) 4); cbn; [|split; (done || lia)].
    destruct (rd32_cases (drop 5 data)) as [[? ->]|[? [? ->]]]; cbn; split; (done || lia).
Qed.

Section bounds.
  Context {ord : UMapOrder Z UserMetadata} `{Protobuf}.

Lemma length_users_body id m :
  length (users_body id (umap_seq m)) =
  sum_list_with (λ it, 8 + length (username it.2))%nat (map_to_list (delete id m)).
Proof.
  unfold users_body. rewrite length_concat_map, (others_perm id m).
  apply sum_list_with_ext, length_user_record.
Qed.

Lemma length_msgs_body q :
  length (msgs_body q) = sum_list_with (λ m, 8 + length (msg m))%nat q.
Proof. unfold msgs_body. rewrite length_concat_map. apply sum_list_with_ext, length_msg_record. Qed.

Lemma serve_packet_extent pk db :
  Z.of_nat (length (serve_packet pk db).1.1) = write_extent pk db.
Proof.
  destruct pk as [name|id|src tgt m|id|rx]; cbn [serve_packet write_extent registerUser];
    try by rewrite ?length_register_resp, ?length_short_resp.
  - case_match; cbn [fst]; [|by rewrite length_short_resp].
    rewrite length_users_resp, length_users_body. lia.
  - case_match; cbn [fst]; [|by rewrite length_short_resp].
    rewrite length_recv_resp, length_msgs_body. lia.
Qed.

Lemma respond_oob_iff r tx : respond r tx = Oob ↔ (length tx < length r.1.1)%nat.
Proof. destruct r as [[resp n] db]. unfold respond. case_decide; cbn; split; (done || lia). Qed.

(** C20. [parse] leaves its buffers in exactly two cases: the packet announces more than
    can be read, or the response is larger than the transmit buffer. *)
Theorem parse_oob_iff data size s :
  db_typed (db_ s) →
  parse data size s = Oob ↔
  Z.of_nat (length data) < read_extent data size ∨
  ∃ pk, decode data size = Ok pk ∧
        Z.of_nat (length (tx_buffer_ s)) < write_extent pk (db_ s).
Proof.
  intros Hdb. rewrite parse_decodes, <- decode_oob_iff by done. unfold parse_spec.
  destruct (decode data size) as [pk| | |]; cbn; [|split; [naive_solver|intros [?|(? & ? & _)]; done]..].
  rewrite respond_oob_iff. pose proof (serve_packet_extent pk (db_ s)). split.
  - intros Hl. right. exists pk. split; [done|lia].
  - intros [?|(? & [= <-] & ?)]; [done|lia].
Qed.

(** ** Types *)

Lemma serve_packet_typed pk db :
  packet_typed pk → db_typed db → db_typed (serve_packet pk db).2.
Proof.
  intros Hpk Hdb. destruct pk as [name|id|src tgt m|id|rx]; cbn [serve_packet packet_typed] in *.
  - by apply (db_typed_register name).
  - by case_match.
  - destruct Hpk as (Hs & Ht & Hm & Hl). unfold send_effect, send_status.
    repeat case_match; cbn [snd]; try done.
    apply db_typed_queueMsg; [done..|]. unfold short_msg, u32 in *. cbn. lia.
  - case_match; [|done]. by eapply db_typed_clear.
  - by apply (db_typed_register (proto_name rx)).
Qed.

Lemma length_respond r tx n s :
  respond r tx = Ok (n, s) → db_ s = r.2 ∧ n = r.1.2 ∧ length (tx_buffer_ s) = length tx.
Proof.
  destruct r as [[resp n'] db]. unfold respond. case_decide; [|done]. intros [= <- <-]. cbn.
  split_and!; [done..|]. len.
Qed.

Lemma parse_typed data size s n s' :
  db_typed (db_ s) → parse data size s = Ok (n, s') →
  db_typed (db_ s') ∧ length (tx_buffer_ s') = length (tx_buffer_ s).
Proof.
  intros Hdb. rewrite parse_decodes by done. unfold parse_spec. intros Hp.
  destruct (decode data size) as [pk| | |] eqn:Ed; cbn in Hp; try done.
  apply length_respond in Hp as (-> & _ & ?). split; [|done].
  apply serve_packet_typed; [by eapply decode_typed|done].
Qed.

(** C10. [parse] on arbitrary bytes is the reference definition: the packet is decoded,
    served and answered; a response that does not fit is undefined behaviour, and what a
    response does not overwrite stays in the transmit buffer. *)
Theorem parse_equals_spec data size s :
  db_typed (db_ s) → parse data size s = parse_spec data size s.
Proof. apply parse_decodes. Qed.

End bounds.

(** ** Concrete inputs *)

#[local] Existing Instance canonical_order.

(** A fresh server with a transmit buffer of [n] bytes. *)
Definition fresh_server (n : nat) : MccServer := mkMccServer Database_init (replicate n x00).

(** A users request for ID 0, and a register request that announces four bytes too many. *)
Definition users_packet : bytes := header_bytes (mkHeader kRequestUsers 4) ++ le32 0.
Definition long_packet : bytes := header_bytes (mkHeader kRequestRegister 7) ++ str "Ann".

Lemma parse_equals_spec_witness :
  parse users_packet 9 (fresh_server 8) = parse_spec users_packet 9 (fresh_server 8).
Proof. apply (parse_equals_spec users_packet 9 (fresh_server 8)), db_typed_init. Defined.

Lemma parse_oob_iff_witness :
  parse long_packet 8 (fresh_server 10) = Oob ∧ parse users_packet 9 (fresh_server 5) = Oob ∧
  parse users_packet 9 (fresh_server 6) ≠ Oob.
Proof.
  split_and!.
  - apply (parse_oob_iff long_packet 8 (fresh_server 10) db_typed_init). left. by vm_compute.
  - apply (parse_oob_iff users_packet 9 (fresh_server 5) db_typed_init).
    right. exists (PkUsers 0). by vm_compute.
  - intros [Hl|(pk & [= <-] & Hl)]%(parse_oob_iff users_packet 9 (fresh_server 6) db_typed_init);
      by vm_compute in Hl.
Defined.
