(* ===== verification/Protocol.v ===== *)
(** The binary protocol end to end: a request encoded by the client, copied to the
    server, handled there, and its response copied back and decoded by the client
    ([src/client/client.cpp] against [src/server/server.cpp], message formats of
    [README.md], section 4). *)

From S2P Require Import Prelude.
From S2P Require Import Common.
From S2P Require Import Database.
From S2P Require Import Packet.
From S2P Require Import Server.
From S2P Require Import Client.
From S2P Require Import ServerProofs.

(** ** The encoders *)

Definition register_req (name : bytes) : bytes :=
  header_bytes (mkHeader kRequestRegister (wrap32 (Z.of_nat (length name)))) ++ name.
Definition users_req (id : Z) : bytes := header_bytes (mkHeader kRequestUsers 4) ++ le32 id.
Definition send_req (src tgt : Z) (m : bytes) : bytes :=
  header_bytes (mkHeader kRequestSend (wrap32 (8 + Z.of_nat (length m)))) ++
  le32 src ++ le32 tgt ++ m.
Definition recv_req (id : Z) : bytes := header_bytes (mkHeader kRequestRecv 4) ++ le32 id.

Lemma length_register_req name : length (register_req name) = (5 + length name)%nat.
Proof. unfold register_req. len. Qed.
Lemma length_users_req id : length (users_req id) = 9%nat.
Proof. unfold users_req. len. Qed.
Lemma length_send_req src tgt m : length (send_req src tgt m) = (13 + length m)%nat.
Proof. unfold send_req. len. Qed.
Lemma length_recv_req id : length (recv_req id) = 9%nat.
Proof. unfold recv_req. len. Qed.
#[export] Hint Rewrite length_register_req length_users_req length_send_req
  length_recv_req length_recv_resp : chat_len.

(** Every encoder writes its request at the start of the buffer and returns its size. *)
Definition encodes (enc : bytes → outcome (Z * bytes)) (req : bytes) : Prop :=
  ∀ tx, (length req ≤ length tx)%nat →
    enc tx = Ok (Z.of_nat (length req), req ++ drop (length req) tx).

Ltac encode := intros tx Hb; fuse_puts; rewrite put_start by (len || done); cbn;
  do 2 f_equal; len.

Lemma encodeRequestRegister_encodes name :
  encodes (encodeRequestRegister name) (register_req name).
Proof. unfold encodeRequestRegister, register_req. encode. Qed.
Lemma encodeRequestUsers_encodes id : encodes (encodeRequestUsers id) (users_req id).
Proof. unfold encodeRequestUsers, users_req. encode. Qed.
Lemma encodeRequestSend_encodes src tgt m :
  encodes (encodeRequestSend src tgt m) (send_req src tgt m).
Proof. unfold encodeRequestSend, send_req. encode. Qed.
Lemma encodeRequestRecv_encodes id : encodes (encodeRequestRecv id) (recv_req id).
Proof. unfold encodeRequestRecv, recv_req. encode. Qed.

(** ** The decoders *)

Lemma at_offset_header h p : at_offset sizeof_Header (header_bytes h ++ p) = p.
Proof. unfold at_offset. by rewrite drop_app_length' by (by rewrite length_header_bytes). Qed.

Lemma validateRespHeader_header t h p :
  canonical_type (type h) →
  validateRespHeader t (header_bytes h ++ p) = Ok (bool_decide (type h = t)).
Proof. intros Hc. unfold validateRespHeader. by rewrite rd_header_header_bytes. Qed.

(** A handler rejects a response of another type and leaves its out-parameter alone. *)
Ltac reject := intros; rewrite validateRespHeader_header, bool_decide_eq_false_2 by done.

Lemma handleRespRegister_resp id j id0 :
  u32 id → handleRespRegister (register_resp id ++ j) id0 = Ok (true, id).
Proof.
  intros Hid. unfold handleRespRegister, register_resp. rewrite <- app_assoc.
  rewrite validateRespHeader_header, at_offset_header by done. cbn.
  by rewrite rd32_le32, wrap32_id.
Qed.

Lemma handleRespSend_resp b j st :
  handleRespSend (short_resp kRespSend b ++ j) st = Ok (true, SendStatus_of_byte b).
Proof.
  unfold handleRespSend, short_resp. rewrite <- app_assoc.
  by rewrite validateRespHeader_header, at_offset_header.
Qed.

(** The map the loop of [handleRespUsers] builds: a later record of a name wins. *)
Definition names_of (l : list (Z * UserMetadata)) (acc : gmap bytes Z) : gmap bytes Z :=
  foldl (λ m it, <[username it.2 := it.1]> m) acc l.

(** Records whose fields a 32-bit integer can hold. *)
Definition short_user (it : Z * UserMetadata) : Prop :=
  u32 it.1 ∧ u32 (Z.of_nat (length (username it.2))).

Lemma read_users_records l j acc :
  Forall short_user l →
  read_users (length l) (concat (map user_record l) ++ j) acc = Ok (names_of l acc).
Proof.
  intros Hl. revert acc. induction Hl as [|it l [Hid Hn] Hl IH]; intros acc; [done|].
  cbn [length map concat read_users]. unfold user_record at 1. rewrite <- !app_assoc.
  rewrite rd32_le32, (wrap32_id it.1) by done. cbn.
  rewrite rd32_le32, wrap32_id by done. cbn. rewrite rd_app by done. cbn. apply IH.
Qed.

Lemma read_msgs_records q j acc :
  Forall short_msg q → Forall (λ m, u32 (sender_id m)) q →
  read_msgs (length q) (msgs_body q ++ j) acc = Ok (acc ++ q).
Proof.
  intros Hq. revert acc. induction Hq as [|m q Hm Hq IH]; intros acc Hs.
  { cbn. by rewrite app_nil_r. }
  apply Forall_cons in Hs as [Hs Hss].
  change (msgs_body (m :: q)) with (msg_record m ++ msgs_body q). cbn [length read_msgs].
  unfold msg_record. rewrite <- !app_assoc.
  rewrite rd32_le32, (wrap32_id (sender_id m)) by done. cbn.
  rewrite rd32_le32, wrap32_id by (unfold short_msg, u32 in *; lia). cbn.
  rewrite rd_app by done. cbn. rewrite IH, <- app_assoc by done. by destruct m.
Qed.

Lemma handleRespRecv_resp q j acc :
  (Z.of_nat (length q) < 2 ^ 32)%Z →
  Forall short_msg q → Forall (λ m, u32 (sender_id m)) q →
  handleRespRecv (recv_resp q ++ j) acc = Ok (true, acc ++ q).
Proof.
  intros Hl Hq Hs. unfold handleRespRecv, recv_resp, patched_resp. rewrite <- !app_assoc.
  rewrite validateRespHeader_header, at_offset_header by done. cbn.
  rewrite rd32_le32, wrap32_id by (unfold u32; lia). cbn.
  by rewrite Nat2Z.id, read_msgs_records.
Qed.

Section protocol.
  Context {ord : UMapOrder Z UserMetadata} `{Protobuf}.

Lemma handleRespUsers_resp id m j acc :
  (Z.of_nat (size m) < 2 ^ 32)%Z → (∀ k u, m !! k = Some u → short_user (k, u)) →
  handleRespUsers (users_resp id m ++ j) acc =
  Ok (true, names_of (others id (umap_seq m)) ∅).
Proof.
  intros Hsz Hm. unfold handleRespUsers, users_resp. rewrite <- !app_assoc.
  rewrite validateRespHeader_header, at_offset_header by done. cbn.
  assert (length (others id (umap_seq m)) ≤ size m)%nat as Hlen.
  { rewrite <- length_umap_seq. apply length_filter. }
  rewrite rd32_le32, wrap32_id by (unfold u32; lia). cbn.
  unfold users_body. rewrite Nat2Z.id, read_users_records; [done|].
  apply Forall_forall. intros [k u] [_ Hin]%list_elem_of_filter.
  apply Hm. by apply elem_of_umap_seq.
Qed.

Lemma handleRespUsers_negative j acc :
  handleRespUsers (short_resp kRespUsers x01 ++ j) acc = Ok (false, acc).
Proof.
  unfold handleRespUsers, short_resp. rewrite <- app_assoc.
  by rewrite validateRespHeader_header, at_offset_header.
Qed.

(** ** The server's dispatch *)

Lemma parse_header h p n s :
  canonical_type (type h) → u32 (len h) →
  parse (header_bytes h ++ p) n s =
  match type h with
  | kRequestRegister => parseRequestRegister p (len h) s
  | kRequestUsers => parseRequestUsers p (len h) s
  | kRequestSend => parseRequestSend p (len h) s
  | kRequestRecv => parseRequestRecv p (len h) s
  | _ => '(rx, _) ← rd n (header_bytes h ++ p); parseRequestRegisterProto rx s
  end.
Proof.
  intros Hc Hl. unfold parse. rewrite rd_header_header_bytes by done. cbn.
  by rewrite wrap32_id.
Qed.

End protocol.
