(* ===== verification/Session.v ===== *)
(** A client of the binary protocol connected to a server, as one machine: the four
    buffers and the server's state. Every request is encoded by [MccClient], copied to
    the server, handled by [MccServer::parse], and the bytes the handler says to send
    are copied back and decoded. The machine implements the service of [ChatSpec]. *)

From S2P Require Import Prelude.
From S2P Require Import Common.
From S2P Require Import Database.
From S2P Require Import Packet.
From S2P Require Import Server.
From S2P Require Import Client.
From S2P Require Import ServerProofs.
From S2P Require Import Protocol.
From S2P Require Import ChatSpec.

Section session.
  Context {ord : UMapOrder Z UserMetadata} `{Protobuf}.

(** ** The machine *)

Record session := mkSession {
  cl_tx : bytes;
  srv_rx : bytes;
  srv : MccServer;
  cl_rx : bytes;
}.

(** The first [n] bytes of one buffer are received at the start of another. *)
Definition transfer (n : Z) (from to : bytes) : outcome bytes :=
  '(bs, _) ← rd n from;
  c ← put bs (Cursor to 0);
  Ok (c_buf c).

Definition roundtrip {A} (enc : bytes → outcome (Z * bytes)) (dec : bytes → outcome A)
    (ss : session) : outcome (A * session) :=
  '(n, tx) ← enc (cl_tx ss);
  data ← transfer n tx (srv_rx ss);
  '(m, s) ← parse data n (srv ss);
  rx ← transfer m (tx_buffer_ s) (cl_rx ss);
  a ← dec rx;
  Ok (a, mkSession tx data s rx).

Definition encode_request (r : request) : bytes → outcome (Z * bytes) :=
  match r with
  | RRegister name => encodeRequestRegister name
  | RUsers id => encodeRequestUsers id
  | RSend src tgt m => encodeRequestSend src tgt m
  | RRecv id => encodeRequestRecv id
  end.

Definition decode_response (r : request) (rx : bytes) : outcome response :=
  match r with
  | RRegister _ => '(ok, id) ← handleRespRegister rx 0; Ok (PRegister ok id)
  | RUsers _ => '(ok, m) ← handleRespUsers rx ∅; Ok (PUsers ok m)
  | RSend _ _ _ => '(ok, st) ← handleRespSend rx kSuccess; Ok (PSend ok st)
  | RRecv _ => '(ok, ms) ← handleRespRecv rx []; Ok (PRecv ok ms)
  end.

#[export] Instance session_service : ChatService session := {
  handle r := roundtrip (encode_request r) (decode_response r);
}.

(** ** The server as a table: the request, the response, the bytes sent, the new state *)

Definition req_bytes (r : request) : bytes :=
  match r with
  | RRegister name => register_req name
  | RUsers id => users_req id
  | RSend src tgt m => send_req src tgt m
  | RRecv id => recv_req id
  end.

Definition queue_of (id : Z) (db : Database) : list Msg :=
  from_option msg_q [] (user_map_ db !! id).

Definition resp_bytes (r : request) (db : Database) : bytes :=
  match r with
  | RRegister _ => register_resp (next_id_ db)
  | RUsers id => if userExists id db then users_resp id (user_map_ db)
                 else short_resp kRespUsers x01
  | RSend src tgt _ => short_resp kRespSend (byte_of_SendStatus (send_status src tgt db))
  | RRecv id => if userExists id db then recv_resp (queue_of id db)
                else short_resp kRespRecv x01
  end.

(** The handler asks for the header's size more than it wrote in two cases. *)
Definition resp_excess (r : request) (db : Database) : Z :=
  match r with
  | RUsers id => if userExists id db then header_excess id (umap_seq (user_map_ db)) else 0
  | RRecv id => if userExists id db then 5 else 0
  | _ => 0
  end.

Definition after (r : request) (db : Database) : Database :=
  match r with
  | RRegister name => (registerUser name db).2
  | RSend src tgt m => send_effect src tgt m db
  | RRecv id => if userExists id db then db_modify id clear_q db else db
  | RUsers _ => db
  end.

(** The requests whose fields fit. *)
Definition fields_ok (r : request) : Prop :=
  match r with
  | RRegister name => u32 (Z.of_nat (length name))
  | RUsers id | RRecv id => u32 id
  | RSend src tgt m => u32 src ∧ u32 tgt ∧ m ≠ [] ∧ u32 (8 + Z.of_nat (length m))
  end.

(** A database whose strings and IDs fit 32-bit fields. *)
Record db_short (db : Database) : Prop := {
  short_size : (Z.of_nat (size (user_map_ db)) < 2 ^ 32)%Z;
  short_users k u : user_map_ db !! k = Some u → short_user (k, u);
  short_msgs k u : user_map_ db !! k = Some u → Forall short_msg (msg_q u);
  short_senders k u : user_map_ db !! k = Some u → Forall (λ m, u32 (sender_id m)) (msg_q u);
  short_next : u32 (next_id_ db);
}.

Definition parse_result (r : request) (s : MccServer) : outcome (Z * MccServer) :=
  let resp := resp_bytes r (db_ s) in
  if decide (length resp ≤ length (tx_buffer_ s))%nat then
    Ok (Z.of_nat (length resp) + resp_excess r (db_ s),
        mkMccServer (after r (db_ s)) (resp ++ drop (length resp) (tx_buffer_ s)))%Z
  else Oob.

(** Runs the dispatch of [parse] on a request. *)
Ltac dispatch := rewrite <- ?app_assoc, parse_header by (done || apply wrap32_u32); cbn [type len].

Lemma parse_register name j n s :
  u32 (Z.of_nat (length name)) →
  parse (register_req name ++ j) n s = parse_result (RRegister name) s.
Proof.
  intros Hn. unfold register_req, parse_result. dispatch. rewrite wrap32_id by done.
  case_decide as Hd; cbn in Hd; rewrite length_register_resp in Hd.
  - rewrite parseRequestRegister_run by done. cbn. by rewrite length_register_resp.
  - unfold parseRequestRegister. rewrite rd_app by done. cbn. fuse_puts.
    by rewrite put_oob by (cbn; len).
Qed.

Lemma parse_users id j n s :
  u32 id → db_short (db_ s) → (Z.of_nat (length (tx_buffer_ s)) < 2 ^ 32)%Z →
  parse (users_req id ++ j) n s = parse_result (RUsers id) s.
Proof.
  intros Hid Hdb Htx. unfold users_req, parse_result. dispatch.
  pose proof (short_size _ Hdb). destruct (userExists id (db_ s)) eqn:E; cbn; rewrite E.
  - apply userExists_true in E. case_decide as Hd.
    + rewrite parseRequestUsers_known by (done || lia). do 2 f_equal.
      rewrite length_users_resp in Hd |- *. rewrite wrap32_id; [lia|].
      unfold u32, header_excess. case_match; lia.
    + apply parseRequestUsers_oob; done || lia.
  - apply userExists_false in E. rewrite length_short_resp. case_decide.
    + by rewrite parseRequestUsers_unknown.
    + unfold parseRequestUsers. cbn. rewrite rd32_le32, (wrap32_id id) by done. cbn.
      rewrite (proj2 (userExists_false id (db_ s))) by done. cbn. fuse_puts.
      by rewrite put_oob by (cbn; len).
Qed.

Lemma parse_send src tgt m j n s :
  fields_ok (RSend src tgt m) →
  parse (send_req src tgt m ++ j) n s = parse_result (RSend src tgt m) s.
Proof.
  intros (Hs & Ht & Hm & Hl). unfold send_req, parse_result. dispatch.
  rewrite wrap32_id by done. cbn. rewrite length_short_resp. case_decide.
  - by rewrite parseRequestSend_run.
  - assert (0 < length m)%nat by (destruct m; simpl; [done|lia]).
    unfold parseRequestSend. rewrite (proj2 (Z.ltb_lt _ _)) by lia. cbn.
    rewrite rd32_le32. cbn. rewrite rd32_le32. cbn. rewrite rd_app by lia. cbn.
    repeat case_match; fuse_puts; by rewrite put_oob by (cbn; len).
Qed.

Lemma parse_recv id j n s :
  u32 id → db_short (db_ s) → (Z.of_nat (length (tx_buffer_ s)) < 2 ^ 32)%Z →
  parse (recv_req id ++ j) n s = parse_result (RRecv id) s.
Proof.
  intros Hid Hdb Htx. unfold recv_req, parse_result. dispatch.
  destruct (userExists id (db_ s)) eqn:E; cbn; rewrite E.
  - apply userExists_true in E as [u Hu]. unfold queue_of. rewrite Hu. cbn.
    pose proof (short_msgs _ Hdb _ _ Hu). case_decide as Hd.
    + rewrite (parseRequestRecv_known _ u) by done. do 2 f_equal.
      rewrite length_recv_resp in Hd |- *. rewrite wrap32_id; [lia|unfold u32; lia].
    + apply (parseRequestRecv_oob _ u); done || lia.
  - apply userExists_false in E. rewrite length_short_resp. case_decide.
    + by rewrite parseRequestRecv_unknown.
    + unfold parseRequestRecv. cbn. rewrite rd32_le32, (wrap32_id id) by done. cbn.
      rewrite (proj2 (userExists_false id (db_ s))) by done. cbn. fuse_puts.
      by rewrite put_oob by (cbn; len).
Qed.

Lemma parse_request r j n s :
  fields_ok r → db_short (db_ s) → (Z.of_nat (length (tx_buffer_ s)) < 2 ^ 32)%Z →
  parse (req_bytes r ++ j) n s = parse_result r s.
Proof.
  destruct r; cbn [fields_ok req_bytes]; intros;
    auto using parse_register, parse_users, parse_send, parse_recv.
Qed.

(** ** Copies between buffers *)

Lemma transfer_prefix n a b to :
  (Z.of_nat (length a) ≤ n)%Z → (n ≤ Z.of_nat (length (a ++ b)))%Z →
  (n ≤ Z.of_nat (length to))%Z →
  ∃ j, transfer n (a ++ b) to = Ok (a ++ j) ∧ length (a ++ j) = length to.
Proof.
  intros H1 H2 H3. unfold transfer, rd. rewrite (proj2 (Z.ltb_ge _ _)) by lia. cbn.
  rewrite take_app_ge by lia. rewrite put_start by len. cbn.
  eexists. rewrite <- app_assoc. split; [done|]. len.
Qed.

Lemma transfer_oob n from to :
  (Z.of_nat (length from) < n)%Z ∨ (Z.of_nat (length to) < n)%Z → transfer n from to = Oob.
Proof.
  intros Hn. unfold transfer, rd. case_match eqn:E; [done|]. apply Z.ltb_ge in E. cbn.
  rewrite put_oob; [done|]. cbn. rewrite length_take. lia.
Qed.

Lemma encode_request_encodes r : encodes (encode_request r) (req_bytes r).
Proof.
  destruct r; [apply encodeRequestRegister_encodes | apply encodeRequestUsers_encodes |
    apply encodeRequestSend_encodes | apply encodeRequestRecv_encodes].
Qed.

Lemma encode_request_oob r tx :
  (length tx < length (req_bytes r))%nat → encode_request r tx = Oob.
Proof.
  destruct r; cbn [encode_request req_bytes]; intros Ht;
    [unfold encodeRequestRegister | unfold encodeRequestUsers |
     unfold encodeRequestSend | unfold encodeRequestRecv];
    fuse_puts; by rewrite put_oob by (cbn; len).
Qed.

(** ** What the client reads back *)

Definition answer (r : request) (db : Database) : response :=
  match r with
  | RRegister _ => PRegister true (next_id_ db)
  | RUsers id => if userExists id db
                 then PUsers true (names_of (others id (umap_seq (user_map_ db))) ∅)
                 else PUsers false ∅
  | RSend src tgt _ => PSend true (send_status src tgt db)
  | RRecv id => PRecv true (queue_of id db)
  end.

(** The user of a receive request is registered. *)
Definition recv_known (r : request) (db : Database) : Prop :=
  match r with RRecv id => userExists id db = true | _ => True end.

Lemma length_msgs_body_ge q : (length q ≤ length (msgs_body q))%nat.
Proof.
  induction q as [|m q IH]; [done|].
  change (msgs_body (m :: q)) with (msg_record m ++ msgs_body q).
  rewrite length_app, length_msg_record. cbn. lia.
Qed.

Lemma decode_answer r db j :
  db_short db → recv_known r db → (Z.of_nat (length (resp_bytes r db)) < 2 ^ 32)%Z →
  decode_response r (resp_bytes r db ++ j) = Ok (answer r db).
Proof.
  intros Hdb Hr Hl. destruct r; cbn [decode_response resp_bytes answer] in *.
  - rewrite handleRespRegister_resp; [done|apply short_next, Hdb].
  - destruct (userExists id db).
    + rewrite handleRespUsers_resp; [done|apply short_size, Hdb|apply short_users, Hdb].
    + by rewrite handleRespUsers_negative.
  - rewrite handleRespSend_resp. unfold send_status. by repeat case_match.
  - cbn in Hr. rewrite Hr in *. rewrite length_recv_resp in Hl.
    pose proof (length_msgs_body_ge (queue_of id db)).
    unfold queue_of in *. destruct (user_map_ db !! id) as [u|] eqn:E; cbn in *.
    + rewrite handleRespRecv_resp; [done|lia|eapply short_msgs; eauto|eapply short_senders; eauto].
    + apply userExists_true in Hr as [? ?]. congruence.
Qed.

(** ** The machine as a table *)

(** The four buffers can hold what goes through them. *)
Definition fits (r : request) (ss : session) : Prop :=
  let db := db_ (srv ss) in
  let sent := (Z.of_nat (length (resp_bytes r db)) + resp_excess r db)%Z in
  (length (req_bytes r) ≤ length (cl_tx ss))%nat ∧
  (length (req_bytes r) ≤ length (srv_rx ss))%nat ∧
  (sent ≤ Z.of_nat (length (tx_buffer_ (srv ss))))%Z ∧
  (sent ≤ Z.of_nat (length (cl_rx ss)))%Z.

#[export] Instance fits_dec r ss : Decision (fits r ss) := _.

Lemma resp_excess_nonneg r db : (0 ≤ resp_excess r db)%Z.
Proof. destruct r; cbn; unfold header_excess; repeat case_match; lia. Qed.

(** The lengths of the buffers never change. *)
Definition same_buffers (ss ss' : session) : Prop :=
  length (cl_tx ss') = length (cl_tx ss) ∧ length (srv_rx ss') = length (srv_rx ss) ∧
  length (tx_buffer_ (srv ss')) = length (tx_buffer_ (srv ss)) ∧
  length (cl_rx ss') = length (cl_rx ss).

Section handle.
  Context (r : request) (ss : session).
  Hypothesis Hfields : fields_ok r.
  Hypothesis Hdb : db_short (db_ (srv ss)).
  Hypothesis Htx : (Z.of_nat (length (tx_buffer_ (srv ss))) < 2 ^ 32)%Z.

Lemma handle_fits :
  recv_known r (db_ (srv ss)) → fits r ss →
  ∃ ss', handle r ss = Ok (answer r (db_ (srv ss)), ss') ∧
         db_ (srv ss') = after r (db_ (srv ss)) ∧ same_buffers ss ss'.
Proof using Hfields Hdb Htx.
  intros Hk (H1 & H2 & H3 & H4). pose proof (resp_excess_nonneg r (db_ (srv ss))).
  cbn [handle session_service]. unfold roundtrip.
  rewrite encode_request_encodes by done. cbn.
  destruct (transfer_prefix (Z.of_nat (length (req_bytes r))) (req_bytes r)
    (drop (length (req_bytes r)) (cl_tx ss)) (srv_rx ss)) as (j & -> & Hj); [len..|]. cbn.
  rewrite parse_request by done. unfold parse_result. rewrite decide_True by lia. cbn.
  set (resp := resp_bytes r (db_ (srv ss))) in *.
  destruct (transfer_prefix (Z.of_nat (length resp) + resp_excess r (db_ (srv ss))) resp
    (drop (length resp) (tx_buffer_ (srv ss))) (cl_rx ss)) as (j' & -> & Hj'); [len..|]. cbn.
  subst resp. rewrite decode_answer by (done || lia). cbn.
  eexists. split; [done|]. split; [done|]. split_and!; cbn; [len|done|len|done].
Qed.

Lemma handle_no_fit : ¬ fits r ss → handle r ss = Oob.
Proof using Hfields Hdb Htx.
  intros Hn. cbn [handle session_service]. unfold roundtrip.
  destruct (decide (length (req_bytes r) ≤ length (cl_tx ss))%nat) as [H1|];
    [|by rewrite encode_request_oob by lia].
  rewrite encode_request_encodes by done. cbn.
  destruct (decide (length (req_bytes r) ≤ length (srv_rx ss))%nat) as [H2|];
    [|rewrite transfer_oob by lia; done].
  destruct (transfer_prefix (Z.of_nat (length (req_bytes r))) (req_bytes r)
    (drop (length (req_bytes r)) (cl_tx ss)) (srv_rx ss)) as (j & -> & Hj); [len..|]. cbn.
  rewrite parse_request by done. unfold parse_result. case_decide as H3; [|done]. cbn.
  rewrite transfer_oob; [done|]. pose proof (resp_excess_nonneg r (db_ (srv ss))).
  unfold fits in Hn. rewrite length_app, length_drop.
  destruct (decide (Z.of_nat (length (resp_bytes r (db_ (srv ss)))) +
    resp_excess r (db_ (srv ss)) ≤ Z.of_nat (length (tx_buffer_ (srv ss))))%Z); [|lia].
  right. apply Znot_ge_lt. intros ?. apply Hn. split_and!; lia.
Qed.
End handle.

(** ** The machine implements the specified service *)

(** A database that has lived through a history. *)
Record db_models (h : history) (db : Database) : Prop := {
  dm_valid : valid h;
  dm_next : next_id_ db = Z.of_nat (length (registered h));
  dm_bound : (next_id_ db < 2 ^ 32)%Z;
  dm_names : Forall (λ name, u32 (Z.of_nat (length name))) (registered h);
  dm_lookup id : user_map_ db !! id = (λ name, mkUserMetadata name (pending id h)) <$> name_of id h;
}.

Definition session_models (h : history) (ss : session) : Prop :=
  db_models h (db_ (srv ss)) ∧ (Z.of_nat (length (tx_buffer_ (srv ss))) < 2 ^ 32)%Z.

Lemma db_models_init : db_models [] Database_init.
Proof.
  split; [constructor|done|cbn; lia|constructor|]. intros id. unfold name_of. cbn.
  rewrite lookup_empty. by case_decide.
Qed.

Lemma dm_exists h db id : db_models h db → userExists id db = bool_decide (is_Some (name_of id h)).
Proof.
  intros Hm. unfold userExists. rewrite (dm_lookup _ _ Hm). apply bool_decide_ext.
  by rewrite fmap_is_Some.
Qed.

Lemma dm_inv h db : db_models h db → db_inv (next_id_ db) db.
Proof.
  intros Hm. pose proof (dm_next _ _ Hm). pose proof (dm_bound _ _ Hm).
  split; [lia|by rewrite wrap32_id by (unfold u32; lia)|].
  intros id. rewrite (dm_lookup _ _ Hm), fmap_is_Some, name_of_lt. lia.
Qed.

Lemma dm_short h db : db_models h db → db_short db.
Proof.
  intros Hm. pose proof (dm_inv _ _ Hm) as Hi.
  assert (∀ k u, user_map_ db !! k = Some u → u32 k ∧
    ∃ name, name_of k h = Some name ∧ u = mkUserMetadata name (pending k h)) as Hl.
  { intros k u Hk. split; [eapply db_inv_u32; eauto|]. rewrite (dm_lookup _ _ Hm) in Hk.
    apply fmap_Some in Hk as (name & ? & ->). eauto. }
  split.
  - pose proof (db_inv_size _ _ Hi). pose proof (dm_bound _ _ Hm). lia.
  - intros k u (? & name & Hn & ->)%Hl. split; [done|]. cbn.
    unfold name_of in Hn. case_decide; [|done].
    pose proof (dm_names _ _ Hm) as Hf. rewrite Forall_lookup in Hf. eauto.
  - intros k u (? & name & Hn & ->)%Hl. apply Forall_forall. intros m Hin. cbn in Hin.
    apply pending_In in Hin as (_ & [_ ?] & _); [done|apply (dm_valid _ _ Hm)].
  - intros k u (? & name & Hn & ->)%Hl. apply Forall_forall. intros m Hin. cbn in Hin.
    by apply pending_In in Hin as (? & _); [|apply (dm_valid _ _ Hm)].
  - pose proof (dm_next _ _ Hm). pose proof (dm_bound _ _ Hm). unfold u32. lia.
Qed.

(** The answers of the table are the ones the specification allows. *)
Lemma names_of_lookup l acc name k :
  names_of l acc !! name = Some k → acc !! name = Some k ∨ ∃ u, (k, u) ∈ l ∧ username u = name.
Proof.
  revert acc. induction l as [|[k' u] l IH]; intros acc; [by left|]. cbn.
  intros [Hl|(u' & ? & ?)]%IH.
  - destruct (decide (username u = name)); simplify_map_eq; [|by left].
    right. exists u. split; [left|done].
  - right. exists u'. split; [by right|done].
Qed.

Lemma names_of_total l acc name :
  is_Some (acc !! name) ∨ (∃ k u, (k, u) ∈ l ∧ username u = name) →
  is_Some (names_of l acc !! name).
Proof.
  revert acc. induction l as [|[k' u] l IH]; intros acc; cbn.
  - intros [?|(? & ? & ?%not_elem_of_nil & _)]; done.
  - intros Hs. apply IH. destruct (decide (username u = name)) as [<-|Hne].
    { left. rewrite lookup_insert_eq. eauto. }
    rewrite lookup_insert_ne by done. destruct Hs as [?|(k & u' & Hin & ?)]; [by left|].
    right. exists k, u'. apply elem_of_cons in Hin as [?|?]; [by simplify_eq|done].
Qed.

Lemma names_of_users_spec h db id :
  db_models h db → users_spec id h (names_of (others id (umap_seq (user_map_ db))) ∅).
Proof.
  intros Hm. split.
  - intros name k Hl. apply names_of_lookup in Hl as [?|(u & [Hne Hin]%list_elem_of_filter & <-)].
    { by rewrite lookup_empty in *. }
    apply elem_of_umap_seq in Hin. rewrite (dm_lookup _ _ Hm) in Hin.
    apply fmap_Some in Hin as (name & Hn & ->). done.
  - intros k name Hne Hn. apply names_of_total. right.
    exists k, (mkUserMetadata name (pending k h)). split; [|done].
    apply list_elem_of_filter. split; [done|]. apply elem_of_umap_seq.
    by rewrite (dm_lookup _ _ Hm), Hn.
Qed.

Lemma dm_status h db src tgt :
  db_models h db → send_status src tgt db = status_spec src tgt h.
Proof.
  intros Hm. unfold send_status, status_spec. rewrite !(dm_exists _ _ _ Hm).
  destruct (name_of src h), (name_of tgt h); by rewrite ?bool_decide_eq_true_2, ?bool_decide_eq_false_2 by eauto using is_Some_None.
Qed.

Lemma dm_queue h db id : db_models h db → is_Some (name_of id h) → queue_of id db = pending id h.
Proof. intros Hm [name Hn]. unfold queue_of. by rewrite (dm_lookup _ _ Hm), Hn. Qed.

Lemma answer_allowed h db r :
  db_models h db → request_ok h r → answer_spec h r (answer r db).
Proof.
  intros Hm Hr. destruct r; cbn in *.
  - split; [done|apply (dm_next _ _ Hm)].
  - rewrite (dm_exists _ _ _ Hm). destruct (name_of id h) eqn:E;
      [rewrite bool_decide_eq_true_2 by eauto | rewrite bool_decide_eq_false_2 by apply is_Some_None].
    + split; [done|]. by apply names_of_users_spec.
    + done.
  - split; [done|by apply dm_status].
  - split; [done|by apply dm_queue].
Qed.

Lemma name_of_snoc_register id h name :
  name_of id (h ++ [EvRegister name]) =
  if decide (id = Z.of_nat (length (registered h))) then Some name else name_of id h.
Proof.
  unfold name_of. rewrite registered_app. cbn.
  repeat case_decide; subst; try lia; [by rewrite Nat2Z.id, list_lookup_middle| |done].
  destruct (decide (Z.to_nat id < length (registered h))%nat).
  - by rewrite lookup_app_l.
  - rewrite !lookup_ge_None_2; [done|lia|len].
Qed.

Lemma pending_unknown id h : valid h → name_of id h = None → pending id h = [].
Proof.
  induction 1 as [|h e Hv IH He]; [done|]. intros Hn. rewrite pending_snoc.
  assert (name_of id h = None) as Hn'.
  { destruct (name_of id h) eqn:E; [|done]. by rewrite (name_of_app_Some _ _ _ _ E) in Hn. }
  rewrite IH by done. destruct e; cbn; repeat case_decide; subst; try done.
  destruct He as (_ & [? ?] & _). congruence.
Qed.

(** The state after a request models the extended history, one lemma per request. *)
Lemma after_register h db name :
  db_models h db → request_ok h (RRegister name) →
  db_models (h ++ [EvRegister name]) (registerUser name db).2.
Proof.
  intros Hm [Hn Hlt]. pose proof (dm_next _ _ Hm) as Hnext.
  split; cbn [registerUser snd next_id_ user_map_].
  - constructor; [apply (dm_valid _ _ Hm)|done].
  - rewrite registered_app, length_app, wrap32_id by (unfold u32; lia). cbn. lia.
  - rewrite wrap32_id by (unfold u32; lia). lia.
  - rewrite registered_app. apply Forall_app. split; [apply (dm_names _ _ Hm)|by apply Forall_singleton].
  - intros id. rewrite name_of_snoc_register, pending_snoc, <- Hnext. cbn.
    case_decide as Hid; [subst id|rewrite lookup_insert_ne by done; apply (dm_lookup _ _ Hm)].
    rewrite lookup_insert_eq, pending_unknown; [done|apply (dm_valid _ _ Hm)|].
    apply eq_None_not_Some. rewrite name_of_lt. lia.
Qed.

Lemma name_of_snoc_other id h e :
  registered [e] = [] → name_of id (h ++ [e]) = name_of id h.
Proof. intros He. unfold name_of. by rewrite registered_app, He, app_nil_r. Qed.

(** An event that is not a registration changes the inbox of one registered user. *)
Lemma after_inbox h db id u e f :
  db_models h db → event_ok h e → registered [e] = [] →
  (∀ k, k ≠ id → step_pending k (pending k h) e = pending k h) →
  user_map_ db !! id = Some u →
  f u = mkUserMetadata (username u) (step_pending id (pending id h) e) →
  db_models (h ++ [e]) (mkDatabase (next_id_ db) (<[id := f u]> (user_map_ db))).
Proof.
  intros Hm He Hreg Hother Hu Hf.
  split; cbn; rewrite ?registered_app, ?Hreg, ?app_nil_r; try by destruct Hm.
  - constructor; [apply (dm_valid _ _ Hm)|done].
  - intros k. rewrite name_of_snoc_other, pending_snoc by done.
    destruct (decide (id = k)) as [<-|Hne].
    + rewrite lookup_insert_eq, Hf. rewrite (dm_lookup _ _ Hm) in Hu.
      apply fmap_Some in Hu as (name & Hn & ->). by rewrite Hn.
    + rewrite lookup_insert_ne, Hother by done. apply (dm_lookup _ _ Hm).
Qed.

Lemma after_send h db src tgt m :
  db_models h db → request_ok h (RSend src tgt m) →
  db_models (h ++ log (RSend src tgt m) (answer (RSend src tgt m) db))
            (after (RSend src tgt m) db).
Proof.
  intros Hm (Hs & Ht & Hne & Hl). cbn. unfold send_effect. rewrite (dm_status _ _ _ _ Hm).
  unfold status_spec.
  destruct (name_of src h) as [ns|] eqn:Es; [|by rewrite app_nil_r].
  destruct (name_of tgt h) as [nt|] eqn:Et; [|by rewrite app_nil_r].
  assert (user_map_ db !! tgt = Some (mkUserMetadata nt (pending tgt h))) as Hu
    by (by rewrite (dm_lookup _ _ Hm), Et).
  rewrite (queueMsg_present _ _ _ _ Hu). cbn. eapply after_inbox; eauto; cbn.
  - unfold u32 in *. split_and!; eauto; lia.
  - intros k Hk. by rewrite decide_False.
  - by rewrite decide_True.
Qed.

Lemma after_recv h db id :
  db_models h db → is_Some (name_of id h) →
  db_models (h ++ [EvRecv id (queue_of id db)]) (after (RRecv id) db).
Proof.
  intros Hm [n Hn]. cbn. rewrite (dm_exists _ _ _ Hm), bool_decide_eq_true_2 by eauto.
  assert (user_map_ db !! id = Some (mkUserMetadata n (pending id h))) as Hu
    by (by rewrite (dm_lookup _ _ Hm), Hn).
  rewrite (db_modify_present _ _ _ _ Hu). eapply after_inbox; eauto; cbn.
  - by apply dm_queue.
  - intros k Hk. by rewrite decide_False.
  - by rewrite decide_True.
Qed.

Lemma after_models h db r :
  db_models h db → request_ok h r → db_models (h ++ log r (answer r db)) (after r db).
Proof.
  intros Hm Hr. destruct r.
  - by apply after_register.
  - cbn. by rewrite app_nil_r.
  - by apply after_send.
  - by apply after_recv.
Qed.

Lemma request_fields_ok h r ss :
  session_models h ss → request_ok h r → fields_ok r ∧ recv_known r (db_ (srv ss)).
Proof.
  intros [Hm _] Hr. destruct r; cbn in *; try (split; [naive_solver|done]).
  rewrite (dm_exists _ _ _ Hm), bool_decide_eq_true_2 by done. split; [|done].
  apply name_of_lt in Hr. pose proof (dm_next _ _ Hm). pose proof (dm_bound _ _ Hm).
  unfold u32. lia.
Qed.

(** One request, when the buffers can hold it and when they cannot. *)
Lemma session_step h ss r :
  session_models h ss → request_ok h r →
  if decide (fits r ss) then
    ∃ p ss', handle r ss = Ok (p, ss') ∧ answer_spec h r p ∧
             session_models (h ++ log r p) ss' ∧ same_buffers ss ss'
  else handle r ss = Oob.
Proof.
  intros Hm Hr. destruct (request_fields_ok _ _ _ Hm Hr) as [Hf Hk]. destruct Hm as [Hm Htx].
  pose proof (dm_short _ _ Hm) as Hshort. case_decide as Hfit.
  - destruct (handle_fits r ss Hf Hshort Htx Hk Hfit) as (ss' & Hh & Hdb & Hbuf).
    exists (answer r (db_ (srv ss))), ss'. split_and!; [done|by apply answer_allowed| |done].
    split; [rewrite Hdb; by apply after_models|]. destruct Hbuf as (_ & _ & -> & _). done.
  - by apply handle_no_fit.
Qed.

#[export] Program Instance session_laws : ChatServiceLaws session := {
  models := session_models;
}.
Next Obligation. intros h ss [Hm _]. apply (dm_valid _ _ Hm). Qed.
Next Obligation.
  intros h ss r Hm Hr. pose proof (session_step h ss r Hm Hr) as Hs.
  case_decide; [right|by left]. destruct Hs as (p & ss' & ? & ? & ? & _). eauto.
Qed.

End session.
