(* ===== verification/Streams.v ===== *)
(** Streams of arbitrary packets against the service of [ChatSpec]: what [MccServer::parse]
    ([src/server/server.cpp]) makes of the database when nothing is assumed of the bytes
    that arrive. *)

From S2P Require Import Prelude.
From S2P Require Import Common.
From S2P Require Import ChatSpec.
From S2P Require Import Database.
From S2P Require Import Packet.
From S2P Require Import Wire.
From S2P Require Import Server.
From S2P Require Import ServerProofs.
From S2P Require Import ParseSpec.
From S2P Require Import Protocol.
From S2P Require Import Session.

Open Scope Z_scope.

(** One packet of a stream: the bytes from its start on, and the size passed with it. *)
Definition parse_next {ord : UMapOrder Z UserMetadata} `{Protobuf} (s : MccServer)
    (pkt : bytes * Z) : outcome MccServer :=
  '(_, s) ← parse pkt.1 pkt.2 s; Ok s.

(** ** The history of a stream *)

Section history.
  Context `{Protobuf}.

(** What a packet adds to a history; a send from or to an ID that nobody has, and a
    receive request for such an ID, add nothing. *)
Definition packet_events (h : history) (pk : packet) : history :=
  match pk with
  | PkRegister name => [EvRegister name]
  | PkProto rx_buffer => [EvRegister (proto_name rx_buffer)]
  | PkUsers _ => []
  | PkSend src tgt m =>
      match status_spec src tgt h with kSuccess => [EvSend src tgt m] | _ => [] end
  | PkRecv id => match name_of id h with Some _ => [EvRecv id (pending id h)] | None => [] end
  end.

Definition packets_history (h : history) (pks : list packet) : history :=
  foldl (λ h pk, h ++ packet_events h pk) h pks.

(** A database that is what a history says, and a history in which nothing is delivered
    that was not sent from one user to another. *)
Record stored (h : history) (db : Database) : Prop := {
  st_next : next_id_ db = Z.of_nat (length (registered h));
  st_lookup id :
    user_map_ db !! id = (λ name, mkUserMetadata name (pending id h)) <$> name_of id h;
  st_once id : sent_to id h = received_by id h ++ pending id h;
  st_sent id m :
    m ∈ sent_to id h → is_Some (name_of id h) ∧ is_Some (name_of (sender_id m) h) ∧ msg m ≠ [];
}.

Lemma stored_init : stored [] Database_init.
Proof.
  split; try done.
  - intros id. cbn. rewrite lookup_empty. unfold name_of. cbn. by case_decide.
  - intros id m Hm. by apply not_elem_of_nil in Hm.
Qed.

Lemma stored_exists h db id : stored h db → userExists id db = bool_decide (is_Some (name_of id h)).
Proof.
  intros Hs. unfold userExists. rewrite (st_lookup _ _ Hs). apply bool_decide_ext.
  by rewrite fmap_is_Some.
Qed.

Lemma stored_status h db src tgt : stored h db → send_status src tgt db = status_spec src tgt h.
Proof.
  intros Hs. unfold send_status, status_spec. rewrite !(stored_exists _ _ _ Hs).
  destruct (name_of src h), (name_of tgt h);
    by rewrite ?bool_decide_eq_true_2, ?bool_decide_eq_false_2 by eauto using is_Some_None.
Qed.

Lemma stored_unknown h db id : stored h db → name_of id h = None → pending id h = [].
Proof.
  intros Hs Hn. destruct (sent_to id h) as [|m l] eqn:E.
  - pose proof (st_once _ _ Hs id) as Ho. rewrite E in Ho. by symmetry in Ho; apply app_nil in Ho as [_ ?].
  - destruct (st_sent _ _ Hs id m) as [[? ?] _]; [rewrite E; by left|congruence].
Qed.

Lemma is_Some_name_of_app id h1 h2 : is_Some (name_of id h1) → is_Some (name_of id (h1 ++ h2)).
Proof. intros [n Hn]. exists n. by apply name_of_app_Some. Qed.

(** What was sent is from and to users, after an event too. *)
Lemma stored_sent_snoc h db e :
  stored h db →
  (∀ src tgt m, e = EvSend src tgt m →
     is_Some (name_of src h) ∧ is_Some (name_of tgt h) ∧ m ≠ []) →
  ∀ id m, m ∈ sent_to id (h ++ [e]) →
    is_Some (name_of id (h ++ [e])) ∧ is_Some (name_of (sender_id m) (h ++ [e])) ∧ msg m ≠ [].
Proof.
  intros Hs He id m. rewrite sent_to_app, elem_of_app. intros [Hm|Hm].
  - destruct (st_sent _ _ Hs id m Hm) as (? & ? & ?). auto using is_Some_name_of_app.
  - destruct e as [name|src tgt bs|id' ms]; cbn in Hm; try by apply not_elem_of_nil in Hm.
    destruct (He src tgt bs eq_refl) as (? & ? & ?).
    case_decide; [subst|by apply not_elem_of_nil in Hm].
    apply list_elem_of_singleton in Hm as ->. auto using is_Some_name_of_app.
Qed.

Lemma stored_register h db name :
  stored h db → Z.of_nat (length (registered h)) + 1 < 2 ^ 32 →
  stored (h ++ [EvRegister name]) (registerUser name db).2.
Proof.
  intros Hs Hlt. pose proof (st_next _ _ Hs) as Hnext.
  split; cbn [registerUser snd next_id_ user_map_].
  - rewrite registered_app, length_app, wrap32_id by (unfold u32; lia). cbn. lia.
  - intros id. rewrite name_of_snoc_register, pending_snoc, <- Hnext. cbn.
    case_decide as Hid; [subst id|rewrite lookup_insert_ne by done; apply (st_lookup _ _ Hs)].
    rewrite lookup_insert_eq, (stored_unknown h db); [done..|].
    apply eq_None_not_Some. rewrite name_of_lt. lia.
  - intros id. apply exactly_once_snoc; [done|apply (st_once _ _ Hs)].
  - by apply (stored_sent_snoc h db).
Qed.

(** An event that is not a registration changes the inbox of one user. *)
Lemma stored_inbox h db id u e f :
  stored h db → registered [e] = [] →
  (∀ src tgt m, e = EvSend src tgt m →
     is_Some (name_of src h) ∧ is_Some (name_of tgt h) ∧ m ≠ []) →
  (∀ id' ms, e = EvRecv id' ms → ms = pending id' h) →
  (∀ k, k ≠ id → step_pending k (pending k h) e = pending k h) →
  user_map_ db !! id = Some u →
  f u = mkUserMetadata (username u) (step_pending id (pending id h) e) →
  stored (h ++ [e]) (mkDatabase (next_id_ db) (<[id := f u]> (user_map_ db))).
Proof.
  intros Hs Hreg Hsend Hrecv Hother Hu Hf. split; cbn [next_id_ user_map_].
  - rewrite registered_app, Hreg, app_nil_r. apply (st_next _ _ Hs).
  - intros k. rewrite name_of_snoc_other, pending_snoc by done.
    destruct (decide (id = k)) as [<-|Hne].
    + rewrite lookup_insert_eq, Hf. rewrite (st_lookup _ _ Hs) in Hu.
      apply fmap_Some in Hu as (name & Hn & ->). by rewrite Hn.
    + rewrite lookup_insert_ne, Hother by done. apply (st_lookup _ _ Hs).
  - intros k. apply exactly_once_snoc; [done|apply (st_once _ _ Hs)].
  - by apply (stored_sent_snoc h db).
Qed.

Lemma stored_send h db src tgt m :
  stored h db → m ≠ [] →
  stored (h ++ packet_events h (PkSend src tgt m)) (send_effect src tgt m db).
Proof.
  intros Hs Hm. unfold send_effect. rewrite (stored_status _ _ _ _ Hs).
  cbn [packet_events]. unfold status_spec.
  destruct (name_of src h) as [ns|] eqn:Es; [|by rewrite app_nil_r].
  destruct (name_of tgt h) as [nt|] eqn:Et; [|by rewrite app_nil_r].
  assert (user_map_ db !! tgt = Some (mkUserMetadata nt (pending tgt h))) as Hu
    by (by rewrite (st_lookup _ _ Hs), Et).
  rewrite (queueMsg_present _ _ _ _ Hu). eapply stored_inbox; eauto; cbn.
  - intros ? ? ? [= <- <- <-]. eauto.
  - done.
  - intros k Hk. by rewrite decide_False.
  - by rewrite decide_True.
Qed.

Lemma stored_recv h db id :
  stored h db →
  stored (h ++ packet_events h (PkRecv id))
    (match user_map_ db !! id with Some _ => db_modify id clear_q db | None => db end).
Proof.
  intros Hs. pose proof (st_lookup _ _ Hs id) as Hl. cbn [packet_events].
  destruct (name_of id h) as [n|] eqn:En; cbn in Hl; rewrite Hl; [|by rewrite app_nil_r].
  rewrite (db_modify_present _ _ _ _ Hl). eapply stored_inbox; eauto; cbn.
  - done.
  - by intros ? ? [= <- <-].
  - intros k Hk. by rewrite decide_False.
  - by rewrite decide_True.
Qed.

End history.

Section streams.
  Context {ord : UMapOrder Z UserMetadata} `{Protobuf}.

Lemma serve_packet_stored h db pk :
  stored h db → packet_typed pk → Z.of_nat (length (registered h)) + 1 < 2 ^ 32 →
  stored (h ++ packet_events h pk) (serve_packet pk db).2.
Proof.
  intros Hs Hpk Hlt. destruct pk as [name|id|src tgt m|id|rx]; cbn [serve_packet].
  - by apply (stored_register h db name).
  - cbn. rewrite app_nil_r. by case_match.
  - apply stored_send; [done|]. apply Hpk.
  - pose proof (stored_recv h db id Hs) as Hr. by destruct (user_map_ db !! id).
  - by apply (stored_register h db (proto_name rx)).
Qed.

Lemma registered_events h pk :
  (length (registered (h ++ packet_events h pk)) ≤ S (length (registered h)))%nat.
Proof.
  rewrite registered_app, length_app. destruct pk; cbn; repeat case_match; cbn; lia.
Qed.

Lemma parse_next_ok s pkt s' : parse_next s pkt = Ok s' → ∃ n, parse pkt.1 pkt.2 s = Ok (n, s').
Proof.
  unfold parse_next. destruct (parse pkt.1 pkt.2 s) as [[n s1]| | |]; cbn; try done.
  intros [= ->]. by exists n.
Qed.

Lemma stream_stored pkts h s s' :
  stored h (db_ s) → db_typed (db_ s) →
  Z.of_nat (length (registered h)) + Z.of_nat (length pkts) < 2 ^ 32 →
  mfold parse_next pkts s = Ok s' →
  ∃ pks, Forall2 (λ pkt pk, decode pkt.1 pkt.2 = Ok pk) pkts pks ∧
         stored (packets_history h pks) (db_ s').
Proof.
  revert h s. induction pkts as [|pkt pkts IH]; intros h s Hs Hty Hlt Hm; cbn in Hm.
  { injection Hm as <-. exists []. split; [constructor|done]. }
  destruct (parse_next s pkt) as [s1| | |] eqn:E; cbn in Hm; try done.
  apply parse_next_ok in E as [n Ep].
  destruct (parse_typed _ _ _ _ _ Hty Ep) as [Hty1 _].
  rewrite parse_decodes in Ep by done. unfold parse_spec in Ep.
  destruct (decode pkt.1 pkt.2) as [pk| | |] eqn:Ed; cbn in Ep; try done.
  apply length_respond in Ep as (Edb & _ & _).
  pose proof (registered_events h pk) as Hle. cbn [length] in Hlt.
  pose proof (serve_packet_stored h (db_ s) pk Hs (decode_typed _ _ _ Ed) ltac:(lia)) as Hs1.
  rewrite <- Edb in Hs1.
  destruct (IH _ _ Hs1 Hty1 ltac:(lia) Hm) as (pks & Hf & Hst).
  exists (pk :: pks). split; [by constructor|exact Hst].
Qed.

(** C19. Whatever bytes arrive, well formed or not, from a client or not: after any
    sequence of fewer than 2^32 packets that [parse] returned from, starting with no
    users, the database is determined by the history of the packets it decoded. Every ID
    below the next one has the name of the registration it was given to, and no other ID
    is registered; the queue of a user holds, in order, what was sent to it since its
    last receive request; everything sent is received once or still queued; and what is
    sent goes from a registered user to a registered user and is not empty. *)
Theorem packets_become_history n pkts s :
  Z.of_nat (length pkts) < 2 ^ 32 →
  mfold parse_next pkts (fresh_server n) = Ok s →
  ∃ pks, Forall2 (λ pkt pk, decode pkt.1 pkt.2 = Ok pk) pkts pks ∧
    let h := packets_history [] pks in
    next_id_ (db_ s) = Z.of_nat (length (registered h)) ∧
    (∀ id, user_map_ (db_ s) !! id =
           (λ name, mkUserMetadata name (pending id h)) <$> name_of id h) ∧
    (∀ id, sent_to id h = received_by id h ++ pending id h) ∧
    (∀ id m, m ∈ sent_to id h →
       is_Some (name_of id h) ∧ is_Some (name_of (sender_id m) h) ∧ msg m ≠ []).
Proof.
  intros Hlt Hm.
  destruct (stream_stored pkts [] (fresh_server n) s stored_init db_typed_init Hlt Hm)
    as (pks & Hf & [? ? ? ?]).
  exists pks. by split_and!.
Qed.

End streams.

(** ** A concrete stream

    Ann and Bob register, a packet of an unknown type registers the empty name, an unknown
    user (9) and Ann write to Bob, and Bob receives before Ann writes again. *)
#[local] Existing Instance canonical_order.

Definition demo_stream : list (bytes * Z) :=
  [(register_req (str "Ann"), 8); (register_req (str "Bob"), 8);
   (header_bytes (mkHeader (kOtherType x09) 0), 5);
   (send_req 9 1 (str "spam"), 17); (send_req 0 1 (str "hi"), 15);
   (recv_req 1, 9); (send_req 0 1 (str "again"), 18)].

(** The packets of a stream that can be decoded, and the history they make. *)
Definition decoded (pkts : list (bytes * Z)) : list packet :=
  omap (λ pkt, match decode pkt.1 pkt.2 with Ok pk => Some pk | _ => None end) pkts.

Lemma decoded_all pkts pks :
  Forall2 (λ pkt pk, decode pkt.1 pkt.2 = Ok pk) pkts pks → pks = decoded pkts.
Proof. unfold decoded. induction 1 as [|? ? ? ? Hd _ IH]; [done|]. cbn. rewrite Hd. by f_equal. Qed.

Lemma packets_become_history_witness :
  let h := packets_history [] (decoded demo_stream) in
  ∃ s, mfold parse_next demo_stream (fresh_server 32) = Ok s ∧
    next_id_ (db_ s) = 3 ∧
    user_map_ (db_ s) !! 1 = Some (mkUserMetadata (str "Bob") [mkMsg 0 (str "again")]) ∧
    sent_to 1 h = [mkMsg 0 (str "hi"); mkMsg 0 (str "again")] ∧
    received_by 1 h = [mkMsg 0 (str "hi")].
Proof.
  intros h.
  destruct (mfold parse_next demo_stream (fresh_server 32)) as [s| | |] eqn:E;
    [|by vm_compute in E..].
  exists s. split; [done|].
  destruct (packets_become_history 32 demo_stream s ltac:(by vm_compute) E)
    as (pks & Hpks & -> & -> & _).
  rewrite (decoded_all _ _ Hpks). clear. subst h. split_and!; by vm_compute.
Defined.
