(* ===== verification/Objects.v ===== *)
(** The objects of the binary protocol ([src/client/client.h], [src/server/server.h],
    [src/server/database.h]): [MccClient] and [MccServer] hold references to buffers that
    others may share, and to the one [Database]. Any number of clients use one server,
    whatever buffers they have in common. *)

From S2P Require Import Prelude.
From S2P Require Import Common.
From S2P Require Import ChatSpec.
From S2P Require Import Database.
From S2P Require Import Packet.
From S2P Require Import Wire.
From S2P Require Import Server.
From S2P Require Import Client.
From S2P Require Import ServerProofs.
From S2P Require Import Protocol.
From S2P Require Import Session.

(** ** The store *)

(** The vectors, by what refers to them. *)
Abbreviation ref := nat (only parsing).
Abbreviation heap := (gmap nat bytes).

(** The data of the vector; a dangling reference is undefined behaviour. *)
Definition load (x : ref) (h : heap) : outcome bytes :=
  match h !! x with Some buf => Ok buf | None => Oob end.

(** The static local variable of [Database::getInstance], constructed on the first call. *)
Definition getInstance (s : option Database) : Database := default Database_init s.

(** ** The objects *)

(** [MccClient(tx_buffer, rx_buffer)]. *)
Record MccClient := mkMccClient { client_tx_buffer_ : ref; client_rx_buffer_ : ref }.

(** [MccServer(Database::getInstance(), tx_buffer)], and the buffer its [data] points to,
    which is another one. *)
Record server_object := mkServerObject { server_tx_buffer_ : ref; server_data : ref }.

Record site := mkSite {
  mem : heap;
  instance : option Database;
  server_at : server_object;
  clients : list MccClient;
}.

Section objects.
  Context {ord : UMapOrder Z UserMetadata} `{Protobuf}.

(** The methods act on what the references refer to. *)
Definition client_encode (r : request) (c : MccClient) (h : heap) : outcome (Z * heap) :=
  tx_buffer ← load (client_tx_buffer_ c) h;
  '(n, tx_buffer) ← encode_request r tx_buffer;
  Ok (n, <[client_tx_buffer_ c := tx_buffer]> h).

Definition client_decode (r : request) (c : MccClient) (h : heap) : outcome response :=
  rx_buffer ← load (client_rx_buffer_ c) h;
  decode_response r rx_buffer.

Definition server_parse (n : Z) (o : server_object) (h : heap) (s : option Database) :
    outcome (Z * heap * option Database) :=
  data ← load (server_data o) h;
  tx_buffer ← load (server_tx_buffer_ o) h;
  '(m, s) ← parse data n (mkMccServer (getInstance s) tx_buffer);
  Ok (m, <[server_tx_buffer_ o := tx_buffer_ s]> h, Some (db_ s)).

(** The first [n] bytes of one buffer are received in another. *)
Definition receive (n : Z) (from to : ref) (h : heap) : outcome heap :=
  src ← load from h;
  dst ← load to h;
  dst ← transfer n src dst;
  Ok (<[to := dst]> h).

(** The [j]-th client makes a request. *)
Definition client_request (j : nat) (r : request) (s : site) : outcome (response * site) :=
  match clients s !! j with
  | None => Oob
  | Some c =>
      let o := server_at s in
      '(n, h) ← client_encode r c (mem s);
      h ← receive n (client_tx_buffer_ c) (server_data o) h;
      '(m, h, i) ← server_parse n o h (instance s);
      h ← receive m (server_tx_buffer_ o) (client_rx_buffer_ c) h;
      p ← client_decode r c h;
      Ok (p, mkSite h i o (clients s))
  end.

(** ** What is kept *)

(** The sizes of the vectors. *)
Definition sizes (h : heap) : gmap ref nat := length <$> h.

Lemma sizes_lookup h h' x buf :
  sizes h' = sizes h → h !! x = Some buf → ∃ buf', h' !! x = Some buf' ∧ length buf' = length buf.
Proof.
  intros Hs Hx. apply (f_equal (lookup x)) in Hs. unfold sizes in Hs.
  rewrite !lookup_fmap, Hx in Hs. apply fmap_Some in Hs as (buf' & ? & ?). by exists buf'.
Qed.

Lemma sizes_insert h x buf buf' :
  h !! x = Some buf → length buf' = length buf → sizes (<[x := buf']> h) = sizes h.
Proof.
  intros Hx Hl. unfold sizes. rewrite fmap_insert, Hl. apply insert_id. by rewrite lookup_fmap, Hx.
Qed.

(** What goes through the buffers of a client and of the server, whether or not some of
    them are the same. *)
Record holds_buffers (s : site) (c : MccClient) (ss : session) : Prop := {
  hb_tx : mem s !! client_tx_buffer_ c = Some (cl_tx ss);
  hb_data : mem s !! server_data (server_at s) = Some (srv_rx ss);
  hb_server : mem s !! server_tx_buffer_ (server_at s) = Some (tx_buffer_ (srv ss));
  hb_rx : mem s !! client_rx_buffer_ c = Some (cl_rx ss);
  hb_db : db_ (srv ss) = getInstance (instance s);
}.

Section exchange.
  Context (j : nat) (r : request) (s : site) (c : MccClient) (ss : session).
  Hypothesis Hc : clients s !! j = Some c.
  Hypothesis Hss : holds_buffers s c ss.
  Hypothesis Hfields : fields_ok r.
  Hypothesis Hdb : db_short (db_ (srv ss)).
  Hypothesis Htx : (Z.of_nat (length (tx_buffer_ (srv ss))) < 2 ^ 32)%Z.

Lemma client_encode_ok :
  (length (req_bytes r) ≤ length (cl_tx ss))%nat →
  ∃ h junk, client_encode r c (mem s) = Ok (Z.of_nat (length (req_bytes r)), h) ∧
    sizes h = sizes (mem s) ∧ h !! client_tx_buffer_ c = Some (req_bytes r ++ junk).
Proof using Hss.
  intros Hl. unfold client_encode, load. rewrite (hb_tx _ _ _ Hss). cbn.
  rewrite encode_request_encodes by done. cbn. do 2 eexists. split; [done|]. split.
  - eapply sizes_insert; [apply Hss|len].
  - by rewrite lookup_insert_eq.
Qed.

(** A prefix of a buffer is received. *)
Lemma receive_ok n from to h a junk dst :
  h !! from = Some (a ++ junk) → h !! to = Some dst → (Z.of_nat (length a) ≤ n)%Z →
  (n ≤ Z.of_nat (length (a ++ junk)))%Z → (n ≤ Z.of_nat (length dst))%Z →
  ∃ h' junk', receive n from to h = Ok h' ∧ sizes h' = sizes h ∧ h' !! to = Some (a ++ junk').
Proof.
  intros Hf Ht H1 H2 H3. unfold receive, load. rewrite Hf, Ht. cbn.
  destruct (transfer_prefix n a junk dst H1 H2 H3) as (junk' & -> & Hl). cbn.
  do 2 eexists. split; [done|]. split; [by eapply sizes_insert|by rewrite lookup_insert_eq].
Qed.

Lemma receive_oob n from to h src dst :
  h !! from = Some src → h !! to = Some dst →
  (Z.of_nat (length src) < n)%Z ∨ (Z.of_nat (length dst) < n)%Z → receive n from to h = Oob.
Proof. intros Hf Ht Hn. unfold receive, load. rewrite Hf, Ht. cbn. by rewrite transfer_oob. Qed.

(** The server handles a request that has arrived. *)
Lemma server_parse_request n h junk :
  sizes h = sizes (mem s) → h !! server_data (server_at s) = Some (req_bytes r ++ junk) →
  ∃ out, length out = length (tx_buffer_ (srv ss)) ∧
    h !! server_tx_buffer_ (server_at s) = Some out ∧
    server_parse n (server_at s) h (instance s) =
      '(m, s') ← parse_result r (mkMccServer (db_ (srv ss)) out);
      Ok (m, <[server_tx_buffer_ (server_at s) := tx_buffer_ s']> h, Some (db_ s')).
Proof using Hss Hfields Hdb Htx.
  intros Hs Hd. destruct (sizes_lookup _ _ _ _ Hs (hb_server _ _ _ Hss)) as (out & Hout & Hl).
  exists out. split; [done|]. split; [done|]. unfold server_parse, load. rewrite Hd, Hout. cbn.
  rewrite <- (hb_db _ _ _ Hss), parse_request; [done|done|done|cbn; by rewrite Hl].
Qed.

Lemma client_request_fits :
  recv_known r (db_ (srv ss)) → fits r ss →
  ∃ s', client_request j r s = Ok (answer r (db_ (srv ss)), s') ∧
    instance s' = Some (after r (db_ (srv ss))) ∧ sizes (mem s') = sizes (mem s) ∧
    server_at s' = server_at s ∧ clients s' = clients s.
Proof using Hc Hss Hfields Hdb Htx.
  intros Hk (H1 & H2 & H3 & H4). pose proof (resp_excess_nonneg r (db_ (srv ss))).
  unfold client_request. rewrite Hc.
  destruct (client_encode_ok H1) as (h1 & junk1 & -> & Hs1 & Hb1). cbn.
  destruct (sizes_lookup _ _ _ _ Hs1 (hb_data _ _ _ Hss)) as (d1 & Hd1 & Hl1).
  destruct (receive_ok (Z.of_nat (length (req_bytes r))) _ _ _ _ _ _ Hb1 Hd1)
    as (h2 & junk2 & -> & Hs2 & Hb2); [len..|]. cbn.
  destruct (server_parse_request (Z.of_nat (length (req_bytes r))) h2 junk2)
    as (out & Hlo & Ho & ->); [congruence|done|].
  unfold parse_result. cbn. rewrite decide_True by lia. cbn.
  set (resp := resp_bytes r (db_ (srv ss))) in *.
  set (h3 := <[server_tx_buffer_ (server_at s) := _]> h2).
  assert (sizes h3 = sizes (mem s)) as Hs3 by (etrans; [eapply sizes_insert; [done|len]|congruence]).
  destruct (sizes_lookup _ _ _ _ Hs3 (hb_rx _ _ _ Hss)) as (d3 & Hd3 & Hl3).
  destruct (receive_ok (Z.of_nat (length resp) + resp_excess r (db_ (srv ss)))
    (server_tx_buffer_ (server_at s)) (client_rx_buffer_ c) h3 resp (drop (length resp) out) d3)
    as (h4 & junk4 & -> & Hs4 & Hb4); [by unfold h3; rewrite lookup_insert_eq|done|len..|]. cbn.
  unfold client_decode, load. rewrite Hb4. cbn. subst resp. rewrite decode_answer by (done || lia).
  cbn. eexists. split; [reflexivity|]. cbn [instance mem server_at clients].
  split; [done|]. split; [by rewrite Hs4|done].
Qed.

Lemma client_request_no_fit : ¬ fits r ss → client_request j r s = Oob.
Proof using Hc Hss Hfields Hdb Htx.
  intros Hn. unfold client_request. rewrite Hc.
  destruct (decide (length (req_bytes r) ≤ length (cl_tx ss))%nat) as [H1|H1].
  2: { unfold client_encode, load. rewrite (hb_tx _ _ _ Hss). cbn.
       by rewrite encode_request_oob by lia. }
  destruct (client_encode_ok H1) as (h1 & junk1 & -> & Hs1 & Hb1). cbn.
  destruct (sizes_lookup _ _ _ _ Hs1 (hb_data _ _ _ Hss)) as (d1 & Hd1 & Hl1).
  destruct (decide (length (req_bytes r) ≤ length (srv_rx ss))%nat) as [H2|H2];
    [|by rewrite (receive_oob _ _ _ _ _ _ Hb1 Hd1) by lia].
  destruct (receive_ok (Z.of_nat (length (req_bytes r))) _ _ _ _ _ _ Hb1 Hd1)
    as (h2 & junk2 & -> & Hs2 & Hb2); [len..|]. cbn.
  destruct (server_parse_request (Z.of_nat (length (req_bytes r))) h2 junk2)
    as (out & Hlo & Ho & ->); [congruence|done|].
  unfold parse_result. cbn. case_decide as H3; [|done]. cbn.
  set (resp := resp_bytes r (db_ (srv ss))) in *.
  set (h3 := <[server_tx_buffer_ (server_at s) := _]> h2).
  assert (sizes h3 = sizes (mem s)) as Hs3 by (etrans; [eapply sizes_insert; [done|len]|congruence]).
  destruct (sizes_lookup _ _ _ _ Hs3 (hb_rx _ _ _ Hss)) as (d3 & Hd3 & Hl3).
  rewrite (receive_oob _ _ _ h3 (resp ++ drop (length resp) out) d3); [done|by unfold h3; rewrite lookup_insert_eq|done|].
  pose proof (resp_excess_nonneg r (db_ (srv ss))). unfold fits in Hn. fold resp in Hn.
  rewrite length_app, length_drop.
  destruct (decide (Z.of_nat (length resp) + resp_excess r (db_ (srv ss)) ≤
    Z.of_nat (length (tx_buffer_ (srv ss))))%Z); [|lia].
  right. apply Znot_ge_lt. intros ?. apply Hn. split_and!; lia.
Qed.

End exchange.

(** ** The site implements the specified service *)

(** What goes through the buffers, as a session. *)
Definition view (s : site) (c : MccClient) : session :=
  let buf x := default [] (mem s !! x) in
  mkSession (buf (client_tx_buffer_ c)) (buf (server_data (server_at s)))
    (mkMccServer (getInstance (instance s)) (buf (server_tx_buffer_ (server_at s))))
    (buf (client_rx_buffer_ c)).

(** The references are valid, and the server does not write what it parses. The clients'
    buffers may be any, two clients' or the two of one client the same. *)
Record wf_site (s : site) : Prop := {
  ws_server :
    is_Some (mem s !! server_data (server_at s)) ∧ is_Some (mem s !! server_tx_buffer_ (server_at s));
  ws_clients c : c ∈ clients s →
    is_Some (mem s !! client_tx_buffer_ c) ∧ is_Some (mem s !! client_rx_buffer_ c);
  ws_distinct : server_data (server_at s) ≠ server_tx_buffer_ (server_at s);
  ws_small buf : mem s !! server_tx_buffer_ (server_at s) = Some buf →
    (Z.of_nat (length buf) < 2 ^ 32)%Z;
}.

Lemma view_holds s c : wf_site s → c ∈ clients s → holds_buffers s c (view s c).
Proof.
  intros Hs Hc. destruct (ws_server _ Hs) as [[data Hd] [out Ho]].
  destruct (ws_clients _ Hs _ Hc) as [[tx Ht] [rx Hr]].
  split; cbn; by rewrite ?Hd, ?Ho, ?Ht, ?Hr.
Qed.

Lemma wf_site_sizes s s' :
  wf_site s → sizes (mem s') = sizes (mem s) → server_at s' = server_at s → clients s' = clients s →
  wf_site s'.
Proof.
  intros [[[data Hd] [out Ho]] Hcl Hne Hsm] Hs Eo Ec. rewrite <- Eo in *. rewrite <- Ec in *.
  assert (∀ x, is_Some (mem s !! x) → is_Some (mem s' !! x)) as Hsome.
  { intros x [buf Hx]. destruct (sizes_lookup _ _ _ _ Hs Hx) as (buf' & ? & _). by exists buf'. }
  split; [by split; apply Hsome; eauto|by intros c [??]%Hcl; auto|done|].
  intros buf Hbuf. destruct (sizes_lookup _ _ _ _ (eq_sym Hs) Hbuf) as (buf' & Hb%Hsm & <-). done.
Qed.

Definition site_models (h : history) (s : site) : Prop :=
  wf_site s ∧ db_models h (getInstance (instance s)).

Lemma client_request_step h s j c r :
  site_models h s → clients s !! j = Some c → request_ok h r →
  if decide (fits r (view s c)) then
    ∃ p s', client_request j r s = Ok (p, s') ∧ answer_spec h r p ∧
            site_models (h ++ log r p) s' ∧ sizes (mem s') = sizes (mem s) ∧
            clients s' = clients s
  else client_request j r s = Oob.
Proof.
  intros [Hs Hm] Hc Hr. pose proof (list_elem_of_lookup_2 _ _ _ Hc) as Hin.
  pose proof (view_holds _ _ Hs Hin) as Hv. pose proof (hb_server _ _ _ Hv) as Hsm%(ws_small _ Hs).
  destruct (request_fields_ok h r (view s c)) as [Hf Hk]; [split; [exact Hm|exact Hsm]|done|].
  pose proof (dm_short _ _ Hm) as Hshort. case_decide as Hfit.
  - destruct (client_request_fits j r s c (view s c)) as (s' & Hreq & Hi & Hsz & Ho & Hcl); [done..|].
    exists (answer r (getInstance (instance s))), s'. split_and!; [done|by apply answer_allowed| |done|done].
    split; [by eapply wf_site_sizes|]. rewrite Hi. by apply after_models.
  - by apply (client_request_no_fit j r s c (view s c)).
Qed.

(** The clients as one service: [who] makes the [m]-th request. *)
Section service.
  Context (who : nat → nat).

#[local] Instance site_service : ChatService (nat * site) := {
  handle r := λ '(m, s), '(p, s) ← client_request (who m) r s; Ok (p, (S m, s));
}.

#[local] Program Instance site_laws : ChatServiceLaws (nat * site) := {
  models h ms := site_models h ms.2;
}.
Next Obligation. intros h ms [_ Hm]. apply (dm_valid _ _ Hm). Qed.
Next Obligation.
  intros h [m s] r Hm Hr. cbn in *. destruct (clients s !! who m) as [c|] eqn:Hc.
  - pose proof (client_request_step h s (who m) c r Hm Hc Hr) as Hs. case_decide.
    + right. destruct Hs as (p & s' & -> & ? & ? & _). cbn. eauto.
    + left. by rewrite Hs.
  - left. unfold client_request. by rewrite Hc.
Qed.

(** The requests of [who] and their answers. *)
Definition client_requests (rs : list request) (s : site) : outcome (list response * site) :=
  '(ps, (_, s)) ← serve rs (0%nat, s);
  Ok (ps, s).

Lemma client_requests_exactly_once s rs ps s' id :
  site_models [] s → client_requests rs s = Ok (ps, s') → requests_ok [] rs ps →
  is_Some (user_map_ (getInstance (instance s')) !! id) →
  acknowledged id rs ps = delivered id rs ps ++ queue_of id (getInstance (instance s')).
Proof.
  intros Hm Hrun Hok Hid. unfold client_requests in Hrun.
  destruct (serve rs (0%nat, s)) as [[ps' [m s1]]| | |] eqn:E; cbn in Hrun; simplify_eq.
  destruct (@serve_exactly_once _ _ site_laws id (0%nat, s) rs ps (m, s') Hm E Hok) as [-> [_ Hm']].
  f_equal. symmetry. apply dm_queue; [done|]. rewrite (dm_lookup _ _ Hm') in Hid.
  by apply fmap_is_Some in Hid.
Qed.

End service.

(** ** The properties *)

(** C3. Any number of [MccClient] objects use one [MccServer] object, whatever buffers
    they refer to: two clients, or the two buffers of one client, may be the same vector,
    or one of the server's. A request of one of them is answered as the history of the
    requests of all of them determines, the references stay valid and the vectors keep
    their sizes; when a buffer is too small, the exchange runs out of bounds. *)
Theorem shared_buffers_implement_spec h s j c r :
  wf_site s → db_models h (getInstance (instance s)) → clients s !! j = Some c → request_ok h r →
  if decide (fits r (view s c)) then
    ∃ p s', client_request j r s = Ok (p, s') ∧ answer_spec h r p ∧
            wf_site s' ∧ db_models (h ++ log r p) (getInstance (instance s')) ∧
            sizes (mem s') = sizes (mem s) ∧ clients s' = clients s
  else client_request j r s = Oob.
Proof.
  intros Hs Hm Hc Hr. pose proof (client_request_step h s j c r (conj Hs Hm) Hc Hr) as Hstep.
  case_decide; [|done]. destruct Hstep as (p & s' & ? & ? & [? ?] & ?). by exists p, s'.
Qed.

(** C11. Messages are delivered exactly once and in order, whichever client makes which
    request and whatever buffers the clients share: the messages to a user that were
    acknowledged to some client are those the receive requests for this user returned,
    followed by those still queued in the one database. *)
Theorem clients_exactly_once who s rs ps s' id :
  wf_site s → instance s = None → client_requests who rs s = Ok (ps, s') → requests_ok [] rs ps →
  is_Some (user_map_ (getInstance (instance s')) !! id) →
  acknowledged id rs ps = delivered id rs ps ++ queue_of id (getInstance (instance s')).
Proof.
  intros Hs Hi. apply client_requests_exactly_once. split; [done|]. rewrite Hi. apply db_models_init.
Qed.

End objects.

(** Two clients that share one vector for everything, and a third with the transmit
    buffer of the server. *)
#[local] Existing Instance canonical_order.

Definition crowded (n : nat) : site :=
  mkSite (list_to_map [(0%nat, replicate n x00); (1%nat, replicate n x00); (2%nat, replicate n x00)])
    None (mkServerObject 1 0) [mkMccClient 2 2; mkMccClient 2 2; mkMccClient 0 1].

Lemma wf_crowded : wf_site (crowded 64).
Proof.
  split; cbn; [by split; eexists|..|done|].
  - intros c Hc%list_elem_of_In. destruct Hc as [<-|[<-|[<-|[]]]]; by split; eexists.
  - intros buf [= <-]. by vm_compute.
Qed.

Lemma shared_buffers_implement_spec_witness :
  ∃ p s', client_request 2 (RRegister (str "Evelyn")) (crowded 64) = Ok (p, s') ∧
    answer_spec [] (RRegister (str "Evelyn")) p ∧ wf_site s' ∧
    db_models ([] ++ log (RRegister (str "Evelyn")) p) (getInstance (instance s')) ∧
    sizes (mem s') = sizes (mem (crowded 64)) ∧ clients s' = clients (crowded 64).
Proof.
  apply (shared_buffers_implement_spec [] (crowded 64) 2 (mkMccClient 0 1) (RRegister (str "Evelyn")));
    [apply wf_crowded|apply db_models_init|done|split; [split|]; vm_compute; congruence].
Defined.

Lemma clients_exactly_once_witness :
  let rs := [RRegister (str "Jack"); RRegister (str "Jill"); RSend 0 1 (str "hi"); RRecv 1;
             RSend 0 1 (str "again")] in
  let who m := nth m [0; 1; 0; 1; 2]%nat 0%nat in
  ∃ ps s, client_requests who rs (crowded 64) = Ok (ps, s) ∧
    acknowledged 1 rs ps = delivered 1 rs ps ++ queue_of 1 (getInstance (instance s)) ∧
    delivered 1 rs ps = [mkMsg 0 (str "hi")].
Proof.
  intros rs who.
  destruct (client_requests who rs (crowded 64)) as [[ps s]| | |] eqn:E; [|by vm_compute in E..].
  exists ps, s. split; [done|]. split.
  - apply (clients_exactly_once who (crowded 64) rs ps s 1); [apply wf_crowded|done|done| |];
      vm_compute in E; injection E as <- <-; (apply (bool_decide_eq_true_1 _); by vm_compute).
  - vm_compute in E. by injection E as <- <-.
Defined.
