(* ===== verification/BinaryTheorems.v ===== *)
(** The properties of the binary protocol and of the user database, each with a witness
    at a concrete input. *)

From S2P Require Import Prelude.
From S2P Require Import Common.
From S2P Require Import ChatSpec.
From S2P Require Import Database.
From S2P Require Import Packet.
From S2P Require Import Wire.
From S2P Require Import Server.
From S2P Require Import Client.
From S2P Require Import ServerProofs.
From S2P Require Import Protocol.
From S2P Require Import Session.

#[local] Existing Instance canonical_order.

(** ** The whole protocol *)

(** A client connected to the server through the binary protocol implements the
    specified chat service: when the buffers hold the request and the response, the
    request is answered as the history of past requests determines (fresh ID, map of
    the other users, status of a send, inbox in order) and the state models the extended
    history; when some buffer is too small, the exchange runs out of bounds and nothing
    else can happen. *)
Theorem session_implements_spec {ord : UMapOrder Z UserMetadata} `{Protobuf} h ss r :
  session_models h ss → request_ok h r →
  if decide (fits r ss) then
    ∃ p ss', roundtrip (encode_request r) (decode_response r) ss = Ok (p, ss') ∧
             answer_spec h r p ∧ session_models (h ++ log r p) ss' ∧ same_buffers ss ss'
  else roundtrip (encode_request r) (decode_response r) ss = Oob.
Proof. apply session_step. Qed.

(** A fresh session with buffers of a given size. *)
Definition session_init (size : nat) : session :=
  mkSession (replicate size x00) (replicate size x00)
    (mkMccServer Database_init (replicate size x00)) (replicate size x00).

Lemma session_models_init size :
  (Z.of_nat size < 2 ^ 32)%Z → session_models [] (session_init size).
Proof. intros Hs. split; [apply db_models_init|]. cbn. by rewrite length_replicate. Qed.

Lemma session_implements_spec_witness :
  ∃ p ss', roundtrip (encode_request (RRegister (str "Evelyn")))
             (decode_response (RRegister (str "Evelyn"))) (session_init 64) = Ok (p, ss') ∧
    answer_spec [] (RRegister (str "Evelyn")) p ∧
    session_models ([] ++ log (RRegister (str "Evelyn")) p) ss' ∧
    same_buffers (session_init 64) ss'.
Proof.
  apply (session_implements_spec [] (session_init 64) (RRegister (str "Evelyn")));
    [apply session_models_init|split; [split|]]; vm_compute; congruence.
Defined.

(** Messages are delivered exactly once and in order: over any sequence of client
    requests served from the empty database, the messages to a user whose sends were
    acknowledged are the messages its receive requests returned, in the same order,
    followed by the messages still queued for it in the database. *)
Theorem session_exactly_once {ord : UMapOrder Z UserMetadata} `{Protobuf}
    size rs ps ss id :
  (Z.of_nat size < 2 ^ 32)%Z →
  serve rs (session_init size) = Ok (ps, ss) → requests_ok [] rs ps →
  is_Some (user_map_ (db_ (srv ss)) !! id) →
  acknowledged id rs ps = delivered id rs ps ++ queue_of id (db_ (srv ss)).
Proof.
  intros Hsize Hs Hok Hid.
  destruct (@serve_exactly_once session _ session_laws id _ rs ps ss
    (session_models_init size Hsize) Hs Hok) as [-> Hm].
  f_equal. symmetry. destruct Hm as [Hm _]. apply dm_queue; [done|].
  rewrite (dm_lookup _ _ Hm) in Hid. by apply fmap_is_Some in Hid.
Qed.

Definition demo : list request :=
  [RRegister (str "Jack"); RRegister (str "Jill"); RSend 0 1 (str "hi"); RRecv 1;
   RSend 0 1 (str "again")].

Lemma session_exactly_once_witness :
  ∃ ps ss, serve demo (session_init 64) = Ok (ps, ss) ∧
    acknowledged 1 demo ps = delivered 1 demo ps ++ queue_of 1 (db_ (srv ss)) ∧
    delivered 1 demo ps = [mkMsg 0 (str "hi")].
Proof.
  destruct (serve demo (session_init 64)) as [[ps ss]| | |] eqn:E; [|by vm_compute in E..].
  exists ps, ss. split; [done|]. split.
  - apply (session_exactly_once 64 demo ps ss 1); [done|done| |];
      vm_compute in E; injection E as <- <-;
      (apply (bool_decide_eq_true_1 _); by vm_compute).
  - vm_compute in E. by injection E as <- <-.
Defined.

(** ** The handlers of the server *)

Lemma map_user_records l :
  concat (map (λ '(k, u), le32 k ++ le32 (Z.of_nat (length (username u))) ++ username u) l) =
  concat (map user_record l).
Proof. f_equal. apply map_ext. by intros []. Qed.

(** The two long responses with the lengths of their headers spelled out. *)
Lemma users_resp_spec {ord : UMapOrder Z UserMetadata} id m :
  let l := others id (umap_seq m) in
  let payload := [x00] ++ le32 (Z.of_nat (length l)) ++ concat (map user_record l) in
  users_resp id m =
  header_bytes (mkHeader kRespUsers
    (Z.of_nat (length payload) + match l with [] => 0 | _ => 5 end)) ++ payload.
Proof.
  cbn zeta. unfold users_resp, header_excess, users_body. f_equal.
  unfold header_bytes. cbn [type len]. rewrite le32_wrap32. do 2 f_equal.
  rewrite !length_app, length_le32. cbn [length]. lia.
Qed.

Lemma recv_resp_spec q :
  let payload := [x00] ++ le32 (Z.of_nat (length q)) ++ msgs_body q in
  recv_resp q = header_bytes (mkHeader kRespRecv (Z.of_nat (length payload) + 5)) ++ payload.
Proof.
  cbn zeta. unfold recv_resp, patched_resp. rewrite <- app_assoc. f_equal.
  unfold header_bytes. cbn [type len]. rewrite le32_wrap32. do 2 f_equal.
  rewrite !length_app, length_le32. cbn [length sizeof_Header]. lia.
Qed.

(** A small server for the witnesses: Jack (ID 0) and Jill (ID 1), a message for Jill. *)
Definition demo_db : Database :=
  (queueMsg 1 (mkMsg 0 (str "hi")) (registerUser (str "Jill")
    (registerUser (str "Jack") Database_init).2).2).2.
Definition demo_server (n : nat) : MccServer := mkMccServer demo_db (replicate n x00).

(** C26. A send request whose fields fit is answered with the status that says whether
    the source, then the target, is registered; the message is appended to the target's
    queue exactly when both are, and nothing else changes; a transmit buffer shorter
    than the response is overrun. *)
Theorem parseRequestSend_correct {ord : UMapOrder Z UserMetadata} `{Protobuf}
    src tgt m rest n s :
  u32 src → u32 tgt → m ≠ [] → u32 (8 + Z.of_nat (length m)) →
  let db := db_ s in
  let st := if negb (userExists src db) then kErrSrcId
            else if negb (userExists tgt db) then kErrTrgtId else kSuccess in
  let resp := header_bytes (mkHeader kRespSend 1) ++ [byte_of_SendStatus st] in
  parse (send_req src tgt m ++ rest) n s =
  if decide (6 ≤ length (tx_buffer_ s))%nat then
    Ok (6%Z, mkMccServer
      (if bool_decide (st = kSuccess) then
         mkDatabase (next_id_ db) (alter (push_back (mkMsg src m)) tgt (user_map_ db))
       else db)
      (resp ++ drop 6 (tx_buffer_ s)))
  else Oob.
Proof.
  intros Hs Ht Hm Hl db st resp.
  rewrite parse_send by done. unfold parse_result. cbn [resp_bytes resp_excess after].
  rewrite length_short_resp. case_decide; [|done]. unfold send_effect, send_status.
  subst resp st db. destruct (userExists src (db_ s)); [|done].
  destruct (userExists tgt (db_ s)) eqn:E; [|done].
  apply userExists_true in E as [u Hu]. cbn. rewrite (queueMsg_present _ u) by done. cbn.
  by rewrite (alter_alt_Some _ _ _ _ Hu).
Qed.

Lemma parseRequestSend_correct_witness :
  parse (send_req 1 0 (str "yo") ++ []) 15 (demo_server 6) =
  Ok (6%Z, mkMccServer
    (mkDatabase 2 (alter (push_back (mkMsg 1 (str "yo"))) 0%Z (user_map_ demo_db)))
    (header_bytes (mkHeader kRespSend 1) ++ [x00])).
Proof.
  etrans; [apply (parseRequestSend_correct 1 0 (str "yo") [] 15 (demo_server 6)); done|].
  by vm_compute.
Defined.

(** C27. A users request is answered, for a registered user, with the value 0, the number
    of the other users and one record for each of them, in the iteration order of the
    map; an unknown ID gets the value 1; the database does not change, and a transmit
    buffer shorter than the response is overrun. The header's length is the payload's
    when nobody else is registered; otherwise it is 5 more than the payload, and the
    returned size, the number of bytes to send, is 5 more than the response
    ([server.cpp:122] counts the header). The length of a name takes 4 bytes of its
    record, where the README's section 4.3.2 has 1. *)
Theorem parseRequestUsers_correct {ord : UMapOrder Z UserMetadata} `{Protobuf}
    id rest n s :
  u32 id → db_short (db_ s) → (Z.of_nat (length (tx_buffer_ s)) < 2 ^ 32)%Z →
  ∃ l, l ≡ₚ map_to_list (delete id (user_map_ (db_ s))) ∧
    let records := concat (map (λ '(k, u),
      le32 k ++ le32 (Z.of_nat (length (username u))) ++ username u) l) in
    let payload := if userExists id (db_ s)
      then [x00] ++ le32 (Z.of_nat (length l)) ++ records else [x01] in
    let excess := if userExists id (db_ s) then match l with [] => 0 | _ => 5 end%Z else 0%Z in
    let resp := header_bytes (mkHeader kRespUsers (Z.of_nat (length payload) + excess)) ++ payload in
    parse (users_req id ++ rest) n s =
    if decide (length resp ≤ length (tx_buffer_ s))%nat then
      Ok (Z.of_nat (length resp) + excess,
          mkMccServer (db_ s) (resp ++ drop (length resp) (tx_buffer_ s)))%Z
    else Oob.
Proof.
  intros Hid Hdb Htx. exists (others id (umap_seq (user_map_ (db_ s)))).
  split; [apply others_perm|]. cbn zeta. rewrite parse_users by done. unfold parse_result.
  rewrite map_user_records. cbn [resp_bytes resp_excess after].
  destruct (userExists id (db_ s)); [|done]. by rewrite users_resp_spec.
Qed.

Lemma demo_db_models :
  db_models [EvRegister (str "Jack"); EvRegister (str "Jill"); EvSend 0 1 (str "hi")] demo_db.
Proof.
  pose proof (after_models _ _ (RRegister (str "Jack")) db_models_init) as H1.
  pose proof (after_models _ _ (RRegister (str "Jill")) (H1 ltac:(done))) as H2.
  exact (after_models _ _ (RSend 0 1 (str "hi")) (H2 ltac:(done)) ltac:(done)).
Qed.

Lemma demo_short : db_short demo_db.
Proof. exact (dm_short _ _ demo_db_models). Qed.

Lemma parseRequestUsers_correct_witness :
  parse (users_req 0 ++ []) 9 (demo_server 64) =
    Ok (27%Z, mkMccServer demo_db (header_bytes (mkHeader kRespUsers 22) ++ [x00] ++ le32 1 ++
      le32 1 ++ le32 4 ++ str "Jill" ++ replicate 42 x00)).
Proof.
  destruct (parseRequestUsers_correct 0 [] 9 (demo_server 64)) as (l & Hl & ->);
    [done|apply demo_short|done|].
  assert (map_to_list (delete 0%Z (user_map_ demo_db)) =
    [(1%Z, mkUserMetadata (str "Jill") [mkMsg 0 (str "hi")])]) as E by by vm_compute.
  cbn [db_ demo_server] in Hl. rewrite E in Hl. apply Permutation_singleton_r in Hl as ->.
  by vm_compute.
Defined.

(** C28. A receive request of a registered user is answered with the value 0, the number
    of the messages queued for it and their records, oldest first, and empties the queue
    of that user only; an unknown ID gets the value 1 and changes nothing; a transmit
    buffer shorter than the response is overrun. The header's length of the first
    response is 5 more than the payload, and the returned size, the number of bytes to
    send, 5 more than the response ([server.cpp:222] counts the header), whether there
    is a message or not. *)
Theorem parseRequestRecv_correct {ord : UMapOrder Z UserMetadata} `{Protobuf}
    id rest n s :
  u32 id → db_short (db_ s) → (Z.of_nat (length (tx_buffer_ s)) < 2 ^ 32)%Z →
  let db := db_ s in
  let q := queue_of id db in
  let records := concat (map (λ m,
    le32 (sender_id m) ++ le32 (Z.of_nat (length (msg m))) ++ msg m) q) in
  let payload := if userExists id db
    then [x00] ++ le32 (Z.of_nat (length q)) ++ records else [x01] in
  let excess := if userExists id db then 5%Z else 0%Z in
  let resp := header_bytes (mkHeader kRespRecv (Z.of_nat (length payload) + excess)) ++ payload in
  parse (recv_req id ++ rest) n s =
  if decide (length resp ≤ length (tx_buffer_ s))%nat then
    Ok (Z.of_nat (length resp) + excess,
        mkMccServer (if userExists id db
                     then mkDatabase (next_id_ db) (alter clear_q id (user_map_ db)) else db)
          (resp ++ drop (length resp) (tx_buffer_ s)))%Z
  else Oob.
Proof.
  intros Hid Hdb Htx db q. subst db. cbn zeta. rewrite parse_recv by done. unfold parse_result.
  cbn [resp_bytes resp_excess after]. change (concat (map _ q)) with (msgs_body q). fold q.
  destruct (userExists id (db_ s)) eqn:E; [|done]. rewrite recv_resp_spec.
  apply userExists_true in E as [u Hu].
  by rewrite (db_modify_present _ u), (alter_alt_Some _ _ _ _ Hu).
Qed.

Lemma parseRequestRecv_correct_witness :
  parse (recv_req 1 ++ []) 9 (demo_server 64) =
    Ok (25%Z, mkMccServer (mkDatabase 2 (alter clear_q 1%Z (user_map_ demo_db)))
      (header_bytes (mkHeader kRespRecv 20) ++ [x00] ++ le32 1 ++
       le32 0 ++ le32 2 ++ str "hi" ++ replicate 44 x00)).
Proof.
  etrans; [apply (parseRequestRecv_correct 1 [] 9 (demo_server 64));
    [done|apply demo_short|done]|]. by vm_compute.
Defined.

(** The length field of a users response with at least one record, and of every
    positive receive response, counts the 5 bytes of the header: it exceeds the payload
    by 5, and the handler returns 5 more than the bytes it wrote. *)
Theorem response_length_overstated {ord : UMapOrder Z UserMetadata} `{Protobuf}
    r rest n s :
  match r with
  | RUsers id => userExists id (db_ s) = true ∧ delete id (user_map_ (db_ s)) ≠ ∅
  | RRecv id => userExists id (db_ s) = true
  | _ => False
  end →
  fields_ok r → db_short (db_ s) → (Z.of_nat (length (tx_buffer_ s)) < 2 ^ 32)%Z →
  (length (resp_bytes r (db_ s)) ≤ length (tx_buffer_ s))%nat →
  ∃ h payload size s', resp_bytes r (db_ s) = header_bytes h ++ payload ∧
    parse (req_bytes r ++ rest) n s = Ok (size, s') ∧
    take (length (resp_bytes r (db_ s))) (tx_buffer_ s') = resp_bytes r (db_ s) ∧
    len h = (Z.of_nat (length payload) + 5)%Z ∧
    size = (Z.of_nat (length (resp_bytes r (db_ s))) + 5)%Z.
Proof.
  intros Hr Hf Hdb Htx Hl. rewrite parse_request by done. unfold parse_result.
  rewrite decide_True by done. cbn [db_].
  assert (∃ h payload, resp_bytes r (db_ s) = header_bytes h ++ payload ∧
    resp_excess r (db_ s) = 5%Z ∧ len h = (Z.of_nat (length payload) + 5)%Z)
    as (h & payload & E & Hx & Hlen).
  { destruct r as [| id | | id]; try done; cbn in *.
    - destruct Hr as [Hex Hne]. rewrite Hex in *.
      assert (others id (umap_seq (user_map_ (db_ s))) ≠ []) as Ho.
      { intros Ho. pose proof (others_perm id (user_map_ (db_ s))) as Hp. rewrite Ho in Hp.
        apply Permutation_nil_l in Hp. symmetry in Hp. by apply map_to_list_empty_iff in Hp. }
      rewrite length_users_resp in Hl. unfold users_resp, header_excess.
      destruct (others id _) eqn:Eo; [done|]. rewrite <- Eo. eexists _, _.
      split; [reflexivity|]. split; [done|]. cbn. rewrite wrap32_id by (unfold u32; lia). len.
    - rewrite Hr in *. rewrite length_recv_resp in Hl. unfold recv_resp, patched_resp.
      eexists _, _. split; [reflexivity|]. split; [done|]. cbn.
      rewrite wrap32_id by (unfold u32; lia). len. }
  eexists h, payload, _, _. split; [done|]. split; [done|]. cbn.
  rewrite take_app_length, Hx. done.
Qed.

Lemma response_length_overstated_witness :
  ∃ h payload size s', resp_bytes (RRecv 1) demo_db = header_bytes h ++ payload ∧
    parse (req_bytes (RRecv 1) ++ []) 9 (demo_server 64) = Ok (size, s') ∧
    take (length (resp_bytes (RRecv 1) demo_db)) (tx_buffer_ s') = resp_bytes (RRecv 1) demo_db ∧
    len h = (Z.of_nat (length payload) + 5)%Z ∧
    size = (Z.of_nat (length (resp_bytes (RRecv 1) demo_db)) + 5)%Z.
Proof.
  apply (response_length_overstated (RRecv 1) [] 9 (demo_server 64));
    [done|done|apply demo_short|done|vm_compute; repeat constructor].
Defined.

(** ** Failures *)

(** A computation in which no [assert] fails. *)
Definition no_abort {A} (m : outcome A) : Prop := m ≠ Abort.

Lemma no_abort_bind {A B} (m : outcome A) (f : A → outcome B) :
  no_abort m → (∀ a, no_abort (f a)) → no_abort (m ≫= f).
Proof. unfold no_abort. destruct m; cbn; auto. Qed.
Lemma no_abort_ok {A} (a : A) : no_abort (Ok a).
Proof. done. Qed.
Lemma no_abort_put bs c : no_abort (put bs c).
Proof. unfold put. by case_decide. Qed.
Lemma no_abort_rd n p : no_abort (rd n p).
Proof. unfold rd. by case_match. Qed.
Lemma no_abort_rd32 p : no_abort (rd32 p).
Proof. unfold rd32. apply no_abort_bind; [apply no_abort_rd|by intros []]. Qed.
Lemma no_abort_mfold {A B} (f : A → B → outcome A) l a :
  (∀ a x, no_abort (f a x)) → no_abort (mfold f l a).
Proof.
  intros Hf. revert a. induction l as [|x l IH]; intros a; [done|]. by apply no_abort_bind.
Qed.
#[local] Hint Resolve no_abort_ok no_abort_put no_abort_rd no_abort_rd32 : chat.

(** Walks through a handler without [assert]. *)
Ltac no_abort := repeat first
  [ apply no_abort_bind; [|intros]
  | progress (auto 1 with chat nocore)
  | case_match ].

Section aborts.
  Context {ord : UMapOrder Z UserMetadata} `{Protobuf}.

Lemma no_abort_register p n s : no_abort (parseRequestRegister p n s).
Proof. unfold parseRequestRegister. no_abort. Qed.
Lemma no_abort_register_proto p s : no_abort (parseRequestRegisterProto p s).
Proof. unfold parseRequestRegisterProto. no_abort. Qed.
Lemma no_abort_put_user id acc it : no_abort (put_user id acc it).
Proof. unfold put_user. no_abort. Qed.
Lemma no_abort_put_msg acc m : no_abort (put_msg acc m).
Proof. unfold put_msg. no_abort. Qed.
Lemma no_abort_for_db {A} db (f : A → _) a : (∀ a x, no_abort (f a x)) → no_abort (for_db db f a).
Proof. intros Hf. rewrite for_db_spec. by apply no_abort_mfold. Qed.

Lemma no_abort_users p s : no_abort (parseRequestUsers p 4 s).
Proof.
  unfold parseRequestUsers. cbn [cassert Z.eqb Pos.eqb mbind outcome_bind]. no_abort.
  apply no_abort_for_db. intros. apply no_abort_put_user.
Qed.
Lemma no_abort_recv p s : no_abort (parseRequestRecv p 4 s).
Proof.
  unfold parseRequestRecv. cbn [cassert Z.eqb Pos.eqb mbind outcome_bind]. no_abort.
  apply no_abort_mfold. intros. apply no_abort_put_msg.
Qed.
Lemma no_abort_send p n s : (8 < n)%Z → no_abort (parseRequestSend p n s).
Proof.
  intros Hn. unfold parseRequestSend. rewrite (proj2 (Z.ltb_lt _ _)) by lia.
  cbn [cassert mbind outcome_bind]. no_abort.
Qed.
End aborts.

(** A request stops the server through a failed [assert] exactly when its header
    announces a payload of the wrong length: other than 4 for a users or a receive
    request, at most 8 for a send request. *)
Theorem parse_aborts_iff {ord : UMapOrder Z UserMetadata} `{Protobuf} h p n s :
  canonical_type (type h) → u32 (len h) →
  parse (header_bytes h ++ p) n s = Abort ↔
  match type h with
  | kRequestUsers | kRequestRecv => len h ≠ 4%Z
  | kRequestSend => (len h ≤ 8)%Z
  | _ => False
  end.
Proof.
  intros Hc Hl. rewrite parse_header by done.
  destruct (type h) eqn:Et; split; intros Ha; try done;
    try (by apply no_abort_register in Ha);
    try (revert Ha; apply no_abort_bind; [apply no_abort_rd|intros []; apply no_abort_register_proto]).
  - intros E. rewrite E in Ha. by apply no_abort_users in Ha.
  - unfold parseRequestUsers. by rewrite (proj2 (Z.eqb_neq (len h) 4) Ha).
  - destruct (decide (len h ≤ 8)%Z); [done|]. apply no_abort_send in Ha; [done|lia].
  - unfold parseRequestSend. by rewrite (proj2 (Z.ltb_ge (4 * 2) (len h)) Ha).
  - intros E. rewrite E in Ha. by apply no_abort_recv in Ha.
  - unfold parseRequestRecv. by rewrite (proj2 (Z.eqb_neq (len h) 4) Ha).
Qed.

Lemma parse_aborts_iff_witness :
  parse (header_bytes (mkHeader kRequestUsers 3) ++ []) 5 (demo_server 64) = Abort.
Proof.
  apply (proj2 (parse_aborts_iff (mkHeader kRequestUsers 3) [] 5 (demo_server 64)
    ltac:(done) ltac:(done))). cbn. lia.
Defined.

(** A client that sends the empty message stops the server: the encoder produces a
    payload of 8 bytes, which the server's [assert] rejects. *)
Lemma empty_message_aborts_server {ord : UMapOrder Z UserMetadata} `{Protobuf} src tgt ss :
  (13 ≤ length (cl_tx ss))%nat → (13 ≤ length (srv_rx ss))%nat →
  roundtrip (encode_request (RSend src tgt [])) (decode_response (RSend src tgt [])) ss = Abort.
Proof.
  intros Hc Hr. unfold roundtrip. rewrite encode_request_encodes by (cbn; len). cbn.
  destruct (transfer_prefix (Z.of_nat (length (send_req src tgt []))) (send_req src tgt [])
    (drop (length (send_req src tgt [])) (cl_tx ss)) (srv_rx ss)) as (j & -> & _); [len..|]. cbn.
  unfold send_req. rewrite <- !app_assoc, parse_header by done. done.
Qed.

Lemma empty_message_aborts_server_witness :
  roundtrip (encode_request (RSend 0 1 [])) (decode_response (RSend 0 1 []))
    (session_init 64) = Abort.
Proof. apply (empty_message_aborts_server 0 1 (session_init 64)); cbn; lia. Defined.

(** Once the stream is exhausted the register request has no fields. *)
Lemma parseRequestRegisterProto_empty {ord : UMapOrder Z UserMetadata} `{ProtobufLaws} rx s :
  (Header_ParseFromIstream rx).2 = [] → (10 ≤ length (tx_buffer_ s))%nat →
  parseRequestRegisterProto rx s =
    Ok (10%Z, mkMccServer (registerUser [] (db_ s)).2
                (register_resp (next_id_ (db_ s)) ++ drop 10 (tx_buffer_ s))).
Proof.
  intros Hp Hb. unfold parseRequestRegisterProto.
  destruct (Header_ParseFromIstream rx) as [[ok hd] iss]. cbn in Hp. subst iss.
  rewrite RequestRegister_ParseFromIstream_empty. cbn. by run_puts.
Qed.

(** A packet of a response type or of an unknown type reaches the protobuf register
    handler: whatever bytes follow, once the header is parsed the stream is exhausted,
    so a user with the empty name is registered. *)
Theorem other_types_register_empty_name {ord : UMapOrder Z UserMetadata} `{ProtobufLaws}
    data size s h payload rx rest hd iss :
  rd_header data = Ok (h, payload) →
  type h ∉ [kRequestRegister; kRequestUsers; kRequestSend; kRequestRecv] →
  rd size data = Ok (rx, rest) →
  Header_ParseFromIstream rx = (true, hd, iss) →
  (10 ≤ length (tx_buffer_ s))%nat →
  parse data size s =
  Ok (10%Z, mkMccServer (registerUser [] (db_ s)).2
              (register_resp (next_id_ (db_ s)) ++ drop 10 (tx_buffer_ s))).
Proof.
  intros Hh Ht Hrd Hp Hb. unfold parse. rewrite Hh. cbn. rewrite Hrd. cbn.
  rewrite (parseRequestRegisterProto_empty rx s).
  - destruct (type h); set_solver.
  - by rewrite Hp, (Header_ParseFromIstream_consumes _ _ _ Hp).
  - done.
Qed.

(** The two messages of [ClientParser::encodeRequestRegister] for the name Tilak. *)
Definition tilak : bytes :=
  enc_fields (f_Header (mkHdr (Some PACKET_TYPE_REQUEST_REGISTER))) ++
  enc_fields (f_RequestRegister (mkRequestRegister (Some (str "Tilak")))).

Lemma other_types_register_empty_name_witness :
  parse tilak 9 (demo_server 10) =
  Ok (10%Z, mkMccServer (registerUser [] demo_db).2 (register_resp 2)).
Proof.
  etrans; [apply (other_types_register_empty_name tilak 9 (demo_server 10)
    (mkHeader (kOtherType x08) 1409616384) (drop 5 tilak) tilak []
    (mkHdr (Some PACKET_TYPE_REQUEST_REGISTER)) [])|]; try (by vm_compute).
  - apply (bool_decide_eq_true_1 _). by vm_compute.
Defined.

(** The negative response to a receive request is not reported to the caller: the
    6 bytes it occupies leave the number and the records of the previous response in
    the receive buffer, and [handleRespRecv] returns true with the old messages. *)
Theorem negative_recv_replays {ord : UMapOrder Z UserMetadata} `{Protobuf} q j msgs :
  (Z.of_nat (length q) < 2 ^ 32)%Z → Forall short_msg q → Forall (λ m, u32 (sender_id m)) q →
  ∃ rx, transfer 6 (short_resp kRespRecv x01) (recv_resp q ++ j) = Ok rx ∧
        handleRespRecv rx msgs = Ok (true, msgs ++ q).
Proof.
  intros Hl Hq Hs. pose proof (length_recv_resp q).
  exists (short_resp kRespRecv x01 ++ drop 6 (recv_resp q ++ j)). split.
  - unfold transfer. rewrite rd_all by done. cbn. by rewrite put_start by len.
  - unfold recv_resp, patched_resp, short_resp. rewrite <- !app_assoc.
    unfold handleRespRecv. rewrite validateRespHeader_header, at_offset_header by done. cbn.
    rewrite (drop_app_ge (header_bytes _)) by (rewrite length_header_bytes; unfold sizeof_Header; lia).
    rewrite length_header_bytes. unfold sizeof_Header; cbn [drop Nat.sub].
    rewrite drop_0.
    rewrite rd32_le32, wrap32_id by (unfold u32; lia). cbn.
    by rewrite Nat2Z.id, read_msgs_records.
Qed.

Lemma negative_recv_replays_witness :
  ∃ rx, transfer 6 (short_resp kRespRecv x01)
          (recv_resp [mkMsg 0 (str "hi")] ++ replicate 8 x00) = Ok rx ∧
        handleRespRecv rx [] = Ok (true, [mkMsg 0 (str "hi")]).
Proof.
  apply (negative_recv_replays [mkMsg 0 (str "hi")] (replicate 8 x00) []);
    [done|by apply Forall_singleton|by apply Forall_singleton].
Defined.

(** A response of another type, canonical or not, is rejected by every handler of
    the client, which leaves its out-parameter untouched. *)
Theorem wrong_type_rejected h p id names st msgs :
  canonical_type (type h) → u32 (len h) →
  let rx := header_bytes h ++ p in
  (type h ≠ kRespRegister → handleRespRegister rx id = Ok (false, id)) ∧
  (type h ≠ kRespUsers → handleRespUsers rx names = Ok (false, names)) ∧
  (type h ≠ kRespSend → handleRespSend rx st = Ok (false, st)) ∧
  (type h ≠ kRespRecv → handleRespRecv rx msgs = Ok (false, msgs)).
Proof.
  intros Hc Hl rx. subst rx. unfold handleRespRegister, handleRespUsers, handleRespSend,
    handleRespRecv. rewrite !validateRespHeader_header by done.
  split_and!; intros Hne; by rewrite bool_decide_eq_false_2.
Qed.

Lemma wrong_type_rejected_witness :
  handleRespRecv (header_bytes (mkHeader kRespSend 1) ++ [x00]) [] = Ok (false, []).
Proof.
  by apply (wrong_type_rejected (mkHeader kRespSend 1) [x00] 0 ∅ kSuccess []).
Defined.

(** ** The database *)

(** The operations of [Database] that can change it, in any order and number.
    [OpIndex] is the public [operator[]] with whatever its caller does to the object the
    returned reference designates; a missing ID is inserted. *)
Inductive db_op :=
| OpRegister (name : bytes)
| OpQueue (id : Z) (m : Msg)
| OpIndex (id : Z) (f : UserMetadata → UserMetadata)
| OpGetUsername (id : Z).

Definition db_step (db : Database) (o : db_op) : Database :=
  match o with
  | OpRegister name => (registerUser name db).2
  | OpQueue id m => (queueMsg (wrap32 id) m db).2
  | OpIndex id f => db_modify (wrap32 id) f db
  | OpGetUsername id => (getUsername (wrap32 id) db).2
  end.

Definition is_register (o : db_op) : bool :=
  match o with OpRegister _ => true | _ => false end.

Definition registrations (os : list db_op) : Z :=
  Z.of_nat (length (List.filter is_register os)).

(** The IDs accessed through [operator[]]. *)
Definition indexed (os : list db_op) : list Z :=
  omap (λ o, match o with OpIndex id _ => Some (wrap32 id) | _ => None end) os.

Lemma registrations_app os os' :
  registrations (os ++ os') = (registrations os + registrations os')%Z.
Proof. unfold registrations. rewrite List.filter_app, length_app. lia. Qed.

Lemma indexed_app os os' : indexed (os ++ os') = indexed os ++ indexed os'.
Proof. apply omap_app. Qed.

Lemma indexed_u32 os : Forall u32 (indexed os).
Proof.
  apply Forall_forall. intros id (o & _ & Ho)%list_elem_of_omap. destruct o; simplify_eq/=.
  apply wrap32_u32.
Qed.

(** The registered IDs and the counter after [n] registrations, the IDs in [S] having
    been accessed through [operator[]]. *)
Record ids_inv (n : Z) (S : list Z) (db : Database) : Prop := {
  ids_n : (0 ≤ n)%Z;
  ids_next : next_id_ db = wrap32 n;
  ids_dom id : is_Some (user_map_ db !! id) ↔ (0 ≤ id < n `min` 2 ^ 32)%Z ∨ id ∈ S;
}.

Lemma ids_inv_register n S db name :
  ids_inv n S db → ids_inv (n + 1) S (registerUser name db).2.
Proof.
  intros [Hn Hnext Hdom]. split; cbn [next_id_ user_map_ registerUser snd]; [lia| |].
  - rewrite Hnext. unfold wrap32. by rewrite Zplus_mod_idemp_l.
  - intros id. rewrite Hnext, lookup_insert_is_Some', Hdom. unfold wrap32.
    pose proof (Z.mod_pos_bound n (2 ^ 32) ltac:(lia)).
    destruct (decide (n < 2 ^ 32)%Z) as [Hlt|Hge]; [rewrite Z.mod_small by lia|]; intuition lia.
Qed.

Lemma ids_inv_modify n S db id f :
  ids_inv n S db → ids_inv n (S ++ [id]) (db_modify id f db).
Proof.
  intros [Hn Hnext Hdom]. unfold db_modify, db_index.
  destruct (user_map_ db !! id) as [u|]; split; cbn; try done;
    intros id'; rewrite !lookup_insert_is_Some', Hdom, elem_of_app, list_elem_of_singleton;
    naive_solver.
Qed.

Lemma ids_inv_queueMsg n S db id m : ids_inv n S db → ids_inv n S (queueMsg id m db).2.
Proof.
  intros Hinv. destruct (user_map_ db !! id) as [u|] eqn:E; [|by rewrite queueMsg_absent].
  rewrite (queueMsg_present _ u) by done. destruct Hinv as [Hn Hnext Hdom]. split; cbn; try done.
  intros id'. rewrite lookup_insert_is_Some', Hdom. split; [|tauto].
  intros [<-|?]; [|done]. apply Hdom. eauto.
Qed.

(** [getUsername] returns the empty string for every ID, registered or not: it compares
    the result of a lookup with the same lookup. *)
Lemma getUsername_always_empty id db : getUsername id db = ([], db).
Proof. unfold getUsername. by rewrite bool_decide_eq_false_2 by tauto. Qed.

Lemma ids_inv_steps os :
  ids_inv (registrations os) (indexed os) (foldl db_step Database_init os).
Proof.
  induction os as [|o os IH] using rev_ind.
  { split; [done..|]. intros id. cbn. rewrite lookup_empty, elem_of_nil.
    unfold registrations. cbn. split; [by intros []|lia]. }
  rewrite registrations_app, indexed_app, foldl_app. cbn [foldl].
  destruct o as [name|id m|id f|id]; cbn [db_step]; unfold registrations at 2; cbn;
    rewrite ?Z.add_0_r, ?app_nil_r.
  - by apply ids_inv_register.
  - by apply ids_inv_queueMsg.
  - by apply ids_inv_modify.
  - by rewrite getUsername_always_empty.
Qed.

(** The number of the registered IDs: those handed out, and those that were only
    accessed. *)
Lemma ids_inv_size n S db :
  ids_inv n S db → Forall u32 S →
  Z.of_nat (size (user_map_ db)) =
  (n `min` 2 ^ 32 + Z.of_nat (length (filter (λ id, n ≤ id)%Z (remove_dups S))))%Z.
Proof.
  intros Hinv HS. pose proof (ids_n _ _ _ Hinv).
  set (new := filter _ _). assert (∀ id, id ∈ new ↔ (n ≤ id)%Z ∧ id ∈ S) as Hnew.
  { intros id. unfold new. by rewrite list_elem_of_filter, elem_of_remove_dups. }
  assert (NoDup (seqZ 0 (n `min` 2 ^ 32) ++ new)) as Hnd.
  { apply NoDup_app. split_and!; [apply NoDup_seqZ| |apply NoDup_filter, NoDup_remove_dups].
    intros id ?%elem_of_seqZ [? ?]%Hnew. lia. }
  assert (dom (user_map_ db) = list_to_set (seqZ 0 (n `min` 2 ^ 32) ++ new)) as Hd.
  { apply set_eq. intros id.
    rewrite elem_of_dom, (ids_dom _ _ _ Hinv), elem_of_list_to_set, elem_of_app, elem_of_seqZ, Hnew.
    split; [|by intuition]. intros [?|Hi]; [auto|].
    pose proof (proj1 (Forall_forall _ _) HS id Hi) as Hu. unfold u32 in Hu.
    destruct (decide (n ≤ id)%Z); [tauto|left; lia]. }
  rewrite <- size_dom, Hd, size_list_to_set, length_app, length_seqZ by done. lia.
Qed.

(** C33. Whatever the operations on the database, [operator[]] on IDs never registered and
    writes through the reference it returns included: after [n] registrations the
    registered IDs are the numbers below [n] (all the 32-bit numbers once [n] reaches
    2^32) and the IDs that were accessed through [operator[]], and no other; the next
    ID is [n] modulo 2^32; and the number of users the server reports is the number of
    the registered IDs modulo 2^32. In particular, when [operator[]] was only used on
    IDs handed out, as the server does, the registered IDs are dense. *)
Theorem registered_ids_dense os :
  let n := registrations os in
  let db := foldl db_step Database_init os in
  let only_accessed := filter (λ id, n ≤ id)%Z (remove_dups (indexed os)) in
  next_id_ db = (n mod 2 ^ 32)%Z ∧
  (∀ id, userExists id db = true ↔ (0 ≤ id < n `min` 2 ^ 32)%Z ∨ id ∈ only_accessed) ∧
  getNumUsers db = ((n `min` 2 ^ 32 + Z.of_nat (length only_accessed)) mod 2 ^ 32)%Z.
Proof.
  intros n db only. pose proof (ids_inv_steps os) as Hinv. fold n db in Hinv.
  pose proof (indexed_u32 os) as HS. split_and!.
  - apply (ids_next _ _ _ Hinv).
  - intros id. rewrite userExists_true, (ids_dom _ _ _ Hinv). unfold only.
    rewrite list_elem_of_filter, elem_of_remove_dups.
    split; [|by intuition]. intros [?|Hi]; [auto|].
    pose proof (proj1 (Forall_forall _ _) HS id Hi) as Hu. unfold u32 in Hu.
    destruct (decide (n ≤ id)%Z); [tauto|left; lia].
  - unfold getNumUsers. by rewrite (ids_inv_size _ _ _ Hinv HS).
Qed.

(** A registration never touches a user while fewer than 2^32 have registered;
    from then on it replaces the user that has the ID 2^32 registrations old, and that
    user's queued messages are gone. *)
Theorem registerUser_fresh_or_replaces n db name :
  db_inv n db →
  let '(id, db') := registerUser name db in
  user_map_ db' !! id = Some (mkUserMetadata name []) ∧
  (∀ k, k ≠ id → user_map_ db' !! k = user_map_ db !! k) ∧
  (userExists id db = false ↔ (n < 2 ^ 32)%Z).
Proof.
  intros Hinv. cbn. split_and!.
  - by rewrite lookup_insert_eq.
  - intros k Hk. by rewrite lookup_insert_ne.
  - rewrite userExists_false, eq_None_not_Some, (inv_dom _ _ Hinv), (inv_next _ _ Hinv).
    pose proof (inv_n _ _ Hinv). unfold wrap32.
    pose proof (Z.mod_pos_bound n (2 ^ 32) ltac:(lia)).
    destruct (decide (n < 2 ^ 32)%Z); [rewrite Z.mod_small by lia|]; lia.
Qed.

Lemma registerUser_fresh_or_replaces_witness :
  user_map_ (registerUser (str "Ann") demo_db).2 !! 2%Z = Some (mkUserMetadata (str "Ann") []).
Proof.
  apply (registerUser_fresh_or_replaces 2 demo_db (str "Ann")).
  exact (dm_inv _ _ demo_db_models).
Defined.

(** The loop [for (auto &it : db)] over the database's iterator terminates without
    dereferencing the end and runs its body once for every entry of the map, in the
    map's order, whatever the body does. *)
Theorem range_for_visits_all {ord : UMapOrder Z UserMetadata} {A} db
    (body : A → Z * UserMetadata → outcome A) a :
  ∃ l, l ≡ₚ map_to_list (user_map_ db) ∧ for_db db body a = mfold body l a.
Proof. exists (umap_seq (user_map_ db)). split; [apply umap_seq_perm|apply for_db_spec]. Qed.
