(* ===== verification/Socket.v ===== *)
(** TCP sockets ([src/tcp_lib/socket.h], [src/tcp_lib/server_socket.h]): the wrappers of
    the system calls and the blocking loops built on them, over an interface of the
    calls the code makes; what a stream socket promises is a second interface, and a
    scripted kernel is an instance of both. *)

From S2P Require Import Prelude.

(** ** The system calls *)

Record sockaddr_in := mkSockaddr { sin_family : Z; s_addr : Z; sin_port : Z }.

(** The calls and [errno]; a call returns -1 on failure. [inet_pton] and [inet_addr] are
    the values the address has after the conversion of a dotted string. *)
Class Kernel (K : Type) := {
  errno : K → Z;
  inet_pton : bytes → Z;
  inet_addr : bytes → Z;
  sys_socket : K → Z * K;
  sys_getfl : Z → K → Z * K;
  sys_setfl : Z → Z → K → Z * K;
  sys_setsockopt : Z → K → Z * K;
  sys_bind : Z → sockaddr_in → K → Z * K;
  sys_listen : Z → Z → K → Z * K;
  sys_accept : Z → K → Z * K;
  sys_connect : Z → sockaddr_in → K → Z * K;
  (** [send(fd, data, |data|, 0)]. *)
  sys_send : Z → bytes → K → Z * K;
  (** [recv(fd, buf, n, 0)]: the result, the bytes written to [buf]. *)
  sys_recv : Z → nat → K → Z * bytes * K;
  sys_close : Z → K → K;
}.

Definition AF_INET : Z := 2.
Definition O_NONBLOCK : Z := 2048.
Definition EAGAIN : Z := 11.
Definition EWOULDBLOCK : Z := 11.
Definition EISCONN : Z := 106.
Definition EALREADY : Z := 114.
Definition EINPROGRESS : Z := 115.

(** The two bytes of a port in network order. *)
Definition htons (port : Z) : Z := (port mod 256 * 256 + port / 256 mod 256)%Z.

(** ** class Socket *)

Record Socket := mkSocket { connected_ : bool; fd_ : Z }.

Section operations.
  Context {K : Type} `{Kernel K}.

(** [Socket(fd, connected)]; a failed call is only logged. *)
Definition Socket_new (fd : Z) (connected : bool) (k : K) : Socket * K :=
  if connected then (mkSocket connected fd, k) else
  let '(fd, k) := sys_socket k in
  let '(flags, k) := sys_getfl fd k in
  let flags := Z.lor flags O_NONBLOCK in
  let '(_, k) := sys_setfl fd flags k in
  (mkSocket connected fd, k).

(** [~Socket()]. *)
Definition Socket_delete (s : Socket) (k : K) : K := sys_close (fd_ s) k.

Definition connectNb (ip : bytes) (port : Z) (s : Socket) (k : K) : bool * Socket * K :=
  let address := mkSockaddr AF_INET (inet_pton ip) (htons port) in
  let '(res, k) := sys_connect (fd_ s) address k in
  let connected := (true, mkSocket true (fd_ s), k) in
  if (res =? -1)%Z then
    if (errno k =? EALREADY)%Z || (errno k =? EINPROGRESS)%Z then (false, s, k)
    else if negb (errno k =? EISCONN)%Z then (false, s, k)
    else connected
  else connected.

Fixpoint connectB (fuel : nat) (ip : bytes) (port : Z) (s : Socket) (k : K) :
    outcome (Socket * K) :=
  match fuel with
  | O => Blocked
  | S fuel =>
      let '(ok, s, k) := connectNb ip port s k in
      if ok : bool then Ok (s, k) else connectB fuel ip port s k
  end.

(** [sendNb(pData, size)] for the bytes from [pData] on. *)
Definition sendNb (pData : bytes) (size : Z) (s : Socket) (k : K) : outcome (Z * K) :=
  '(data, _) ← rd size pData;
  let '(n, k) := sys_send (fd_ s) data k in
  let res := sint32 n in
  if negb (res =? -1)%Z then Ok (res, k)
  else if (errno k =? EAGAIN)%Z || (errno k =? EWOULDBLOCK)%Z then Ok (0%Z, k)
  else Ok ((-1)%Z, k).

(** The loop of [sendB] with [curr_count] bytes sent. *)
Fixpoint sendB_loop (fuel : nat) (pData : bytes) (target_count curr_count : Z)
    (s : Socket) (k : K) : outcome (bool * K) :=
  match fuel with
  | O => Blocked
  | S fuel =>
      if (curr_count <? target_count)%Z then
        let remaining_count := (target_count - curr_count)%Z in
        '(curr_sent, k) ← sendNb (drop (Z.to_nat curr_count) pData) remaining_count s k;
        if (curr_sent <? 0)%Z then Ok (false, k)
        else sendB_loop fuel pData target_count (curr_count + curr_sent) s k
      else Ok (true, k)
  end.

Definition sendB (fuel : nat) (pData : bytes) (target_count : Z) (s : Socket) (k : K) :
    outcome (bool * K) :=
  sendB_loop fuel pData target_count 0 s k.

(** [receiveNb(buf + off, size)]: the result and the buffer afterwards. *)
Definition receiveNb (buf : bytes) (off : nat) (size : Z) (s : Socket) (k : K) :
    outcome (Z * bytes * K) :=
  let '(n, data, k) := sys_recv (fd_ s) (Z.to_nat size) k in
  c ← put data (Cursor buf off);
  let res := sint32 n in
  if negb (res =? -1)%Z then Ok (res, c_buf c, k)
  else if (errno k =? EAGAIN)%Z || (errno k =? EWOULDBLOCK)%Z then Ok (0%Z, c_buf c, k)
  else Ok ((-1)%Z, c_buf c, k).

(** The loop of [receiveB] with [curr_count] bytes received. *)
Fixpoint receiveB_loop (fuel : nat) (buf : bytes) (target_count curr_count : Z)
    (s : Socket) (k : K) : outcome (bool * bytes * K) :=
  match fuel with
  | O => Blocked
  | S fuel =>
      if (curr_count <? target_count)%Z then
        let remaining_count := (target_count - curr_count)%Z in
        '(curr_receive, buf, k) ← receiveNb buf (Z.to_nat curr_count) remaining_count s k;
        if (curr_receive <? 0)%Z then Ok (false, buf, k)
        else receiveB_loop fuel buf target_count (curr_count + curr_receive) s k
      else Ok (true, buf, k)
  end.

Definition receiveB (fuel : nat) (buf : bytes) (target_count : Z) (s : Socket) (k : K) :
    outcome (bool * bytes * K) :=
  receiveB_loop fuel buf target_count 0 s k.

(** [do n = receiveNb(buf, size); while(n == 0)], the wait for a packet of
    [ServerApp::handleRequest] and of every request of [App]. *)
Fixpoint receive_some (fuel : nat) (buf : bytes) (size : Z) (s : Socket) (k : K) :
    outcome (Z * bytes * K) :=
  match fuel with
  | O => Blocked
  | S fuel =>
      '(n, buf, k) ← receiveNb buf 0 size s k;
      if (n =? 0)%Z then receive_some fuel buf size s k else Ok (n, buf, k)
  end.

(** ** class ServerSocket *)

Record ServerSocket := mkServerSocket { ss_fd_ : Z }.

Definition kListenBacklog : Z := 5.

(** [ServerSocket(ip, port)]; the result is [None] when the process exits. *)
Definition ServerSocket_new (ip : bytes) (port : Z) (k : K) : option ServerSocket * K :=
  let '(fd, k) := sys_socket k in
  let '(_, k) := sys_setsockopt fd k in
  let '(flags, k) := sys_getfl fd k in
  let flags := Z.lor flags O_NONBLOCK in
  let '(_, k) := sys_setfl fd flags k in
  let address := mkSockaddr AF_INET (inet_addr ip) (htons port) in
  let '(_, k) := sys_bind fd address k in
  let '(res, k) := sys_listen fd kListenBacklog k in
  if (res <? 0)%Z then (None, k) else (Some (mkServerSocket fd), k).

(** [~ServerSocket()]. *)
Definition ServerSocket_delete (ss : ServerSocket) (k : K) : K := sys_close (ss_fd_ ss) k.

(** [getConnection(res)]: the result and the out-parameter afterwards; the failure that
    is reported to the standard error has the same result as no pending connection. *)
Definition getConnection (ss : ServerSocket) (k : K) : bool * Z * K :=
  let '(res, k) := sys_accept (ss_fd_ ss) k in
  if (res =? -1)%Z then
    if (errno k =? EAGAIN)%Z || (errno k =? EWOULDBLOCK)%Z then (false, res, k)
    else (false, res, k)
  else (true, res, k).

End operations.

(** ** What a stream socket promises *)

Class KernelLaws (K : Type) `{Kernel K} := {
  (** The bytes a socket has accepted for sending, and those it has delivered. *)
  sent : Z → K → bytes;
  rcvd : Z → K → bytes;
  (** [send] accepts a prefix of the data or fails. *)
  sys_send_spec fd data k n k' :
    sys_send fd data k = (n, k') →
    (n = -1 ∧ sent fd k' = sent fd k)%Z ∨
    (0 ≤ n ≤ Z.of_nat (length data))%Z ∧ sent fd k' = sent fd k ++ take (Z.to_nat n) data;
  (** [recv] delivers at most the bytes asked for or fails. *)
  sys_recv_spec fd size k n data k' :
    sys_recv fd size k = (n, data, k') →
    (n = -1)%Z ∧ data = [] ∧ rcvd fd k' = rcvd fd k ∨
    n = Z.of_nat (length data) ∧ (length data ≤ size)%nat ∧ rcvd fd k' = rcvd fd k ++ data;
  sys_recv_sent fd size k n data k' :
    sys_recv fd size k = (n, data, k') → sent fd k' = sent fd k;
  (** A new socket has sent nothing; setting it up and connecting it sends nothing. *)
  sys_socket_spec k fd k' : sys_socket k = (fd, k') → sent fd k' = [];
  sys_getfl_spec fd k n k' : sys_getfl fd k = (n, k') → sent fd k' = sent fd k;
  sys_setfl_spec fd flags k n k' : sys_setfl fd flags k = (n, k') → sent fd k' = sent fd k;
  sys_connect_spec fd a k n k' : sys_connect fd a k = (n, k') → sent fd k' = sent fd k;
}.

(** A connection whose peer keeps up: a call that makes no progress fails with
    [EAGAIN] and uses up some of the patience, one that makes progress gives none. *)
Record sending {K} `{Kernel K} (fd : Z) (patience : K → nat) : Prop := {
  sending_step data k n k' :
    data ≠ [] → sys_send fd data k = (n, k') →
    (0 < n)%Z ∧ (patience k' ≤ patience k)%nat ∨
    n = (-1)%Z ∧ errno k' = EAGAIN ∧ (patience k' < patience k)%nat;
}.

(** A connection that still has [supply k] bytes to deliver in the state [k]. *)
Record receiving {K} `{Kernel K} (fd : Z) (patience supply : K → nat) : Prop := {
  receiving_step size k n data k' :
    (0 < size)%nat → (0 < supply k)%nat → sys_recv fd size k = (n, data, k') →
    (0 < n)%Z ∧ supply k = (length data + supply k')%nat ∧ (patience k' ≤ patience k)%nat ∨
    n = (-1)%Z ∧ errno k' = EAGAIN ∧ supply k' = supply k ∧ (patience k' < patience k)%nat;
}.

(** A connection whose peer has closed it: every [recv] returns 0. *)
Definition closed_by_peer {K} `{Kernel K} (fd : Z) (C : K → Prop) : Prop :=
  ∀ k size, C k → ∃ k', sys_recv fd size k = (0%Z, [], k') ∧ C k'.

(** A connection attempt that is in progress until the patience is used up. *)
Record connecting {K} `{Kernel K} (fd : Z) (I : K → Prop) (patience : K → nat) : Prop := {
  connecting_step a k n k' :
    I k → sys_connect fd a k = (n, k') →
    n ≠ (-1)%Z ∨ errno k' = EISCONN ∨
    (errno k' = EALREADY ∨ errno k' = EINPROGRESS) ∧ I k' ∧ (patience k' < patience k)%nat;
}.

(** [recv] fails [n] times with [EAGAIN] and then delivers [msg] at once. *)
Inductive delivers {K} `{Kernel K} (fd : Z) (size : nat) (msg : bytes) : nat → K → K → Prop :=
| delivers_now k k' :
    sys_recv fd size k = (Z.of_nat (length msg), msg, k') → delivers fd size msg 0 k k'
| delivers_wait n k k1 k' :
    sys_recv fd size k = ((-1)%Z, [], k1) → errno k1 = EAGAIN →
    delivers fd size msg n k1 k' → delivers fd size msg (S n) k k'.

(** ** The loops of class Socket *)

Lemma take_not_nil {A} n (l : list A) : (0 < n ≤ length l)%nat → take n l ≠ [].
Proof. intros Hn Hnil%(f_equal length). rewrite length_take in Hnil. cbn in Hnil. lia. Qed.

Lemma drop_take_split {A} c n m (l : list A) :
  (c + n ≤ m)%nat → drop c (take m l) = take n (drop c l) ++ drop (c + n) (take m l).
Proof.
  intros H. rewrite <- (take_drop n (drop c (take m l))) at 1. rewrite drop_drop. f_equal.
  rewrite skipn_firstn_comm, take_take. f_equal. lia.
Qed.

Section loops.
  Context {K : Type} `{KernelLaws K} (s : Socket).

(** The result of [sendNb], and what it has sent: nothing when it is 0 or -1. *)
Lemma sendNb_spec pData size k :
  (0 ≤ size < 2 ^ 31)%Z → (size ≤ Z.of_nat (length pData))%Z →
  ∃ n k', sendNb pData size s k = Ok (n, k') ∧ (-1 ≤ n ≤ size)%Z ∧
    sent (fd_ s) k' = sent (fd_ s) k ++ take (Z.to_nat n) pData ∧
    ∀ patience, sending (fd_ s) patience → (0 < size)%Z →
      (0 < n)%Z ∧ (patience k' ≤ patience k)%nat ∨ n = 0%Z ∧ (patience k' < patience k)%nat.
Proof.
  intros Hs Hl. unfold sendNb, rd. rewrite (proj2 (Z.ltb_ge _ _)) by lia. cbn.
  destruct (sys_send _ _ k) as [n k'] eqn:E. cbn. pose proof E as Hsend.
  apply sys_send_spec in E as [[-> E]|[Hn E]].
  - rewrite (sint32_id (-1)) by lia. cbn.
    exists (if (errno k' =? EAGAIN)%Z || (errno k' =? EWOULDBLOCK)%Z then 0%Z else (-1)%Z), k'.
    split_and!; [by case_match|case_match; lia..|case_match; by rewrite app_nil_r|].
    intros patience Hp Hpos. eapply sending_step in Hsend as [[? ?]|(_ & He & Hlt)]; [lia| |done|].
    + right. by rewrite He.
    + apply take_not_nil. lia.
  - rewrite length_take in Hn. rewrite sint32_id by lia.
    rewrite (proj2 (Z.eqb_neq n (-1))) by lia. exists n, k'.
    split_and!; [done|lia..|rewrite E, take_take; do 2 f_equal; lia|].
    intros patience Hp Hpos. eapply sending_step in Hsend as [?|(? & _)];
      [by left|lia|done|apply take_not_nil; lia].
Qed.

(** The loop of [sendB] sends a prefix of what remains, all of it when it returns true,
    and returns true when the peer keeps up. *)
Lemma sendB_loop_partial fuel pData target curr k b k' :
  (0 ≤ curr ≤ target)%Z → (target < 2 ^ 31)%Z → (target ≤ Z.of_nat (length pData))%Z →
  sendB_loop fuel pData target curr s k = Ok (b, k') →
  ∃ m, (curr ≤ m ≤ target)%Z ∧ (b = true → m = target) ∧
    sent (fd_ s) k ++ drop (Z.to_nat curr) (take (Z.to_nat m) pData) = sent (fd_ s) k'.
Proof.
  revert curr k. induction fuel as [|fuel IH]; intros curr k Hc Ht Hl; [done|]. cbn.
  destruct (Z.ltb_spec curr target) as [Hlt|Hge]; cbn.
  - destruct (sendNb_spec (drop (Z.to_nat curr) pData) (target - curr) k)
      as (n & k1 & -> & Hn & Hs & _); [lia|rewrite length_drop; lia|]. cbn.
    destruct (Z.ltb_spec n 0); intros Hr.
    + simplify_eq. exists curr. replace n with (-1)%Z in Hs by lia. cbn in Hs.
      rewrite Hs, drop_ge by (rewrite length_take; lia). by split_and!; try lia.
    + apply IH in Hr as (m & Hm & Hb & <-); [|lia..]. exists m. split_and!; [lia..|done|].
      rewrite Hs, <- app_assoc, (drop_take_split _ (Z.to_nat n)) by lia.
      by rewrite Z2Nat.inj_add by lia.
  - intros [= <- <-]. exists target. split_and!; [lia..|done|].
    rewrite drop_ge, app_nil_r; [done|]. rewrite length_take. lia.
Qed.

Lemma sendB_loop_total patience fuel pData target curr k :
  sending (fd_ s) patience →
  (0 ≤ curr ≤ target)%Z → (target < 2 ^ 31)%Z → (target ≤ Z.of_nat (length pData))%Z →
  (Z.to_nat (target - curr) + patience k < fuel)%nat →
  ∃ k', sendB_loop fuel pData target curr s k = Ok (true, k').
Proof.
  intros Hp. revert curr k. induction fuel as [|fuel IH]; intros curr k Hc Ht Hl Hf; [lia|]. cbn.
  destruct (Z.ltb_spec curr target); cbn; [|eauto].
  destruct (sendNb_spec (drop (Z.to_nat curr) pData) (target - curr) k)
    as (n & k1 & -> & Hn & _ & Hs); [lia|rewrite length_drop; lia|]. cbn.
  specialize (Hs patience Hp ltac:(lia)). rewrite (proj2 (Z.ltb_ge _ _)) by lia.
  apply IH; lia.
Qed.

Lemma sendB_ok patience fuel pData target k :
  sending (fd_ s) patience →
  (0 ≤ target < 2 ^ 31)%Z → (target ≤ Z.of_nat (length pData))%Z →
  (Z.to_nat target + patience k < fuel)%nat →
  ∃ k', sendB fuel pData target s k = Ok (true, k') ∧
        sent (fd_ s) k' = sent (fd_ s) k ++ take (Z.to_nat target) pData.
Proof.
  intros Hp Ht Hl Hf. unfold sendB.
  destruct (sendB_loop_total patience fuel pData target 0 k) as [k' E]; [done|lia..|].
  exists k'. split; [done|].
  apply sendB_loop_partial in E as (m & _ & Hm & <-); [|lia..]. by rewrite (Hm eq_refl).
Qed.

(** Nothing is read beyond the end of a buffer that holds the data; [sendB] does not
    check that it does. *)
Lemma sendB_oob fuel pData target k :
  (Z.of_nat (length pData) < target)%Z → (0 < fuel)%nat →
  sendB fuel pData target s k = Oob.
Proof.
  intros Hl Hf. unfold sendB. destruct fuel as [|fuel]; [lia|]. cbn.
  rewrite (proj2 (Z.ltb_lt _ _)) by lia. unfold sendNb, rd.
  by rewrite drop_0, Z.sub_0_r, (proj2 (Z.ltb_lt _ _)) by lia.
Qed.

(** The result of [receiveNb], and what it has put in the buffer. *)
Lemma receiveNb_spec buf off size k :
  (0 ≤ size < 2 ^ 31)%Z → (off + Z.to_nat size ≤ length buf)%nat →
  ∃ n data k', receiveNb buf off size s k = Ok (n, splice buf off data, k') ∧
    (Z.of_nat (length data) ≤ size)%Z ∧ rcvd (fd_ s) k' = rcvd (fd_ s) k ++ data ∧
    (n = Z.of_nat (length data) ∨ n = (-1)%Z ∧ data = []) ∧
    ∀ patience supply, receiving (fd_ s) patience supply → (0 < size)%Z → (0 < supply k)%nat →
      (0 ≤ n)%Z ∧ supply k = (length data + supply k')%nat ∧
      (patience k' ≤ patience k)%nat ∧ (n = 0%Z → (patience k' < patience k)%nat).
Proof.
  intros Hs Hl. unfold receiveNb. destruct (sys_recv _ _ k) as [[n data] k'] eqn:E.
  pose proof E as Hrecv. apply sys_recv_spec in E as [(-> & -> & E)|(-> & Hd & E)];
    rewrite put_ok by (cbn; lia); cbn.
  - rewrite (sint32_id (-1)) by lia. cbn. rewrite splice_nil.
    exists (if (errno k' =? EAGAIN)%Z || (errno k' =? EWOULDBLOCK)%Z then 0%Z else (-1)%Z), [], k'.
    rewrite splice_nil, app_nil_r. cbn.
    split_and!; [by case_match|lia|done|case_match; auto|].
    intros p su Hp Hpos Hsu. eapply receiving_step in Hrecv as [(? & _)|(_ & He & ? & ?)];
      [lia| |done|lia|done]. rewrite He. cbn. split_and!; intros; lia.
  - rewrite sint32_id by lia. rewrite (proj2 (Z.eqb_neq _ (-1))) by lia.
    exists (Z.of_nat (length data)), data, k'. split_and!; [done|lia|done|auto|].
    intros p su Hp Hpos Hsu. eapply receiving_step in Hrecv as [(? & ? & ?)|(? & _)];
      [split_and!; [lia|done|done|intros; lia]|lia|done|lia|done].
Qed.

(** The loop of [receiveB] stores what it receives after what it had, the whole count
    when it returns true, and returns true when enough is to come. *)
Lemma receiveB_loop_partial fuel buf target curr k b buf' k' :
  (0 ≤ curr ≤ target)%Z → (target < 2 ^ 31)%Z → (target ≤ Z.of_nat (length buf))%Z →
  receiveB_loop fuel buf target curr s k = Ok (b, buf', k') →
  ∃ data, rcvd (fd_ s) k' = rcvd (fd_ s) k ++ data ∧
    (curr + Z.of_nat (length data) ≤ target)%Z ∧
    (b = true → curr + Z.of_nat (length data) = target)%Z ∧
    buf' = splice buf (Z.to_nat curr) data.
Proof.
  revert buf curr k. induction fuel as [|fuel IH]; intros buf curr k Hc Ht Hl; [done|]. cbn.
  destruct (Z.ltb_spec curr target) as [Hlt|Hge]; cbn.
  - destruct (receiveNb_spec buf (Z.to_nat curr) (target - curr) k)
      as (n & data & k1 & -> & Hd & Hr & Hn & _); [lia..|]. cbn.
    destruct (Z.ltb_spec n 0); intros Hb.
    + destruct Hn as [->|[-> ->]]; [lia|]. simplify_eq. exists []. cbn.
      split_and!; [done|lia|done|done].
    + destruct Hn as [->|[-> ->]]; [|lia].
      apply IH in Hb as (data' & E & ? & Hb' & ->); [|lia..|rewrite length_splice; lia].
      exists (data ++ data'). rewrite length_app. split_and!; [|lia|intros ?%Hb'; lia|].
      * by rewrite E, Hr, app_assoc.
      * rewrite Z2Nat.inj_add, Nat2Z.id by lia. apply splice_splice. lia.
  - intros [= <- <- <-]. exists []. rewrite splice_nil, app_nil_r. cbn. split_and!; lia || done.
Qed.

Lemma receiveB_loop_total patience supply fuel buf target curr k :
  receiving (fd_ s) patience supply →
  (0 ≤ curr ≤ target)%Z → (target < 2 ^ 31)%Z → (target ≤ Z.of_nat (length buf))%Z →
  (Z.to_nat (target - curr) ≤ supply k)%nat →
  (Z.to_nat (target - curr) + patience k < fuel)%nat →
  ∃ buf' k', receiveB_loop fuel buf target curr s k = Ok (true, buf', k').
Proof.
  intros Hp. revert buf curr k.
  induction fuel as [|fuel IH]; intros buf curr k Hc Ht Hl Hsu Hf; [lia|]. cbn.
  destruct (Z.ltb_spec curr target); cbn; [|eauto].
  destruct (receiveNb_spec buf (Z.to_nat curr) (target - curr) k)
    as (n & data & k1 & -> & Hd & _ & Hn & Hs); [lia..|]. cbn.
  destruct (Hs patience supply Hp) as (? & ? & ? & ?); [lia..|].
  rewrite (proj2 (Z.ltb_ge _ _)) by lia. destruct Hn as [->|[-> ->]]; [|lia].
  apply IH; rewrite ?length_splice; lia.
Qed.

(** With a closed peer no wait for data ends. *)
Lemma receiveNb_closed C buf off size k :
  closed_by_peer (fd_ s) C → C k → (off ≤ length buf)%nat →
  ∃ k', receiveNb buf off size s k = Ok (0%Z, buf, k') ∧ C k'.
Proof.
  intros Hcl Hk Ho. destruct (Hcl k (Z.to_nat size) Hk) as (k' & E & Hk').
  exists k'. unfold receiveNb. rewrite E, put_nil by done. done.
Qed.

Lemma receiveB_loop_closed C fuel buf target curr k :
  closed_by_peer (fd_ s) C → C k → (0 ≤ curr < target)%Z →
  (curr ≤ Z.of_nat (length buf))%Z →
  receiveB_loop fuel buf target curr s k = Blocked.
Proof.
  intros Hcl Hk Hc Hl. revert k Hk. induction fuel as [|fuel IH]; intros k Hk; [done|]. cbn.
  rewrite (proj2 (Z.ltb_lt _ _)) by lia.
  destruct (receiveNb_closed C buf (Z.to_nat curr) (target - curr) k) as (k' & -> & Hk');
    [done..|lia|]. cbn. rewrite Z.add_0_r. auto.
Qed.

Lemma receive_some_closed C fuel buf size k :
  closed_by_peer (fd_ s) C → C k → receive_some fuel buf size s k = Blocked.
Proof.
  intros Hcl. revert k. induction fuel as [|fuel IH]; intros k Hk; [done|]. cbn.
  destruct (receiveNb_closed C buf 0 size k) as (k' & -> & Hk'); [done..|lia|]. cbn. auto.
Qed.

Lemma delivers_sent size msg n k k' :
  delivers (fd_ s) size msg n k k' → sent (fd_ s) k' = sent (fd_ s) k.
Proof.
  induction 1 as [k k' E|n k k1 k' E _ _ ->]; by apply sys_recv_sent in E.
Qed.

Lemma receive_some_delivers n msg fuel buf size k k' :
  delivers (fd_ s) (Z.to_nat size) msg n k k' → (n < fuel)%nat →
  (0 < length msg)%nat → (Z.of_nat (length msg) < 2 ^ 31)%Z → (length msg ≤ length buf)%nat →
  receive_some fuel buf size s k =
    Ok (Z.of_nat (length msg), msg ++ drop (length msg) buf, k').
Proof.
  intros Hd. revert fuel. induction Hd as [k k' E|n k k1 k' E He Hd IH]; intros fuel Hf Hm Hm' Hl;
    (destruct fuel as [|fuel]; [lia|]); cbn; unfold receiveNb; rewrite E.
  - rewrite put_start by done. cbn. rewrite sint32_id by lia.
    rewrite (proj2 (Z.eqb_neq _ (-1))) by lia. cbn. by rewrite (proj2 (Z.eqb_neq _ 0)) by lia.
  - rewrite put_nil by (cbn; lia). cbn. rewrite (sint32_id (-1)), He by lia. cbn.
    apply IH; lia.
Qed.

Lemma receive_some_total patience supply fuel buf size k :
  receiving (fd_ s) patience supply →
  (0 < size < 2 ^ 31)%Z → (size ≤ Z.of_nat (length buf))%Z → (0 < supply k)%nat →
  (patience k < fuel)%nat →
  ∃ data k', receive_some fuel buf size s k =
               Ok (Z.of_nat (length data), data ++ drop (length data) buf, k') ∧
    data ≠ [] ∧ (Z.of_nat (length data) ≤ size)%Z ∧ rcvd (fd_ s) k' = rcvd (fd_ s) k ++ data.
Proof.
  intros Hp Hs Hl. revert k. induction fuel as [|fuel IH]; intros k Hsu Hf; [lia|]. cbn.
  destruct (receiveNb_spec buf 0 size k) as (n & data & k1 & -> & Hd & Hr & Hn & Hp'); [lia..|].
  cbn. destruct (Hp' patience supply Hp) as (? & Hsup & ? & Hlt); [lia..|].
  destruct Hn as [->|[-> ->]]; [|lia]. destruct data as [|x data]; cbn.
  - rewrite splice_nil. cbn in Hsup. rewrite app_nil_r in Hr.
    destruct (IH k1) as (data & k' & -> & ? & ? & Hk); [lia| |].
    { specialize (Hlt eq_refl). lia. }
    exists data, k'. by rewrite Hk, Hr.
  - exists (x :: data), k1. by split_and!.
Qed.

(** ** Connecting *)

Lemma Socket_new_sent fd k k' :
  Socket_new fd false k = (s, k') → sent (fd_ s) k' = [].
Proof.
  unfold Socket_new. destruct (sys_socket k) as [fd' k1] eqn:E1.
  destruct (sys_getfl fd' k1) as [fl k2] eqn:E2.
  destruct (sys_setfl fd' _ k2) as [r k3] eqn:E3. intros [= <- <-]. cbn.
  rewrite (sys_setfl_spec _ _ _ _ _ E3), (sys_getfl_spec _ _ _ _ E2).
  by apply sys_socket_spec in E1.
Qed.

Lemma connectB_total I patience fuel ip port k :
  connecting (fd_ s) I patience → I k → (patience k < fuel)%nat →
  ∃ k', connectB fuel ip port s k = Ok (mkSocket true (fd_ s), k') ∧
        sent (fd_ s) k' = sent (fd_ s) k.
Proof.
  intros Hp. revert k. induction fuel as [|fuel IH]; intros k Hk Hf; [lia|]. cbn.
  unfold connectNb. destruct (sys_connect _ _ k) as [n k'] eqn:E.
  pose proof (sys_connect_spec _ _ _ _ _ E) as Hs.
  destruct (connecting_step _ _ _ Hp _ _ _ _ Hk E) as [Hn|[He|([He|He] & Hk' & Hlt)]].
  - rewrite (proj2 (Z.eqb_neq _ _)) by done. eauto.
  - rewrite He. destruct (_ =? -1)%Z; cbn; eauto.
  - rewrite He. destruct (n =? -1)%Z; cbn; [|eauto]. rewrite <- Hs. apply IH; [done|lia].
  - rewrite He. destruct (n =? -1)%Z; cbn; [|eauto]. rewrite <- Hs. apply IH; [done|lia].
Qed.

(** A refused connection is retried for ever. *)
Lemma connectB_refused (C : K → Prop) fuel ip port k :
  (∀ a k, C k → ∃ k', sys_connect (fd_ s) a k = ((-1)%Z, k') ∧ errno k' ≠ EISCONN ∧ C k') →
  C k → connectB fuel ip port s k = Blocked.
Proof.
  intros Hr. revert k. induction fuel as [|fuel IH]; intros k Hk; [done|]. cbn.
  unfold connectNb. destruct (Hr (mkSockaddr AF_INET (inet_pton ip) (htons port)) k Hk)
    as (k' & -> & He & Hk'). cbn. destruct (_ || _); [auto|].
  rewrite (proj2 (Z.eqb_neq _ _)) by done. cbn. auto.
Qed.

End loops.

(** ** A scripted kernel

    A state is the answers the calls are to give. [send] accepts at most the bytes the
    script says (all of them when it is used up), [recv] delivers the chunks of the
    script ([None], or an empty chunk, is a moment without data) and then reports that
    the peer has closed, and [connect] and [accept] give the results listed. *)

Record script := mkScript {
  sc_errno : Z;
  sc_connect : list Z;
  sc_accept : list Z;
  sc_send : list (option nat);
  sc_recv : list bytes;
  sc_sent : bytes;
  sc_rcvd : bytes;
}.

Definition set_errno (e : Z) (k : script) : script :=
  mkScript e (sc_connect k) (sc_accept k) (sc_send k) (sc_recv k) (sc_sent k) (sc_rcvd k).

Definition script_socket (k : script) : Z * script :=
  (3%Z, mkScript (sc_errno k) (sc_connect k) (sc_accept k) (sc_send k) (sc_recv k) [] []).

Definition script_connect (k : script) : Z * script :=
  match sc_connect k with
  | [] => (0%Z, k)
  | e :: l => ((-1)%Z, mkScript e l (sc_accept k) (sc_send k) (sc_recv k) (sc_sent k) (sc_rcvd k))
  end.

Definition script_accept (k : script) : Z * script :=
  match sc_accept k with
  | [] => ((-1)%Z, set_errno EAGAIN k)
  | fd :: l =>
      (fd, mkScript (sc_errno k) (sc_connect k) l (sc_send k) (sc_recv k) (sc_sent k) (sc_rcvd k))
  end.

Definition script_send (data : bytes) (k : script) : Z * script :=
  let accept m l :=
    (Z.of_nat (length (take m data)),
     mkScript (sc_errno k) (sc_connect k) (sc_accept k) l (sc_recv k)
       (sc_sent k ++ take m data) (sc_rcvd k)) in
  match sc_send k with
  | [] => accept (length data) []
  | Some m :: l => accept (S m) l
  | None :: l =>
      ((-1)%Z, mkScript EAGAIN (sc_connect k) (sc_accept k) l (sc_recv k) (sc_sent k) (sc_rcvd k))
  end.

Definition script_recv (size : nat) (k : script) : Z * bytes * script :=
  let upd e l data :=
    mkScript e (sc_connect k) (sc_accept k) (sc_send k) l (sc_sent k) (sc_rcvd k ++ data) in
  match sc_recv k with
  | [] => (0%Z, [], k)
  | [] :: l => ((-1)%Z, [], upd EAGAIN l [])
  | chunk :: l =>
      let data := take size chunk in
      let rest := match drop size chunk with [] => l | rest => rest :: l end in
      (Z.of_nat (length data), data, upd (sc_errno k) rest data)
  end.

#[export] Instance script_kernel : Kernel script := {
  errno := sc_errno;
  inet_pton _ := 16777343%Z;
  inet_addr _ := 16777343%Z;
  sys_socket := script_socket;
  sys_getfl _ k := (0%Z, k);
  sys_setfl _ _ k := (0%Z, k);
  sys_setsockopt _ k := (0%Z, k);
  sys_bind _ _ k := (0%Z, k);
  sys_listen _ _ k := (0%Z, k);
  sys_accept _ := script_accept;
  sys_connect _ _ := script_connect;
  sys_send _ := script_send;
  sys_recv _ := script_recv;
  sys_close _ k := k;
}.

Lemma script_send_spec data k n k' :
  script_send data k = (n, k') →
  (n = -1 ∧ sc_sent k' = sc_sent k)%Z ∨
  (0 ≤ n ≤ Z.of_nat (length data))%Z ∧ sc_sent k' = sc_sent k ++ take (Z.to_nat n) data.
Proof.
  unfold script_send.
  assert (∀ m, take (Z.to_nat (Z.of_nat (length (take m data)))) data = take m data) as Ht.
  { intros m. rewrite Nat2Z.id, length_take. destruct (decide (m ≤ length data)%nat).
    - by rewrite Nat.min_l.
    - rewrite Nat.min_r, !take_ge by lia. done. }
  destruct (sc_send k) as [|[m|] l]; intros [= <- <-]; cbn; [right|right|left; done];
    (split; [rewrite length_take; lia|by rewrite Ht]).
Qed.

Lemma script_recv_spec size k n data k' :
  script_recv size k = (n, data, k') →
  (n = -1)%Z ∧ data = [] ∧ sc_rcvd k' = sc_rcvd k ∨
  n = Z.of_nat (length data) ∧ (length data ≤ size)%nat ∧ sc_rcvd k' = sc_rcvd k ++ data.
Proof.
  unfold script_recv. destruct (sc_recv k) as [|[|x c] l]; intros [= <- <- <-]; cbn.
  - right. rewrite app_nil_r. split_and!; [done|lia|done].
  - left. by rewrite app_nil_r.
  - right. split_and!; [done| |done]. rewrite length_take. lia.
Qed.

Lemma script_recv_sent size k n data k' :
  script_recv size k = (n, data, k') → sc_sent k' = sc_sent k.
Proof. unfold script_recv. by destruct (sc_recv k) as [|[|x c] l]; intros [= <- <- <-]. Qed.

Lemma script_connect_spec k n k' : script_connect k = (n, k') → sc_sent k' = sc_sent k.
Proof. unfold script_connect. destruct (sc_connect k); by intros [= <- <-]. Qed.

Lemma pair_snd {A B} (a x : A) (b y : B) (f : B → bytes) : (a, b) = (x, y) → f y = f b.
Proof. by intros [= _ ->]. Qed.

Lemma script_socket_spec k fd k' : script_socket k = (fd, k') → sc_sent k' = [].
Proof. by intros [= _ <-]. Qed.

#[export] Instance script_laws : KernelLaws script := {
  sent _ := sc_sent;
  rcvd _ := sc_rcvd;
  sys_send_spec _ := script_send_spec;
  sys_recv_spec _ := script_recv_spec;
  sys_recv_sent _ := script_recv_sent;
  sys_socket_spec := script_socket_spec;
  sys_getfl_spec _ _ _ _ := pair_snd _ _ _ _ sc_sent;
  sys_setfl_spec _ _ _ _ _ := pair_snd _ _ _ _ sc_sent;
  sys_connect_spec _ _ := script_connect_spec;
}.

Lemma script_sending fd : sending fd (λ k, length (sc_send k)).
Proof.
  split. intros data k n k' Hd. cbn. unfold script_send.
  destruct data as [|x data]; [done|].
  destruct (sc_send k) as [|[m|] l]; intros [= <- <-]; cbn; auto with lia.
Qed.

Lemma script_receiving fd :
  receiving fd (λ k, length (sc_recv k)) (λ k, length (concat (sc_recv k))).
Proof.
  split. intros size k n data k' Hs Hsu. cbn. unfold script_recv.
  destruct (sc_recv k) as [|[|x c] l] eqn:E; cbn in *; [lia|..]; intros [= <- <- <-]; cbn.
  - right. by split_and!; try lia.
  - left. destruct size as [|size]; [lia|]. cbn. split; [lia|].
    pose proof (length_take c size) as Ht. pose proof (length_drop c size) as Hd.
    destruct (drop size c) as [|y r]; cbn in *; rewrite ?length_app; cbn; lia.
Qed.

Lemma script_connecting fd :
  connecting fd (λ k, Forall (λ e, e = EALREADY ∨ e = EINPROGRESS) (sc_connect k))
             (λ k, length (sc_connect k)).
Proof.
  split. intros a k n k' Hk. cbn. unfold script_connect.
  destruct (sc_connect k) as [|e l] eqn:E; intros [= <- <-]; cbn; [by left|].
  apply Forall_cons in Hk as [He Hl]. right; right. split_and!; [done|done|lia].
Qed.

Lemma script_closed fd : closed_by_peer fd (λ k, sc_recv k = []).
Proof. intros k size Hk. exists k. cbn. unfold script_recv. by rewrite Hk. Qed.

(** ** Properties *)

(** C23. [sendB] delivers: as long as the peer keeps up, it returns true and has sent
    exactly the first [target_count] bytes of the buffer, once and in order, however the
    kernel splits and delays them. *)
Theorem sendB_delivers {K} `{KernelLaws K} patience fuel pData target_count s k :
  sending (fd_ s) patience →
  (0 ≤ target_count < 2 ^ 31)%Z → (target_count ≤ Z.of_nat (length pData))%Z →
  (Z.to_nat target_count + patience k < fuel)%nat →
  ∃ k', sendB fuel pData target_count s k = Ok (true, k') ∧
        sent (fd_ s) k' = sent (fd_ s) k ++ take (Z.to_nat target_count) pData.
Proof.
  intros Hp Ht Hl Hf. by apply (sendB_ok s patience).
Qed.

(** A kernel that takes 2 bytes, then none, then 1, then the rest. *)
Definition slow_kernel : script :=
  mkScript 0 [EINPROGRESS] [] [Some 1; None; Some 0]%nat [str "ab"; []; str "cde"] [] [].

Lemma sendB_delivers_witness :
  ∃ k', sendB 20 (str "hello world") 8 (mkSocket true 3) slow_kernel = Ok (true, k') ∧
        sc_sent k' = sc_sent slow_kernel ++ take 8 (str "hello world").
Proof.
  destruct (sendB_delivers (λ k, length (sc_send k)) 20 (str "hello world") 8 (mkSocket true 3)
    slow_kernel) as (k' & E & Hs); [apply script_sending|lia|cbn; lia|cbn; lia|].
  exists k'. exact (conj E Hs).
Defined.

(** Whatever the kernel does, when [sendB] returns it has sent a prefix of the data,
    and the whole of it if it returns true: an error never reorders or repeats bytes. *)
Theorem sendB_sends_prefix {K} `{KernelLaws K} fuel pData target_count s k b k' :
  (0 ≤ target_count < 2 ^ 31)%Z → (target_count ≤ Z.of_nat (length pData))%Z →
  sendB fuel pData target_count s k = Ok (b, k') →
  ∃ m, (m ≤ Z.to_nat target_count)%nat ∧ (b = true → m = Z.to_nat target_count) ∧
       sent (fd_ s) k' = sent (fd_ s) k ++ take m pData.
Proof.
  intros Ht Hl (m & Hm & Hb & <-)%sendB_loop_partial; [|lia..].
  exists (Z.to_nat m). split_and!; [lia| |done]. intros ?%Hb. by subst.
Qed.

Lemma sendB_sends_prefix_witness :
  ∃ m, (m ≤ 4)%nat ∧ (true = true → m = 4%nat) ∧ str "abcd" = [] ++ take m (str "abcd").
Proof.
  destruct (sendB_sends_prefix 20 (str "abcd") 4 (mkSocket true 3) slow_kernel true
    (mkScript EAGAIN [EINPROGRESS] [] [] [str "ab"; []; str "cde"] (str "abcd") []))
    as (m & Hm & Hb & Hs); [lia|cbn; lia|by vm_compute|].
  exists m. exact (conj Hm (conj Hb Hs)).
Defined.

(** [receiveB] collects: as long as enough bytes are to come, it returns true and has
    stored the next [target_count] bytes of the stream, in order, at the start of the
    buffer, and nothing else of the buffer has changed. *)
Theorem receiveB_collects {K} `{KernelLaws K} patience supply fuel buf target_count s k :
  receiving (fd_ s) patience supply →
  (0 ≤ target_count < 2 ^ 31)%Z → (target_count ≤ Z.of_nat (length buf))%Z →
  (Z.to_nat target_count ≤ supply k)%nat →
  (Z.to_nat target_count + patience k < fuel)%nat →
  ∃ data k', receiveB fuel buf target_count s k =
               Ok (true, data ++ drop (Z.to_nat target_count) buf, k') ∧
    Z.of_nat (length data) = target_count ∧ rcvd (fd_ s) k' = rcvd (fd_ s) k ++ data.
Proof.
  intros Hp Ht Hl Hsu Hf. unfold receiveB.
  destruct (receiveB_loop_total s patience supply fuel buf target_count 0 k)
    as (buf' & k' & E); [done|lia..|].
  pose proof E as Hr. apply receiveB_loop_partial in E as (data & Hd & _ & Hlen & ->); [|lia..].
  specialize (Hlen eq_refl). exists data, k'. rewrite Hr. split_and!; [|lia|done].
  change (Z.to_nat 0) with 0%nat. rewrite splice_0. by replace (length data) with (Z.to_nat target_count) by lia.
Qed.

Lemma receiveB_collects_witness :
  ∃ data k', receiveB 20 (replicate 6 x00) 4 (mkSocket true 3) slow_kernel =
               Ok (true, data ++ drop 4 (replicate 6 x00), k') ∧
    Z.of_nat (length data) = 4%Z ∧ sc_rcvd k' = sc_rcvd slow_kernel ++ data.
Proof.
  destruct (receiveB_collects (λ k, length (sc_recv k)) (λ k, length (concat (sc_recv k)))
    20 (replicate 6 x00) 4 (mkSocket true 3) slow_kernel) as (data & k' & E & Hl & Hr);
    [apply script_receiving|lia|cbn; lia..|].
  exists data, k'. exact (conj E (conj Hl Hr)).
Defined.

(** A closed connection is not noticed: once the peer has closed, [receiveB] and the
    wait for a packet of the server and of the client never return, because the 0 of
    [recv] is taken for a moment without data. *)
Theorem receive_never_returns_on_closed {K} `{KernelLaws K} C fuel buf size s k :
  closed_by_peer (fd_ s) C → C k → (0 < size)%Z →
  receiveB fuel buf size s k = Blocked ∧ receive_some fuel buf size s k = Blocked.
Proof.
  intros Hcl Hk Hs. split.
  - apply (receiveB_loop_closed s C); auto with lia.
  - by apply (receive_some_closed s C).
Qed.

Lemma receive_never_returns_on_closed_witness :
  receiveB 1000 (replicate 4 x00) 4 (mkSocket true 3) (mkScript 0 [] [] [] [] [] []) = Blocked.
Proof.
  apply (receive_never_returns_on_closed (λ k, sc_recv k = []) 1000 (replicate 4 x00) 4
    (mkSocket true 3) (mkScript 0 [] [] [] [] [] [])); [apply script_closed|done|lia].
Defined.

(** C34. [connectB] on a new socket returns a connected socket on the same descriptor,
    with nothing sent, as soon as the attempt stops being in progress, and it retries a
    connection that is refused for ever. *)
Theorem connectB_connects_or_retries {K} `{KernelLaws K} ip port k s k0 :
  Socket_new (-1) false k = (s, k0) →
  (∀ I patience fuel, connecting (fd_ s) I patience → I k0 → (patience k0 < fuel)%nat →
     ∃ k', connectB fuel ip port s k0 = Ok (mkSocket true (fd_ s), k') ∧ sent (fd_ s) k' = []) ∧
  (∀ (C : K → Prop) fuel,
     (∀ a k, C k → ∃ k', sys_connect (fd_ s) a k = ((-1)%Z, k') ∧ errno k' ≠ EISCONN ∧ C k') →
     C k0 → connectB fuel ip port s k0 = Blocked).
Proof.
  intros Hn. split.
  - intros I patience fuel Hc Hk Hf.
    destruct (connectB_total s I patience fuel ip port k0) as (k' & -> & Hs); [done..|].
    exists k'. split; [done|]. rewrite Hs. by apply Socket_new_sent in Hn.
  - intros C fuel Hr Hk. by apply (connectB_refused s C).
Qed.

Lemma connectB_connects_or_retries_witness :
  ∃ k', connectB 2 (str "127.0.0.1") 8080 (mkSocket false 3) slow_kernel =
          Ok (mkSocket true 3, k') ∧ sc_sent k' = [].
Proof.
  destruct (proj1 (connectB_connects_or_retries (str "127.0.0.1") 8080 slow_kernel
    (mkSocket false 3) slow_kernel ltac:(by vm_compute)) _ _ 2%nat (script_connecting 3)) as (k' & E & Hs).
  - apply Forall_singleton. by right.
  - cbn. lia.
  - exists k'. exact (conj E Hs).
Defined.
