(* ===== verification/Network.v ===== *)
(** Several connections of one kernel: what a call on one descriptor leaves alone on the
    others, which descriptors are open, and a scripted kernel with a script for every
    connection. The interface extends that of [Socket]; the threads of the server are
    proved against it. *)

From S2P Require Import Prelude.
From S2P Require Import Socket.

(** ** Connections do not disturb one another *)

(** The traffic of every connection but [fd]'s is the same. *)
Definition others_same {K} `{KernelLaws K} (fd : Z) (k k' : K) : Prop :=
  ∀ fd', fd' ≠ fd → sent fd' k' = sent fd' k ∧ rcvd fd' k' = rcvd fd' k.

Class ConnectionLaws (K : Type) `{KernelLaws K} := {
  (** The descriptors of the connections that are open. *)
  opened : K → gset Z;
  sys_send_others fd data k n k' :
    sys_send fd data k = (n, k') →
    others_same fd k k' ∧ rcvd fd k' = rcvd fd k ∧ opened k' = opened k;
  sys_recv_others fd size k n data k' :
    sys_recv fd size k = (n, data, k') → others_same fd k k' ∧ opened k' = opened k;
  sys_close_others fd k :
    others_same fd k (sys_close fd k) ∧ opened (sys_close fd k) = opened k ∖ {[fd]};
  (** [accept] fails and changes nothing of the connections, or opens a new one on a
      descriptor that is not in use. *)
  sys_accept_spec l k fd k' :
    sys_accept l k = (fd, k') →
    (fd = (-1)%Z ∧ opened k' = opened k ∧
      (∀ fd', sent fd' k' = sent fd' k ∧ rcvd fd' k' = rcvd fd' k)) ∨
    (fd ∉ opened k) ∧ opened k' = {[fd]} ∪ opened k ∧ sent fd k' = [] ∧ rcvd fd k' = [] ∧
      others_same fd k k';
}.

Section frames.
  Context {K : Type} `{ConnectionLaws K}.

#[export] Instance others_same_preorder fd : PreOrder (others_same fd).
Proof.
  split; [by intros k fd' _|].
  intros k1 k2 k3 H12 H23 fd' Hne. destruct (H12 fd' Hne) as [E1 E2], (H23 fd' Hne) as [E3 E4].
  split; congruence.
Qed.

Lemma sendNb_others pData size s k n k' :
  sendNb pData size s k = Ok (n, k') →
  others_same (fd_ s) k k' ∧ rcvd (fd_ s) k' = rcvd (fd_ s) k ∧ opened k' = opened k.
Proof.
  unfold sendNb. destruct (rd size pData) as [[data r]| | |]; cbn; [|done..].
  destruct (sys_send (fd_ s) data k) as [m k1] eqn:E. apply sys_send_others in E.
  intros Hr. repeat case_match; by simplify_eq.
Qed.

Lemma receiveNb_others buf off size s k n buf' k' :
  receiveNb buf off size s k = Ok (n, buf', k') →
  others_same (fd_ s) k k' ∧ sent (fd_ s) k' = sent (fd_ s) k ∧ opened k' = opened k.
Proof.
  unfold receiveNb. destruct (sys_recv (fd_ s) (Z.to_nat size) k) as [[m data] k1] eqn:E.
  pose proof (sys_recv_sent _ _ _ _ _ _ E). apply sys_recv_others in E as [? ?].
  destruct (put data (Cursor buf off)) as [c| | |]; cbn; [|done..].
  intros Hr. repeat case_match; by simplify_eq.
Qed.

End frames.

Lemma receiveNb_length {K} `{Kernel K} buf off size s (k : K) n buf' k' :
  receiveNb buf off size s k = Ok (n, buf', k') → length buf' = length buf.
Proof.
  unfold receiveNb. destruct (sys_recv (fd_ s) (Z.to_nat size) k) as [[m data] k1].
  destruct (put data (Cursor buf off)) as [c| | |] eqn:E; cbn; [|done..].
  apply put_inv in E as (Hl & _). intros Hr. repeat case_match; by simplify_eq.
Qed.

(** ** A scripted kernel with a script per connection

    [nt_accept] lists the clients that are going to connect, each with the script of its
    connection, [None] being a moment without one. The descriptor of a new connection is
    the least number from 3 on that is not in use. *)

Record net := mkNet {
  nt_errno : Z;
  nt_accept : list (option script);
  nt_conns : gmap Z script;
  nt_open : gset Z;
}.

Definition idle : script := mkScript 0 [] [] [] [] [] [].

Definition conn (fd : Z) (k : net) : script := default idle (nt_conns k !! fd).

Definition with_conn (fd : Z) (c : script) (k : net) : net :=
  mkNet (sc_errno c) (nt_accept k) (<[fd := c]> (nt_conns k)) (nt_open k).

(** A descriptor that is not in use. *)
Definition fresh_fd (s : gset Z) : Z := set_fold Z.max 2%Z s + 1.

Definition net_accept (k : net) : Z * net :=
  match nt_accept k with
  | Some c :: l =>
      let fd := fresh_fd (nt_open k) in
      (fd, mkNet (nt_errno k) l
             (<[fd := mkScript 0 [] [] (sc_send c) (sc_recv c) [] []]> (nt_conns k))
             ({[fd]} ∪ nt_open k))
  | None :: l => ((-1)%Z, mkNet EAGAIN l (nt_conns k) (nt_open k))
  | [] => ((-1)%Z, mkNet EAGAIN [] (nt_conns k) (nt_open k))
  end.

#[export] Instance net_kernel : Kernel net := {
  errno := nt_errno;
  inet_pton _ := 16777343%Z;
  inet_addr _ := 16777343%Z;
  sys_socket k := (3%Z, with_conn 3 idle k);
  sys_getfl _ k := (0%Z, k);
  sys_setfl _ _ k := (0%Z, k);
  sys_setsockopt _ k := (0%Z, k);
  sys_bind _ _ k := (0%Z, k);
  sys_listen _ _ k := (0%Z, k);
  sys_accept _ := net_accept;
  sys_connect fd _ k := let '(n, c) := script_connect (conn fd k) in (n, with_conn fd c k);
  sys_send fd data k := let '(n, c) := script_send data (conn fd k) in (n, with_conn fd c k);
  sys_recv fd size k :=
    let '(n, data, c) := script_recv size (conn fd k) in (n, data, with_conn fd c k);
  sys_close fd k := mkNet (nt_errno k) (nt_accept k) (nt_conns k) (nt_open k ∖ {[fd]});
}.

Lemma conn_with_conn fd c k : conn fd (with_conn fd c k) = c.
Proof. unfold conn. cbn. by rewrite lookup_insert_eq. Qed.

Lemma conn_with_conn_ne fd fd' c k : fd' ≠ fd → conn fd' (with_conn fd c k) = conn fd' k.
Proof. intros Hne. unfold conn. cbn. by rewrite lookup_insert_ne. Qed.

Lemma fresh_fd_spec s : (fresh_fd s ∉ s) ∧ fresh_fd s ≠ (-1)%Z.
Proof.
  assert (2 ≤ set_fold Z.max 2 s ∧ (∀ x, x ∈ s → x ≤ set_fold Z.max 2 s))%Z as [Hl Hb].
  { apply (set_fold_ind_L (λ r s, 2 ≤ r ∧ (∀ x, x ∈ s → x ≤ r))%Z).
    - split; [lia|set_solver].
    - intros x X r Hx [Hr IH]. split; [lia|]. intros y [->%elem_of_singleton|Hy]%elem_of_union; [lia|].
      specialize (IH y Hy). lia. }
  unfold fresh_fd. split; [|lia]. intros Hin%Hb. lia.
Qed.

Lemma net_send_spec fd data k n k' :
  sys_send fd data k = (n, k') → ∃ c, script_send data (conn fd k) = (n, c) ∧ k' = with_conn fd c k.
Proof. cbn. destruct (script_send _ _) as [m c]. intros [= <- <-]. eauto. Qed.

Lemma net_recv_spec fd size k n data k' :
  sys_recv fd size k = (n, data, k') →
  ∃ c, script_recv size (conn fd k) = (n, data, c) ∧ k' = with_conn fd c k.
Proof. cbn. destruct (script_recv _ _) as [[m d] c]. intros [= <- <- <-]. eauto. Qed.

#[export] Program Instance net_laws : KernelLaws net := {
  sent fd k := sc_sent (conn fd k);
  rcvd fd k := sc_rcvd (conn fd k);
}.
Next Obligation.
  intros fd data k n k' (c & E & ->)%net_send_spec. rewrite !conn_with_conn.
  by apply script_send_spec in E.
Qed.
Next Obligation.
  intros fd size k n data k' (c & E & ->)%net_recv_spec. rewrite !conn_with_conn.
  by apply script_recv_spec in E.
Qed.
Next Obligation.
  intros fd size k n data k' (c & E & ->)%net_recv_spec. rewrite !conn_with_conn.
  by apply script_recv_sent in E.
Qed.
Next Obligation. intros k fd k' [= <- <-]. by rewrite conn_with_conn. Qed.
Next Obligation. by intros fd k n k' [= _ <-]. Qed.
Next Obligation. by intros fd fl k n k' [= _ <-]. Qed.
Next Obligation.
  intros fd a k n k'. cbn. destruct (script_connect _) as [m c] eqn:E. intros [= _ <-].
  rewrite conn_with_conn. by apply script_connect_spec in E.
Qed.

Lemma with_conn_others fd c k : others_same fd k (with_conn fd c k).
Proof. intros fd' Hne. cbn. by rewrite !conn_with_conn_ne. Qed.

#[export] Program Instance net_connections : ConnectionLaws net := { opened := nt_open }.
Next Obligation.
  intros fd data k n k' (c & E & ->)%net_send_spec. split; [apply with_conn_others|].
  split; [|done]. cbn. rewrite conn_with_conn. revert E. unfold script_send.
  destruct (sc_send (conn fd k)) as [|[m|] l]; by intros [= _ <-].
Qed.
Next Obligation.
  intros fd size k n data k' (c & E & ->)%net_recv_spec. split; [apply with_conn_others|done].
Qed.
Next Obligation. done. Qed.
Next Obligation.
  intros l k fd k'. cbn. unfold net_accept.
  destruct (nt_accept k) as [|[c|] rest]; intros [= <- <-]; [by left| |by left].
  right. destruct (fresh_fd_spec (nt_open k)) as [Hf _]. unfold conn. cbn.
  rewrite lookup_insert_eq. split_and!; try done.
  intros fd' Hne. cbn. unfold conn. cbn. by rewrite lookup_insert_ne.
Qed.
