(* ===== verification/Console.v ===== *)
(** The console ([src/console/console.h], [src/console/console.cpp]): a line editor that
    reads with a prompt while other threads write. The operations are functions of the
    console's state that emit bytes to the standard output; each critical section is a
    step, and the threads interleave the steps. The terminal that gets the bytes is a
    parameter: a class with the laws of the few characters the console relies on. *)

From S2P Require Import Prelude.

(** ** State and operations *)

Record Console := mkConsole { m_prompt : bytes; m_user_input : bytes }.

(** [Console()], apart from the terminal's attributes: no echo, no line buffering. *)
Definition Console_init : Console := mkConsole [] [].

Definition kDelete : Z := 127.
Definition kNewLine : Z := 10.

(** [static_cast<char>(next_char)]; the end of the input, -1, is the byte 0xFF. *)
Definition char_of (next_char : Z) : byte := byte.of_Z next_char.

Definition endl : bytes := [x0a].

(** The first critical section of [read]: the new state and the bytes written. *)
Definition read_start (prompt : bytes) (c : Console) : Console * bytes :=
  let c := mkConsole prompt (m_user_input c) in
  (c, m_prompt c).

(** One turn of the loop of [read], [next_char] typed: the string if [read] returns. *)
Definition read_char (next_char : Z) (c : Console) : option bytes * Console * bytes :=
  let '(c, out, user_done_typing) :=
    if (next_char =? kDelete)%Z then
      if bool_decide (m_user_input c ≠ [])
      then (mkConsole (m_prompt c) (removelast (m_user_input c)), [x08; x20; x08], false)
      else (c, [], false)
    else if (next_char =? kNewLine)%Z then (c, [], true)
    else (mkConsole (m_prompt c) (m_user_input c ++ [char_of next_char]),
          [char_of next_char], false) in
  if user_done_typing : bool
  then (Some (m_user_input c), mkConsole [] [], out ++ endl)
  else (None, c, out).

(** The loop of [read]: the string, the characters left, the state, the bytes written. *)
Fixpoint read_loop (chars : list Z) (c : Console) (out : bytes) :
    outcome (bytes * list Z * Console * bytes) :=
  match chars with
  | [] => Blocked
  | next_char :: chars =>
      let '(res, c, o) := read_char next_char c in
      match res with
      | Some s => Ok (s, chars, c, out ++ o)
      | None => read_loop chars c (out ++ o)
      end
  end.

Definition read (prompt : bytes) (chars : list Z) (c : Console) :
    outcome (bytes * list Z * Console * bytes) :=
  let '(c, out) := read_start prompt c in
  read_loop chars c out.

Definition write (s : bytes) (c : Console) : Console * bytes :=
  let current_input_size := (length (m_prompt c) + length (m_user_input c))%nat in
  if (current_input_size =? 0)%nat then (c, s ++ endl)
  else (c, [x0d] ++ replicate current_input_size x20 ++ [x0d] ++
           s ++ endl ++ m_prompt c ++ m_user_input c).

(** ** Interleaved critical sections *)

Inductive con_event :=
| EvRead (prompt : bytes)
| EvChar (next_char : Z)
| EvWrite (s : bytes).

(** A step: what [read] returns if it does, the new state, the bytes written. *)
Definition con_step (e : con_event) (c : Console) : list bytes * Console * bytes :=
  match e with
  | EvRead prompt => let '(c, out) := read_start prompt c in ([], c, out)
  | EvChar z => let '(res, c, out) := read_char z c in (option_list res, c, out)
  | EvWrite s => let '(c, out) := write s c in ([], c, out)
  end.

Fixpoint con_run (es : list con_event) (c : Console) : list bytes * Console * bytes :=
  match es with
  | [] => ([], c, [])
  | e :: es =>
      let '(rs, c, out) := con_step e c in
      let '(rs', c, out') := con_run es c in
      (rs ++ rs', c, out ++ out')
  end.

(** One thread reads: a prompt is given only after the previous [read] returned, and
    characters are consumed only by a [read]. *)
Fixpoint single_reader (reading : bool) (es : list con_event) : Prop :=
  match es with
  | [] => True
  | EvRead _ :: es => reading = false ∧ single_reader true es
  | EvChar z :: es => reading = true ∧ single_reader (negb (z =? kNewLine)%Z) es
  | EvWrite _ :: es => single_reader reading es
  end.

(** ** The terminal *)

(** What is to be seen: the lines above the current one, the current line and the cursor's
    column in it. *)
Record screen := mkScreen { done_lines : list bytes; line : bytes; col : nat }.

(** A terminal: its state, the width of its lines, and what it does with a byte. *)
Class Terminal := {
  tty : Type;
  columns : nat;
  put_char : tty → byte → tty;
  view : tty → screen;
}.

(** Printable characters, which take one column. *)
Definition plain (b : byte) : Prop := (32 ≤ byte.unsigned b < 127)%Z.

#[export] Instance plain_dec b : Decision (plain b) := _.

(** What the console relies on: a new line goes to the start of the next line (the driver
    puts a carriage return before it), a carriage return to the start of the line, a
    backspace one column to the left, and a printable character replaces the one under the
    cursor and moves the cursor to the right. The last is said only of characters that
    leave the cursor on the line: what happens at the right margin, and with other
    characters, differs between terminals. *)
Class TerminalLaws `{Terminal} := {
  columns_pos : (0 < columns)%nat;
  put_lf t : view (put_char t x0a) = mkScreen (done_lines (view t) ++ [line (view t)]) [] 0;
  put_cr t : view (put_char t x0d) = mkScreen (done_lines (view t)) (line (view t)) 0;
  put_bs t : view (put_char t x08) =
    mkScreen (done_lines (view t)) (line (view t)) (col (view t) - 1);
  put_plain t b :
    plain b → (S (col (view t)) < columns)%nat →
    view (put_char t b) = mkScreen (done_lines (view t))
      (splice (line (view t)) (col (view t)) [b]) (S (col (view t)));
}.

Definition feed `{Terminal} (out : bytes) (t : tty) : tty := foldl put_char t out.

Definition event_plain (e : con_event) : Prop :=
  match e with
  | EvRead s | EvWrite s => Forall plain s
  | EvChar z => (32 ≤ z ≤ 127)%Z ∨ z = kNewLine
  end.

#[export] Instance event_plain_dec e : Decision (event_plain e).
Proof. destruct e; cbn; apply _. Defined.

(** Every text, and the prompt with the input at all times, is shorter than a line. *)
Fixpoint fits_line (width : nat) (es : list con_event) (prompt input : bytes) : Prop :=
  match es with
  | [] => True
  | EvRead p :: es => (length (p ++ input) < width)%nat ∧ fits_line width es p input
  | EvChar z :: es =>
      if (z =? kNewLine)%Z then fits_line width es [] []
      else
        let input := if (z =? kDelete)%Z then removelast input else input ++ [char_of z] in
        (length (prompt ++ input) < width)%nat ∧ fits_line width es prompt input
  | EvWrite s :: es => (length s < width)%nat ∧ fits_line width es prompt input
  end.

#[export] Instance fits_line_dec width es prompt input : Decision (fits_line width es prompt input).
Proof.
  revert prompt input. induction es as [|[p|z|s] es IH]; intros prompt input; cbn;
    repeat case_match; apply _.
Defined.

(** A line shows a text: the text followed by blanks. *)
Definition shows (text ln : bytes) : Prop := ∃ n, ln = text ++ replicate n x20.

(** ** What the user is meant to see

    The lines above the prompt: every written message and every prompt with the input
    that was entered at it, in the order of the steps. *)
Fixpoint transcript (es : list con_event) (prompt input : bytes) : list bytes :=
  match es with
  | [] => []
  | EvRead p :: es => transcript es p input
  | EvChar z :: es =>
      if (z =? kNewLine)%Z then (prompt ++ input) :: transcript es [] []
      else if (z =? kDelete)%Z then transcript es prompt (removelast input)
      else transcript es prompt (input ++ [char_of z])
  | EvWrite s :: es => s :: transcript es prompt input
  end.

(** ** Characters on the terminal *)

Section terminal.
  Context `{TerminalLaws}.

Lemma feed_app o1 o2 t : feed (o1 ++ o2) t = feed o2 (feed o1 t).
Proof. apply foldl_app. Qed.

Lemma feed_nil t : feed [] t = t.
Proof. done. Qed.

Lemma feed_cons b o t : feed (b :: o) t = feed o (put_char t b).
Proof. done. Qed.

(** Printable text that stays on the line. *)
Lemma feed_plain bs t :
  Forall plain bs → (col (view t) ≤ length (line (view t)))%nat →
  (col (view t) + length bs < columns)%nat →
  view (feed bs t) =
    mkScreen (done_lines (view t)) (splice (line (view t)) (col (view t)) bs)
      (col (view t) + length bs).
Proof.
  intros Hbs. revert t. induction Hbs as [|b bs Hb Hbs IH]; intros t Hn Hw; cbn in Hw.
  { rewrite feed_nil, splice_nil, Nat.add_0_r. by destruct (view t). }
  rewrite feed_cons, IH; rewrite put_plain by (done || lia); cbn [done_lines line col].
  - f_equal; [|cbn; lia]. change (b :: bs) with ([b] ++ bs).
    rewrite <- splice_splice by done. cbn. f_equal. lia.
  - unfold splice. rewrite !length_app, length_take, length_drop. cbn. lia.
  - lia.
Qed.

Lemma feed_cr t : view (feed [x0d] t) = mkScreen (done_lines (view t)) (line (view t)) 0.
Proof. apply put_cr. Qed.

Lemma feed_endl t :
  view (feed endl t) = mkScreen (done_lines (view t) ++ [line (view t)]) [] 0.
Proof. apply put_lf. Qed.

Lemma feed_bs t :
  view (feed [x08] t) = mkScreen (done_lines (view t)) (line (view t)) (col (view t) - 1).
Proof. apply put_bs. Qed.

End terminal.

Arguments feed : simpl never.

Lemma shows_splice text ln bs :
  shows text ln → shows (text ++ bs) (splice ln (length text) bs).
Proof.
  intros [n ->]. exists (n - length bs)%nat. unfold splice.
  rewrite take_app_length, <- app_assoc. do 2 f_equal.
  rewrite drop_app_ge by lia.
  replace (length text + length bs - length text)%nat with (length bs) by lia. apply drop_replicate.
Qed.

Lemma shows_blank text ln :
  shows text ln → shows [] (splice ln 0 (replicate (length text) x20)).
Proof.
  intros [n ->]. exists (length text + n)%nat. rewrite splice_0, length_replicate.
  by rewrite drop_app_length, replicate_add.
Qed.

Lemma shows_length text ln : shows text ln → (length text ≤ length ln)%nat.
Proof. intros [n ->]. rewrite length_app. lia. Qed.

Lemma shows_refl text : shows text text.
Proof. exists 0%nat. by rewrite app_nil_r. Qed.

Lemma plain_blanks n : Forall plain (replicate n x20).
Proof. by apply Forall_replicate. Qed.

(** ** One character typed *)

Lemma read_char_delete c i b :
  m_user_input c = i ++ [b] →
  read_char kDelete c = (None, mkConsole (m_prompt c) i, [x08; x20; x08]).
Proof.
  intros E. unfold read_char. rewrite E. cbn. rewrite bool_decide_eq_true_2; [|by destruct i].
  by rewrite removelast_last.
Qed.

Lemma read_char_delete_nil c :
  m_user_input c = [] → read_char kDelete c = (None, c, []).
Proof. intros E. unfold read_char. by rewrite E. Qed.

Lemma read_char_newline c :
  read_char kNewLine c = (Some (m_user_input c), Console_init, endl).
Proof. done. Qed.

Lemma read_char_other z c :
  z ≠ kDelete → z ≠ kNewLine →
  read_char z c = (None, mkConsole (m_prompt c) (m_user_input c ++ [char_of z]), [char_of z]).
Proof.
  intros Hd Hn. unfold read_char. by rewrite !(proj2 (Z.eqb_neq _ _)) by done.
Qed.

Lemma write_state s c : write s c = (c, (write s c).2).
Proof. unfold write. by destruct (_ =? 0)%nat. Qed.

Lemma plain_char_of z : (32 ≤ z < 127)%Z → plain (char_of z).
Proof.
  intros Hz. unfold plain, char_of. rewrite byte.unsigned_of_Z. unfold byte.wrap.
  rewrite Z.mod_small; lia.
Qed.

Arguments read_char : simpl never.
Arguments write : simpl never.

(** ** The terminal shows the transcript above the prompt and the input *)

Section screen.
  Context `{TerminalLaws}.

(** What is above, the line being edited, which is shorter than the terminal's, and the
    cursor at its end. *)
Definition shows_console (above : list bytes) (c : Console) (t : tty) : Prop :=
  let text := m_prompt c ++ m_user_input c in
  Forall2 shows above (done_lines (view t)) ∧ shows text (line (view t)) ∧
  col (view t) = length text ∧ Forall plain text ∧ (length text < columns)%nat.

Lemma console_type above c c' t bs :
  shows_console above c t → Forall plain bs →
  m_prompt c' ++ m_user_input c' = (m_prompt c ++ m_user_input c) ++ bs →
  (length (m_prompt c' ++ m_user_input c') < columns)%nat →
  shows_console above c' (feed bs t).
Proof.
  intros (Ha & Hs & Hc & Hp & _) Hbs E Hw. unfold shows_console. rewrite E in *.
  rewrite (length_app (_ ++ _)) in Hw.
  rewrite feed_plain by (done || rewrite Hc; (by apply shows_length) || done). cbn. rewrite Hc.
  rewrite (length_app (_ ++ _)).
  split_and!; [done|by apply shows_splice|done|by apply Forall_app|done].
Qed.

Lemma console_enter above c t :
  shows_console above c t →
  shows_console (above ++ [m_prompt c ++ m_user_input c]) Console_init (feed endl t).
Proof.
  intros (Ha & Hs & Hc & Hp & Hw). unfold shows_console. rewrite feed_endl.
  split_and!; cbn; [|apply shows_refl|done|done|apply columns_pos].
  apply Forall2_app; [done|by constructor].
Qed.

Lemma console_delete above c t b i :
  shows_console above c t → m_user_input c = i ++ [b] →
  shows_console above (mkConsole (m_prompt c) i) (feed [x08; x20; x08] t).
Proof.
  unfold shows_console. intros (Ha & [n Hs] & Hc & Hp & Hw) E. cbn [m_prompt m_user_input].
  rewrite E, app_assoc in *. set (text := m_prompt c ++ i) in *.
  rewrite length_app in Hc, Hw. cbn in Hc, Hw.
  change [x08; x20; x08] with ([x08] ++ [x20] ++ [x08]). rewrite !feed_app, feed_bs.
  assert (view (feed [x08] t) = mkScreen (done_lines (view t)) (line (view t)) (length text)) as E1.
  { rewrite feed_bs, Hc. f_equal. lia. }
  rewrite (feed_plain [x20]); rewrite ?E1; cbn [done_lines line col length];
    [|by apply Forall_singleton|rewrite Hs, !length_app; cbn; lia|lia].
  split_and!; [done| |lia|by apply Forall_app in Hp as [? _]|lia].
  exists (S n). unfold splice. rewrite Hs, <- !app_assoc, take_app_length. f_equal. cbn. f_equal.
  rewrite drop_app_ge by lia.
  by replace (length text + 1 - length text)%nat with 1%nat by lia.
Qed.

(** A text, a new line and the line being edited, at the start of a line that is blank. *)
Lemma console_reprint above c t s :
  let text := m_prompt c ++ m_user_input c in
  Forall2 shows above (done_lines (view t)) → shows [] (line (view t)) → col (view t) = 0%nat →
  Forall plain s → Forall plain text → (length s < columns)%nat → (length text < columns)%nat →
  shows_console (above ++ [s]) c (feed (s ++ endl ++ text) t).
Proof.
  intros text Hd Hln Hk Hs Hp Hws Hw. rewrite !feed_app.
  assert (view (feed endl (feed s t)) =
    mkScreen (done_lines (view t) ++ [splice (line (view t)) 0 s]) [] 0) as E.
  { rewrite feed_endl, feed_plain by (done || lia). cbn. by rewrite Hk. }
  unfold shows_console. fold text. rewrite feed_plain by (done || rewrite E; cbn; lia).
  rewrite E. cbn [done_lines line col]. rewrite (splice_0 [] text), drop_nil, app_nil_r.
  split_and!; [|apply shows_refl|done..].
  apply Forall2_app; [done|]. constructor; [|done]. by apply (shows_splice []).
Qed.

Lemma console_write above c t s :
  shows_console above c t → Forall plain s → (length s < columns)%nat →
  shows_console (above ++ [s]) c (feed (write s c).2 t).
Proof.
  intros (Ha & Hs & Hc & Hp & Hw) Hpl Hws. unfold write.
  rewrite <- length_app. set (text := m_prompt c ++ m_user_input c) in *.
  destruct (length text =? 0)%nat eqn:E; cbn [snd].
  - apply Nat.eqb_eq in E. assert (text = []) as E' by by apply nil_length_inv.
    rewrite <- (app_nil_r endl), <- E'. unfold text in *. rewrite E' in Hs, Hc.
    by apply console_reprint.
  - rewrite (feed_app [x0d]), (feed_app (replicate _ _)), (feed_app [x0d]).
    assert (view (feed [x0d] (feed (replicate (length text) x20) (feed [x0d] t))) =
      mkScreen (done_lines (view t)) (splice (line (view t)) 0 (replicate (length text) x20)) 0)
      as E1.
    { rewrite feed_cr, feed_plain; rewrite ?feed_cr; cbn; rewrite ?length_replicate;
        first [done|lia|apply plain_blanks]. }
    apply console_reprint; rewrite ?E1; cbn; try done. by apply shows_blank.
Qed.

(** A step of one reader and any writers; [above'] and [reading'] are what the steps that
    follow find. *)
Lemma con_step_shows e es reading above c t :
  shows_console above c t → event_plain e → single_reader reading (e :: es) →
  (reading = false → c = Console_init) →
  fits_line columns (e :: es) (m_prompt c) (m_user_input c) →
  let '(_, c', out) := con_step e c in
  ∃ above' reading',
    shows_console above' c' (feed out t) ∧ single_reader reading' es ∧
    (reading' = false → c' = Console_init) ∧
    fits_line columns es (m_prompt c') (m_user_input c') ∧
    above ++ transcript (e :: es) (m_prompt c) (m_user_input c) =
      above' ++ transcript es (m_prompt c') (m_user_input c').
Proof.
  intros Hs He Hr Hi Hw. destruct e as [p|z|s]; cbn in Hr.
  - destruct Hr as [-> Hr]. rewrite (Hi eq_refl) in *. destruct Hw as [Hw ?].
    exists above, true. split_and!; try done. cbn.
    apply (console_type _ Console_init); [done..| |done]. cbn. by rewrite app_nil_r.
  - destruct Hr as [-> Hr]. destruct (decide (z = kNewLine)) as [->|Hn].
    { exists (above ++ [m_prompt c ++ m_user_input c]), false.
      split_and!; try done; [by apply console_enter|cbn; by rewrite <- app_assoc]. }
    rewrite (proj2 (Z.eqb_neq _ _)) in Hr by done. cbn in Hw |- *.
    rewrite (proj2 (Z.eqb_neq z kNewLine)) in * by done.
    destruct (decide (z = kDelete)) as [->|Hd]; cbn in Hw |- *.
    + destruct (m_user_input c) as [|b i _] eqn:E using rev_ind.
      * rewrite read_char_delete_nil by done. cbn. exists above, true. rewrite E in *.
        by destruct Hw.
      * rewrite (read_char_delete c i b) by done. cbn. rewrite removelast_last in *.
        exists above, true. destruct Hw. split_and!; try done. by apply (console_delete _ c _ b).
    + rewrite read_char_other by done. rewrite (proj2 (Z.eqb_neq z kDelete)) in * by done.
      destruct Hw. exists above, true. split_and!; try done. cbn.
      apply (console_type _ c); [done| |cbn; by rewrite <- app_assoc|done].
      apply Forall_singleton, plain_char_of. unfold kDelete, event_plain in *. lia.
  - cbn. rewrite write_state. cbn. destruct Hw. exists (above ++ [s]), reading.
    split_and!; try done; [by apply console_write|by rewrite <- app_assoc].
Qed.

Lemma con_run_shows es reading above c t :
  shows_console above c t → Forall event_plain es → single_reader reading es →
  (reading = false → c = Console_init) →
  fits_line columns es (m_prompt c) (m_user_input c) →
  let '(_, c', out) := con_run es c in
  shows_console (above ++ transcript es (m_prompt c) (m_user_input c)) c' (feed out t).
Proof.
  revert reading above c t. induction es as [|e es IH]; intros reading above c t Hs Hp Hr Hi Hw.
  { cbn. by rewrite app_nil_r. }
  apply Forall_cons in Hp as [He Hp].
  pose proof (con_step_shows e es reading above c t Hs He Hr Hi Hw) as Hstep. cbn [con_run].
  destruct (con_step e c) as [[rs c1] out]. destruct Hstep as (above' & r & Hs1 & Hr1 & Hi1 & Hw1 & ->).
  specialize (IH r above' c1 (feed out t) Hs1 Hp Hr1 Hi1 Hw1).
  destruct (con_run es c1) as [[rs' c2] o2]. by rewrite feed_app.
Qed.

(** From a terminal with an empty current line. *)
Lemma con_run_terminal es t :
  line (view t) = [] → col (view t) = 0%nat →
  Forall event_plain es → single_reader false es → fits_line columns es [] [] →
  let '(_, c, out) := con_run es Console_init in
  let v := view (feed out t) in
  Forall2 shows (done_lines (view t) ++ transcript es [] []) (done_lines v) ∧
  shows (m_prompt c ++ m_user_input c) (line v) ∧
  col v = length (m_prompt c ++ m_user_input c).
Proof.
  intros Hln Hk Hp Hr Hw.
  assert (shows_console (done_lines (view t)) Console_init t) as Hs.
  { unfold shows_console. cbn. rewrite Hln, Hk.
    split_and!; [|apply shows_refl|done|done|apply columns_pos].
    apply Forall2_same_length_lookup_2; [done|]. intros i x y Hx Hy. simplify_eq. apply shows_refl. }
  pose proof (con_run_shows es false _ Console_init t Hs Hp Hr (λ _, eq_refl) Hw) as H'.
  destruct (con_run es Console_init) as [[rs c] out]. by destruct H' as (? & ? & ? & _).
Qed.

End screen.

(** ** What a read returns *)

(** [edited typed text]: the text that remains of the characters typed when every DEL
    erases the character before it, if there is one. *)
Inductive edited : list Z → list Z → Prop :=
| edited_none l : Forall (λ z, z ≠ kDelete) l → edited l l
| edited_start l r : edited l r → edited (kDelete :: l) r
| edited_pair l1 z l2 r :
    z ≠ kDelete → edited (l1 ++ l2) r → edited (l1 ++ z :: kDelete :: l2) r.

(** The input after a character, as [read_char] changes it. *)
Definition edit (input : bytes) (z : Z) : bytes :=
  if (z =? kDelete)%Z then removelast input else input ++ [char_of z].

Lemma edit_plain l input :
  Forall (λ z, z ≠ kDelete) l → foldl edit input l = input ++ map char_of l.
Proof.
  intros Hl. revert input. induction Hl as [|z l Hz Hl IH]; intros input; cbn.
  { by rewrite app_nil_r. }
  rewrite IH. unfold edit. rewrite (proj2 (Z.eqb_neq _ _)) by done. by rewrite <- app_assoc.
Qed.

Lemma edited_edit l r : edited l r → foldl edit [] l = map char_of r.
Proof.
  induction 1 as [l Hl|l r _ IH|l1 z l2 r Hz _ IH]; [by rewrite edit_plain|done|].
  rewrite <- IH, !foldl_app. cbn. f_equal. unfold edit. cbn.
  rewrite (proj2 (Z.eqb_neq _ _)) by done. apply removelast_last.
Qed.

Lemma edited_total l : ∃ r, edited l r.
Proof.
  remember (length l) as n eqn:Hn. revert l Hn.
  induction n as [n IH] using lt_wf_ind; intros l ->.
  destruct (decide (kDelete ∈ l)) as [(l1 & l2 & -> & Hl1)%list_elem_of_split_l|Hl].
  - destruct l1 as [|z l1 _] using rev_ind.
    + destruct (IH (length l2) ltac:(cbn; lia) l2 eq_refl) as [r Hr].
      exists r. by constructor.
    + destruct (IH (length (l1 ++ l2)) ltac:(rewrite !length_app; cbn; lia) (l1 ++ l2) eq_refl)
        as [r Hr].
      exists r. rewrite <- app_assoc. constructor; [set_solver|done].
  - exists l. constructor. apply Forall_forall. intros z Hz ->. done.
Qed.

Lemma read_char_edit z c :
  z ≠ kNewLine →
  ∃ out, read_char z c = (None, mkConsole (m_prompt c) (edit (m_user_input c) z), out).
Proof.
  intros Hn. unfold edit. destruct (Z.eqb_spec z kDelete) as [->|Hd].
  - destruct c as [p u]. destruct u as [|b i _] using rev_ind; eexists.
    + by rewrite read_char_delete_nil.
    + cbn. rewrite removelast_last. by apply (read_char_delete (mkConsole p (i ++ [b])) i b).
  - eexists. by rewrite read_char_other.
Qed.

(** A loop that meets no new line consumes everything typed and goes on. *)
Lemma read_loop_edit l rest c out :
  Forall (λ z, z ≠ kNewLine) l →
  ∃ out', read_loop (l ++ rest) c out =
          read_loop rest (mkConsole (m_prompt c) (foldl edit (m_user_input c) l)) out'.
Proof.
  intros Hl. revert c out. induction Hl as [|z l Hz Hl IH]; intros [p u] out; cbn.
  { by exists out. }
  destruct (read_char_edit z (mkConsole p u) Hz) as [o ->]. apply IH.
Qed.

Lemma read_line prompt l rest :
  Forall (λ z, z ≠ kNewLine) l →
  ∃ out, read prompt (l ++ kNewLine :: rest) Console_init =
         Ok (foldl edit [] l, rest, Console_init, out).
Proof.
  intros Hl. unfold read. cbn.
  destruct (read_loop_edit l (kNewLine :: rest) (mkConsole prompt []) prompt Hl) as [o ->].
  eexists. done.
Qed.

(** Writes of other threads change neither what the reads return nor the state. *)
Definition is_write (e : con_event) : bool :=
  match e with EvWrite _ => true | _ => false end.

Definition without_writes (es : list con_event) : list con_event :=
  List.filter (λ e, negb (is_write e)) es.

Lemma con_run_without_writes es c rs c' out :
  con_run es c = (rs, c', out) → ∃ out', con_run (without_writes es) c = (rs, c', out').
Proof.
  revert c rs c' out. induction es as [|e es IH]; intros c rs c' out; cbn.
  { intros [= <- <- <-]. by exists []. }
  destruct (con_step e c) as [[r1 c1] o1] eqn:E1.
  destruct (con_run es c1) as [[r2 c2] o2] eqn:E2. intros [= <- <- <-].
  destruct (IH _ _ _ _ E2) as [o3 E3]. unfold without_writes in E3. destruct e as [p|z|s]; cbn in *.
  - injection E1 as <- <- <-. rewrite E3. cbn. by eexists.
  - destruct (read_char z c) as [[r c3] o]. injection E1 as <- <- <-. rewrite E3. by eexists.
  - rewrite write_state in E1. injection E1 as <- <- <-. exists o3. by rewrite E3.
Qed.

Lemma con_run_app es1 es2 c :
  con_run (es1 ++ es2) c =
    let '(rs1, c, out1) := con_run es1 c in
    let '(rs2, c, out2) := con_run es2 c in (rs1 ++ rs2, c, out1 ++ out2).
Proof.
  revert c. induction es1 as [|e es1 IH]; intros c; cbn.
  { by destruct (con_run es2 c) as [[? ?] ?]. }
  destruct (con_step e c) as [[r1 c1] o1]. rewrite IH.
  destruct (con_run es1 c1) as [[r2 c2] o2]. destruct (con_run es2 c2) as [[r3 c3] o3].
  by rewrite !app_assoc.
Qed.

(** A [read] is its critical sections in a row. *)
Lemma con_run_edit l c :
  Forall (λ z, z ≠ kNewLine) l →
  ∃ out, con_run (map EvChar l) c =
         ([], mkConsole (m_prompt c) (foldl edit (m_user_input c) l), out).
Proof.
  intros Hl. revert c. induction Hl as [|z l Hz Hl IH]; intros c; cbn.
  { exists []. by destruct c. }
  destruct (read_char_edit z c Hz) as [o ->].
  destruct (IH (mkConsole (m_prompt c) (edit (m_user_input c) z))) as [o' ->]. by eexists.
Qed.

Lemma con_run_chars l c :
  Forall (λ z, z ≠ kNewLine) l →
  ∃ out, con_run (map EvChar (l ++ [kNewLine])) c =
         ([foldl edit (m_user_input c) l], Console_init, out).
Proof.
  intros Hl. rewrite map_app, con_run_app. destruct (con_run_edit l c Hl) as [o ->].
  cbn. rewrite read_char_newline. by eexists.
Qed.

(** ** Properties *)

(** A terminal whose lines have [width] columns: a character in the last one ends the line,
    and characters other than the printable and the three above are ignored. *)
Definition wrap_char (width : nat) (t : screen) (b : byte) : screen :=
  if bool_decide (b = x0a) then mkScreen (done_lines t ++ [line t]) [] 0
  else if bool_decide (b = x0d) then mkScreen (done_lines t) (line t) 0
  else if bool_decide (b = x08) then mkScreen (done_lines t) (line t) (col t - 1)
  else if bool_decide (plain b) then
    let ln := splice (line t) (col t) [b] in
    if (S (col t) <? width)%nat then mkScreen (done_lines t) ln (S (col t))
    else mkScreen (done_lines t ++ [ln]) [] 0
  else t.

Definition wrapping (width : nat) : Terminal :=
  {| tty := screen; columns := width; put_char := wrap_char width; view := λ t, t |}.

Definition screen_init : screen := mkScreen [] [] 0.

Lemma wrapping_laws width : (0 < width)%nat → @TerminalLaws (wrapping width).
Proof.
  intros Hw. split; [done|done|done|done|]. intros t b Hb Hc. cbn in *. unfold wrap_char.
  rewrite !bool_decide_eq_false_2 by (intros ->; by apply (proj1 Hb)).
  by rewrite bool_decide_eq_true_2, (proj2 (Nat.ltb_lt _ _)).
Qed.

(** The prompt and what has been typed are always the last line of the terminal, and
    what the threads write is above, as long as the texts are printable and shorter than a
    line, the prompt with the input at all times included: whatever the interleaving of
    one reader with any writers, the completed lines are the transcript of the writes and
    of the entered lines, in order and up to trailing blanks, the current line is the
    prompt followed by the input, and the cursor is at its end. *)
Theorem console_shows_transcript `{TerminalLaws} es t :
  line (view t) = [] → col (view t) = 0%nat →
  Forall event_plain es → single_reader false es → fits_line columns es [] [] →
  let '(_, c, out) := con_run es Console_init in
  let v := view (feed out t) in
  Forall2 shows (done_lines (view t) ++ transcript es [] []) (done_lines v) ∧
  shows (m_prompt c ++ m_user_input c) (line v) ∧
  col v = length (m_prompt c ++ m_user_input c).
Proof. apply con_run_terminal. Qed.

(** A message is written while [hx] is typed and the x is erased, another before [i]. *)
Definition demo_typing : list con_event :=
  [EvWrite (str "Welcome"); EvRead (str "name >"); EvChar 104; EvChar 120;
   EvWrite (str "Ann> hello, how are you today?"); EvChar 127; EvWrite (str "Bob> x");
   EvChar 105; EvChar 10; EvWrite (str "bye"); EvRead (str ">"); EvChar 122].

Lemma console_shows_transcript_witness :
  transcript demo_typing [] [] =
    [str "Welcome"; str "Ann> hello, how are you today?"; str "Bob> x"; str "name >hi";
     str "bye"] ∧
  let '(_, c, out) := con_run demo_typing Console_init in
  let v := @feed (wrapping 80) out screen_init in
  Forall2 shows (transcript demo_typing [] []) (done_lines v) ∧
  shows (m_prompt c ++ m_user_input c) (line v) ∧
  col v = length (m_prompt c ++ m_user_input c).
Proof.
  split; [by vm_compute|].
  apply (@console_shows_transcript (wrapping 80) (wrapping_laws 80 ltac:(lia)) demo_typing screen_init);
    [done|done| | |]; [|by vm_compute|].
  all: apply (bool_decide_eq_true_1 _); by vm_compute.
Defined.

(** A line that is longer than the terminal's is not redrawn: [write] goes back to the start
    of the terminal's line, not of the prompt. On a terminal of 8 columns the first 8
    characters of the prompt and the input stay above the text that is written while they
    are edited, although nothing was entered. *)
Lemma wrapped_line_is_not_redrawn :
  let es := EvRead (str ">") :: map (λ b, EvChar (byte.unsigned b)) (str "abcdefghij") ++
            [EvWrite (str "hi")] in
  transcript es [] [] = [str "hi"] ∧
  @feed (wrapping 8) (con_run es Console_init).2 screen_init =
    mkScreen [str ">abcdefg"; replicate 8 x20; str "hi "; str ">abcdefg"] (str "hij") 3.
Proof. split; by vm_compute. Qed.

(** C31. [read] returns the edited line: for the characters typed up to the new line it
    terminates with the text in which every DEL has erased the character before it, if
    any; the rest of the input is untouched and the console is as it was. *)
Theorem read_returns_edited_line prompt l rest :
  Forall (λ z, z ≠ kNewLine) l →
  (∃ r, edited l r) ∧
  ∀ r, edited l r → ∃ out,
    read prompt (l ++ kNewLine :: rest) Console_init = Ok (map char_of r, rest, Console_init, out).
Proof.
  intros Hl. split; [apply edited_total|]. intros r Hr%edited_edit.
  destruct (read_line prompt l rest Hl) as [out E]. exists out. by rewrite E, Hr.
Qed.

Lemma read_returns_edited_line_witness :
  ∃ out, read (str ">") [127; 104; 120; 121; 127; 127; 105; 10; 99]%Z Console_init =
         Ok (str "hi", [99]%Z, Console_init, out).
Proof.
  apply (proj2 (read_returns_edited_line (str ">") [127; 104; 120; 121; 127; 127; 105]%Z [99]%Z
    ltac:(by repeat constructor))) with (r := [104; 105]%Z).
  apply edited_start. apply (edited_pair [104; 120]%Z 121 [127; 105]%Z); [done|].
  apply (edited_pair [104]%Z 120 [105]%Z); [done|]. apply edited_none. by repeat constructor.
Defined.

(** A read is not disturbed by writers: whatever other threads write between its
    critical sections, it returns what it returns without them and leaves the console in
    the same state. *)
Theorem read_undisturbed_by_writes prompt l rest es :
  Forall (λ z, z ≠ kNewLine) l →
  without_writes es = EvRead prompt :: map EvChar (l ++ [kNewLine]) →
  ∃ s out out',
    read prompt (l ++ kNewLine :: rest) Console_init = Ok (s, rest, Console_init, out) ∧
    con_run es Console_init = ([s], Console_init, out').
Proof.
  intros Hl He. destruct (read_line prompt l rest Hl) as [out E].
  destruct (con_run es Console_init) as [[rs c'] out'] eqn:Ec.
  destruct (con_run_without_writes _ _ _ _ _ Ec) as [o1 E1]. rewrite He in E1. cbn in E1.
  destruct (con_run_chars l (mkConsole prompt []) Hl) as [o2 E2].
  rewrite E2 in E1. injection E1 as <- <- <-. by exists (foldl edit [] l), out, out'.
Qed.

Lemma read_undisturbed_by_writes_witness :
  ∃ s out out',
    read (str ">") [104; 105; 10]%Z Console_init = Ok (s, [], Console_init, out) ∧
    con_run [EvRead (str ">"); EvWrite (str "x"); EvChar 104; EvChar 105; EvWrite (str "y");
             EvChar 10] Console_init = ([s], Console_init, out').
Proof.
  by apply (read_undisturbed_by_writes (str ">") [104; 105]%Z []); [repeat constructor|].
Defined.

(** [read] does not notice the end of the input: [getchar] then returns -1 for ever,
    the read never returns, and the input it holds grows by one byte 0xFF each time. *)
Theorem read_never_returns_at_eof prompt l n :
  Forall (λ z, z ≠ kNewLine) l →
  read prompt (l ++ replicate n (-1)%Z) Console_init = Blocked ∧
  ∃ rs c out,
    con_run (EvRead prompt :: map EvChar (l ++ replicate n (-1)%Z)) Console_init = (rs, c, out) ∧
    rs = [] ∧ m_user_input c = foldl edit [] l ++ replicate n xff.
Proof.
  intros Hl. assert (Forall (λ z, z ≠ kNewLine) (l ++ replicate n (-1)%Z)) as Hall.
  { apply Forall_app. split; [done|]. by apply Forall_replicate. }
  split.
  - unfold read. cbn. rewrite <- (app_nil_r (l ++ _)).
    by destruct (read_loop_edit _ [] (mkConsole prompt []) prompt Hall) as [o ->].
  - cbn. destruct (con_run_edit _ (mkConsole prompt []) Hall) as [o ->]. cbn.
    do 3 eexists. split_and!; [done..|]. cbn. rewrite foldl_app, edit_plain.
    + f_equal. apply (fmap_replicate char_of n (-1)%Z).
    + by apply Forall_replicate.
Qed.

Lemma read_never_returns_at_eof_witness :
  read (str ">") ([104; 105]%Z ++ replicate 1000 (-1)%Z) Console_init = Blocked.
Proof. by apply (read_never_returns_at_eof (str ">") [104; 105]%Z 1000); repeat constructor. Defined.
