(* ===== verification/ServerApp.v ===== *)
(** The server's application layer ([src/server/server_app.cpp]): the handlers of the
    protobuf requests over the database, the thread that serves one connection, and the
    loop that accepts connections. The protobuf library and the kernel are the classes
    [Protobuf] and [Kernel]. *)

From S2P Require Import Prelude.
From S2P Require Import Common.
From S2P Require Import Database.
From S2P Require Import Packet.
From S2P Require Import Socket.

Section ServerApp.
  Context {ord : UMapOrder Z UserMetadata} `{Protobuf} {K : Type} `{Kernel K}.

(** [SerializeToArray(tx_buffer, capacity)], whose result is ignored, followed by
    [ByteSizeLong()]. *)
Definition serialize (resp_packet : Packet) (tx_buffer : bytes) (capacity : Z) : Z * bytes :=
  let '(_, tx_buffer) := SerializeToArray resp_packet tx_buffer capacity in
  (ByteSizeLong resp_packet, tx_buffer).

(** ** The handlers: the response's size, the transmit buffer, the database *)

Definition handleRequestRegister (packet : Packet) (tx_buffer : bytes) (capacity : Z)
    (db : Database) : Z * bytes * Database :=
  let req := default RequestRegister_default (req_reg packet) in
  if negb (bool_decide (is_Some (req_reg packet))) ||
     negb (bool_decide (is_Some (rr_username req)))
  then (0%Z, tx_buffer, db)
  else
    let '(id, db) := registerUser (get_str (rr_username req)) db in
    let resp_packet :=
      with_resp_reg (mkRespRegister (Some 0%Z) (Some id)) (packet_of_type PACKET_TYPE_RESP_REGISTER) in
    let '(size, tx_buffer) := serialize resp_packet tx_buffer capacity in
    (size, tx_buffer, db).

(** [mutable_resp_users()->add_online_users()] and the two setters. *)
Definition add_online_user (id : Z) (name : bytes) (p : Packet) : Packet :=
  let r := default RespUsers_default (resp_users p) in
  with_resp_users (mkRespUsers (pu_resp_value r)
    (online_users r ++ [mkOnlineUser (Some id) (Some name)])) p.

Definition handleRequestUsers (packet : Packet) (tx_buffer : bytes) (capacity : Z)
    (db : Database) : outcome (Z * bytes * Database) :=
  let req := default RequestUsers_default (req_users packet) in
  if negb (bool_decide (is_Some (req_users packet))) ||
     negb (bool_decide (is_Some (ru_requestor_id req)))
  then Ok (0%Z, tx_buffer, db)
  else
    let resp_packet := packet_of_type PACKET_TYPE_RESP_USERS in
    let requestor_id := get_u32 (ru_requestor_id req) in
    resp_packet ←
      (if negb (userExists requestor_id db)
       then Ok (with_resp_users (mkRespUsers (Some 1%Z) []) resp_packet)
       else
         for_db db
           (λ resp_packet it,
              if (it.1 =? requestor_id)%Z then Ok resp_packet
              else Ok (add_online_user it.1 (username it.2) resp_packet))
           (with_resp_users (mkRespUsers (Some 0%Z) []) resp_packet));
    let '(size, tx_buffer) := serialize resp_packet tx_buffer capacity in
    Ok (size, tx_buffer, db).

(** [mutable_resp_recv()->add_messages()] and the two setters. *)
Definition add_message (m : Msg) (p : Packet) : Packet :=
  let r := default RespRecv_default (resp_recv p) in
  with_resp_recv (mkRespRecv (pv_resp_value r)
    (messages r ++ [mkUserMessage (Some (sender_id m)) (Some (msg m))])) p.

Definition handleRequestRecv (packet : Packet) (tx_buffer : bytes) (capacity : Z)
    (db : Database) : Z * bytes * Database :=
  let req := default RequestRecv_default (req_recv packet) in
  if negb (bool_decide (is_Some (req_recv packet))) ||
     negb (bool_decide (is_Some (rv_requestor_id req)))
  then (0%Z, tx_buffer, db)
  else
    let resp_packet := packet_of_type PACKET_TYPE_RESP_RECV in
    let requestor_id := get_u32 (rv_requestor_id req) in
    let '(resp_packet, db) :=
      if negb (userExists requestor_id db)
      then (with_resp_recv (mkRespRecv (Some 1%Z) []) resp_packet, db)
      else
        let resp_packet := with_resp_recv (mkRespRecv (Some 0%Z) []) resp_packet in
        let '(u, db) := db_index requestor_id db in
        (foldl (λ p m, add_message m p) resp_packet (msg_q u), db) in
    let '(size, tx_buffer) := serialize resp_packet tx_buffer capacity in
    (size, tx_buffer, db).

(** ** The thread of a connection *)

(** The switch of [handleRequest]; [handleRequestRecv] is not called. *)
Definition respond (packet : Packet) (tx_buffer : bytes) (db : Database) :
    outcome (Z * bytes * Database) :=
  let capacity := Z.of_nat (length tx_buffer) in
  match get_type (default mcc_Header_default (hdr packet)) with
  | PACKET_TYPE_REQUEST_RECV => Ok (0%Z, tx_buffer, db)
  | PACKET_TYPE_REQUEST_REGISTER => Ok (handleRequestRegister packet tx_buffer capacity db)
  | PACKET_TYPE_REQUEST_SEND => Ok (0%Z, tx_buffer, db)
  | PACKET_TYPE_REQUEST_USERS => handleRequestUsers packet tx_buffer capacity db
  | _ => Ok (0%Z, tx_buffer, db)
  end.

(** [handleRequest(socket_descriptor)]; [fuel] bounds the wait for the request and the
    sending of the response. An invalid header is only logged. *)
Definition handleRequest (fuel : nat) (socket_descriptor : Z) (db : Database) (k : K) :
    outcome (Database * K) :=
  let '(my_socket, k) := Socket_new socket_descriptor true k in
  let tx_buffer := replicate 1024 x00 in
  let rx_buffer := replicate 1024 x00 in
  '(_, rx_buffer, k) ← receive_some fuel rx_buffer (Z.of_nat (length rx_buffer)) my_socket k;
  let '(_, packet) := ParseFromArray (take 1024 rx_buffer) in
  '(num_bytes_tx, tx_buffer, db) ← respond packet tx_buffer db;
  '(_, k) ← sendB fuel tx_buffer num_bytes_tx my_socket k;
  Ok (db, Socket_delete my_socket k).

(** ** The accepting loop *)

(** [while(!my_server_socket.getConnection(socket_descriptor)) {}]. *)
Fixpoint accept_loop (fuel : nat) (ss : ServerSocket) (k : K) : outcome (Z * K) :=
  match fuel with
  | O => Blocked
  | S fuel =>
      let '(ok, socket_descriptor, k) := getConnection ss k in
      if ok : bool then Ok (socket_descriptor, k) else accept_loop fuel ss k
  end.

(** [n] turns of the loop of [run], each connection served before the next is accepted. *)
Fixpoint run_turns (fuel n : nat) (ss : ServerSocket) (db : Database) (k : K) :
    outcome (Database * K) :=
  match n with
  | O => Ok (db, k)
  | S n =>
      '(socket_descriptor, k) ← accept_loop fuel ss k;
      '(db, k) ← handleRequest fuel socket_descriptor db k;
      run_turns fuel n ss db k
  end.

(** [run()]: nothing is served when the listening socket cannot be made. *)
Definition run (fuel n : nat) (ip : bytes) (port : Z) (db : Database) (k : K) :
    outcome (Database * K) :=
  let '(ss, k) := ServerSocket_new ip port k in
  match ss with
  | Some ss => run_turns fuel n ss db k
  | None => Ok (db, k)
  end.

End ServerApp.

Arguments serialize : simpl never.
Arguments handleRequestRegister : simpl never.
Arguments handleRequestUsers : simpl never.
Arguments handleRequestRecv : simpl never.
