(* ===== verification/ServerAppProofs.v ===== *)
(** What the server's application layer answers: the packet every handler builds, the
    bytes a connection gets for a request, and the races of the handler threads on the
    database. *)

From S2P Require Import Prelude.
From S2P Require Import Common.
From S2P Require Import Database.
From S2P Require Import Packet.
From S2P Require Import Wire.
From S2P Require Import Socket.
From S2P Require Import ServerApp.

(** ** The answer to a packet *)

Section answers.
  Context {ord : UMapOrder Z UserMetadata}.

Definition register_answer (id : Z) : Packet :=
  with_resp_reg (mkRespRegister (Some 0%Z) (Some id)) (packet_of_type PACKET_TYPE_RESP_REGISTER).

Definition users_answer (value : Z) (us : list (Z * UserMetadata)) : Packet :=
  with_resp_users (mkRespUsers (Some value)
    (map (λ it, mkOnlineUser (Some it.1) (Some (username it.2))) us))
    (packet_of_type PACKET_TYPE_RESP_USERS).

Definition others (id : Z) (us : list (Z * UserMetadata)) : list (Z * UserMetadata) :=
  filter (λ it, it.1 ≠ id) us.

Definition recv_answer (value : Z) (ms : list Msg) : Packet :=
  with_resp_recv (mkRespRecv (Some value)
    (map (λ m, mkUserMessage (Some (sender_id m)) (Some (msg m))) ms))
    (packet_of_type PACKET_TYPE_RESP_RECV).

(** The response packet, if there is one, and the database afterwards. *)
Definition answer_packet (p : Packet) (db : Database) : option Packet * Database :=
  match get_type (default mcc_Header_default (hdr p)) with
  | PACKET_TYPE_REQUEST_REGISTER =>
      match r ← req_reg p; rr_username r with
      | Some name =>
          let '(id, db) := registerUser name db in (Some (register_answer id), db)
      | None => (None, db)
      end
  | PACKET_TYPE_REQUEST_USERS =>
      match r ← req_users p; ru_requestor_id r with
      | Some id =>
          (Some (if userExists id db then users_answer 0 (others id (umap_seq (user_map_ db)))
                 else users_answer 1 []), db)
      | None => (None, db)
      end
  | _ => (None, db)
  end.

End answers.

(** ** The handlers build the answers *)

Section handlers.
  Context {ord : UMapOrder Z UserMetadata} `{ProtobufLaws}.

Lemma handleRequestRegister_answer p r name tx cap db :
  req_reg p = Some r → rr_username r = Some name →
  handleRequestRegister p tx cap db =
    let '(size, tx) := serialize (register_answer (next_id_ db)) tx cap in
    (size, tx, (registerUser name db).2).
Proof. intros E1 E2. unfold handleRequestRegister. rewrite E1. cbn. by rewrite E2. Qed.

Lemma handleRequestRegister_none p tx cap db :
  (r ← req_reg p; rr_username r) = None → handleRequestRegister p tx cap db = (0%Z, tx, db).
Proof.
  intros E. unfold handleRequestRegister. destruct (req_reg p) as [r|]; cbn in *; [|done].
  by rewrite E.
Qed.

Lemma add_online_users id us p r :
  resp_users p = Some r →
  mfold (λ p it, if (it.1 =? id)%Z then Ok p else Ok (add_online_user it.1 (username it.2) p))
    us p =
  Ok (with_resp_users (mkRespUsers (pu_resp_value r) (online_users r ++
       map (λ it, mkOnlineUser (Some it.1) (Some (username it.2))) (others id us))) p).
Proof.
  revert p r. induction us as [|[k u] us IH]; intros p r E; cbn.
  { rewrite app_nil_r. destruct p, r; cbn in *; by subst. }
  unfold others in *. destruct (Z.eqb_spec k id) as [->|Hk].
  - rewrite decide_False by tauto. by apply IH.
  - rewrite decide_True by done. cbn. unfold add_online_user. rewrite E. cbn.
    rewrite (IH (with_resp_users _ p) _ eq_refl). cbn. by rewrite <- app_assoc.
Qed.

Lemma handleRequestUsers_answer p r id tx cap db :
  req_users p = Some r → ru_requestor_id r = Some id →
  handleRequestUsers p tx cap db =
    let '(size, tx) := serialize
      (if userExists id db then users_answer 0 (others id (umap_seq (user_map_ db)))
       else users_answer 1 []) tx cap in
    Ok (size, tx, db).
Proof.
  intros E1 E2. unfold handleRequestUsers. rewrite E1. cbn. rewrite E2. cbn.
  destruct (userExists id db); cbn; [|done].
  rewrite for_db_spec, (add_online_users _ _ (with_resp_users _ _) _ eq_refl). done.
Qed.

Lemma handleRequestUsers_none p tx cap db :
  (r ← req_users p; ru_requestor_id r) = None → handleRequestUsers p tx cap db = Ok (0%Z, tx, db).
Proof.
  intros E. unfold handleRequestUsers. destruct (req_users p) as [r|]; cbn in *; [|done].
  by rewrite E.
Qed.

Lemma add_messages ms p r :
  resp_recv p = Some r →
  foldl (λ p m, add_message m p) p ms =
  with_resp_recv (mkRespRecv (pv_resp_value r) (messages r ++
    map (λ m, mkUserMessage (Some (sender_id m)) (Some (msg m))) ms)) p.
Proof.
  revert p r. induction ms as [|m ms IH]; intros p r E; cbn.
  { rewrite app_nil_r. destruct p, r; cbn in *; by subst. }
  unfold add_message at 2. rewrite E. cbn.
  rewrite (IH (with_resp_recv _ p) _ eq_refl). cbn. by rewrite <- app_assoc.
Qed.

Lemma handleRequestRecv_answer p r id tx cap db :
  req_recv p = Some r → rv_requestor_id r = Some id →
  handleRequestRecv p tx cap db =
    let '(size, tx) := serialize
      (match user_map_ db !! id with
       | Some u => recv_answer 0 (msg_q u)
       | None => recv_answer 1 []
       end) tx cap in
    (size, tx, db).
Proof.
  intros E1 E2. unfold handleRequestRecv. rewrite E1. cbn. rewrite E2. cbn.
  destruct (user_map_ db !! id) as [u|] eqn:E.
  - rewrite (proj2 (userExists_true id db)) by eauto. cbn.
    rewrite (db_index_present id u) by done. cbn. by rewrite (add_messages _ (with_resp_recv _ _) _ eq_refl).
  - by rewrite (proj2 (userExists_false id db)).
Qed.

Lemma serialize_fits r tx cap :
  (ByteSizeLong r ≤ cap ≤ Z.of_nat (length tx))%Z →
  serialize r tx cap = (ByteSizeLong r, wire r ++ drop (length (wire r)) tx).
Proof. intros Hr. unfold serialize. by rewrite SerializeToArray_fits. Qed.

Lemma serialize_too_big r tx cap :
  (cap < ByteSizeLong r)%Z → serialize r tx cap = (ByteSizeLong r, tx).
Proof. intros Hr. unfold serialize. by rewrite SerializeToArray_too_big. Qed.

(** The switch of [handleRequest] serialises the answer. *)
Lemma respond_answer p tx db :
  respond p tx db =
    let '(r, db') := answer_packet p db in
    match r with
    | Some r => let '(size, tx) := serialize r tx (Z.of_nat (length tx)) in Ok (size, tx, db')
    | None => Ok (0%Z, tx, db')
    end.
Proof.
  unfold respond, answer_packet. destruct (get_type _); try done.
  - destruct (req_reg p) as [r|] eqn:E1; [destruct (rr_username r) as [name|] eqn:E2|]; cbn.
    + rewrite (handleRequestRegister_answer p r name) by done. cbn.
      rewrite E2. by destruct (serialize _ _ _).
    + rewrite E2. rewrite handleRequestRegister_none; [done|by rewrite E1].
    + rewrite handleRequestRegister_none; [done|by rewrite E1].
  - destruct (req_users p) as [r|] eqn:E1; [destruct (ru_requestor_id r) as [id|] eqn:E2|]; cbn.
    + rewrite E2. by rewrite (handleRequestUsers_answer p r id) by done.
    + rewrite E2. rewrite handleRequestUsers_none; [done|by rewrite E1].
    + rewrite handleRequestUsers_none; [done|by rewrite E1].
Qed.

End handlers.

(** ** What a connection gets *)

Section connection.
  Context {ord : UMapOrder Z UserMetadata} `{ProtobufLaws} {K : Type} `{KernelLaws K}.

(** The request is what the first [recv] that delivers anything delivers. *)
Lemma handleRequest_chunk fuel fd db k chunk n k1 :
  delivers fd 1024 chunk n k k1 → (n < fuel)%nat → (0 < length chunk ≤ 1024)%nat →
  handleRequest fuel fd db k =
    ('(num_bytes_tx, tx_buffer, db) ←
       respond (ParseFromArray (chunk ++ replicate (1024 - length chunk) x00)).2
               (replicate 1024 x00) db;
     '(_, k) ← sendB fuel tx_buffer num_bytes_tx (mkSocket true fd) k1;
     Ok (db, sys_close fd k)).
Proof.
  intros Hd Hn Hc. unfold handleRequest, Socket_new. cbn [fst snd].
  rewrite (receive_some_delivers (mkSocket true fd) n chunk fuel _ _ k k1);
    rewrite ?length_replicate; [|exact Hd|lia..].
  cbn [mbind outcome_bind]. rewrite drop_replicate, take_ge by (rewrite length_app, length_replicate; lia).
  by destruct (ParseFromArray _).
Qed.

Lemma take_answer r cap n :
  length (wire r) = n → (n ≤ cap)%nat →
  take n (wire r ++ drop n (replicate cap x00)) = wire r.
Proof. intros <- _. apply take_app_length. Qed.

Lemma handleRequest_answer fuel fd db k p n k1 patience :
  wf_packet p → (0 < ByteSizeLong p ≤ 1024)%Z →
  delivers fd 1024 (wire p) n k k1 → sending fd patience →
  (n < fuel)%nat → (1024 + patience k1 < fuel)%nat →
  let '(r, db') := answer_packet p db in
  let reply := from_option wire [] r in
  if decide (length reply ≤ 1024)%nat
  then ∃ k', handleRequest fuel fd db k = Ok (db', sys_close fd k') ∧
             sent fd k' = sent fd k ++ reply
  else handleRequest fuel fd db k = Oob.
Proof.
  intros Hwf Hl Hd Hp Hn Hf. pose proof (ByteSizeLong_wire p) as Hw. rewrite Hw in Hl.
  rewrite (handleRequest_chunk _ _ _ _ (wire p) n k1) by (done || lia).
  rewrite ParseFromArray_padded, respond_answer by (done || lia).
  pose proof (delivers_sent (mkSocket true fd) _ _ _ _ _ Hd) as Hs. cbn in Hs.
  assert (∀ tx m, length tx = 1024%nat → (m ≤ 1024)%nat →
    ∃ k', sendB fuel tx (Z.of_nat m) (mkSocket true fd) k1 = Ok (true, k') ∧
          sent fd k' = sent fd k ++ take m tx) as Hsend.
  { intros tx m Htx Hm. rewrite <- Hs.
    destruct (sendB_ok (mkSocket true fd) patience fuel tx (Z.of_nat m) k1)
      as (k' & E & Hk'); [done|lia..|]. exists k'. by rewrite Nat2Z.id in Hk'. }
  destruct (answer_packet p db) as [[r|] db']; cbn [from_option];
    rewrite ?length_replicate; cbn [mbind outcome_bind].
  - pose proof (ByteSizeLong_wire r) as Hr. case_decide as Hle.
    + rewrite serialize_fits by (rewrite length_replicate; lia). cbn [mbind outcome_bind].
      rewrite Hr. destruct (Hsend (wire r ++ drop (length (wire r)) (replicate 1024 x00))
        (length (wire r))) as (k' & -> & Hk'); [|done|].
      { rewrite length_app, length_drop, length_replicate. lia. }
      exists k'. split; [done|]. rewrite Hk', take_answer; done.
    + rewrite serialize_too_big by lia. cbn [mbind outcome_bind].
      rewrite sendB_oob; [done|rewrite length_replicate; lia|lia].
  - destruct (Hsend (replicate 1024 x00) 0%nat) as (k' & E & Hk'); [done|lia|].
    rewrite decide_True by (cbn; lia). exists k'.
    change (Z.of_nat 0) with 0%Z in E. rewrite E. by rewrite app_nil_r in *.
Qed.

End connection.

(** ** The packets of the client's requests *)

Definition register_request (name : bytes) : Packet :=
  with_req_reg (mkRequestRegister (Some name)) (packet_of_type PACKET_TYPE_REQUEST_REGISTER).

Lemma register_request_wf name : ascii name → wf_packet (register_request name).
Proof. intros Hn. split; cbn; done. Qed.

Definition users_request (id : Z) : Packet :=
  with_req_users (mkRequestUsers (Some id)) (packet_of_type PACKET_TYPE_REQUEST_USERS).

Definition send_request (src tgt : Z) (m : bytes) : Packet :=
  with_req_send (mkRequestSend (Some src) (Some tgt) (Some m))
    (packet_of_type PACKET_TYPE_REQUEST_SEND).

Lemma send_request_wf src tgt m : u32 src → u32 tgt → ascii m → wf_packet (send_request src tgt m).
Proof. intros Hs Ht Hm. split; cbn; done. Qed.

Definition recv_request (id : Z) : Packet :=
  with_req_recv (mkRequestRecv (Some id)) (packet_of_type PACKET_TYPE_REQUEST_RECV).

(** A kernel whose peer sends one piece after a while. *)
Definition peer (chunk : bytes) : script := mkScript 0 [] [] [] [[]; chunk] [] [].

Lemma peer_delivers chunk fd :
  (0 < length chunk ≤ 1024)%nat →
  delivers fd 1024 chunk 1 (peer chunk) (mkScript EAGAIN [] [] [] [] [] chunk).
Proof.
  intros Hc. apply (delivers_wait _ _ _ _ _ (mkScript EAGAIN [] [] [] [chunk] [] [])); [done..|].
  apply delivers_now. cbn. unfold script_recv. destruct chunk as [|x c]; [cbn in Hc; lia|].
  cbn [sc_recv]. by rewrite take_ge, drop_ge by lia.
Qed.

Definition two_users : Database :=
  (registerUser (str "Bob") (registerUser (str "Ann") Database_init).2).2.
