(* ===== verification/ServerAppTheorems.v ===== *)
(** The properties of the server's application layer. *)

From S2P Require Import Prelude.
From S2P Require Import Common.
From S2P Require Import Database.
From S2P Require Import Packet.
From S2P Require Import Wire.
From S2P Require Import Socket.
From S2P Require Import ServerApp.
From S2P Require Import ServerAppProofs.

#[local] Existing Instance canonical_order.

(** ** Requests and answers *)

(** C14. A connection that delivers one well-formed request of at most 1024 bytes in one
    piece is served: the thread terminates, the database changes as the request says,
    and the connection has been sent exactly the serialised answer, or nothing where the
    code has no answer; but an answer that does not fit the 1024 bytes of the transmit
    buffer makes the thread read beyond the buffer. *)
Theorem handleRequest_serves {ord : UMapOrder Z UserMetadata} `{ProtobufLaws} {K : Type}
    `{KernelLaws K} fuel fd db k p n k1 patience :
  wf_packet p → (0 < ByteSizeLong p ≤ 1024)%Z →
  delivers fd 1024 (wire p) n k k1 → sending fd patience →
  (n < fuel)%nat → (1024 + patience k1 < fuel)%nat →
  let '(r, db') := answer_packet p db in
  let reply := from_option wire [] r in
  if decide (length reply ≤ 1024)%nat
  then ∃ k', handleRequest fuel fd db k = Ok (db', sys_close fd k') ∧
             sent fd k' = sent fd k ++ reply
  else handleRequest fuel fd db k = Oob.
Proof. apply handleRequest_answer. Qed.

Lemma handleRequest_serves_witness :
  ∃ k', handleRequest 2000 3 two_users (peer (wire_Packet (register_request (str "Eve")))) =
          Ok ((registerUser (str "Eve") two_users).2, k') ∧
        sc_sent k' = [] ++ wire_Packet (register_answer 2).
Proof.
  pose proof (handleRequest_serves 2000 3 two_users
    (peer (wire_Packet (register_request (str "Eve")))) (register_request (str "Eve")) 1 _
    (λ k, length (sc_send k))
    (register_request_wf (str "Eve") ltac:(by apply (bool_decide_eq_true_1 _); vm_compute))
    ltac:(vm_compute; split; congruence)
    (peer_delivers (wire_Packet (register_request (str "Eve"))) 3 ltac:(vm_compute; lia))
    (script_sending 3) ltac:(lia) ltac:(cbn; lia)) as Hs.
  destruct Hs as (k' & E & Hs). exists k'. exact (conj E Hs).
Defined.

(** The users response of a registered user lists every other registered user with
    its name exactly once and nobody else; an unregistered requestor gets the value 1
    and an empty list; the database is not changed. *)
Theorem handleRequestUsers_complete {ord : UMapOrder Z UserMetadata} `{ProtobufLaws}
    p r id tx db :
  req_users p = Some r → ru_requestor_id r = Some id →
  ∃ resp,
    handleRequestUsers p tx (Z.of_nat (length tx)) db =
      (let '(size, tx) := serialize resp tx (Z.of_nat (length tx)) in Ok (size, tx, db)) ∧
    hdr resp = Some (mkHdr (Some PACKET_TYPE_RESP_USERS)) ∧
    ∃ us, resp_users resp = Some us ∧ NoDup (online_users us) ∧
      if userExists id db
      then pu_resp_value us = Some 0%Z ∧
        ∀ u, u ∈ online_users us ↔
          ∃ k m, k ≠ id ∧ user_map_ db !! k = Some m ∧
                 u = mkOnlineUser (Some k) (Some (username m))
      else pu_resp_value us = Some 1%Z ∧ online_users us = [].
Proof.
  intros E1 E2. eexists. rewrite (handleRequestUsers_answer p r id) by done.
  split; [done|]. destruct (userExists id db); (split; [done|]); eexists; split; try done.
  - cbn. split; [|split; [done|]].
    + apply (NoDup_fmap_1 ou_user_id). rewrite <- list_fmap_compose.
      change (NoDup ((Some ∘ fst) <$> others id (umap_seq (user_map_ db)))).
      rewrite list_fmap_compose. apply NoDup_fmap_2; [by intros ?? [=]|].
      eapply sublist_NoDup; [apply (NoDup_umap_seq_fst (user_map_ db))|].
      apply fmap_sublist, sublist_filter.
    + intros u. rewrite list_elem_of_fmap. split.
      * intros ([k m] & -> & [Hk Hin%elem_of_umap_seq]%list_elem_of_filter). eauto.
      * intros (k & m & Hk & Hm & ->). exists (k, m). split; [done|].
        apply list_elem_of_filter. by rewrite elem_of_umap_seq.
  - cbn. split; [by constructor|done].
Qed.

Lemma handleRequestUsers_complete_witness :
  ∃ resp,
    handleRequestUsers (users_request 0) [] 0 two_users =
      (let '(size, tx) := serialize resp [] 0 in Ok (size, tx, two_users)) ∧
    hdr resp = Some (mkHdr (Some PACKET_TYPE_RESP_USERS)) ∧
    ∃ us, resp_users resp = Some us ∧ mkOnlineUser (Some 1%Z) (Some (str "Bob")) ∈ online_users us.
Proof.
  destruct (handleRequestUsers_complete (users_request 0) (mkRequestUsers (Some 0%Z)) 0 []
    two_users eq_refl eq_refl) as (resp & E & Hh & us & Hu & _ & _ & Hin).
  exists resp. split_and!; [exact E|exact Hh|]. exists us. split; [exact Hu|].
  apply Hin. by exists 1%Z, (mkUserMetadata (str "Bob") []).
Defined.

(** Requests to send and to receive messages are not answered: whatever the packet
    holds, the thread sends nothing, leaves the database alone and closes the
    connection. *)
Theorem send_and_recv_unanswered {ord : UMapOrder Z UserMetadata} `{ProtobufLaws} {K : Type}
    `{KernelLaws K} fuel fd db k p n k1 patience h :
  hdr p = Some h →
  get_type h = PACKET_TYPE_REQUEST_SEND ∨ get_type h = PACKET_TYPE_REQUEST_RECV →
  wf_packet p → (0 < ByteSizeLong p ≤ 1024)%Z →
  delivers fd 1024 (wire p) n k k1 → sending fd patience →
  (n < fuel)%nat → (1024 + patience k1 < fuel)%nat →
  ∃ k', handleRequest fuel fd db k = Ok (db, sys_close fd k') ∧ sent fd k' = sent fd k.
Proof.
  intros Hh Ht Hwf Hl Hd Hp Hn Hf.
  pose proof (handleRequest_answer fuel fd db k p n k1 patience Hwf Hl Hd Hp Hn Hf) as Ha.
  assert (answer_packet p db = (None, db)) as Hnone.
  { unfold answer_packet. rewrite Hh. cbn. by destruct Ht as [-> | ->]. }
  rewrite Hnone in Ha. cbn in Ha. rewrite decide_True in Ha by lia.
  destruct Ha as (k' & E & Hs). exists k'. by rewrite app_nil_r in Hs.
Qed.

Lemma send_and_recv_unanswered_witness :
  ∃ k', handleRequest 2000 3 two_users (peer (wire_Packet (send_request 0 1 (str "hi")))) =
          Ok (two_users, k') ∧ sc_sent k' = [].
Proof.
  destruct (send_and_recv_unanswered 2000 3 two_users
    (peer (wire_Packet (send_request 0 1 (str "hi")))) (send_request 0 1 (str "hi")) 1 _
    (λ k, length (sc_send k)) (mkHdr (Some PACKET_TYPE_REQUEST_SEND)) eq_refl (or_introl eq_refl)
    (send_request_wf 0 1 (str "hi") ltac:(done) ltac:(done)
       ltac:(by apply (bool_decide_eq_true_1 _); vm_compute))
    ltac:(vm_compute; split; congruence)
    (peer_delivers (wire_Packet (send_request 0 1 (str "hi"))) 3 ltac:(vm_compute; lia))
    (script_sending 3) ltac:(lia) ltac:(cbn; lia)) as (k' & E & Hs).
  exists k'. exact (conj E Hs).
Defined.

(** [handleRequestRecv] answers with all the messages queued for the user, in order,
    but leaves them in the queue: a second request gets the same messages again. *)
Theorem handleRequestRecv_repeats `{ProtobufLaws} p r id u tx cap db :
  req_recv p = Some r → rv_requestor_id r = Some id → user_map_ db !! id = Some u →
  let '(size, tx1, db1) := handleRequestRecv p tx cap db in
  (size, tx1) = serialize (recv_answer 0 (msg_q u)) tx cap ∧ db1 = db ∧
  handleRequestRecv p tx cap db1 = (size, tx1, db1).
Proof.
  intros E1 E2 Eu. rewrite (handleRequestRecv_answer p r id) by done. rewrite Eu.
  destruct (serialize _ tx cap) as [size tx1] eqn:Es. split_and!; [done..|].
  rewrite (handleRequestRecv_answer p r id) by done. by rewrite Eu, Es.
Qed.

Lemma handleRequestRecv_repeats_witness :
  let db := (queueMsg 1 (mkMsg 0 (str "hi")) two_users).2 in
  let '(size, tx1, db1) := handleRequestRecv (recv_request 1) [] 0 db in
  (size, tx1) = serialize (recv_answer 0 [mkMsg 0 (str "hi")]) [] 0 ∧ db1 = db ∧
  handleRequestRecv (recv_request 1) [] 0 db1 = (size, tx1, db1).
Proof.
  exact (handleRequestRecv_repeats (recv_request 1) (mkRequestRecv (Some 1%Z)) 1
    (mkUserMetadata (str "Bob") [mkMsg 0 (str "hi")]) [] 0
    (queueMsg 1 (mkMsg 0 (str "hi")) two_users).2 eq_refl eq_refl eq_refl).
Defined.

(** A packet without a header is reported as invalid and then treated as a register
    request, whose type is the default one: the name it holds is registered. *)
Lemma headerless_packet_registers {ord : UMapOrder Z UserMetadata} `{ProtobufLaws}
    p r name tx db :
  hdr p = None → req_reg p = Some r → rr_username r = Some name →
  respond p tx db =
    let '(size, tx) := serialize (register_answer (next_id_ db)) tx (Z.of_nat (length tx)) in
    Ok (size, tx, (registerUser name db).2).
Proof.
  intros Hh E1 E2. rewrite respond_answer. unfold answer_packet.
  rewrite Hh. cbn. rewrite E1. cbn. by rewrite E2.
Qed.

Lemma headerless_packet_registers_witness :
  respond (with_req_reg (mkRequestRegister (Some (str "Eve"))) Packet_default) [] two_users =
    let '(size, tx) := serialize (register_answer 2) [] 0 in
    Ok (size, tx, (registerUser (str "Eve") two_users).2).
Proof.
  exact (headerless_packet_registers
    (with_req_reg (mkRequestRegister (Some (str "Eve"))) Packet_default)
    (mkRequestRegister (Some (str "Eve"))) (str "Eve") [] two_users eq_refl eq_refl eq_refl).
Defined.

(** A request that arrives in two pieces is lost: for a register request cut after
    its header, the thread parses the first piece alone, finds no name in it, registers
    nobody and answers nothing. *)
Theorem split_request_lost {ord : UMapOrder Z UserMetadata} name db :
  let first := wire_Packet (packet_of_type PACKET_TYPE_REQUEST_REGISTER) in
  ∃ second k',
    wire_Packet (register_request name) = first ++ second ∧
    handleRequest 2000 3 db (mkScript 0 [] [] [] [first; second] [] []) = Ok (db, k') ∧
    sc_sent k' = [].
Proof.
  intros first.
  set (second := enc_fields (opt_sub 2 f_RequestRegister (Some (mkRequestRegister (Some name))))).
  exists second.
  destruct (handleRequest_answer 2000 3 db (mkScript 0 [] [] [] [first; second] [] [])
    (packet_of_type PACKET_TYPE_REQUEST_REGISTER) 0
    (mkScript 0 [] [] [] [second] [] first) (λ k, length (sc_send k))) as (k' & E & Hs).
  - done.
  - by vm_compute.
  - by apply delivers_now.
  - apply script_sending.
  - lia.
  - cbn. lia.
  - exists k'. split_and!; [|exact E|exact Hs].
    unfold wire_Packet, f_Packet, enc_fields. cbn [register_request with_req_reg packet_of_type hdr
      req_reg req_users req_send req_recv resp_reg resp_users resp_send resp_recv].
    by rewrite map_app, concat_app.
Qed.
