(* ===== verification/Threads.v ===== *)
(** The threads of the server ([ServerApp::run], [src/server/server_app.cpp]): the main
    thread accepts connections, and every connection has a detached thread that runs
    [handleRequest]. A schedule is a list of actions; a thread performs one iteration of
    its receive loop or of its send loop, or one access to the shared database, in
    [Database::registerUser] or in the loop over the users, at a time, between those of
    the others. *)

From S2P Require Import Prelude.
From S2P Require Import Common.
From S2P Require Import Database.
From S2P Require Import Packet.
From S2P Require Import Socket.
From S2P Require Import Network.
From S2P Require Import ServerApp.
From S2P Require Import ServerAppProofs.

(** ** [registerUser] in steps

    The threads of [run] share the database without a lock. [registerUser] reads and
    writes its counter in three steps, which threads can interleave. *)

Inductive register_pc :=
| RegStart (name : bytes)      (** about to execute [user_map_[next_id_] = ...] *)
| RegInserted (name : bytes)   (** about to read [next_id_] *)
| RegLoaded (id : Z)           (** about to store [next_id_ + 1] *)
| RegDone (id : Z).            (** [registerUser] has returned *)

(** One step of a thread. *)
Definition register_step (db : Database) (pc : register_pc) : option (Database * register_pc) :=
  match pc with
  | RegStart name =>
      Some (mkDatabase (next_id_ db) (<[next_id_ db := mkUserMetadata name []]> (user_map_ db)),
            RegInserted name)
  | RegInserted name => Some (db, RegLoaded (next_id_ db))
  | RegLoaded id => Some (mkDatabase (wrap32 (id + 1)) (user_map_ db), RegDone id)
  | RegDone _ => None
  end.

(** One step of one of the threads. *)
Inductive threads_step : Database * list register_pc → Database * list register_pc → Prop :=
| thread_steps db pcs i pc db' pc' :
    pcs !! i = Some pc → register_step db pc = Some (db', pc') →
    threads_step (db, pcs) (db', <[i := pc']> pcs).

(** The threads whose indices are listed make a step each, in this order. *)
Fixpoint schedule (order : list nat) (s : Database * list register_pc) :
    option (Database * list register_pc) :=
  match order with
  | [] => Some s
  | i :: order =>
      pc ← s.2 !! i;
      '(db', pc') ← register_step s.1 pc;
      schedule order (db', <[i := pc']> s.2)
  end.

Lemma schedule_steps order s s' : schedule order s = Some s' → rtc threads_step s s'.
Proof.
  revert s. induction order as [|i order IH]; intros [db pcs] Hs; cbn in Hs; simplify_eq; [done|].
  destruct (pcs !! i) as [pc|] eqn:E; cbn in Hs; [|done].
  destruct (register_step db pc) as [[db' pc']|] eqn:E'; cbn in Hs; [|done].
  eapply rtc_l; [by econstructor|]. by apply IH.
Qed.

(** ** Handler threads *)

(** The name a packet registers: the type is that of a register request and the name is
    present. *)
Definition register_name (p : Packet) : option bytes :=
  match get_type (default mcc_Header_default (hdr p)) with
  | PACKET_TYPE_REQUEST_REGISTER => r ← req_reg p; rr_username r
  | _ => None
  end.

(** The user that asks for the others, when the type is that of a users request and the
    ID is present. *)
Definition users_requestor (p : Packet) : option Z :=
  match get_type (default mcc_Header_default (hdr p)) with
  | PACKET_TYPE_REQUEST_USERS => r ← req_users p; ru_requestor_id r
  | _ => None
  end.

(** Where a thread is in [handleRequest], with the local variables that are still used. *)
Inductive handler_pc :=
| Receiving (rx_buffer : bytes)                                (** in the receive loop *)
| Dispatching (packet : Packet)                                (** at the switch *)
| Registering (packet : Packet) (r : register_pc)              (** in [registerUser] *)
| Listing (packet resp_packet : Packet) (it : option ConstIterator)
    (** in the loop of [handleRequestUsers], [None] being before [begin()] *)
| Sending (tx_buffer : bytes) (target_count curr_count : Z)    (** in [sendB] *)
| Returning (ok : bool)                                        (** about to close *)
| Closed.

Record handler := mkHandler { my_socket : Socket; at_ : handler_pc }.

Section Threads.
  Context {ord : UMapOrder Z UserMetadata} `{Protobuf} {K : Type} `{Kernel K}.

(** What the threads share, and the threads in the order of their creation. *)
Record server := mkServer {
  my_server_socket : ServerSocket;
  handlers : list handler;
  the_db : Database;
  kernel : K;
}.

(** A response, about to be sent. *)
Definition send_response (resp_packet : Packet) : handler_pc :=
  let '(num_bytes_tx, tx_buffer) := serialize resp_packet (replicate 1024 x00) 1024 in
  Sending tx_buffer num_bytes_tx 0.

(** One turn of the loop of [handleRequestUsers]; the entry the iterator points to has the
    value it has now. *)
Definition list_user (packet resp_packet : Packet) (it : ConstIterator) (db : Database) :
    outcome handler_pc :=
  if it_neq it (db_end db) then
    '(id, u) ← it_deref it;
    let u := default u (user_map_ db !! id) in
    let requestor_id := default 0%Z (users_requestor packet) in
    let resp_packet :=
      if (id =? requestor_id)%Z then resp_packet
      else add_online_user id (username u) resp_packet in
    Ok (Listing packet resp_packet (Some (it_next it)))
  else Ok (send_response resp_packet).

(** The users request of a user that does not exist, and any request that registers
    nobody and lists nobody, is handled in one step. *)
Definition lists_users (packet : Packet) (db : Database) : bool :=
  match users_requestor packet with
  | Some requestor_id => userExists requestor_id db
  | None => false
  end.

(** The next step of a thread. [handleRequestRegister] continues after [registerUser]
    with the response, and [handleRequestUsers] after its loop. *)
Definition thread_step (s : Socket) (pc : handler_pc) (db : Database) (k : K) :
    outcome (handler_pc * Database * K) :=
  match pc with
  | Receiving rx_buffer =>
      '(num_bytes_rx, rx_buffer, k) ←
        receiveNb rx_buffer 0 (Z.of_nat (length rx_buffer)) s k;
      if (num_bytes_rx =? 0)%Z then Ok (Receiving rx_buffer, db, k)
      else let '(_, packet) := ParseFromArray (take 1024 rx_buffer) in
           Ok (Dispatching packet, db, k)
  | Dispatching packet =>
      match register_name packet with
      | Some name => Ok (Registering packet (RegStart name), db, k)
      | None =>
          if lists_users packet db then
            let resp_packet :=
              with_resp_users (mkRespUsers (Some 0%Z) []) (packet_of_type PACKET_TYPE_RESP_USERS) in
            Ok (Listing packet resp_packet None, db, k)
          else
            '(num_bytes_tx, tx_buffer, db) ← respond packet (replicate 1024 x00) db;
            Ok (Sending tx_buffer num_bytes_tx 0, db, k)
      end
  | Registering packet (RegDone id) =>
      let resp_packet :=
        with_resp_reg (mkRespRegister (Some 0%Z) (Some id))
          (packet_of_type PACKET_TYPE_RESP_REGISTER) in
      Ok (send_response resp_packet, db, k)
  | Registering packet r =>
      match register_step db r with
      | Some (db, r) => Ok (Registering packet r, db, k)
      | None => Ok (pc, db, k)
      end
  | Listing packet resp_packet None =>
      Ok (Listing packet resp_packet (Some (db_begin db)), db, k)
  | Listing packet resp_packet (Some it) =>
      pc ← list_user packet resp_packet it db;
      Ok (pc, db, k)
  | Sending tx_buffer target_count curr_count =>
      if (curr_count <? target_count)%Z then
        let remaining_count := (target_count - curr_count)%Z in
        '(curr_sent, k) ← sendNb (drop (Z.to_nat curr_count) tx_buffer) remaining_count s k;
        if (curr_sent <? 0)%Z then Ok (Returning false, db, k)
        else Ok (Sending tx_buffer target_count (curr_count + curr_sent), db, k)
      else Ok (Returning true, db, k)
  | Returning _ => Ok (Closed, db, Socket_delete s k)
  | Closed => Ok (Closed, db, k)
  end.

(** ** The program *)

Inductive action :=
| Accept             (** one turn of the loop around [getConnection] *)
| Run (i : nat).     (** a step of the [i]-th thread *)

Definition server_step (a : action) (s : server) : outcome server :=
  match a with
  | Accept =>
      let '(ok, socket_descriptor, k) := getConnection (my_server_socket s) (kernel s) in
      if ok : bool then
        let '(my_socket, k) := Socket_new socket_descriptor true k in
        Ok (mkServer (my_server_socket s)
              (handlers s ++ [mkHandler my_socket (Receiving (replicate 1024 x00))]) (the_db s) k)
      else Ok (mkServer (my_server_socket s) (handlers s) (the_db s) k)
  | Run i =>
      match handlers s !! i with
      | Some h =>
          '(pc, db, k) ← thread_step (my_socket h) (at_ h) (the_db s) (kernel s);
          Ok (mkServer (my_server_socket s) (<[i := mkHandler (my_socket h) pc]> (handlers s)) db k)
      | None => Ok s
      end
  end.

(** The request that takes effect on the database in the next step of a thread. *)
Definition takes_effect (pc : handler_pc) : option Packet :=
  match pc with
  | Dispatching packet => match register_name packet with Some _ => None | None => Some packet end
  | Registering packet (RegStart _) => Some packet
  | _ => None
  end.

(** The requests that take effect in a step, with the threads they belong to. *)
Definition effects (a : action) (s : server) : list (nat * Packet) :=
  match a with
  | Accept => []
  | Run i => from_option (λ p, [(i, p)]) [] (h ← handlers s !! i; takes_effect (at_ h))
  end.

(** A schedule: the requests in the order in which they took effect, and the last state. *)
Fixpoint execute (schedule : list action) (s : server) : outcome (list (nat * Packet) * server) :=
  match schedule with
  | [] => Ok ([], s)
  | a :: schedule =>
      s' ← server_step a s;
      '(log, s') ← execute schedule s';
      Ok (effects a s ++ log, s')
  end.

(** The state in which [run] starts to accept. *)
Definition server_start (ss : ServerSocket) (db : Database) (k : K) : server :=
  mkServer ss [] db k.

End Threads.

Arguments server : clear implicits.
