(* ===== verification/ThreadsProofs.v ===== *)
(** The invariant of the server's threads: as long as a thread that is inside
    [Database::registerUser] is the only one that registers or lists users, the requests
    take effect one after the other, and every thread sends the answer its request has in
    that order. *)

From S2P Require Import Prelude.
From S2P Require Import Common.
From S2P Require Import Database.
From S2P Require Import Packet.
From S2P Require Import Socket.
From S2P Require Import Network.
From S2P Require Import ServerApp.
From S2P Require Import ServerAppProofs.
From S2P Require Import Threads.

(** ** Threads that use the database *)

(** A thread that has inserted its user and has not stored the next ID yet. *)
Definition in_flight (h : handler) : bool :=
  match at_ h with
  | Registering _ (RegInserted _) | Registering _ (RegLoaded _) => true
  | _ => false
  end.

(** A thread that has found its user and has not been through all the others yet. *)
Definition listing (h : handler) : bool :=
  match at_ h with
  | Listing _ _ None => true
  | Listing _ _ (Some it) => negb (bool_decide (it_ it = []))
  | _ => false
  end.

(** What a lock shared by the readers would ensure: a thread that registers is alone with
    the database. *)
Definition exclusive {K} (s : server K) : Prop :=
  (length (List.filter in_flight (handlers s)) ≤ 1)%nat ∧
  (existsb in_flight (handlers s) = true → existsb listing (handlers s) = false).

Lemma existsb_lookup {A} (f : A → bool) (l : list A) :
  existsb f l = true ↔ ∃ i x, l !! i = Some x ∧ f x = true.
Proof.
  rewrite existsb_exists. split.
  - intros (x & Hin & Hx). apply list_elem_of_In, list_elem_of_lookup in Hin as [i Hi]. eauto.
  - intros (i & x & Hi & Hx). exists x. split; [|done].
    by apply list_elem_of_In, (list_elem_of_lookup_2 _ i).
Qed.

Lemma exclusive_listing {K} (s : server K) i j h h' :
  exclusive s → handlers s !! i = Some h → in_flight h = true →
  handlers s !! j = Some h' → listing h' = false.
Proof.
  intros [_ He] Hi Hh Hj. destruct (listing h') eqn:Hl; [|done].
  assert (existsb in_flight (handlers s) = true) as Hf by (apply existsb_lookup; eauto).
  assert (existsb listing (handlers s) = true) as Hl' by (apply existsb_lookup; eauto).
  rewrite He in Hl'; done.
Qed.

Lemma in_flight_unique (l : list handler) i j h h' :
  (length (List.filter in_flight l) ≤ 1)%nat →
  l !! i = Some h → l !! j = Some h' → in_flight h = true → in_flight h' = true → i = j.
Proof.
  revert i j. induction l as [|x l IH]; intros i j Hl Hi Hj Hh Hh'; [done|].
  assert (∀ n y, l !! n = Some y → in_flight y = true → (0 < length (List.filter in_flight l))%nat)
    as Hpos.
  { intros n y Hn Hy. assert (y ∈ List.filter in_flight l) as Hin.
    { apply list_elem_of_In, List.filter_In. split; [|done].
      by apply list_elem_of_In, (list_elem_of_lookup_2 _ n). }
    destruct (List.filter in_flight l); [by apply not_elem_of_nil in Hin|cbn; lia]. }
  cbn in Hl. destruct i as [|i], j as [|j]; cbn in *; simplify_eq; [done|..].
  - rewrite Hh in Hl. cbn in Hl. specialize (Hpos j h' Hj Hh'). lia.
  - rewrite Hh' in Hl. cbn in Hl. specialize (Hpos i h Hi Hh). lia.
  - f_equal. apply (IH i j); try done. destruct (in_flight x); cbn in Hl; lia.
Qed.

Section linearization.
  Context {ord : UMapOrder Z UserMetadata} `{ProtobufLaws} {K : Type} `{ConnectionLaws K}.

(** Every state a schedule goes through is exclusive. *)
Fixpoint exclusive_run (schedule : list action) (s : server K) : Prop :=
  match schedule with
  | [] => exclusive s
  | a :: schedule =>
      exclusive s ∧ match server_step a s with Ok s' => exclusive_run schedule s' | _ => True end
  end.

#[export] Instance exclusive_dec s : Decision (@exclusive K s).
Proof. unfold exclusive. apply _. Defined.

#[export] Instance exclusive_run_dec schedule s : Decision (exclusive_run schedule s).
Proof.
  revert s. induction schedule as [|a sch IH]; intros s; cbn; [apply _|].
  destruct (server_step a s); apply _.
Defined.

(** ** The sequential server

    Requests served one after the other, with the bytes of every answer. *)
Fixpoint serve_seq (log : list (nat * Packet)) (db : Database) :
    list (nat * Packet * bytes) * Database :=
  match log with
  | [] => ([], db)
  | (i, p) :: log =>
      let '(r, db) := answer_packet p db in
      let '(rs, db) := serve_seq log db in
      ((i, p, from_option wire [] r) :: rs, db)
  end.

Lemma serve_seq_snoc log i p db :
  serve_seq (log ++ [(i, p)]) db =
  let '(rs, db) := serve_seq log db in
  let '(r, db) := answer_packet p db in
  (rs ++ [(i, p, from_option wire [] r)], db).
Proof.
  revert db. induction log as [|[j q] log IH]; intros db; cbn.
  - by destruct (answer_packet p db).
  - destruct (answer_packet q db) as [r db1]. rewrite IH.
    destruct (serve_seq log db1) as [rs db2]. by destruct (answer_packet p db2).
Qed.

Lemma serve_seq_requests log db : (serve_seq log db).1.*1 = log.
Proof.
  revert db. induction log as [|[i p] log IH]; intros db; cbn; [done|].
  destruct (answer_packet p db) as [r db1]. specialize (IH db1).
  destruct (serve_seq log db1) as [rs db2]. cbn in *. by rewrite IH.
Qed.

Lemma serve_seq_mono log log' db e :
  e ∈ (serve_seq log db).1 → e ∈ (serve_seq (log ++ log') db).1.
Proof.
  revert db. induction log as [|[i p] log IH]; intros db; cbn.
  { by intros ?%not_elem_of_nil. }
  destruct (answer_packet p db) as [r db1]. specialize (IH db1).
  destruct (serve_seq log db1) as [rs db2], (serve_seq (log ++ log') db1) as [rs' db2'].
  cbn in *. rewrite !elem_of_cons. tauto.
Qed.

(** ** The invariant *)

(** The packet a thread parses from what its connection has delivered. *)
Definition parsed (data : bytes) : Packet :=
  (ParseFromArray (take 1024 (data ++ drop (length data) (replicate 1024 x00)))).2.

(** The [i]-th thread's request has the answer [reply] in the sequential server. *)
Definition answered (rs : list (nat * Packet * bytes)) (k : K) (i : nat) (s : Socket)
    (reply : bytes) : Prop :=
  (i, parsed (rcvd (fd_ s) k), reply) ∈ rs.

Definition started (rs : list (nat * Packet * bytes)) (i : nat) : Prop := i ∈ rs.*1.*1.

(** What the [i]-th thread has done, by where it is; [m] are the users. *)
Definition handler_ok (rs : list (nat * Packet * bytes)) (m : gmap Z UserMetadata) (k : K)
    (i : nat) (h : handler) : Prop :=
  let s := my_socket h in
  match at_ h with
  | Receiving rx =>
      ¬ started rs i ∧ sent (fd_ s) k = [] ∧ rcvd (fd_ s) k = [] ∧ rx = replicate 1024 x00
  | Dispatching p =>
      ¬ started rs i ∧ sent (fd_ s) k = [] ∧ p = parsed (rcvd (fd_ s) k)
  | Registering p (RegStart name) =>
      ¬ started rs i ∧ sent (fd_ s) k = [] ∧ p = parsed (rcvd (fd_ s) k) ∧
      register_name p = Some name
  | Registering p (RegInserted _) | Registering p (RegLoaded _) =>
      started rs i ∧ sent (fd_ s) k = []
  | Registering p (RegDone id) =>
      answered rs k i s (wire (register_answer id)) ∧ sent (fd_ s) k = []
  | Listing p resp it =>
      ∃ id us us', users_requestor p = Some id ∧
        answered rs k i s (wire (users_answer 0 (others id (us ++ us')))) ∧
        sent (fd_ s) k = [] ∧ resp = users_answer 0 (others id us) ∧
        match it with
        | None => us = [] ∧ us' = umap_seq m
        | Some it => it_ it = us' ∧ Forall (λ e, m !! e.1 = Some e.2) us'
        end
  | Sending tx target curr =>
      ∃ reply, answered rs k i s reply ∧ length tx = 1024%nat ∧
        target = Z.of_nat (length reply) ∧ (0 ≤ curr ≤ target)%Z ∧
        sent (fd_ s) k = take (Z.to_nat curr) reply ∧
        (if decide (length reply ≤ 1024)%nat then take (length reply) tx = reply else curr = 0%Z)
  | Returning ok =>
      ∃ reply, answered rs k i s reply ∧ sent (fd_ s) k `prefix_of` reply ∧
        (ok = true → sent (fd_ s) k = reply)
  | Closed => started rs i
  end.

(** The database against that of the sequential server: a registration in flight has
    inserted its user and not yet moved the next ID. *)
Definition db_ok (rs : list (nat * Packet * bytes)) (dbs : Database) (s : server K) : Prop :=
  user_map_ (the_db s) = user_map_ dbs ∧
  ((∀ i h, handlers s !! i = Some h → in_flight h = false) ∧
     next_id_ (the_db s) = next_id_ dbs ∨
   ∃ i h, handlers s !! i = Some h ∧ in_flight h = true ∧
     (∀ j h', j ≠ i → handlers s !! j = Some h' → in_flight h' = false) ∧
     next_id_ dbs = wrap32 (next_id_ (the_db s) + 1) ∧
     answered rs (kernel s) i (my_socket h) (wire (register_answer (next_id_ (the_db s)))) ∧
     ∀ p id, at_ h = Registering p (RegLoaded id) → id = next_id_ (the_db s)).

Record inv (db0 : Database) (log : list (nat * Packet)) (s : server K) : Prop := {
  inv_db : db_ok (serve_seq log db0).1 (serve_seq log db0).2 s;
  inv_handlers i h : handlers s !! i = Some h →
    handler_ok (serve_seq log db0).1 (user_map_ (the_db s)) (kernel s) i h;
  inv_once : NoDup log.*1;
  inv_bound i : i ∈ log.*1 → (i < length (handlers s))%nat;
  inv_open i h : handlers s !! i = Some h → at_ h ≠ Closed →
    fd_ (my_socket h) ∈ opened (kernel s);
  inv_fds i j h h' : handlers s !! i = Some h → handlers s !! j = Some h' → i ≠ j →
    at_ h ≠ Closed → at_ h' ≠ Closed → fd_ (my_socket h) ≠ fd_ (my_socket h');
}.

(** *** What a step leaves alone *)

Lemma handler_ok_frame rs rs' m m' k k' i h :
  (at_ h ≠ Closed → sent (fd_ (my_socket h)) k' = sent (fd_ (my_socket h)) k ∧
                    rcvd (fd_ (my_socket h)) k' = rcvd (fd_ (my_socket h)) k) →
  (∀ e, e ∈ rs → e ∈ rs') → (started rs' i → started rs i) → (m' = m ∨ listing h = false) →
  handler_ok rs m k i h → handler_ok rs' m' k' i h.
Proof.
  intros Hk Hrs Hst Hm. unfold listing in Hm. unfold handler_ok, answered, started in *.
  assert (∀ e, e ∈ rs.*1.*1 → e ∈ rs'.*1.*1) as Hin.
  { intros e ([e1 e2] & -> & (? & -> & ?)%list_elem_of_fmap)%list_elem_of_fmap.
    repeat apply list_elem_of_fmap_2. auto. }
  destruct (at_ h) as [rx|p|p []|p resp it|tx t c|ok|]; cbn in *;
    try (destruct (Hk ltac:(done)) as [E1 E2]; rewrite ?E1, ?E2).
  all: try (intros [Hn Hr]; split; [by intros ?%Hst|exact Hr]).
  - intros [Hs Hr]. eauto.
  - intros [Hs Hr]. eauto.
  - intros [Hs Hr]. eauto.
  - intros (id & us & us' & Hid & Ha & Hs & Hr & Hit). exists id, us, us'. split_and!; [auto..|].
    destruct Hm as [->|Hm]; [done|]. destruct it as [it|]; [|done].
    apply negb_false_iff, bool_decide_eq_true_1 in Hm. rewrite Hm in *.
    destruct Hit as [<- _]. done.
  - intros (reply & Ha & Hr). eauto.
  - intros (reply & Ha & Hr). eauto.
  - eauto.
Qed.

Lemma db_ok_frame rs rs' dbs (s s' : server K) :
  the_db s' = the_db s →
  (∀ i, in_flight <$> handlers s' !! i = Some true → handlers s' !! i = handlers s !! i) →
  (∀ i h, handlers s !! i = Some h → in_flight h = true → handlers s' !! i = Some h) →
  (∀ i h, handlers s !! i = Some h → in_flight h = true →
     rcvd (fd_ (my_socket h)) (kernel s') = rcvd (fd_ (my_socket h)) (kernel s)) →
  (∀ e, e ∈ rs → e ∈ rs') →
  db_ok rs dbs s → db_ok rs' dbs s'.
Proof.
  intros Hdb Hback Hfwd Hk Hrs [Hm Hn]. split; [by rewrite Hdb|]. rewrite Hdb.
  assert (∀ j h', handlers s' !! j = Some h' → in_flight h' = true → handlers s !! j = Some h')
    as Hb.
  { intros j h' Hj Hf. rewrite <- Hback; [done|]. rewrite Hj. cbn. by rewrite Hf. }
  destruct Hn as [[Hno Hn]|(i & h & Hi & Hf & Hno & Hn & Ha & Hl)]; [left|right].
  - split; [|done]. intros j h' Hj. destruct (in_flight h') eqn:Hf; [|done].
    rewrite (Hno j h') in Hf; [done|by apply Hb].
  - exists i, h. split_and!; [by apply Hfwd|done| |done| |done].
    + intros j h' Hji Hj. destruct (in_flight h') eqn:Hf'; [|done].
      rewrite (Hno j h') in Hf'; [done|done|by apply Hb].
    + unfold answered in *. rewrite (Hk i h) by done. auto.
Qed.

(** The state after a step of the [i]-th thread. *)
Definition after (s : server K) (i : nat) (h : handler) (pc : handler_pc) (db : Database)
    (k : K) : server K :=
  mkServer (my_server_socket s) (<[i := mkHandler (my_socket h) pc]> (handlers s)) db k.

Lemma handlers_after (l : list handler) i x j h' :
  <[i := x]> l !! j = Some h' → j = i ∧ h' = x ∨ j ≠ i ∧ l !! j = Some h'.
Proof. intros [(-> & -> & _)|[? ?]]%list_lookup_insert_Some; auto. Qed.

(** A step of one thread, seen by the others; [e] are the requests that take effect. *)
Lemma inv_after db0 log e s i h pc db k :
  inv db0 log s → handlers s !! i = Some h → at_ h ≠ Closed →
  others_same (fd_ (my_socket h)) (kernel s) k →
  (opened k = opened (kernel s) ∨
   pc = Closed ∧ opened k = opened (kernel s) ∖ {[fd_ (my_socket h)]}) →
  (e = [] ∨ ∃ p, e = [(i, p)] ∧ i ∉ log.*1) →
  (user_map_ db = user_map_ (the_db s) ∨
   ∀ j h', j ≠ i → handlers s !! j = Some h' → listing h' = false) →
  handler_ok (serve_seq (log ++ e) db0).1 (user_map_ db) k i (mkHandler (my_socket h) pc) →
  db_ok (serve_seq (log ++ e) db0).1 (serve_seq (log ++ e) db0).2 (after s i h pc db k) →
  inv db0 (log ++ e) (after s i h pc db k).
Proof.
  intros Hinv Hi Hnc Hk Hop He Hm Hh Hdb.
  assert (∀ j h', j ≠ i → handlers s !! j = Some h' → at_ h' ≠ Closed →
            fd_ (my_socket h') ≠ fd_ (my_socket h)) as Hfd.
  { intros j h' Hj Hl Hc. by eapply inv_fds. }
  split; cbn [handlers kernel after my_server_socket].
  - done.
  - intros j h' [[-> ->]|[Hj Hl']]%handlers_after; [done|].
    apply (handler_ok_frame (serve_seq log db0).1 _ (user_map_ (the_db s)) _ (kernel s));
      [| | | |by apply inv_handlers].
    + intros Hc. by apply Hk, (Hfd j).
    + intros e0. apply serve_seq_mono.
    + unfold started. rewrite !serve_seq_requests, fmap_app, elem_of_app.
      intros [?|Hin]; [done|]. destruct He as [->|(p & -> & _)]; [by apply not_elem_of_nil in Hin|].
      by apply list_elem_of_singleton in Hin.
    + destruct Hm as [?|Hm]; [by left|right; by eapply Hm].
  - rewrite fmap_app. destruct He as [->|(p & -> & Hni)].
    + rewrite app_nil_r. by eapply inv_once.
    + apply NoDup_app. split_and!; [by eapply inv_once| |apply NoDup_singleton].
      intros j Hj ->%list_elem_of_singleton. done.
  - intros j. rewrite fmap_app, elem_of_app, length_insert. intros [Hj|Hj]; [by eapply inv_bound|].
    destruct He as [->|(p & -> & _)]; [by apply not_elem_of_nil in Hj|].
    apply list_elem_of_singleton in Hj as ->. by eapply lookup_lt_Some.
  - intros j h' [[-> ->]|[Hj Hl']]%handlers_after Hc; cbn in *;
      destruct Hop as [->|[? ->]]; try (by eapply inv_open); [done|].
    apply elem_of_difference. split; [by eapply inv_open|]. rewrite elem_of_singleton. by apply Hfd with j.
  - intros j1 j2 h1 h2 [[-> ->]|[Hj1 Hl1]]%handlers_after [[-> ->]|[Hj2 Hl2]]%handlers_after Hne Hc1 Hc2; cbn in *.
    + done.
    + intros E. by apply (Hfd j2 h2).
    + by apply (Hfd j1 h1).
    + by eapply inv_fds.
Qed.

(** *** Accepting *)

Lemma sys_accept_keeps l k fd k' :
  sys_accept l k = (fd, k') →
  (∀ fd', fd' ∈ opened k → sent fd' k' = sent fd' k ∧ rcvd fd' k' = rcvd fd' k) ∧
  opened k ⊆ opened k'.
Proof.
  intros [(-> & -> & Hs)|(Hn & -> & _ & _ & Ho)]%sys_accept_spec; split; [done..| |set_solver].
  intros fd' Hin. apply Ho. by intros ->.
Qed.

Lemma inv_kernel db0 log ss hs db k k' :
  inv db0 log (mkServer ss hs db k) →
  (∀ fd, fd ∈ opened k → sent fd k' = sent fd k ∧ rcvd fd k' = rcvd fd k) →
  opened k ⊆ opened k' →
  inv db0 log (mkServer ss hs db k').
Proof.
  intros [Hdb Hh Ho Hb Hop Hf] Hk Hsub. split; cbn in *; try done.
  - eapply (db_ok_frame _ _ _ (mkServer ss hs db k)); try done. cbn.
    intros i h Hi Hfl. apply Hk, (Hop i h Hi). by intros E; unfold in_flight in Hfl; rewrite E in Hfl.
  - intros i h Hi. eapply (handler_ok_frame _ _ _ _ k); [|done|done|by left|by apply Hh].
    intros Hc. apply Hk. by eapply Hop.
  - intros i h Hi Hc. apply Hsub. by eapply Hop.
Qed.

Lemma inv_accepted db0 log ss hs db k fd :
  inv db0 log (mkServer ss hs db k) →
  fd ∈ opened k → sent fd k = [] → rcvd fd k = [] →
  (∀ i h, hs !! i = Some h → at_ h ≠ Closed → fd_ (my_socket h) ≠ fd) →
  inv db0 log
    (mkServer ss (hs ++ [mkHandler (mkSocket true fd) (Receiving (replicate 1024 x00))]) db k).
Proof.
  intros [Hdb Hh Ho Hb Hop Hf] Hfd Hs Hr Hne.
  set (h0 := mkHandler (mkSocket true fd) (Receiving (replicate 1024 x00))).
  assert (∀ i h, (hs ++ [h0]) !! i = Some h →
    hs !! i = Some h ∨ i = length hs ∧ h = h0) as Hl.
  { intros i h [?|[Hge Hi]]%lookup_app_Some; [by left|right].
    destruct (i - length hs)%nat as [|n] eqn:E; [|done]. cbn in Hi. simplify_eq.
    split; [lia|done]. }
  split; cbn in *; try done.
  - eapply (db_ok_frame _ _ _ (mkServer ss hs db k)); try done; cbn.
    + intros i. destruct ((hs ++ [h0]) !! i) as [h|] eqn:E; [|done].
      apply Hl in E as [->|[-> ->]]; [done|cbn; congruence].
    + intros i h Hi _. by apply lookup_app_l_Some.
  - intros i h [Hi|[-> ->]]%Hl; [by apply Hh|]. unfold handler_ok. cbn. split_and!; try done.
    unfold started. rewrite serve_seq_requests. intros Hin%Hb. lia.
  - intros i Hi%Hb. rewrite length_app. lia.
  - intros i h [Hi|[-> ->]]%Hl Hc; [by eapply Hop|done].
  - intros i j h h' [Hi|[-> ->]]%Hl [Hj|[-> ->]]%Hl Hij Hc Hc'; cbn.
    + by eapply Hf.
    + by eapply Hne.
    + apply not_eq_sym. by eapply Hne.
    + done.
Qed.

Lemma inv_accept db0 log s s' :
  inv db0 log s → server_step Accept s = Ok s' → inv db0 log s'.
Proof.
  intros Hinv. cbn. unfold getConnection. destruct s as [ss hs db k]; cbn in *.
  destruct (sys_accept (ss_fd_ ss) k) as [fd k'] eqn:E.
  destruct (sys_accept_keeps _ _ _ _ E) as [Hk Hsub].
  pose proof (inv_kernel _ _ _ _ _ _ k' Hinv Hk Hsub) as Hinv'.
  destruct (Z.eqb_spec fd (-1)) as [->|Hfd].
  { repeat case_match; intros; by simplify_eq. }
  intros [= <-]. apply sys_accept_spec in E as [[? _]|(Hn & Hop & Hs & Hr & _)]; [done|].
  apply inv_accepted; [done| |done|done|]; [rewrite Hop; set_solver|].
  intros i h Hi Hc E. apply Hn. rewrite <- E. by eapply (inv_open _ _ _ Hinv i h).
Qed.

(** *** Receiving, sending and closing *)

(** The database when a thread that is not registering moves on. *)
Lemma db_ok_after log e db0 s i h pc k :
  inv db0 log s → handlers s !! i = Some h → at_ h ≠ Closed →
  others_same (fd_ (my_socket h)) (kernel s) k →
  in_flight h = false → in_flight (mkHandler (my_socket h) pc) = false →
  (serve_seq (log ++ e) db0).2 = (serve_seq log db0).2 →
  db_ok (serve_seq (log ++ e) db0).1 (serve_seq (log ++ e) db0).2 (after s i h pc (the_db s) k).
Proof.
  intros Hinv Hi Hc Hk Hf Hf' ->. apply lookup_lt_Some in Hi as Hlt.
  eapply (db_ok_frame (serve_seq log db0).1 _ _ s); [done| | | |intros x; apply serve_seq_mono|apply Hinv];
    cbn [handlers after kernel].
  - intros j. destruct (decide (j = i)) as [->|Hj]; [|by rewrite list_lookup_insert_ne].
    rewrite list_lookup_insert_eq by done. cbn. congruence.
  - intros j h' Hj Hfj. rewrite list_lookup_insert_ne; [done|]. intros <-. congruence.
  - intros j h' Hj Hfj. apply Hk. eapply (inv_fds _ _ _ Hinv j i); [done|done| |by intros E; unfold in_flight in Hfj; rewrite E in Hfj|done].
    intros ->. congruence.
Qed.

Lemma inv_quiet db0 log s i h pc k :
  inv db0 log s → handlers s !! i = Some h → at_ h ≠ Closed →
  others_same (fd_ (my_socket h)) (kernel s) k →
  (opened k = opened (kernel s) ∨
   pc = Closed ∧ opened k = opened (kernel s) ∖ {[fd_ (my_socket h)]}) →
  in_flight h = false → in_flight (mkHandler (my_socket h) pc) = false →
  handler_ok (serve_seq log db0).1 (user_map_ (the_db s)) k i (mkHandler (my_socket h) pc) →
  inv db0 log (after s i h pc (the_db s) k).
Proof.
  intros Hinv Hi Hc Hk Hop Hf Hf' Hh. rewrite <- (app_nil_r log).
  apply inv_after; try done; [by left|by left|by rewrite app_nil_r|].
  apply db_ok_after; try done. by rewrite app_nil_r.
Qed.

Lemma inv_receiving db0 log s i h rx pc db k :
  inv db0 log s → handlers s !! i = Some h → at_ h = Receiving rx →
  thread_step (my_socket h) (at_ h) (the_db s) (kernel s) = Ok (pc, db, k) →
  inv db0 log (after s i h pc db k).
Proof.
  intros Hinv Hi Hpc Hs. pose proof (inv_handlers _ _ _ Hinv i h Hi) as Hh.
  unfold handler_ok in Hh. rewrite Hpc in Hh, Hs. destruct Hh as (Hst & Hsent & Hrcvd & Hrx).
  assert (length rx = 1024%nat) as Hlrx by by rewrite Hrx, length_replicate.
  assert (at_ h ≠ Closed ∧ in_flight h = false) as [Hc Hf]
    by (unfold in_flight; by rewrite Hpc).
  cbn [thread_step] in Hs.
  destruct (receiveNb_spec (my_socket h) rx 0 (Z.of_nat (length rx)) (kernel s))
    as (n & data & k' & Hr & Hl & Hrc & Hn & _); [lia..|].
  rewrite Hr in Hs. cbn [mbind outcome_bind] in Hs.
  apply receiveNb_others in Hr as (Hot & Hse & Hop).
  rewrite Hrcvd, app_nil_l in Hrc. rewrite Hsent in Hse.
  destruct (Z.eqb_spec n 0) as [Hn0|Hn0].
  - injection Hs as <- <- <-.
    assert (data = []) as -> by (destruct Hn as [?|[_ ?]]; [destruct data; cbn in *; [done|lia]|done]).
    apply inv_quiet; [done..|by left|done|done|].
    unfold handler_ok. cbn [at_ my_socket]. by rewrite splice_nil.
  - destruct (ParseFromArray _) as [ok p] eqn:Ep. injection Hs as <- <- <-.
    apply inv_quiet; [done..|by left|done|done|].
    unfold handler_ok. cbn [at_ my_socket]. rewrite Hrc. split_and!; [done..|].
    unfold parsed. by rewrite <- Hrx, <- splice_0, Ep.
Qed.

Lemma inv_sending db0 log s i h tx target curr pc db k :
  inv db0 log s → handlers s !! i = Some h → at_ h = Sending tx target curr →
  thread_step (my_socket h) (at_ h) (the_db s) (kernel s) = Ok (pc, db, k) →
  inv db0 log (after s i h pc db k).
Proof.
  intros Hinv Hi Hpc Hs. pose proof (inv_handlers _ _ _ Hinv i h Hi) as Hh.
  unfold handler_ok in Hh. rewrite Hpc in Hh, Hs.
  destruct Hh as (reply & Ha & Htx & -> & Hcurr & Hsent & Hfit). cbn [thread_step] in Hs.
  assert (at_ h ≠ Closed) as Hc by by rewrite Hpc.
  assert (in_flight h = false) as Hf by (unfold in_flight; by rewrite Hpc).
  destruct (Z.ltb_spec curr (Z.of_nat (length reply))) as [Hlt|Hge].
  - case_decide as Hle; last first.
    { subst curr. unfold sendNb, rd in Hs. rewrite drop_0 in Hs.
      rewrite (proj2 (Z.ltb_lt _ _)) in Hs by lia. done. }
    destruct (sendNb_spec (my_socket h) (drop (Z.to_nat curr) tx)
      (Z.of_nat (length reply) - curr) (kernel s)) as (n & k' & Hr & Hn & Hse & _);
      [lia|rewrite length_drop; lia|].
    rewrite Hr in Hs. cbn [mbind outcome_bind] in Hs.
    apply sendNb_others in Hr as (Hot & Hrc & Hop).
    assert (take (Z.to_nat n) (drop (Z.to_nat curr) tx) =
            take (Z.to_nat n) (drop (Z.to_nat curr) reply)) as Ht.
    { rewrite <- Hfit, skipn_firstn_comm, take_take. f_equal. lia. }
    rewrite Hsent, Ht in Hse.
    destruct (Z.ltb_spec n 0); simplify_eq; (apply inv_quiet; [done..|by left|done|done|]);
      unfold handler_ok, answered in *; cbn [at_ my_socket]; rewrite Hrc; exists reply.
    + split_and!; [done| |done]. replace n with (-1)%Z in Hse by lia.
      rewrite Hse, app_nil_r. apply prefix_take.
    + split_and!; [done..|lia|lia| |by rewrite decide_True].
      rewrite Hse, take_take_drop. f_equal. lia.
  - simplify_eq. apply inv_quiet; [done..|by left|done|done|].
    exists reply. cbn [at_ my_socket]. rewrite take_ge in Hsent by lia.
    by rewrite Hsent.
Qed.

Lemma inv_returning db0 log s i h ok pc db k :
  inv db0 log s → handlers s !! i = Some h → at_ h = Returning ok →
  thread_step (my_socket h) (at_ h) (the_db s) (kernel s) = Ok (pc, db, k) →
  inv db0 log (after s i h pc db k).
Proof.
  intros Hinv Hi Hpc Hs. pose proof (inv_handlers _ _ _ Hinv i h Hi) as Hh.
  unfold handler_ok in Hh. rewrite Hpc in Hh, Hs. cbn [thread_step] in Hs. simplify_eq.
  destruct Hh as (reply & Ha & _).
  destruct (sys_close_others (fd_ (my_socket h)) (kernel s)) as [Hot Hop].
  apply inv_quiet; [done|done|by rewrite Hpc|done|by right|by unfold in_flight; rewrite Hpc|done|].
  unfold handler_ok, started. cbn [at_].
  by apply (list_elem_of_fmap_2 fst _ _ (list_elem_of_fmap_2 fst _ _ Ha)).
Qed.

(** *** Requests taking effect *)

(** The answer to a request that registers nobody depends on the users only. *)
Lemma answer_packet_reader p db db' :
  register_name p = None → user_map_ db = user_map_ db' →
  answer_packet p db = ((answer_packet p db').1, db).
Proof.
  unfold register_name, answer_packet, userExists. intros Hn ->.
  destruct (get_type _); try done; [by rewrite Hn|]. by destruct (r ← req_users p; _).
Qed.

Lemma answer_packet_register p name db :
  register_name p = Some name →
  answer_packet p db = (Some (register_answer (next_id_ db)), (registerUser name db).2).
Proof.
  unfold register_name, answer_packet. destruct (get_type _); try done. by intros ->.
Qed.

Lemma serialize_sending r tx0 cap size tx :
  length tx0 = 1024%nat → cap = 1024%Z → serialize r tx0 cap = (size, tx) →
  length tx = 1024%nat ∧ size = Z.of_nat (length (wire r)) ∧
  (if decide (length (wire r) ≤ 1024)%nat then take (length (wire r)) tx = wire r else (0 = 0)%Z).
Proof.
  intros Hl ->. pose proof (ByteSizeLong_wire r) as Hw. case_decide.
  - rewrite serialize_fits by lia. intros [= <- <-].
    rewrite take_app_length. split_and!; [len|done|done].
  - rewrite serialize_too_big by lia. by intros [= <- <-].
Qed.

(** A handler's response, ready to be sent. *)
Lemma respond_sending p db n tx db' :
  respond p (replicate 1024 x00) db = Ok (n, tx, db') →
  let reply := from_option wire [] (answer_packet p db).1 in
  db' = (answer_packet p db).2 ∧ length tx = 1024%nat ∧ n = Z.of_nat (length reply) ∧
  (if decide (length reply ≤ 1024)%nat then take (length reply) tx = reply else (0 = 0)%Z).
Proof.
  assert (length (replicate 1024 x00) = 1024%nat) as Hl by apply length_replicate.
  revert Hl. generalize (replicate 1024 x00). intros tx0 Hl. rewrite respond_answer.
  destruct (answer_packet p db) as [[r|] db1]; cbn [fst snd from_option].
  - destruct (serialize r tx0 (Z.of_nat (length tx0))) as [size tx1] eqn:E. intros [= <- <- <-].
    split; [done|apply (serialize_sending r tx0 _ _ _ Hl) in E; [done|lia]].
  - intros [= <- <- <-]. rewrite decide_True by (cbn; lia). by rewrite take_0.
Qed.

(** A response as the thread is about to send it. *)
Lemma send_response_ok rs m k i sock resp :
  answered rs k i sock (wire resp) → sent (fd_ sock) k = [] →
  handler_ok rs m k i (mkHandler sock (send_response resp)).
Proof.
  intros Ha Hs. unfold send_response.
  assert (length (replicate 1024 x00) = 1024%nat) as Hl by apply length_replicate.
  revert Hl. generalize (replicate 1024 x00). intros tx0 Hl.
  destruct (serialize resp tx0 1024) as [size tx] eqn:E.
  apply serialize_sending in E as (Htx & -> & Hfit); [|done..].
  exists (wire resp). cbn [at_ my_socket].
  split_and!; [done..|lia|lia|by rewrite take_0|done].
Qed.

Lemma send_response_quiet resp sock : in_flight (mkHandler sock (send_response resp)) = false.
Proof. unfold send_response. by destruct (serialize resp _ _). Qed.

(** A request that registers nobody takes effect when it is dispatched, and changes
    nothing. *)
Lemma inv_effect db0 log s i h p pc :
  inv db0 log s → handlers s !! i = Some h → at_ h = Dispatching p → register_name p = None →
  in_flight (mkHandler (my_socket h) pc) = false →
  (∀ rs, answered rs (kernel s) i (my_socket h)
           (from_option wire [] (answer_packet p (the_db s)).1) →
     sent (fd_ (my_socket h)) (kernel s) = [] →
     handler_ok rs (user_map_ (the_db s)) (kernel s) i (mkHandler (my_socket h) pc)) →
  inv db0 (log ++ [(i, p)]) (after s i h pc (the_db s) (kernel s)).
Proof.
  intros Hinv Hi Hpc Hp Hf' Hok. pose proof (inv_handlers _ _ _ Hinv i h Hi) as Hh.
  pose proof (inv_db _ _ _ Hinv) as [Hmap _].
  unfold handler_ok in Hh. rewrite Hpc in Hh. destruct Hh as (Hst & Hsent & Hpk).
  unfold started in Hst. rewrite serve_seq_requests in Hst.
  assert (at_ h ≠ Closed ∧ in_flight h = false) as [Hc Hf] by (unfold in_flight; by rewrite Hpc).
  pose proof (serve_seq_snoc log i p db0) as Hsnoc.
  destruct (serve_seq log db0) as [rs dbs] eqn:Eseq. cbn [fst snd] in *.
  rewrite (answer_packet_reader p dbs (the_db s)) in Hsnoc by done.
  apply inv_after; [done..|by left|right; eauto|by left| |].
  - rewrite Hsnoc. apply Hok; [|done]. unfold answered. rewrite <- Hpk.
    apply elem_of_app. right. by apply list_elem_of_singleton.
  - apply db_ok_after; [done..|]. by rewrite Hsnoc, Eseq.
Qed.

(** What a users request of a registered user is answered. *)
Lemma answer_packet_lists p db :
  lists_users p db = true → ∃ id, users_requestor p = Some id ∧
    answer_packet p db = (Some (users_answer 0 (others id (umap_seq (user_map_ db)))), db).
Proof.
  unfold lists_users, users_requestor, answer_packet.
  destruct (get_type _); try done. destruct (r ← req_users p; _) as [id|]; [|done].
  intros Hex. exists id. by rewrite Hex.
Qed.

Lemma inv_handled db0 log s i h p pc db k :
  inv db0 log s → handlers s !! i = Some h → at_ h = Dispatching p → register_name p = None →
  thread_step (my_socket h) (at_ h) (the_db s) (kernel s) = Ok (pc, db, k) →
  inv db0 (log ++ [(i, p)]) (after s i h pc db k).
Proof.
  intros Hinv Hi Hpc Hp Hs. rewrite Hpc in Hs. cbn [thread_step] in Hs. rewrite Hp in Hs.
  destruct (lists_users p (the_db s)) eqn:Hl.
  - injection Hs as <- <- <-. apply inv_effect; [done..|].
    apply answer_packet_lists in Hl as (id & Hid & ->). cbn [fst from_option]. intros rs Ha Hsent.
    exists id, [], (umap_seq (user_map_ (the_db s))). by split_and!.
  - destruct (respond p _ (the_db s)) as [[[n tx] db']| | |] eqn:Er; try done.
    cbn [mbind outcome_bind] in Hs. injection Hs as <- <- <-.
    apply respond_sending in Er as (-> & Htx & -> & Hfit).
    rewrite (answer_packet_reader p (the_db s) (the_db s)) by done. cbn [snd].
    apply inv_effect; [done..|]. intros rs Ha Hsent. eexists. cbn [at_ my_socket].
    split_and!; [exact Ha|done|done|lia|lia|by rewrite take_0|done].
Qed.

(** *** Listing *)

Lemma list_user_ok p us u us' id resp it db :
  users_requestor p = Some id → resp = users_answer 0 (others id us) →
  it_ it = u :: us' → user_map_ db !! u.1 = Some u.2 →
  list_user p resp it db =
    Ok (Listing p (users_answer 0 (others id (us ++ [u]))) (Some (mkConstIterator us'))).
Proof.
  intros Hid -> Hit Hu. destruct it as [l], u as [k u]. cbn in Hit, Hu. subst l.
  unfold list_user, it_neq, it_deref, it_next, db_end. cbn [it_ length tail].
  rewrite bool_decide_eq_false_2 by done. cbn [negb mbind outcome_bind]. rewrite Hu, Hid.
  unfold default, from_option, Datatypes.id, others. rewrite filter_app.
  destruct (Z.eqb_spec k id) as [->|Hne].
  - rewrite filter_cons_False, filter_nil, app_nil_r by (cbn; tauto). done.
  - rewrite filter_cons_True, filter_nil by done. unfold users_answer, add_online_user. cbn.
    by rewrite map_app.
Qed.

Lemma list_user_end p resp it db :
  it_ it = [] → list_user p resp it db = Ok (send_response resp).
Proof. destruct it as [l]. cbn. by intros ->. Qed.

Lemma inv_listing db0 log s i h p resp it pc db k :
  inv db0 log s → handlers s !! i = Some h → at_ h = Listing p resp it →
  thread_step (my_socket h) (at_ h) (the_db s) (kernel s) = Ok (pc, db, k) →
  inv db0 log (after s i h pc db k).
Proof.
  intros Hinv Hi Hpc Hs. pose proof (inv_handlers _ _ _ Hinv i h Hi) as Hh.
  unfold handler_ok in Hh. rewrite Hpc in Hh, Hs.
  destruct Hh as (id & us & us' & Hid & Ha & Hsent & Hresp & Hit).
  assert (at_ h ≠ Closed ∧ in_flight h = false) as [Hc Hf] by (unfold in_flight; by rewrite Hpc).
  destruct it as [it|]; cbn [thread_step] in Hs.
  - destruct Hit as [Hit Hall]. destruct us' as [|u us'].
    + rewrite list_user_end in Hs by done. injection Hs as <- <- <-.
      rewrite app_nil_r, <- Hresp in Ha.
      apply inv_quiet; [done..|by left|done|by apply send_response_quiet|by apply send_response_ok].
    + apply Forall_cons in Hall as [Hu Hall].
      rewrite (list_user_ok p us u us' id) in Hs by done. injection Hs as <- <- <-.
      apply inv_quiet; [done..|by left|done|done|].
      exists id, (us ++ [u]), us'. rewrite <- app_assoc. by split_and!.
  - injection Hs as <- <- <-. destruct Hit as [-> ->].
    apply inv_quiet; [done..|by left|done|done|].
    exists id, [], (umap_seq (user_map_ (the_db s))). split_and!; [done..|].
    apply Forall_forall. intros [k u]. by rewrite elem_of_umap_seq.
Qed.

(** *** Registering *)

Lemma handlers_after_eq s i h h0 pc db k :
  handlers s !! i = Some h0 →
  handlers (after s i h pc db k) !! i = Some (mkHandler (my_socket h) pc).
Proof. intros Hi. apply list_lookup_insert_eq. by eapply lookup_lt_Some. Qed.

(** When nobody is inside [registerUser], the database is the sequential one. *)
Lemma db_ok_settled rs dbs (s : server K) :
  db_ok rs dbs s → (∀ i h, handlers s !! i = Some h → in_flight h = false) → the_db s = dbs.
Proof.
  intros [Hm [[_ Hn]|(i & h & Hi & Hf & _)]] Hno.
  - destruct (the_db s), dbs; cbn in *; by subst.
  - rewrite (Hno i h Hi) in Hf. done.
Qed.

(** A thread that is alone after its insertion has found the database settled. *)
Lemma insert_settled db0 log s i h p name db k :
  inv db0 log s → handlers s !! i = Some h → at_ h = Registering p (RegStart name) →
  exclusive (after s i h (Registering p (RegInserted name)) db k) →
  the_db s = (serve_seq log db0).2 ∧
  ∀ j h', j ≠ i → handlers s !! j = Some h' → in_flight h' = false.
Proof.
  intros Hinv Hi Hpc Hex.
  assert (∀ j h', j ≠ i → handlers s !! j = Some h' → in_flight h' = false) as Hno.
  { intros j h' Hj Hl. destruct (in_flight h') eqn:Hf; [|done].
    assert (handlers (after s i h (Registering p (RegInserted name)) db k) !! j = Some h') as Hl'
      by (cbn; by rewrite list_lookup_insert_ne).
    by destruct Hj, (in_flight_unique _ j i h' _ (proj1 Hex) Hl' (handlers_after_eq s i h h _ db k Hi)). }
  split; [|done]. eapply db_ok_settled; [apply Hinv|]. intros j h' Hl.
  destruct (decide (j = i)) as [->|Hj]; [|by eapply Hno].
  simplify_eq. unfold in_flight. by rewrite Hpc.
Qed.

(** The insertion of the user is the step in which a registration takes effect. *)
Lemma inv_insert db0 log s i h p name :
  inv db0 log s → handlers s !! i = Some h → at_ h = Registering p (RegStart name) →
  let s' := after s i h (Registering p (RegInserted name))
    (mkDatabase (next_id_ (the_db s))
       (<[next_id_ (the_db s) := mkUserMetadata name []]> (user_map_ (the_db s)))) (kernel s) in
  exclusive s' → inv db0 (log ++ [(i, p)]) s'.
Proof.
  intros Hinv Hi Hpc s' Hex. pose proof (inv_handlers _ _ _ Hinv i h Hi) as Hh.
  unfold handler_ok in Hh. rewrite Hpc in Hh. destruct Hh as (Hst & Hsent & Hpk & Hp).
  unfold started in Hst. rewrite serve_seq_requests in Hst.
  assert (handlers s' !! i = Some (mkHandler (my_socket h) (Registering p (RegInserted name))))
    as Hi' by by eapply handlers_after_eq.
  destruct (insert_settled _ _ _ _ _ _ _ _ _ Hinv Hi Hpc Hex) as [Hdbs Hno].
  pose proof (serve_seq_snoc log i p db0) as Hsnoc.
  destruct (serve_seq log db0) as [rs dbs] eqn:Eseq. cbn [fst snd] in *.
  rewrite (answer_packet_register p name) in Hsnoc by done. cbn [from_option] in Hsnoc.
  assert (answered (rs ++ [(i, p, wire (register_answer (next_id_ dbs)))]) (kernel s) i
    (my_socket h) (wire (register_answer (next_id_ dbs)))) as Ha.
  { unfold answered. rewrite <- Hpk. apply elem_of_app. right. by apply list_elem_of_singleton. }
  assert (∀ j h', j ≠ i → handlers s !! j = Some h' → listing h' = false) as Hnl.
  { intros j h' Hj Hl. apply (exclusive_listing s' i j _ h' Hex Hi'); [done|].
    cbn. by rewrite list_lookup_insert_ne. }
  apply inv_after; [done|done|by rewrite Hpc|done|by left|right; eauto|by right| |];
    rewrite Hsnoc; cbn [fst snd].
  - unfold handler_ok, started. cbn [at_ my_socket]. split; [|done].
    by apply (list_elem_of_fmap_2 fst _ _ (list_elem_of_fmap_2 fst _ _ Ha)).
  - split; cbn; [by rewrite Hdbs|]. right. eexists i, _. split; [exact Hi'|].
    rewrite Hdbs. split_and!; [done| |done|done|done].
    intros j h' Hj [[-> _]|[_ Hl]]%handlers_after; [done|by eapply Hno].
Qed.

Lemma inv_load db0 log s i h p name :
  inv db0 log s → handlers s !! i = Some h → at_ h = Registering p (RegInserted name) →
  inv db0 log (after s i h (Registering p (RegLoaded (next_id_ (the_db s)))) (the_db s) (kernel s)).
Proof.
  intros Hinv Hi Hpc. pose proof (inv_handlers _ _ _ Hinv i h Hi) as Hh.
  unfold handler_ok in Hh. rewrite Hpc in Hh. rewrite <- (app_nil_r log).
  apply inv_after; [done|done|by rewrite Hpc|done|by left|by left|by left|by rewrite app_nil_r|].
  rewrite app_nil_r. destruct (inv_db _ _ _ Hinv) as [Hm Hn]. split; [done|]. right.
  assert (in_flight h = true) as Hf by (unfold in_flight; by rewrite Hpc).
  destruct Hn as [[Hno _]|(j & h' & Hj & Hf' & Hno & Hn & Ha & _)].
  { rewrite (Hno i h Hi) in Hf. done. }
  destruct (decide (i = j)) as [<-|Hij]; [|by rewrite (Hno i h Hij Hi) in Hf]. simplify_eq.
  eexists i, _. split; [by eapply handlers_after_eq|]. split_and!; [done| |done|done|].
  - intros j h1 Hj1 [[-> _]|[_ Hl]]%handlers_after; [done|by eapply Hno].
  - cbn. congruence.
Qed.

Lemma inv_store db0 log s i h p id :
  inv db0 log s → handlers s !! i = Some h → at_ h = Registering p (RegLoaded id) →
  inv db0 log (after s i h (Registering p (RegDone id))
    (mkDatabase (wrap32 (id + 1)) (user_map_ (the_db s))) (kernel s)).
Proof.
  intros Hinv Hi Hpc. pose proof (inv_handlers _ _ _ Hinv i h Hi) as Hh.
  unfold handler_ok in Hh. rewrite Hpc in Hh. destruct Hh as [_ Hsent].
  assert (in_flight h = true) as Hf by (unfold in_flight; by rewrite Hpc).
  destruct (inv_db _ _ _ Hinv) as [Hm Hn].
  destruct Hn as [[Hno _]|(j & h' & Hj & Hf' & Hno & Hn & Ha & Hid)].
  { rewrite (Hno i h Hi) in Hf. done. }
  destruct (decide (i = j)) as [<-|Hij]; [|by rewrite (Hno i h Hij Hi) in Hf]. simplify_eq.
  rewrite (Hid p id Hpc). rewrite <- (app_nil_r log).
  apply inv_after; [done|done|by rewrite Hpc|done|by left|by left|by left| |]; rewrite app_nil_r.
  - by split.
  - split; [done|]. left. cbn. split; [|done].
    intros j h1 [[-> ->]|[? Hl]]%handlers_after; [done|by eapply Hno].
Qed.

Lemma inv_registered db0 log s i h p id pc db k :
  inv db0 log s → handlers s !! i = Some h → at_ h = Registering p (RegDone id) →
  thread_step (my_socket h) (at_ h) (the_db s) (kernel s) = Ok (pc, db, k) →
  inv db0 log (after s i h pc db k).
Proof.
  intros Hinv Hi Hpc Hs. pose proof (inv_handlers _ _ _ Hinv i h Hi) as Hh.
  unfold handler_ok in Hh. rewrite Hpc in Hh, Hs. destruct Hh as [Ha Hsent].
  cbn [thread_step] in Hs. injection Hs as <- <- <-.
  apply inv_quiet; [done|done|by rewrite Hpc|done|by left|by unfold in_flight; rewrite Hpc
    |by apply send_response_quiet|by apply send_response_ok].
Qed.

(** ** Every step keeps the invariant *)

Lemma inv_step db0 log a s s' :
  inv db0 log s → server_step a s = Ok s' → exclusive s' → inv db0 (log ++ effects a s) s'.
Proof.
  intros Hinv Hs Hex. destruct a as [|i]; cbn [effects].
  { rewrite app_nil_r. by eapply inv_accept. }
  cbn [server_step] in Hs. destruct (handlers s !! i) as [h|] eqn:Hi; cbn [mbind option_bind];
    [|by simplify_eq; rewrite app_nil_r].
  destruct (thread_step _ _ _ _) as [[[pc db] k]| | |] eqn:E; cbn in Hs; try done.
  injection Hs as <-. change (exclusive (after s i h pc db k)) in Hex.
  change (inv db0 (log ++ from_option (λ p, [(i, p)]) [] (takes_effect (at_ h)))
            (after s i h pc db k)).
  destruct (at_ h) as [rx|p|p [name|name|id|id]|p resp it|tx target curr|ok|] eqn:Hpc;
    cbn [takes_effect from_option]; rewrite ?app_nil_r; rewrite <- Hpc in E.
  - by eapply inv_receiving.
  - destruct (register_name p) as [name|] eqn:Hp; cbn [from_option].
    + rewrite app_nil_r. pose proof (inv_handlers _ _ _ Hinv i h Hi) as Hh.
      unfold handler_ok in Hh. rewrite Hpc in Hh, E. destruct Hh as (Hst & Hsent & Hpk).
      cbn in E. rewrite Hp in E. injection E as <- <- <-.
      apply inv_quiet; [done|done|by rewrite Hpc|done|by left|by unfold in_flight; rewrite Hpc|done|].
      by split_and!.
    + by eapply inv_handled.
  - rewrite Hpc in E. cbn in E. injection E as <- <- <-. by apply inv_insert.
  - rewrite Hpc in E. cbn in E. injection E as <- <- <-. by eapply inv_load.
  - rewrite Hpc in E. cbn in E. injection E as <- <- <-. by apply inv_store.
  - by eapply inv_registered.
  - by eapply inv_listing.
  - by eapply inv_sending.
  - by eapply inv_returning.
  - rewrite Hpc in E. cbn in E. injection E as <- <- <-.
    assert (after s i h Closed (the_db s) (kernel s) = s) as ->; [|done].
    destruct s as [ss hs db k], h as [sock pc]. unfold after. cbn in *. subst pc.
    by rewrite list_insert_id.
Qed.

Lemma inv_execute db0 log0 schedule s log s' :
  inv db0 log0 s → exclusive_run schedule s → execute schedule s = Ok (log, s') →
  inv db0 (log0 ++ log) s'.
Proof.
  revert log0 s log. induction schedule as [|a sch IH]; intros log0 s log Hinv Hex Hs; cbn in *.
  { injection Hs as <- <-. by rewrite app_nil_r. }
  destruct Hex as [_ Hex]. destruct (server_step a s) as [s1| | |] eqn:E; cbn in Hs; try done.
  destruct (execute sch s1) as [[log1 s2]| | |] eqn:E'; cbn in Hs; try done.
  injection Hs as <- <-. rewrite app_assoc. eapply IH; [|done|done].
  eapply inv_step; [done|done|]. by destruct sch; [|destruct Hex].
Qed.

Lemma inv_start db ss k : inv db [] (server_start ss db k).
Proof.
  split; cbn; try done.
  - split; [done|]. left. done.
  - constructor.
  - by intros i ?%not_elem_of_nil.
Qed.

End linearization.
