(* ===== verification/ThreadsTheorems.v ===== *)
(** The properties of the server's threads: the sequential server of [ServerApp] is one
    of their schedules, exclusive registrations make every schedule equivalent to a
    sequential one, and without them it need not be. *)

From S2P Require Import Prelude.
From S2P Require Import Common.
From S2P Require Import Database.
From S2P Require Import Packet.
From S2P Require Import Wire.
From S2P Require Import Socket.
From S2P Require Import Network.
From S2P Require Import ServerApp.
From S2P Require Import ServerAppProofs.
From S2P Require Import Threads.
From S2P Require Import ThreadsProofs.

#[local] Existing Instance canonical_order.
#[local] Arguments handleRequest : simpl never.

(** ** A thread on its own *)

Section alone.
  Context {ord : UMapOrder Z UserMetadata} `{Protobuf} {K : Type} `{Kernel K}.

(** A thread, the database and the kernel, after some of its steps. *)
Inductive runs (s : Socket) : handler_pc * Database * K → handler_pc * Database * K → Prop :=
| runs_refl c : runs s c c
| runs_step pc db k c c' : thread_step s pc db k = Ok c → runs s c c' → runs s (pc, db, k) c'.

Lemma runs_trans s c1 c2 c3 : runs s c1 c2 → runs s c2 c3 → runs s c1 c3.
Proof. induction 1; [done|]. intros ?. econstructor; eauto. Qed.

Lemma runs_once s pc db k c : thread_step s pc db k = Ok c → runs s (pc, db, k) c.
Proof. intros E. econstructor; [done|constructor]. Qed.

Lemma runs_receive fuel s rx db k n rx' k' :
  receive_some fuel rx (Z.of_nat (length rx)) s k = Ok (n, rx', k') →
  runs s (Receiving rx, db, k) (Dispatching (ParseFromArray (take 1024 rx')).2, db, k').
Proof.
  revert rx k. induction fuel as [|fuel IH]; intros rx k Hr; [done|]. cbn in Hr.
  destruct (receiveNb rx 0 (Z.of_nat (length rx)) s k) as [[[m rx1] k1]| | |] eqn:E; cbn in Hr; try done.
  destruct (Z.eqb_spec m 0) as [->|Hm].
  - econstructor; [cbn; rewrite E; reflexivity|]. apply IH.
    by rewrite (receiveNb_length _ _ _ _ _ _ _ _ E).
  - injection Hr as <- <- <-. apply runs_once. cbn. rewrite E. cbn.
    rewrite (proj2 (Z.eqb_neq m 0)) by done. by destruct (ParseFromArray _).
Qed.

Lemma runs_send fuel s tx target curr db k b k' :
  sendB_loop fuel tx target curr s k = Ok (b, k') →
  runs s (Sending tx target curr, db, k) (Returning b, db, k').
Proof.
  revert curr k. induction fuel as [|fuel IH]; intros curr k Hr; [done|]. cbn in Hr.
  destruct (Z.ltb_spec curr target) as [Hlt|Hge].
  - destruct (sendNb _ _ s k) as [[n k1]| | |] eqn:E; cbn in Hr; try done.
    assert (thread_step s (Sending tx target curr) db k =
      if (n <? 0)%Z then Ok (Returning false, db, k1)
      else Ok (Sending tx target (curr + n), db, k1)) as Es.
    { cbn. rewrite (proj2 (Z.ltb_lt _ _)), E by done. done. }
    destruct (n <? 0)%Z; [injection Hr as <- <-; by apply runs_once|].
    econstructor; [exact Es|]. by apply IH.
  - injection Hr as <- <-. apply runs_once. cbn. by rewrite (proj2 (Z.ltb_ge _ _)).
Qed.

(** The turns of the loop of [handleRequestUsers], alone with the database. *)
Lemma runs_listing s p id us us' db k :
  users_requestor p = Some id → Forall (λ e, user_map_ db !! e.1 = Some e.2) us' →
  runs s (Listing p (users_answer 0 (others id us)) (Some (mkConstIterator us')), db, k)
    (send_response (users_answer 0 (others id (us ++ us'))), db, k).
Proof.
  intros Hid Hall. revert us. induction Hall as [|u us' Hu Hall IH]; intros us.
  - rewrite app_nil_r. by apply runs_once.
  - econstructor; [cbn [thread_step]; by erewrite list_user_ok|].
    specialize (IH (us ++ [u])). by rewrite <- app_assoc in IH.
Qed.

(** [handleRequestRegister] is the steps of [registerUser] and the response, and
    [handleRequestUsers] its loop and the response. *)
Lemma runs_respond s p db k n tx db' :
  respond p (replicate 1024 x00) db = Ok (n, tx, db') →
  runs s (Dispatching p, db, k) (Sending tx n 0, db', k).
Proof.
  intros Hr. destruct (register_name p) as [name|] eqn:Hn; last first.
  { destruct (lists_users p db) eqn:Hl; last first.
    { apply runs_once. cbn [thread_step]. by rewrite Hn, Hl, Hr. }
    econstructor; [cbn [thread_step]; by rewrite Hn, Hl|]. econstructor; [reflexivity|].
    apply answer_packet_lists in Hl as (id & Hid & Ha). rewrite respond_answer, Ha in Hr.
    cbn [length] in Hr. rewrite length_replicate in Hr.
    assert (send_response (users_answer 0 (others id (umap_seq (user_map_ db)))) =
      Sending tx n 0 ∧ db = db') as [<- <-].
    { unfold send_response. by destruct (serialize _ _ _); simplify_eq. }
    apply (runs_listing s p id []); [done|]. apply Forall_forall. intros [j u].
    by rewrite elem_of_umap_seq. }
  econstructor; [cbn [thread_step]; by rewrite Hn|].
  do 3 (econstructor; [reflexivity|]). apply runs_once.
  unfold respond, register_name in *. rewrite length_replicate in Hr.
  destruct (get_type _); try done.
  destruct (req_reg p) as [r|] eqn:Er; cbn [mbind option_bind] in Hn; [|done].
  rewrite (handleRequestRegister_answer p r name) in Hr by done.
  cbn [thread_step]. unfold send_response. fold (register_answer (next_id_ db)).
  destruct (serialize _ _ _) as [size tx1]. by injection Hr as <- <- <-.
Qed.

Lemma runs_handleRequest fuel fd db k db' k' :
  handleRequest fuel fd db k = Ok (db', k') →
  runs (mkSocket true fd) (Receiving (replicate 1024 x00), db, k) (Closed, db', k').
Proof.
  unfold handleRequest, Socket_new. intros Hr.
  destruct (receive_some _ _ _ _ k) as [[[m rx] k1]| | |] eqn:E; cbn [mbind outcome_bind] in Hr;
    try done.
  eapply runs_trans; [by eapply (runs_receive fuel)|].
  destruct (ParseFromArray (take 1024 rx)) as [ok p]. cbn [snd].
  destruct (respond p _ db) as [[[n tx] db1]| | |] eqn:Er; cbn [mbind outcome_bind] in Hr; try done.
  eapply runs_trans; [by apply runs_respond|].
  destruct (sendB fuel tx n (mkSocket true fd) k1) as [[b k2]| | |] eqn:Es;
    cbn [mbind outcome_bind] in Hr; try done.
  eapply runs_trans; [by eapply runs_send|]. apply runs_once. cbn. by simplify_eq.
Qed.

End alone.

(** ** One connection after the other *)

Lemma others_quiet_exclusive (l : list handler) i :
  (∀ j h, j ≠ i → l !! j = Some h → in_flight h = false) →
  (length (List.filter in_flight l) ≤ 1)%nat.
Proof.
  revert i. induction l as [|x l IH]; intros i Hq; cbn; [lia|].
  assert (∀ l', (∀ j h, l' !! j = Some h → in_flight h = false) →
    length (List.filter in_flight l') = 0%nat) as Hnone.
  { intros l' Hl'. induction l' as [|y l' IH']; [done|]. cbn. rewrite (Hl' 0%nat y) by done.
    apply IH'. intros j h Hj. by apply (Hl' (S j)). }
  destruct i as [|i].
  - assert (∀ j h, l !! j = Some h → in_flight h = false) as Hl by
      (intros j h Hj; by apply (Hq (S j))).
    specialize (Hnone l Hl). destruct (in_flight x); cbn; lia.
  - rewrite (Hq 0%nat x) by done. apply (IH i). intros j h Hj Hl. apply (Hq (S j)); [lia|done].
Qed.

Section sequential.
  Context {ord : UMapOrder Z UserMetadata} `{ProtobufLaws} {K : Type} `{ConnectionLaws K}.

Lemma execute_app sch1 sch2 (s : server K) :
  execute (sch1 ++ sch2) s =
  '(log1, s) ← execute sch1 s; '(log2, s) ← execute sch2 s; Ok (log1 ++ log2, s).
Proof.
  revert s. induction sch1 as [|a sch1 IH]; intros s; cbn.
  { destruct (execute sch2 s) as [[]| | |]; done. }
  destruct (server_step a s) as [s1| | |]; cbn; try done. rewrite IH.
  destruct (execute sch1 s1) as [[log1 s2]| | |]; cbn; try done.
  destruct (execute sch2 s2) as [[log2 s3]| | |]; cbn; try done. by rewrite app_assoc.
Qed.

Lemma exclusive_run_app sch1 sch2 (s : server K) log s' :
  exclusive_run sch1 s → execute sch1 s = Ok (log, s') → exclusive_run sch2 s' →
  exclusive_run (sch1 ++ sch2) s.
Proof.
  revert s log. induction sch1 as [|a sch1 IH]; intros s log; cbn.
  { by intros _ [= _ ->]. }
  intros [He Hr]. split; [done|].
  destruct (server_step a s) as [s1| | |]; cbn in *; try done.
  destruct (execute sch1 s1) as [[log1 s2]| | |] eqn:E; cbn in *; try done.
  simplify_eq. by eapply IH.
Qed.

Definition idle_but (i : nat) (hs : list handler) : Prop :=
  ∀ j h, j ≠ i → hs !! j = Some h → at_ h = Closed.

Lemma idle_but_exclusive i (s : server K) : idle_but i (handlers s) → exclusive s.
Proof.
  intros Hi. assert (∀ j h, handlers s !! j = Some h → in_flight h = true ∨ listing h = true → j = i)
    as Hj.
  { intros j h Hl Hh. destruct (decide (j = i)) as [|Hne]; [done|].
    unfold in_flight, listing in Hh. rewrite (Hi j h Hne Hl) in Hh. by destruct Hh. }
  split.
  - apply (others_quiet_exclusive _ i). intros j h Hne Hl. destruct (in_flight h) eqn:E; [|done].
    destruct Hne. by apply (Hj j h); [|left].
  - intros (j & h & Hl & Hf)%existsb_lookup. apply not_true_iff_false.
    intros (j' & h' & Hl' & Hf')%existsb_lookup.
    rewrite (Hj j h), (Hj j' h') in * by auto. simplify_eq.
    unfold in_flight, listing in *. by destruct (at_ h) as [| |? []| | | |].
Qed.

Lemma list_insert_snoc (l : list handler) x y : <[length l := y]> (l ++ [x]) = l ++ [y].
Proof.
  rewrite insert_app_r_alt by done. by rewrite Nat.sub_diag.
Qed.

(** The steps of a thread are steps of the program. *)
Lemma runs_execute sock c c' (Hruns : runs sock c c') : ∀ ss hs i,
  hs !! i = Some (mkHandler sock c.1.1) → idle_but i hs →
  ∃ n log, let s := mkServer ss hs c.1.2 c.2 in
    execute (replicate n (Run i)) s =
      Ok (log, mkServer ss (<[i := mkHandler sock c'.1.1]> hs) c'.1.2 c'.2) ∧
    exclusive_run (replicate n (Run i)) s.
Proof.
  induction Hruns as [[[pc db] k]|pc db k [[pc1 db1] k1] c' Hstep Hruns IH]; intros ss hs i Hi Hq;
    cbn [fst snd] in *.
  - exists 0%nat, []. cbn. split; [by rewrite list_insert_id|by apply (idle_but_exclusive i)].
  - apply lookup_lt_Some in Hi as Hlt.
    destruct (IH ss (<[i := mkHandler sock pc1]> hs) i) as (n & log & E & Hex).
    + by apply list_lookup_insert_eq.
    + intros j h Hj. rewrite list_lookup_insert_ne by done. by apply Hq.
    + rewrite list_insert_insert_eq in E.
      assert (server_step (Run i) (mkServer ss hs db k) =
        Ok (mkServer ss (<[i := mkHandler sock pc1]> hs) db1 k1)) as Es.
      { cbn [server_step handlers]. rewrite Hi. cbn. by rewrite Hstep. }
      exists (S n), (effects (Run i) (mkServer ss hs db k) ++ log).
      cbn [replicate execute exclusive_run]. rewrite Es. cbn [mbind outcome_bind].
      rewrite E. split; [done|]. split; [by apply (idle_but_exclusive i)|done].
Qed.

Definition all_closed (hs : list handler) : Prop := ∀ j h, hs !! j = Some h → at_ h = Closed.

Lemma accept_loop_execute fuel ss hs db k fd k' :
  accept_loop fuel ss k = Ok (fd, k') → all_closed hs →
  ∃ n, let s := mkServer ss hs db k in
    execute (replicate n Accept) s = Ok ([], mkServer ss
      (hs ++ [mkHandler (mkSocket true fd) (Receiving (replicate 1024 x00))]) db k') ∧
    exclusive_run (replicate n Accept) s.
Proof.
  intros Hr Hcl. revert k Hr. induction fuel as [|fuel IH]; intros k Hr; [done|]. cbn in Hr.
  assert (exclusive (mkServer ss hs db k)) as Hex.
  { apply (idle_but_exclusive 0). intros j h _. apply Hcl. }
  assert (server_step Accept (mkServer ss hs db k) = let '(ok, fd, k1) := getConnection ss k in
    if ok : bool then Ok (mkServer ss
      (hs ++ [mkHandler (mkSocket true fd) (Receiving (replicate 1024 x00))]) db k1)
    else Ok (mkServer ss hs db k1)) as Es.
  { cbn [server_step my_server_socket kernel handlers the_db]. done. }
  destruct (getConnection ss k) as [[ok fd1] k1]. destruct ok.
  - injection Hr as -> ->. exists 1%nat. cbn [replicate execute exclusive_run]. rewrite Es.
    cbn [mbind outcome_bind effects]. split; [done|]. split; [done|].
    apply (idle_but_exclusive (length hs)). intros j h Hj Hl. cbn in Hl.
    apply lookup_app_Some in Hl as [Hl|[Hge Hl]]; [by eapply Hcl|].
    apply list_lookup_singleton_Some in Hl as [Hl _]. lia.
  - destruct (IH k1 Hr) as (n & E & Hexr). exists (S n).
    cbn [replicate execute exclusive_run]. rewrite Es. cbn [mbind outcome_bind effects].
    rewrite E. done.
Qed.

Lemma run_turns_execute fuel n ss hs db k db' k' :
  run_turns fuel n ss db k = Ok (db', k') → all_closed hs →
  ∃ schedule log hs', let s := mkServer ss hs db k in
    execute schedule s = Ok (log, mkServer ss hs' db' k') ∧ exclusive_run schedule s ∧
    all_closed hs' ∧ length hs' = (length hs + n)%nat.
Proof.
  revert hs db k. induction n as [|n IH]; intros hs db k Hr Hcl; cbn in Hr.
  { injection Hr as <- <-. exists [], [], hs. split_and!; [done| |done|lia].
    apply (idle_but_exclusive 0). intros j h _. apply Hcl. }
  destruct (accept_loop fuel ss k) as [[fd k1]| | |] eqn:Ea; cbn in Hr; try done.
  destruct (handleRequest fuel fd db k1) as [[db1 k2]| | |] eqn:Eh; cbn in Hr; try done.
  apply (accept_loop_execute fuel ss hs db) in Ea as (n1 & E1 & Hex1); [|done].
  apply runs_handleRequest in Eh.
  set (hs1 := hs ++ [mkHandler (mkSocket true fd) (Receiving (replicate 1024 x00))]) in *.
  destruct (runs_execute _ _ _ Eh ss hs1 (length hs)) as (n2 & log2 & E2 & Hex2).
  { apply list_lookup_middle. done. }
  { intros j h Hj Hl. apply lookup_app_Some in Hl as [Hl|[Hge Hl]]; [by eapply Hcl|].
    apply list_lookup_singleton_Some in Hl as [Hl _]. lia. }
  cbn [fst snd] in *. unfold hs1 in E2 at 2. rewrite list_insert_snoc in E2.
  destruct (IH (hs ++ [mkHandler (mkSocket true fd) Closed]) db1 k2 Hr) as
    (sch & log & hs' & E & Hex & Hcl' & Hlen).
  { intros j h Hl. apply lookup_app_Some in Hl as [Hl|[_ Hl]]; [by eapply Hcl|].
    by apply list_lookup_singleton_Some in Hl as [_ <-]. }
  exists (replicate n1 Accept ++ replicate n2 (Run (length hs)) ++ sch), (log2 ++ log), hs'.
  split_and!; [| |done|rewrite Hlen, length_app; cbn; lia].
  - rewrite execute_app, E1. cbn [mbind outcome_bind]. rewrite execute_app, E2.
    cbn [mbind outcome_bind]. by rewrite E.
  - eapply exclusive_run_app; [done|done|]. by eapply exclusive_run_app.
Qed.

End sequential.

(** ** Linearizability *)

(** C5. As long as a thread that is inside [Database::registerUser] is alone with the
    database, no other thread being there or in the loop over the users, the threads
    behave as a server that takes one request after the other: every request
    takes effect once, the database is the one the requests leave behind in the order in
    which they take effect, and what a connection has been sent is a prefix of the answer
    its request has in that order, the whole of it once [sendB] has succeeded. *)
Theorem threads_linearizable {ord : UMapOrder Z UserMetadata} `{ProtobufLaws} {K : Type}
    `{ConnectionLaws K} ss db k schedule log (s : server K) :
  execute schedule (server_start ss db k) = Ok (log, s) →
  exclusive_run schedule (server_start ss db k) →
  let '(rs, dbs) := serve_seq log db in
  NoDup log.*1 ∧
  ((∀ i h, handlers s !! i = Some h → in_flight h = false) → the_db s = dbs) ∧
  ∀ i h, handlers s !! i = Some h → at_ h ≠ Closed →
    let answer reply := (i, parsed (rcvd (fd_ (my_socket h)) (kernel s)), reply) ∈ rs in
    let out := sent (fd_ (my_socket h)) (kernel s) in
    (out = [] ∨ ∃ reply, answer reply ∧ out `prefix_of` reply) ∧
    (at_ h = Returning true → answer out).
Proof.
  intros Hs Hex. pose proof (inv_execute db [] schedule _ log s (inv_start db ss k) Hex Hs) as Hinv.
  rewrite app_nil_l in Hinv. destruct Hinv as [Hdb Hh Ho _ _ _].
  destruct (serve_seq log db) as [rs dbs]. cbn [fst snd] in *.
  split; [done|]. split; [by apply db_ok_settled with rs|].
  intros i h Hi Hc. specialize (Hh i h Hi). unfold handler_ok, answered in Hh.
  set (out := sent (fd_ (my_socket h)) (kernel s)) in *.
  destruct (at_ h) as [rx|p|p []|p resp it|tx target curr|ok|];
    try (split; [left; tauto|done]).
  - destruct Hh as (id & us & us' & _ & _ & Hout & _). split; [by left|done].
  - destruct Hh as (reply & Ha & _ & _ & _ & Hout & _). split; [|done].
    right. exists reply. split; [done|]. rewrite Hout. apply prefix_take.
  - destruct Hh as (reply & Ha & Hp & Hall). split; [eauto|].
    intros [= ->]. by rewrite Hall.
Qed.

(** Two clients, one of which registers while the other asks for the users. *)
Definition client (p : Packet) : option script :=
  Some (mkScript 0 [] [] [Some 3; None]%nat [[]; wire_Packet p] [] []).

Definition two_clients (p q : Packet) : net :=
  mkNet 0 [client p; None; client q] ∅ ∅.

Definition interleaved : list action :=
  [Accept; Run 0; Accept; Run 0; Accept; Run 1; Run 0; Run 1; Run 0; Run 0; Run 0; Run 1;
   Run 0; Run 1; Run 0; Run 1; Run 0; Run 1; Run 0; Run 1; Run 0; Run 1; Run 1; Run 1;
   Run 1; Run 1].

Definition interleaved_start : server net :=
  server_start (mkServerSocket 0) two_users
    (two_clients (register_request (str "Eve")) (users_request 0)).

(** The threads that have returned from [sendB]. *)
Definition returned (h : handler) : bool := match at_ h with Returning true => true | _ => false end.

Lemma threads_linearizable_witness :
  ∃ log s, execute interleaved interleaved_start = Ok (log, s) ∧
    log.*1 = [0; 1]%nat ∧ map returned (handlers s) = [true; true] ∧
    ∀ i h, handlers s !! i = Some h → at_ h = Returning true →
      ∃ p, (i, p, sent (fd_ (my_socket h)) (kernel s)) ∈ (serve_seq log two_users).1.
Proof.
  assert ((λ x, (x.1.*1, map returned (handlers x.2))) <$>
    execute interleaved interleaved_start = Ok ([0; 1]%nat, [true; true])) as Hc
    by (vm_compute; reflexivity).
  destruct (execute interleaved interleaved_start) as [[log s]| | |] eqn:E; try discriminate Hc.
  injection Hc as Hl Hr. exists log, s. split; [reflexivity|]. split; [exact Hl|].
  split; [exact Hr|]. intros i h Hi Ht.
  pose proof (threads_linearizable (K := net) (mkServerSocket 0) two_users _ interleaved log s E
    ltac:(apply (bool_decide_eq_true_1 _); vm_compute; reflexivity)) as Hlin.
  destruct (serve_seq log two_users) as [rs dbs]. destruct Hlin as (_ & _ & Hlin).
  destruct (Hlin i h Hi ltac:(congruence)) as [_ Ha]. eexists. exact (Ha Ht).
Defined.

(** C25. The server that serves its connections one after the other is one of the
    schedules of the threads, and an exclusive one: whatever [run_turns] returns, the
    threads can reach, every connection being closed, and the database is that of the
    requests taking effect in some order, one for each connection. *)
Theorem run_turns_is_a_schedule {ord : UMapOrder Z UserMetadata} `{ProtobufLaws} {K : Type}
    `{ConnectionLaws K} fuel n ss db k db' k' :
  run_turns fuel n ss db k = Ok (db', k') →
  ∃ schedule log (s : server K),
    execute schedule (server_start ss db k) = Ok (log, s) ∧
    exclusive_run schedule (server_start ss db k) ∧
    the_db s = db' ∧ kernel s = k' ∧ all_closed (handlers s) ∧
    db' = (serve_seq log db).2 ∧ log.*1 ≡ₚ seq 0 n.
Proof.
  intros Hr. destruct (run_turns_execute fuel n ss [] db k db' k' Hr) as
    (schedule & log & hs & E & Hex & Hcl & Hlen); [done|].
  exists schedule, log, (mkServer ss hs db' k'). split_and!; [done..| |].
  - pose proof (inv_execute db [] schedule _ log _ (inv_start db ss k) Hex E) as [Hdb _ _ _ _ _].
    cbn [app] in Hdb. apply db_ok_settled in Hdb; [done|]. intros i h Hi. cbn in Hi.
    unfold in_flight. by rewrite (Hcl i h).
  - pose proof (inv_execute db [] schedule _ log _ (inv_start db ss k) Hex E) as [_ Hh Ho Hb _ _].
    cbn [app handlers] in *. apply NoDup_Permutation; [done|apply NoDup_seq|].
    intros i. rewrite elem_of_seq. cbn in Hlen. split; [intros ?%Hb; lia|].
    intros [_ Hi]. destruct (lookup_lt_is_Some_2 hs i) as [h Hl]; [lia|].
    specialize (Hh i h Hl). unfold handler_ok, started in Hh.
    rewrite (Hcl i h Hl), serve_seq_requests in Hh. done.
Qed.

Lemma run_turns_is_a_schedule_witness :
  ∃ schedule log (s : server net),
    execute schedule interleaved_start = Ok (log, s) ∧ log.*1 ≡ₚ seq 0 2 ∧
    exclusive_run schedule interleaved_start ∧ all_closed (handlers s).
Proof.
  destruct (run_turns 100 2 (mkServerSocket 0) two_users (kernel interleaved_start))
    as [[db' k']| | |] eqn:E; [|vm_compute in E; discriminate..].
  destruct (run_turns_is_a_schedule (K := net) 100 2 (mkServerSocket 0) two_users _ db' k' E)
    as (schedule & log & s & Hs & Hex & _ & _ & Hcl & _ & Hl).
  exists schedule, log, s. split; [exact Hs|]. split; [exact Hl|]. split; [exact Hex|exact Hcl].
Defined.

(** ** Without exclusion *)

(** Two handler threads can register two users under one ID: from every database,
    for every two names, both calls of [registerUser] can return the same ID, with only
    the second name left in the database; a thread that is not interrupted does what
    [registerUser] does. *)
Theorem concurrent_registrations_collide db n1 n2 :
  (∃ db', rtc threads_step (db, [RegStart n1; RegStart n2])
              (db', [RegDone (next_id_ db); RegDone (next_id_ db)]) ∧
          user_map_ db' = <[next_id_ db := mkUserMetadata n2 []]> (user_map_ db)) ∧
  (let '(id1, db1) := registerUser n1 db in
   let '(id2, db2) := registerUser n2 db1 in
   rtc threads_step (db, [RegStart n1; RegStart n2]) (db2, [RegDone id1; RegDone id2])).
Proof.
  split.
  - eexists. split; [by apply (schedule_steps [0; 1; 0; 1; 0; 1]%nat)|].
    cbn. by rewrite insert_insert_eq.
  - by apply (schedule_steps [0; 0; 0; 1; 1; 1]%nat).
Qed.

Definition overlapping : list action :=
  [Accept; Accept; Accept] ++
  concat (map (λ n, [Run 0; Run 1]) (seq 0 11)).

(** What the threads' connections have been sent. *)
Definition outputs (s : server net) : list bytes :=
  map (λ h, sent (fd_ (my_socket h)) (kernel s)) (handlers s).

(** C30. What two connections see when their registrations overlap is not the work of any
    sequential server: both clients are told the same ID. *)
Theorem overlapping_registrations_not_linearizable :
  ∃ schedule log (s : server net),
    execute schedule (server_start (mkServerSocket 0) Database_init
      (two_clients (register_request (str "Ann")) (register_request (str "Bob")))) = Ok (log, s) ∧
    ∀ order, order ≡ₚ log →
      ¬ ∀ i h, handlers s !! i = Some h →
          ∃ p, (i, p, sent (fd_ (my_socket h)) (kernel s)) ∈ (serve_seq order Database_init).1.
Proof.
  set (ann := register_request (str "Ann")). set (bob := register_request (str "Bob")).
  set (s0 := server_start _ _ _).
  assert ((λ x, (x.1, outputs x.2)) <$> execute overlapping s0 =
    Ok ([(0%nat, ann); (1%nat, bob)],
        [wire_Packet (register_answer 0); wire_Packet (register_answer 0)])) as Hc
    by (vm_compute; reflexivity).
  destruct (execute overlapping s0) as [[log s]| | |] eqn:E; try discriminate Hc.
  injection Hc as -> Ho. exists overlapping, [(0%nat, ann); (1%nat, bob)], s.
  split; [done|]. intros order Hp Hall.
  assert (∀ i, (i < 2)%nat → (i, wire_Packet (register_answer 0)) ∈
    map (λ e, (e.1.1, e.2)) (serve_seq order Database_init).1) as Hin.
  { intros i Hi. assert (outputs s !! i = Some (wire_Packet (register_answer 0))) as Hl
      by (rewrite Ho; by destruct i as [|[|i]]; [..|lia]).
    apply list_lookup_fmap_Some in Hl as (h & -> & Hh). destruct (Hall i h Hh) as [p Hin].
    by apply (list_elem_of_fmap_2 (λ e, (e.1.1, e.2))) in Hin. }
  symmetry in Hp. apply Permutation_length_2_inv in Hp as [-> | ->].
  - specialize (Hin 1%nat ltac:(lia)). apply (bool_decide_eq_true_2 _) in Hin. by vm_compute in Hin.
  - specialize (Hin 0%nat ltac:(lia)). apply (bool_decide_eq_true_2 _) in Hin. by vm_compute in Hin.
Qed.
