(* ===== verification/ThreadsLiveness.v ===== *)
(** Infinite executions of the server's threads: a connection whose thread runs again and
    again, and whose peer sends its request and takes its answer, is answered and closed,
    whatever the other threads do in between, overlapping registrations included. That the
    answer is the one of a sequential server needs that they have not overlapped so far. *)

From S2P Require Import Prelude.
From S2P Require Import Common.
From S2P Require Import Database.
From S2P Require Import Packet.
From S2P Require Import Wire.
From S2P Require Import Socket.
From S2P Require Import Network.
From S2P Require Import ServerApp.
From S2P Require Import ServerAppProofs.
From S2P Require Import Threads.
From S2P Require Import ThreadsProofs.
From S2P Require Import ThreadsTheorems.

(** ** How far a thread is *)

(** What is left to do: the phases, and the turns of the loop of the phase. *)
Definition phase (pc : handler_pc) : nat :=
  match pc with
  | Receiving _ => 8
  | Dispatching _ => 7
  | Registering _ (RegStart _) => 6
  | Registering _ (RegInserted _) => 5
  | Registering _ (RegLoaded _) => 4
  | Registering _ (RegDone _) => 3
  | Listing _ _ None => 3
  | Listing _ _ (Some _) => 2
  | Sending _ _ _ => 1
  | Returning _ | Closed => 0
  end.

Definition turns_left (pc : handler_pc) : nat :=
  match pc with
  | Listing _ _ (Some it) => length (it_ it)
  | Sending _ target curr => Z.to_nat (target - curr)
  | _ => 0
  end.

(** A step of a loop on the connection has got something done. *)
Definition progress (pc pc' : handler_pc) : Prop :=
  match pc with
  | Receiving _ => match pc' with Receiving _ => False | _ => True end
  | Sending _ _ _ => pc' ≠ pc
  | _ => True
  end.

#[local] Instance action_eq_decision : EqDecision action.
Proof. solve_decision. Defined.

Section server.
  Context {ord : UMapOrder Z UserMetadata} `{ProtobufLaws} {K : Type} `{ConnectionLaws K}.

Lemma send_response_phase resp : phase (send_response resp) = 1%nat.
Proof. unfold send_response. by destruct (serialize _ _ _). Qed.

(** A step never adds to what is left, and one that gets something done takes from it. *)
Lemma thread_step_left s pc db (k : K) pc' db' k' :
  thread_step s pc db k = Ok (pc', db', k') → phase pc ≠ 0%nat →
  (phase pc' < phase pc ∨ phase pc' = phase pc ∧ turns_left pc' < turns_left pc)%nat ∨
  ¬ progress pc pc' ∧ phase pc' = phase pc ∧ turns_left pc' = turns_left pc.
Proof.
  destruct pc as [rx|p|p [name|name|id|id]|p resp [it|]|tx target curr|ok|]; cbn [thread_step];
    intros Hs Hph; try done.
  - destruct (receiveNb rx 0 _ s k) as [[[n rx'] k1]| | |]; cbn in Hs; try done.
    destruct (n =? 0)%Z; [simplify_eq; right; by split_and!; [intros []|..]|].
    destruct (ParseFromArray _) as [ok p]. simplify_eq. left. left. cbn. lia.
  - left. left. destruct (register_name p); [simplify_eq; cbn; lia|].
    destruct (lists_users p db); [simplify_eq; cbn; lia|].
    destruct (respond p _ db) as [[[n tx] db1]| | |]; cbn in Hs; try done. simplify_eq. cbn. lia.
  - cbn in Hs. simplify_eq. left. left. cbn. lia.
  - cbn in Hs. simplify_eq. left. left. cbn. lia.
  - cbn in Hs. simplify_eq. left. left. cbn. lia.
  - injection Hs as <- _ _. left. left. rewrite send_response_phase. cbn. lia.
  - destruct (list_user p resp it db) as [pc1| | |] eqn:El; cbn in Hs; try done. simplify_eq.
    unfold list_user in El. unfold it_neq in El. cbn in El. left.
    destruct (it_ it) as [|[id u] us] eqn:Eit; cbn in El.
    + injection El as <-. left. rewrite send_response_phase. cbn. lia.
    + unfold it_deref in El. rewrite Eit in El. cbn in El.
      rewrite bool_decide_eq_false_2 in El by done. injection El as <-. right. unfold it_next. cbn. rewrite !Eit. cbn. lia.
  - simplify_eq. left. left. cbn. lia.
  - destruct (Z.ltb_spec curr target) as [Hlt|Hge].
    + destruct (sendNb _ _ s k) as [[n k1]| | |]; cbn in Hs; try done.
      destruct (Z.ltb_spec n 0); [simplify_eq; left; left; cbn; lia|]. simplify_eq. cbn.
      destruct (decide (n = 0)%Z) as [->|]; [|left; right; lia].
      right. rewrite Z.add_0_r. split; [intros Hp; by apply Hp|done].
    + simplify_eq. left. left. cbn. lia.
Qed.

(** Only a thread that has returned closes its connection. *)
Lemma thread_step_open s pc db (k : K) pc' db' k' :
  thread_step s pc db k = Ok (pc', db', k') → phase pc ≠ 0%nat → pc' ≠ Closed.
Proof.
  assert (∀ resp, send_response resp ≠ Closed) as Hresp
    by (intros resp; unfold send_response; by destruct (serialize _ _ _)).
  destruct pc as [rx|p|p [name|name|id|id]|p resp [it|]|tx target curr|ok|]; cbn [thread_step];
    intros Hs Hph; try done; try (injection Hs as <- _ _; first [apply Hresp|done]).
  - destruct (receiveNb rx 0 _ s k) as [[[n rx'] k1]| | |]; cbn in Hs; try done.
    destruct (n =? 0)%Z; [by simplify_eq|]. destruct (ParseFromArray _) as [ok p]. by simplify_eq.
  - destruct (register_name p); [by simplify_eq|]. destruct (lists_users p db); [by simplify_eq|].
    destruct (respond p _ db) as [[[n tx] db1]| | |]; cbn in Hs; try done. by simplify_eq.
  - unfold list_user in Hs. destruct (it_neq it (db_end db)); cbn in Hs; [|by simplify_eq].
    destruct (it_deref it) as [[id u]| | |]; cbn in Hs; by simplify_eq.
  - destruct (curr <? target)%Z; [|by simplify_eq].
    destruct (sendNb _ _ s k) as [[n k1]| | |]; cbn in Hs; try done. by destruct (n <? 0)%Z; simplify_eq.
Qed.

(** Only a refused [send] makes a thread return false. *)
Lemma thread_step_fails s pc db (k : K) db' k' :
  thread_step s pc db k = Ok (Returning false, db', k') →
  ∃ tx target curr n, pc = Sending tx target curr ∧ (curr < target)%Z ∧ (n < 0)%Z ∧
    sendNb (drop (Z.to_nat curr) tx) (target - curr)%Z s k = Ok (n, k').
Proof.
  assert (∀ resp, send_response resp ≠ Returning false) as Hresp
    by (intros resp; unfold send_response; by destruct (serialize _ _ _)).
  destruct pc as [rx|p|p [name|name|id|id]|p resp [it|]|tx target curr|ok|]; cbn [thread_step];
    intros Hs; try done; try (injection Hs as E _ _; by apply Hresp in E).
  - destruct (receiveNb rx 0 _ s k) as [[[n rx'] k1]| | |]; cbn in Hs; try done.
    destruct (n =? 0)%Z; [by simplify_eq|]. destruct (ParseFromArray _) as [ok p]. by simplify_eq.
  - destruct (register_name p); [by simplify_eq|]. destruct (lists_users p db); [by simplify_eq|].
    destruct (respond p _ db) as [[[n tx] db1]| | |]; cbn in Hs; done.
  - unfold list_user in Hs. destruct (it_neq it (db_end db)); cbn in Hs;
      [|injection Hs as E _ _; by apply Hresp in E].
    destruct (it_deref it) as [[id u]| | |]; cbn in Hs; done.
  - destruct (Z.ltb_spec curr target); [|by simplify_eq].
    destruct (sendNb _ _ s k) as [[n k1]| | |] eqn:E; cbn in Hs; try done.
    destruct (Z.ltb_spec n 0); simplify_eq. by exists tx, target, curr, n.
Qed.

(** ** Executions *)

Context (ss : ServerSocket) (db : Database) (k : K) (σ : nat → server K) (ρ : nat → action).

(** Every state but the first is that after an action of the program. No answer is larger
    than its buffer: a thread that overruns it has no next state. *)
Record server_execution : Prop := {
  se_start : σ 0%nat = server_start ss db k;
  se_next m : server_step (ρ m) (σ m) = Ok (σ (S m));
}.

(** The requests that have taken effect, with the threads they belong to, in their order. *)
Fixpoint log_upto (m : nat) : list (nat * Packet) :=
  match m with
  | O => []
  | S m => log_upto m ++ effects (ρ m) (σ m)
  end.

(** In its step at [m] the [i]-th thread gets something done: if it waits for the request it
    receives it, if it sends the connection takes a part. *)
Definition productive (i m : nat) : Prop :=
  ρ m = Run i ∧ ∀ h h', handlers (σ m) !! i = Some h → handlers (σ (S m)) !! i = Some h' →
    progress (at_ h) (at_ h').

(** In its step at [m] the [i]-th thread is refused by [send]. *)
Definition send_fails (i m : nat) : Prop :=
  ρ m = Run i ∧ ∃ h tx target curr n k',
    handlers (σ m) !! i = Some h ∧ at_ h = Sending tx target curr ∧
    (curr < target)%Z ∧ (n < 0)%Z ∧
    sendNb (drop (Z.to_nat curr) tx) (target - curr)%Z (my_socket h) (kernel (σ m)) = Ok (n, k').

Section execution.
  Hypothesis Hσ : server_execution.

(** While registrations have not overlapped, the threads are as a sequential server. *)
Lemma se_inv m : (∀ j, (j ≤ m)%nat → exclusive (σ j)) → inv db (log_upto m) (σ m).
Proof using Hσ.
  induction m as [|m IH]; intros Hex; cbn [log_upto].
  - rewrite (se_start Hσ). apply inv_start.
  - eapply inv_step; [apply IH; intros; apply Hex; lia|apply (se_next Hσ)|apply Hex; lia].
Qed.

(** A thread in a step of the program. *)
Lemma handler_next m i h :
  handlers (σ m) !! i = Some h →
  ∃ h', handlers (σ (S m)) !! i = Some h' ∧
    (ρ m ≠ Run i → h' = h) ∧
    (ρ m = Run i → ∃ db' k',
      thread_step (my_socket h) (at_ h) (the_db (σ m)) (kernel (σ m)) = Ok (at_ h', db', k')).
Proof using Hσ.
  intros Hi. pose proof (se_next Hσ m) as Hs. destruct (ρ m) as [|j]; cbn [server_step] in Hs.
  - exists h. split; [|by split]. destruct (getConnection _ _) as [[[] fd] k1].
    + destruct (Socket_new fd true k1) as [sock k2]. injection Hs as <-. cbn.
      by apply lookup_app_l_Some.
    + by injection Hs as <-.
  - destruct (handlers (σ m) !! j) as [hj|] eqn:Hj.
    + destruct (thread_step _ _ _ _) as [[[pc db'] k']| | |] eqn:E; cbn in Hs; try done.
      injection Hs as <-. cbn. destruct (decide (j = i)) as [->|Hne].
      * simplify_eq. eexists. rewrite list_lookup_insert_eq by (by eapply lookup_lt_Some).
        split; [done|]. split; [done|]. eauto.
      * exists h. rewrite list_lookup_insert_ne by done. split; [done|]. split; [done|]. congruence.
    + injection Hs as <-. exists h. split; [done|]. split; [done|]. intros [= ->]. congruence.
Qed.

(** Where a thread was before a step of the program, if it was there at all. *)
Lemma handler_prev m i h' :
  handlers (σ (S m)) !! i = Some h' →
  (∃ rx, at_ h' = Receiving rx) ∨
  ∃ h, handlers (σ m) !! i = Some h ∧ (h' = h ∨
    ρ m = Run i ∧ ∃ db' k',
      thread_step (my_socket h) (at_ h) (the_db (σ m)) (kernel (σ m)) = Ok (at_ h', db', k')).
Proof using Hσ.
  intros Hi. destruct (handlers (σ m) !! i) as [h|] eqn:E.
  - right. exists h. split; [done|]. destruct (handler_next _ _ _ E) as (h2 & Hi2 & Hother & Hown).
    rewrite Hi in Hi2. injection Hi2 as <-. destruct (decide (ρ m = Run i)); eauto.
  - left. pose proof (se_next Hσ m) as Hs. destruct (ρ m) as [|j]; cbn [server_step] in Hs.
    + destruct (getConnection _ _) as [[[] fd] k1]; [|injection Hs as Hs; rewrite <- Hs in Hi; cbn in Hi; congruence].
      destruct (Socket_new fd true k1) as [sock k2]. injection Hs as Hs. rewrite <- Hs in Hi. cbn in Hi.
      rewrite lookup_app_r in Hi by (by apply lookup_ge_None).
      apply list_lookup_singleton_Some in Hi as [_ <-]. cbn. eauto.
    + exfalso. destruct (handlers (σ m) !! j) as [hj|] eqn:Hj; [|congruence].
      destruct (thread_step _ _ _ _) as [[[pc db'] k']| | |]; cbn in Hs; try done.
      injection Hs as Hs. rewrite <- Hs in Hi. cbn in Hi.
      apply list_lookup_insert_Some in Hi as [(-> & _ & _)|[_ ?]]; congruence.
Qed.

Lemma failed_send m i h :
  handlers (σ m) !! i = Some h → at_ h = Returning false → ∃ j, (j < m)%nat ∧ send_fails i j.
Proof using Hσ.
  revert h. induction m as [|m IH]; intros h' Hi Hr.
  { rewrite (se_start Hσ) in Hi. done. }
  destruct (handler_prev _ _ _ Hi) as [[rx E]|(h & Hi0 & [->|(Hrun & db' & k' & E)])]; [congruence| |].
  - destruct (IH h Hi0 Hr) as (j & ? & ?). exists j. split; [lia|done].
  - rewrite Hr in E. apply thread_step_fails in E as (tx & target & curr & n & ? & ? & ? & ?).
    exists m. split; [lia|]. split; [done|]. by exists h, tx, target, curr, n, k'.
Qed.

(** Until its next productive step, what is left to a thread does not grow. *)
Lemma handler_until m i h d :
  handlers (σ m) !! i = Some h → phase (at_ h) ≠ 0%nat →
  ∃ m' h', (m ≤ m' ≤ m + d)%nat ∧ handlers (σ m') !! i = Some h' ∧ at_ h' ≠ Closed ∧
    ((phase (at_ h') < phase (at_ h) ∨
      phase (at_ h') = phase (at_ h) ∧ turns_left (at_ h') < turns_left (at_ h))%nat ∨
     m' = (m + d)%nat ∧ phase (at_ h') = phase (at_ h) ∧ turns_left (at_ h') = turns_left (at_ h)).
Proof using Hσ.
  intros Hi Hph. induction d as [|d (m' & h' & Hm' & Hi' & Hopen & IH)].
  { exists m, h. split; [lia|]. split; [done|]. split; [by intros E; rewrite E in Hph|].
    right. split; [lia|done]. }
  destruct IH as [IH|(-> & Hp & Ht)].
  { exists m', h'. split; [lia|]. do 2 (split; [done|]). by left. }
  destruct (handler_next _ _ _ Hi') as (h2 & Hi2 & Hother & Hown).
  exists (S (m + d)), h2. split; [lia|]. split; [done|].
  destruct (decide (ρ (m + d)%nat = Run i)) as [Hrun|Hrun].
  - destruct (Hown Hrun) as (db' & k' & E). split; [by eapply thread_step_open; [|rewrite Hp]|].
    apply thread_step_left in E as [E|(_ & E1 & E2)]; [left|right|congruence].
    + by rewrite <- Hp, <- Ht.
    + split; [lia|]. split; congruence.
  - rewrite (Hother Hrun). split; [done|]. right. split; [lia|done].
Qed.

(** A productive step takes from what is left. *)
Lemma handler_advances m i h :
  again (productive i) → handlers (σ m) !! i = Some h → phase (at_ h) ≠ 0%nat →
  ∃ m' h', (m ≤ m')%nat ∧ handlers (σ m') !! i = Some h' ∧ at_ h' ≠ Closed ∧
    (phase (at_ h') < phase (at_ h) ∨
     phase (at_ h') = phase (at_ h) ∧ turns_left (at_ h') < turns_left (at_ h))%nat.
Proof using Hσ.
  intros Hfair Hi Hph. destruct (Hfair m) as (m0 & Hm0 & Hrun & Hprog).
  destruct (handler_until m i h (m0 - m) Hi Hph) as (m1 & h1 & Hm1 & Hi1 & Hopen & [Hless|(-> & Hp & Ht)]).
  { exists m1, h1. split; [lia|done]. }
  replace (m + (m0 - m))%nat with m0 in * by lia.
  destruct (handler_next _ _ _ Hi1) as (h2 & Hi2 & _ & Hown). destruct (Hown Hrun) as (db' & k' & E).
  exists (S m0), h2. split; [lia|]. split; [done|].
  split; [by eapply thread_step_open; [|rewrite Hp]|]. rewrite <- Hp, <- Ht.
  apply thread_step_left in E as [E|[Hno _]]; [done| |congruence].
  destruct Hno. by eapply Hprog.
Qed.

Lemma handler_returns i : again (productive i) → ∀ a b m h,
  handlers (σ m) !! i = Some h → at_ h ≠ Closed → phase (at_ h) = a → turns_left (at_ h) = b →
  ∃ m' h' ok, (m ≤ m')%nat ∧ handlers (σ m') !! i = Some h' ∧ at_ h' = Returning ok.
Proof using Hσ.
  intros Hfair. refine (lex_ind _ _). intros a b IH m h Hi Hopen <- <-.
  destruct (decide (phase (at_ h) = 0%nat)) as [Hz|Hz].
  { exists m, h. destruct (at_ h) as [| |? []|? ? []| |ok|]; try done. by exists ok. }
  destruct (handler_advances m i h Hfair Hi Hz) as (m1 & h1 & Hm1 & Hi1 & Hopen1 & Hless).
  destruct (IH _ _ Hless m1 h1 Hi1 Hopen1 eq_refl eq_refl) as (m2 & h2 & ok & Hm2 & Hi2 & Hr).
  exists m2, h2, ok. split; [lia|done].
Qed.

(** A thread stays where it is until it runs. *)
Lemma handler_waits m i h m0 :
  (m ≤ m0)%nat → handlers (σ m) !! i = Some h → ρ m0 = Run i →
  ∃ m', (m ≤ m')%nat ∧ handlers (σ m') !! i = Some h ∧ ρ m' = Run i.
Proof using Hσ.
  intros Hm Hi Hrun. remember (m0 - m)%nat as d eqn:Hd. revert m Hm Hi Hd.
  induction d as [|d IH]; intros m Hm Hi Hd; [assert (m = m0) as -> by lia; by exists m0|].
  destruct (decide (ρ m = Run i)) as [?|Hne]; [by exists m|].
  destruct (handler_next _ _ _ Hi) as (h' & Hi' & Hother & _). rewrite (Hother Hne) in Hi'.
  destruct (IH (S m)) as (m' & Hm' & ? & ?); [lia|done|lia|]. exists m'. split; [lia|done].
Qed.

Lemma handler_closes m i h ok :
  again (productive i) → handlers (σ m) !! i = Some h → at_ h = Returning ok →
  ∃ m' h', (m ≤ m')%nat ∧ handlers (σ m') !! i = Some h' ∧ at_ h' = Closed.
Proof using Hσ.
  intros Hfair Hi Hr. destruct (Hfair m) as (m0 & Hm0 & Hrun & _).
  destruct (handler_waits m i h m0 Hm0 Hi Hrun) as (m1 & Hm1 & Hi1 & Hrun1).
  destruct (handler_next _ _ _ Hi1) as (h2 & Hi2 & _ & Hown).
  destruct (Hown Hrun1) as (db' & k' & E). rewrite Hr in E. cbn in E.
  exists (S m1), h2. split; [lia|]. split; [done|]. by injection E.
Qed.

End execution.

End server.

(** C7. Every connection is served: in every infinite execution of the server's threads in
    which no answer overruns its buffer, whether registrations overlap or not, a handler
    thread that runs again and again, to which the connection delivers the request and
    from which it takes the bytes of the answer (or refuses them), returns from [sendB]
    and then closes the connection, whatever the other threads and the accepting thread do
    in between. If [sendB] returns false, a [send] of this thread was refused. If it
    returns true, and up to then a thread inside [registerUser] was alone with the
    database, which nothing in the source enforces, the thread has sent exactly the answer
    that its request has in a server that takes the requests one after the other, in the
    order in which they took effect. The accesses to the database are steps in some order,
    and an iterator keeps the entries that were to come: what a data race does beyond that,
    when there is no exclusion, is undefined behaviour and not there. *)
Theorem requests_are_answered {ord : UMapOrder Z UserMetadata} `{ProtobufLaws} {K : Type}
    `{ConnectionLaws K} ss db k (σ : nat → server K) ρ i m h :
  server_execution ss db k σ ρ → again (productive σ ρ i) →
  handlers (σ m) !! i = Some h → at_ h ≠ Closed →
  ∃ m' h' ok, (m ≤ m')%nat ∧ handlers (σ m') !! i = Some h' ∧ at_ h' = Returning ok ∧
    (ok = false → ∃ j, (j < m')%nat ∧ send_fails σ ρ i j) ∧
    (ok = true → (∀ j, (j ≤ m')%nat → exclusive (σ j)) →
     let fd := fd_ (my_socket h') in
     (i, parsed (rcvd fd (kernel (σ m'))), sent fd (kernel (σ m'))) ∈
       (serve_seq (log_upto σ ρ m') db).1) ∧
    ∃ m'' h'', (m' ≤ m'')%nat ∧ handlers (σ m'') !! i = Some h'' ∧ at_ h'' = Closed.
Proof.
  intros Hσ Hfair Hi Hopen.
  destruct (handler_returns ss db k σ ρ Hσ i Hfair _ _ m h Hi Hopen eq_refl eq_refl)
    as (m' & h' & ok & Hm' & Hi' & Hr).
  exists m', h', ok. do 3 (split; [done|]). split_and!.
  - intros ->. by eapply failed_send.
  - intros -> Hex. pose proof (inv_handlers _ _ _ (se_inv ss db k σ ρ Hσ m' Hex) i h' Hi') as Hh.
    unfold handler_ok in Hh. rewrite Hr in Hh. destruct Hh as (reply & Ha & _ & Hs).
    cbn zeta. by rewrite (Hs eq_refl).
  - by eapply handler_closes.
Qed.

(** ** An execution

    A registration and a request for the users, their threads interleaved; then the first
    thread runs for ever, closed. *)
#[local] Existing Instance canonical_order.

Definition plays (m : nat) : action := default (Run 0) (interleaved !! m).

Fixpoint played (m : nat) : server net :=
  match m with
  | O => interleaved_start
  | S m => match server_step (plays m) (played m) with Ok s => s | _ => played m end
  end.

Lemma played_S m :
  played (S m) = match server_step (plays m) (played m) with Ok s => s | _ => played m end.
Proof. reflexivity. Qed.

#[local] Opaque played.

(** Where the first thread is. *)
Definition first_at (f : handler_pc → bool) (m : nat) : bool :=
  from_option (λ h, f (at_ h)) false (handlers (played m) !! 0%nat).

Definition has_closed (pc : handler_pc) : bool := match pc with Closed => true | _ => false end.
Definition has_failed (pc : handler_pc) : bool := match pc with Returning false => true | _ => false end.

Lemma closed_stays {K} `{ConnectionLaws K} `{Protobuf} {ord : UMapOrder Z UserMetadata}
    (s : server K) i h :
  handlers s !! i = Some h → at_ h = Closed → server_step (Run i) s = Ok s.
Proof.
  intros Hi Hc. cbn. rewrite Hi, Hc. cbn. destruct s as [ss hs db k], h as [sock pc]. cbn in *.
  subst pc. by rewrite list_insert_id.
Qed.

Lemma played_end : ∃ h, handlers (played 27) !! 0%nat = Some h ∧ at_ h = Closed.
Proof.
  assert (first_at has_closed 27 = true) as Hc by (vm_compute; reflexivity).
  unfold first_at in Hc. destruct (handlers (played 27) !! 0%nat) as [h|]; [|discriminate Hc].
  exists h. split; [reflexivity|]. cbn in Hc. by destruct (at_ h).
Qed.

Lemma plays_end d : plays (27 + d) = Run 0.
Proof. unfold plays. rewrite lookup_ge_None_2; [reflexivity|]. cbn. lia. Qed.

Lemma played_closed d : played (27 + d) = played 27.
Proof.
  induction d as [|d IH]; [reflexivity|].
  rewrite Nat.add_succ_r, played_S, plays_end, IH. destruct played_end as (h & Hi & Hc).
  by rewrite (closed_stays _ _ h).
Qed.

(** What holds of the first states and of the last one holds of all. *)
Lemma played_all (P : nat → Prop) :
  Forall P (seq 0 28) → (∀ d, P 27%nat → P (27 + d)%nat) → ∀ m, P m.
Proof.
  intros Hf Hd m. rewrite Forall_seq in Hf. destruct (decide (m < 28)%nat); [apply Hf; lia|].
  replace m with (27 + (m - 27))%nat by lia. apply Hd, Hf. lia.
Qed.

Definition steps_ok (m : nat) : bool :=
  match server_step (plays m) (played m) with Ok _ => true | _ => false end.

Lemma played_execution :
  server_execution (mkServerSocket 0) two_users
    (two_clients (register_request (str "Eve")) (users_request 0)) played plays.
Proof.
  split; [reflexivity|].
  - intros m. assert (steps_ok m = true) as Hok.
    { revert m. apply played_all.
      - apply (bool_decide_eq_true_1 _). vm_compute. reflexivity.
      - intros d _. unfold steps_ok. rewrite played_closed, plays_end.
        destruct played_end as (h & Hi & Hc). by rewrite (closed_stays _ _ h). }
    rewrite played_S. unfold steps_ok in Hok.
    destruct (server_step (plays m) (played m)); [reflexivity|discriminate Hok..].
Qed.

Lemma played_exclusive m : exclusive (played m).
Proof.
  revert m. apply played_all; [apply (bool_decide_eq_true_1 _); vm_compute; reflexivity|].
  intros d Hd. rewrite played_closed. exact Hd.
Qed.

Lemma played_fair : again (productive played plays 0).
Proof.
  intros m. exists (27 + m)%nat. split; [lia|]. split; [apply plays_end|].
  intros h h' Hi _. rewrite played_closed in Hi. destruct played_end as (h0 & Hi0 & Hc).
  rewrite Hi0 in Hi. injection Hi as <-. rewrite Hc. exact I.
Qed.

Lemma played_succeeds m h : handlers (played m) !! 0%nat = Some h → at_ h ≠ Returning false.
Proof.
  assert (first_at has_failed m = false) as Hok.
  { revert m. apply played_all; [apply (bool_decide_eq_true_1 _); vm_compute; reflexivity|].
    intros d Hd. unfold first_at in *. rewrite played_closed. exact Hd. }
  intros Hi Hr. unfold first_at in Hok. rewrite Hi in Hok. cbn in Hok. rewrite Hr in Hok.
  discriminate Hok.
Qed.

(** The thread of the first connection has just been created. *)
Lemma requests_are_answered_witness :
  ∃ m h, handlers (played m) !! 0%nat = Some h ∧ at_ h = Returning true ∧
    (0%nat, parsed (rcvd (fd_ (my_socket h)) (kernel (played m))),
      sent (fd_ (my_socket h)) (kernel (played m))) ∈
    (serve_seq (log_upto played plays m) two_users).1.
Proof.
  assert (first_at has_closed 1 = false) as Hopen by (vm_compute; reflexivity).
  unfold first_at in Hopen. destruct (handlers (played 1) !! 0%nat) as [h|] eqn:E.
  - destruct (requests_are_answered (K := net) (mkServerSocket 0) two_users
      (two_clients (register_request (str "Eve")) (users_request 0)) played plays 0 1 h
      played_execution played_fair E) as (m & h' & ok & _ & Hi & Hr & _ & Ha & _).
    + intros Hc. cbn in Hopen. rewrite Hc in Hopen. discriminate Hopen.
    + destruct ok; [|by destruct (played_succeeds m h' Hi)].
      exists m, h'. exact (conj Hi (conj Hr (Ha eq_refl (λ j _, played_exclusive j)))).
  - apply (f_equal (fmap (λ _, ()))) in E. vm_compute in E. discriminate E.
Defined.
