(* ===== verification/App.v ===== *)
(** The client application ([src/client/app.h], [src/client/app.cpp],
    [src/client/client_parser.cpp]): the registration, the menu, the chat, and the two
    background loops, over the console, the sockets and the protobuf messages. The code
    is written in a state monad over the world of the client: the application's fields,
    the console, what has been written to the standard output, the characters still to
    be typed, and the kernel. *)

From S2P Require Import Prelude.
From S2P Require Import Common.
From S2P Require Import Packet.
From S2P Require Import Socket.
From S2P Require Import Console.

(** ** State *)

Inductive Command := kDisplayOnlineUsers | kChatWithUser.

Record App := mkApp {
  name_to_id_ : gmap bytes Z;
  id_to_name_ : gmap Z bytes;
  username_ : bytes;
  id_ : Z;
  kServerIp : bytes;
  kServerPort : Z;
}.

(** [App(ip, port)]; [id_] is not initialised by the source. *)
Definition App_init (ip : bytes) (port uninit : Z) : App := mkApp ∅ ∅ [] uninit ip port.

Definition set_username (s : bytes) (a : App) : App :=
  mkApp (name_to_id_ a) (id_to_name_ a) s (id_ a) (kServerIp a) (kServerPort a).
Definition set_id (id : Z) (a : App) : App :=
  mkApp (name_to_id_ a) (id_to_name_ a) (username_ a) id (kServerIp a) (kServerPort a).
Definition set_name_to_id (m : gmap bytes Z) (a : App) : App :=
  mkApp m (id_to_name_ a) (username_ a) (id_ a) (kServerIp a) (kServerPort a).
Definition set_id_to_name (m : gmap Z bytes) (a : App) : App :=
  mkApp (name_to_id_ a) m (username_ a) (id_ a) (kServerIp a) (kServerPort a).

Record world (K : Type) := mkWorld {
  app : App;
  con : Console;
  stdout : bytes;
  typed : list Z;
  net : K;
}.
Arguments mkWorld {K}.
Arguments app {K}.
Arguments con {K}.
Arguments stdout {K}.
Arguments typed {K}.
Arguments net {K}.

(** ** The monad *)

Definition M (W A : Type) : Type := W → outcome (A * W).

#[export] Instance M_ret {W} : MRet (M W) := λ A a w, Ok (a, w).
#[export] Instance M_bind {W} : MBind (M W) := λ A B f m w, '(a, w) ← m w; f a w.

(** ** The critical sections on the maps of names *)

(** [id_to_name_.emplace(mapping.second, mapping.first)]: an ID that is there stays. *)
Definition emplace (m : gmap Z bytes) (mapping : bytes * Z) : gmap Z bytes :=
  match m !! mapping.2 with
  | Some _ => m
  | None => <[mapping.2 := mapping.1]> m
  end.

Section maps.
  Context {ord : UMapOrder bytes Z}.

(** The section of [periodicGetOnlineUsers]: whether the mapping has changed. *)
Definition refresh (new_name_to_id : gmap bytes Z) (a : App) : bool * App :=
  if bool_decide (new_name_to_id = name_to_id_ a) then (false, a)
  else
    (true, set_id_to_name (foldl emplace ∅ (umap_seq new_name_to_id))
             (set_name_to_id new_name_to_id a)).

(** The section of the chat loop: [name_to_id_[target_user]], which inserts 0 for a name
    that is not there. *)
Definition lookup_target (target_user : bytes) (a : App) : Z * App :=
  match name_to_id_ a !! target_user with
  | Some id => (id, a)
  | None => (0%Z, set_name_to_id (<[target_user := 0%Z]> (name_to_id_ a)) a)
  end.

End maps.

(** ** Operations *)

Section App.
  Context {ord : UMapOrder bytes Z} `{Protobuf} {K : Type} `{Kernel K}.

Definition get_app : M (world K) App := λ w, Ok (app w, w).
Definition modify_app (f : App → App) : M (world K) unit :=
  λ w, Ok ((), mkWorld (f (app w)) (con w) (stdout w) (typed w) (net w)).
Definition section_app {A} (f : App → A * App) : M (world K) A :=
  λ w, let '(x, a) := f (app w) in Ok (x, mkWorld a (con w) (stdout w) (typed w) (net w)).
Definition lift_net {A} (f : K → outcome (A * K)) : M (world K) A :=
  λ w, '(x, k) ← f (net w); Ok (x, mkWorld (app w) (con w) (stdout w) (typed w) k).

(** [console_.read(prompt)], [console_.write(s)]. *)
Definition con_read (prompt : bytes) : M (world K) bytes :=
  λ w, '(s, chars, c, out) ← read prompt (typed w) (con w);
       Ok (s, mkWorld (app w) c (stdout w ++ out) chars (net w)).
Definition con_write (s : bytes) : M (world K) unit :=
  λ w, let '(c, out) := write s (con w) in
       Ok ((), mkWorld (app w) c (stdout w ++ out) (typed w) (net w)).

Fixpoint con_writes (l : list bytes) : M (world K) unit :=
  match l with
  | [] => mret ()
  | s :: l => _ ← con_write s; con_writes l
  end.

(** [Socket my_socket; my_socket.connectB(kServerIp, kServerPort)], and its end. *)
Definition connection (fuel : nat) : M (world K) Socket :=
  a ← get_app;
  lift_net (λ k, let '(s, k) := Socket_new (-1) false k in
                 connectB fuel (kServerIp a) (kServerPort a) s k).
Definition disconnect (my_socket : Socket) : M (world K) unit :=
  lift_net (λ k, Ok ((), Socket_delete my_socket k)).

(** The request is serialised, [ByteSizeLong()] bytes of the transmit buffer are sent,
    the first packet that comes is parsed with the rest of the receive buffer. *)
Definition exchange (fuel : nat) (my_socket : Socket) (req_packet : Packet)
    (tx_buffer rx_buffer : bytes) : M (world K) (bytes * bytes * Packet) :=
  let '(_, tx_buffer) :=
    SerializeToArray req_packet tx_buffer (Z.of_nat (length tx_buffer)) in
  _ ← lift_net (sendB fuel tx_buffer (ByteSizeLong req_packet) my_socket);
  '(_, rx_buffer) ← lift_net (receive_some fuel rx_buffer 1000 my_socket);
  let '(_, resp_packet) := ParseFromArray rx_buffer in
  mret (tx_buffer, rx_buffer, resp_packet).

(** What is wrong with the response is only logged. *)
Definition registerUser (fuel : nat) : M (world K) unit :=
  my_socket ← connection fuel;
  name ← con_read (str "Hi, there. Enter your name to start chatting >");
  _ ← modify_app (set_username name);
  let req_packet :=
    with_req_reg (mkRequestRegister (Some name)) (packet_of_type PACKET_TYPE_REQUEST_REGISTER) in
  let tx_buffer := replicate 1000 x00 in
  let rx_buffer := replicate 1000 x00 in
  '(_, _, resp_packet) ← exchange fuel my_socket req_packet tx_buffer rx_buffer;
  let id := get_u32 (pr_assigned_id (default RespRegister_default (resp_reg resp_packet))) in
  _ ← modify_app (set_id id);
  _ ← con_write (str "DEBUG: Server assigned user ID = " ++ dec id);
  disconnect my_socket.

(** [cmd_map]. *)
Definition cmd_map : list (byte * Command) :=
  [(x31, kDisplayOnlineUsers); (x32, kChatWithUser)].

Definition cmd_find (c : byte) : option Command :=
  snd <$> List.find (λ e, bool_decide (e.1 = c)) cmd_map.

(** The loop of [getUserCommand], at most [fuel] questions. *)
Fixpoint ask_command (fuel : nat) : M (world K) Command :=
  match fuel with
  | O => λ _, Blocked
  | S fuel =>
      user_cmd ← con_read (str "Enter your choice >");
      match user_cmd with
      | [c] =>
          match cmd_find c with
          | Some cmd => mret cmd
          | None => _ ← con_write (str "Invalid selection, try again"); ask_command fuel
          end
      | _ => _ ← con_write (str "Invalid selection, try again"); ask_command fuel
      end
  end.

Definition quote : bytes := [x22].

Definition getUserCommand (fuel : nat) : M (world K) Command :=
  a ← get_app;
  _ ← con_write (str "Hi " ++ username_ a ++ str "! Follow the instructions below:");
  _ ← con_write (str "Type " ++ quote ++ str "1" ++ quote ++ str " for viewing online users");
  _ ← con_write (str "Type " ++ quote ++ str "2" ++ quote ++ str " to chat with a user");
  ask_command fuel.

(** The names of [name_to_id_] other than the user's own ID, in the map's order. *)
Definition other_names (a : App) : list bytes :=
  map fst (filter (λ mapping, mapping.2 ≠ id_ a) (umap_seq (name_to_id_ a))).

Definition printOnlineUsers : M (world K) unit :=
  a ← get_app;
  con_writes (other_names a).

(** ** The loop of [periodicGetOnlineUsers] *)

Definition names_of (users : list OnlineUser) : gmap bytes Z :=
  foldl (λ m user, <[get_str (ou_username user) := get_u32 (ou_user_id user)]> m) ∅ users.

(** What a turn does with the response. *)
Definition handle_users (resp_packet : Packet) : M (world K) unit :=
  let resp := default RespUsers_default (resp_users resp_packet) in
  if negb (get_u32 (pu_resp_value resp) =? 0)%Z
  then con_write (str "DEBUG: ERR, negative response for get online users request")
  else
    changed ← section_app (refresh (names_of (online_users resp)));
    if negb changed then mret ()
    else
      _ ← con_write (str "**********Updated Online users: ");
      a ← get_app;
      if bool_decide (size (name_to_id_ a) = 0%nat)
      then con_write (str "No other users currently online")
      else printOnlineUsers.

(** One turn, with the buffers of the loop. *)
Definition users_turn (fuel : nat) (bufs : bytes * bytes) : M (world K) (bytes * bytes) :=
  my_socket ← connection fuel;
  a ← get_app;
  let req_packet :=
    with_req_users (mkRequestUsers (Some (id_ a))) (packet_of_type PACKET_TYPE_REQUEST_USERS) in
  '(tx_buffer, rx_buffer, resp_packet) ← exchange fuel my_socket req_packet bufs.1 bufs.2;
  _ ← handle_users resp_packet;
  _ ← disconnect my_socket;
  mret (tx_buffer, rx_buffer).

(** ** [taskChatWithUser] *)

(** The loop that asks for the target, at most [fuel] questions; [None] is the exit. *)
Fixpoint choose_target (fuel : nat) : M (world K) (option bytes) :=
  match fuel with
  | O => λ _, Blocked
  | S fuel =>
      target_user ←
        con_read (str "Enter the name of the user you would like to chat with: ");
      if bool_decide (target_user = str "x") then mret None else
      a ← get_app;
      match name_to_id_ a !! target_user with
      | None => _ ← con_write (str "Error,  user not available"); choose_target fuel
      | Some _ => mret (Some target_user)
      end
  end.

(** What is written for the status of a send response. *)
Definition status_text (s : SendStatus) : bytes :=
  match s with
  | kSuccess => str "Message succesfully sent"
  | kErrSrcId => str "ERR: Source ID incorrect in send request"
  | kErrTrgtId => str "ERR: Target ID incorrect in send request"
  | _ => str "ERR: Received unexpected response value from server in Send request"
  end.

(** One turn of the chat with [target_user]; [None] when the chat is over. *)
Definition chat_turn (fuel : nat) (target_user : bytes) (bufs : bytes * bytes) :
    M (world K) (option (bytes * bytes)) :=
  m ← con_read (str "Send message to " ++ target_user ++ str ">");
  if bool_decide (m = str "x") then mret None else
  my_socket ← connection fuel;
  a ← get_app;
  target_id ← section_app (lookup_target target_user);
  let req_packet :=
    with_req_send (mkRequestSend (Some (id_ a)) (Some target_id) (Some m))
      (packet_of_type PACKET_TYPE_REQUEST_SEND) in
  '(tx_buffer, rx_buffer, resp_packet) ← exchange fuel my_socket req_packet bufs.1 bufs.2;
  match ps_resp_value (default RespSend_default (resp_send resp_packet)) with
  | None =>
      _ ← con_write (str "ERR: unexpected server response for sending a message");
      _ ← disconnect my_socket;
      mret None
  | Some v =>
      _ ← con_write (status_text (SendStatus_of_byte (byte.of_Z v)));
      _ ← disconnect my_socket;
      mret (Some (tx_buffer, rx_buffer))
  end.

(** At most [n] turns. *)
Fixpoint chat_loop (fuel n : nat) (target_user : bytes) (bufs : bytes * bytes) :
    M (world K) unit :=
  match n with
  | O => λ _, Blocked
  | S n =>
      res ← chat_turn fuel target_user bufs;
      match res with
      | Some bufs => chat_loop fuel n target_user bufs
      | None => mret ()
      end
  end.

Definition zeros : bytes * bytes := (replicate 1000 x00, replicate 1000 x00).

Definition taskChatWithUser (fuel : nat) : M (world K) unit :=
  target ← choose_target fuel;
  match target with
  | Some target_user => chat_loop fuel fuel target_user zeros
  | None => mret ()
  end.

(** ** The loop of [periodicGetMessages] *)

Definition message_text (id_to_name : gmap Z bytes) (m : UserMessage) : bytes :=
  match id_to_name !! get_u32 (um_user_id m) with
  | Some name => name ++ str "> "
  | None => str "Unknown sender > "
  end ++ get_str (um_message m).

(** One turn, with the buffers of the loop. *)
Definition messages_turn (fuel : nat) (bufs : bytes * bytes) : M (world K) (bytes * bytes) :=
  my_socket ← connection fuel;
  a ← get_app;
  let req_packet :=
    with_req_recv (mkRequestRecv (Some (id_ a))) (packet_of_type PACKET_TYPE_REQUEST_RECV) in
  '(tx_buffer, rx_buffer, resp_packet) ← exchange fuel my_socket req_packet bufs.1 bufs.2;
  a ← get_app;
  _ ← con_writes (map (message_text (id_to_name_ a))
        (messages (default RespRecv_default (resp_recv resp_packet))));
  _ ← disconnect my_socket;
  mret (tx_buffer, rx_buffer).

(** ** The background loops

    They never end; these are the first [n] turns. *)
Fixpoint first_turns (turn : bytes * bytes → M (world K) (bytes * bytes)) (n : nat)
    (bufs : bytes * bytes) : M (world K) unit :=
  match n with
  | O => mret ()
  | S n => bufs ← turn bufs; first_turns turn n bufs
  end.

Definition periodicGetOnlineUsers (fuel n : nat) : M (world K) unit :=
  first_turns (users_turn fuel) n zeros.

Definition periodicGetMessages (fuel n : nat) : M (world K) unit :=
  first_turns (messages_turn fuel) n zeros.

(** ** The threads *)

(** One turn of the loop of [run], on the main thread. *)
Definition main_turn (fuel : nat) : M (world K) unit :=
  cmd ← getUserCommand fuel;
  match cmd with
  | kDisplayOnlineUsers => printOnlineUsers
  | kChatWithUser => taskChatWithUser fuel
  end.

(** The threads [t1] and [t2] and the main thread. *)
Inductive thread := t1 | t2 | main_thread.

(** The threads take turns in the order given; [bufs1] and [bufs2] are the buffers of
    the two background loops. *)
Fixpoint run_turns (fuel : nat) (order : list thread) (bufs1 bufs2 : bytes * bytes) :
    M (world K) unit :=
  match order with
  | [] => mret ()
  | t1 :: order => bufs1 ← messages_turn fuel bufs1; run_turns fuel order bufs1 bufs2
  | t2 :: order => bufs2 ← users_turn fuel bufs2; run_turns fuel order bufs1 bufs2
  | main_thread :: order => _ ← main_turn fuel; run_turns fuel order bufs1 bufs2
  end.

Definition run (fuel : nat) (order : list thread) : M (world K) unit :=
  _ ← registerUser fuel;
  run_turns fuel order zeros zeros.

(** ** [ClientParser] *)

Definition encodeRequestRegister (name : bytes) : bytes :=
  let oss := [] in
  let '(_, oss) :=
    Header_SerializeToOstream (mkHdr (Some PACKET_TYPE_REQUEST_REGISTER)) oss in
  let '(_, oss) := RequestRegister_SerializeToOstream (mkRequestRegister (Some name)) oss in
  oss.

End App.
