(* ===== verification/AppProofs.v ===== *)
(** How the client application's operations run: the steps of the monad, a request and
    its answer over the network, and the maps of names. *)

From S2P Require Import Prelude.
From S2P Require Import Common.
From S2P Require Import Database.
From S2P Require Import Packet.
From S2P Require Import Wire.
From S2P Require Import Socket.
From S2P Require Import ServerApp.
From S2P Require Import ServerAppProofs.
From S2P Require Import Console.
From S2P Require Import App.

(** ** Running the monad *)

Lemma M_bind_ok {W A B} (m : M W A) (f : A → M W B) w a w' :
  m w = Ok (a, w') → (m ≫= f) w = f a w'.
Proof. intros E. unfold mbind, M_bind. by rewrite E. Qed.

Lemma M_bind_blocked {W A B} (m : M W A) (f : A → M W B) w :
  m w = Blocked → (m ≫= f) w = Blocked.
Proof. intros E. unfold mbind, M_bind. by rewrite E. Qed.

Lemma M_bind_oob {W A B} (m : M W A) (f : A → M W B) w :
  m w = Oob → (m ≫= f) w = Oob.
Proof. intros E. unfold mbind, M_bind. by rewrite E. Qed.

Section running.
  Context {K : Type}.

Definition with_app (a : App) (w : world K) : world K :=
  mkWorld a (con w) (stdout w) (typed w) (net w).
Definition with_net (k : K) (w : world K) : world K :=
  mkWorld (app w) (con w) (stdout w) (typed w) k.
Definition with_stdout (out : bytes) (w : world K) : world K :=
  mkWorld (app w) (con w) out (typed w) (net w).

(** What the console emits for a list of writes. *)
Definition written (l : list bytes) (c : Console) : bytes :=
  concat (map (λ s, (write s c).2) l).

Lemma con_write_run s (w : world K) :
  con_write s w = Ok ((), with_stdout (stdout w ++ written [s] (con w)) w).
Proof. unfold con_write, written. rewrite write_state. cbn. by rewrite app_nil_r. Qed.

Lemma con_writes_run l (w : world K) :
  con_writes l w = Ok ((), with_stdout (stdout w ++ written l (con w)) w).
Proof.
  revert w. induction l as [|s l IH]; intros w; cbn [con_writes].
  { unfold written. cbn. rewrite app_nil_r. by destruct w. }
  rewrite (M_bind_ok _ _ _ _ _ (con_write_run s w)), IH. unfold written. cbn.
  by rewrite app_nil_r, <- app_assoc.
Qed.

(** A line typed at a prompt, the console being idle: [l] is what is typed before the
    new line. *)
Lemma con_read_run prompt l rest (w : world K) :
  Forall (λ z, z ≠ kNewLine) l → con w = Console_init → typed w = l ++ kNewLine :: rest →
  ∃ out, con_read prompt w =
    Ok (foldl edit [] l, mkWorld (app w) Console_init (stdout w ++ out) rest (net w)).
Proof.
  intros Hl Hc Ht. unfold con_read. rewrite Hc, Ht.
  destruct (read_line prompt l rest Hl) as [out ->]. by exists out.
Qed.

Lemma modify_app_run f (w : world K) : modify_app f w = Ok ((), with_app (f (app w)) w).
Proof. done. Qed.

Lemma get_app_run (w : world K) : get_app w = Ok (app w, w).
Proof. done. Qed.

Lemma section_app_run {A} (f : App → A * App) (w : world K) x a :
  f (app w) = (x, a) → section_app f w = Ok (x, with_app a w).
Proof. intros E. unfold section_app. by rewrite E. Qed.

End running.

(** ** A request over the network *)

Section network.
  Context `{ProtobufLaws} {K : Type} `{KernelLaws K}.

(** From the state [k], the server of [a] can be connected to within [fuel] steps, takes
    what is sent, and answers [request] with [reply] in one piece; [Q] holds once the
    socket has been closed. *)
Definition serves_then (fuel : nat) (a : App) (k : K) (request reply : bytes)
    (Q : K → Prop) : Prop :=
  ∃ s k1 patience,
    (let '(s, k) := Socket_new (-1) false k in
     connectB fuel (kServerIp a) (kServerPort a) s k) = Ok (s, k1) ∧
    sent (fd_ s) k1 = [] ∧ sending (fd_ s) patience ∧ (1000 + patience k1 < fuel)%nat ∧
    ∀ tx n k2, sendB fuel tx n s k1 = Ok (true, k2) → sent (fd_ s) k2 = request →
      ∃ m k3, (m < fuel)%nat ∧ delivers (fd_ s) 1000 reply m k2 k3 ∧ Q (Socket_delete s k3).

Definition serves (fuel : nat) (a : App) (k : K) (request reply : bytes) : Prop :=
  serves_then fuel a k request reply (λ _, True).

(** The server of [a] can be connected to and takes what is sent, but closes the
    connection without an answer. *)
Definition closes (fuel : nat) (a : App) (k : K) : Prop :=
  ∃ s k1 patience (C : K → Prop),
    (let '(s, k) := Socket_new (-1) false k in
     connectB fuel (kServerIp a) (kServerPort a) s k) = Ok (s, k1) ∧
    sending (fd_ s) patience ∧ (1000 + patience k1 < fuel)%nat ∧
    closed_by_peer (fd_ s) C ∧
    ∀ tx n k2, sendB fuel tx n s k1 = Ok (true, k2) → C k2.

Lemma connection_run fuel (w : world K) s k1 :
  (let '(s, k) := Socket_new (-1) false (net w) in
   connectB fuel (kServerIp (app w)) (kServerPort (app w)) s k) = Ok (s, k1) →
  connection fuel w = Ok (s, with_net k1 w).
Proof.
  intros E. unfold connection. rewrite (M_bind_ok _ _ _ _ _ (get_app_run w)).
  unfold lift_net. by rewrite E.
Qed.

Lemma disconnect_run s (w : world K) :
  disconnect s w = Ok ((), with_net (Socket_delete s (net w)) w).
Proof. done. Qed.

(** The sending half of [exchange]. *)
Lemma exchange_sends fuel s req tx patience (w : world K) :
  length tx = 1000%nat → (ByteSizeLong req ≤ 1000)%Z →
  sending (fd_ s) patience → (1000 + patience (net w) < fuel)%nat →
  ∃ k2, let tx' := wire req ++ drop (length (wire req)) tx in
    SerializeToArray req tx (Z.of_nat (length tx)) = (true, tx') ∧
    sendB fuel tx' (ByteSizeLong req) s (net w) = Ok (true, k2) ∧
    sent (fd_ s) k2 = sent (fd_ s) (net w) ++ wire req.
Proof.
  intros Htx Hreq Hp Hf. pose proof (ByteSizeLong_wire req) as Hw.
  destruct (sendB_ok s patience fuel (wire req ++ drop (length (wire req)) tx)
    (ByteSizeLong req) (net w)) as (k2 & E & Hs);
    [done|lia|rewrite length_app, length_drop; lia|lia|].
  exists k2. cbn zeta. split_and!; [apply SerializeToArray_fits; lia|done|].
  rewrite Hs, Hw, Nat2Z.id. by rewrite take_app_length.
Qed.

(** An exchange with a server that answers. *)
Lemma exchange_run fuel s req tx rx reply m k2 k3 (w : world K) :
  length tx = 1000%nat → length rx = 1000%nat →
  let tx' := wire req ++ drop (length (wire req)) tx in
  SerializeToArray req tx (Z.of_nat (length tx)) = (true, tx') →
  sendB fuel tx' (ByteSizeLong req) s (net w) = Ok (true, k2) →
  delivers (fd_ s) 1000 reply m k2 k3 → (m < fuel)%nat → (0 < length reply ≤ 1000)%nat →
  let rx' := reply ++ drop (length reply) rx in
  exchange fuel s req tx rx w =
    Ok ((tx', rx', (ParseFromArray rx').2), with_net k3 w).
Proof.
  intros Htx Hrx tx' Es Eb Hd Hm Hr rx'. unfold exchange. rewrite Es.
  assert (lift_net (sendB fuel tx' (ByteSizeLong req) s) w = Ok (true, with_net k2 w)) as Eb'.
  { unfold lift_net. by rewrite Eb. }
  rewrite (M_bind_ok _ _ _ _ _ Eb').
  assert (lift_net (receive_some fuel rx 1000 s) (with_net k2 w) =
    Ok ((Z.of_nat (length reply), rx'), with_net k3 w)) as Er.
  { unfold lift_net. cbn [net with_net].
    by rewrite (receive_some_delivers s m reply fuel rx 1000 k2 k3) by (done || lia). }
  rewrite (M_bind_ok _ _ _ _ _ Er). by destruct (ParseFromArray rx').
Qed.

(** What is parsed when zeros follow the reply in the receive buffer. *)
Lemma parse_reply resp rx n :
  wf_packet resp → (ByteSizeLong resp ≤ 1000)%Z →
  drop (length (wire resp)) rx = replicate n x00 →
  (ParseFromArray (wire resp ++ drop (length (wire resp)) rx)).2 = resp.
Proof. intros Hwf Hl ->. apply ParseFromArray_padded; [done|lia]. Qed.

(** An exchange with a server that closes the connection does not end. *)
Lemma exchange_closed fuel s req tx rx patience (C : K → Prop) (w : world K) :
  length tx = 1000%nat → (ByteSizeLong req ≤ 1000)%Z →
  sending (fd_ s) patience → (1000 + patience (net w) < fuel)%nat →
  closed_by_peer (fd_ s) C →
  (∀ tx n k2, sendB fuel tx n s (net w) = Ok (true, k2) → C k2) →
  exchange fuel s req tx rx w = Blocked.
Proof.
  intros Htx Hreq Hp Hf Hcl HC.
  destruct (exchange_sends fuel s req tx patience w) as (k2 & Es & Eb & _); [done..|].
  unfold exchange. rewrite Es.
  erewrite M_bind_ok by (unfold lift_net; rewrite Eb; reflexivity).
  apply M_bind_blocked. unfold lift_net. cbn [net].
  by rewrite (receive_some_closed s C) by eauto.
Qed.

(** A request that does not fit the transmit buffer. *)
Lemma exchange_oob fuel s req tx rx (w : world K) :
  (Z.of_nat (length tx) < ByteSizeLong req)%Z → (0 < fuel)%nat →
  exchange fuel s req tx rx w = Oob.
Proof.
  intros Hl Hf. unfold exchange. rewrite SerializeToArray_too_big by done.
  apply M_bind_oob. unfold lift_net. by rewrite sendB_oob.
Qed.

(** A connection and an exchange with a server that answers: what is left to run gets what
    the library reads in the whole receive buffer, the reply and what was there behind it. *)
Lemma serve_any_run fuel req reply tx rx (Q : K → Prop) (w : world K) :
  length tx = 1000%nat → length rx = 1000%nat →
  (ByteSizeLong req ≤ 1000)%Z → (0 < length reply ≤ 1000)%nat →
  serves_then fuel (app w) (net w) (wire req) reply Q →
  let tx' := wire req ++ drop (length (wire req)) tx in
  let rx' := reply ++ drop (length reply) rx in
  ∃ s k1 k3,
    connection fuel w = Ok (s, with_net k1 w) ∧
    (∀ w', net w' = k1 →
      exchange fuel s req tx rx w' =
        Ok ((tx', rx', (ParseFromArray rx').2), with_net k3 w')) ∧
    length tx' = 1000%nat ∧ length rx' = 1000%nat ∧ Q (Socket_delete s k3).
Proof.
  intros Htx Hrx Hreq Hl (s & k1 & patience & Ec & Hs & Hp & Hf & Hd).
  destruct (exchange_sends fuel s req tx patience (with_net k1 w)) as (k2 & Es & Eb & Hsent);
    [done..|]. cbn [net with_net] in *. rewrite Hs in Hsent.
  destruct (Hd _ _ _ Eb Hsent) as (m & k3 & Hm & Hdel & HQ).
  pose proof (ByteSizeLong_wire req).
  exists s, k1, k3. split_and!; [by apply connection_run| | | |done].
  - intros w' <-. by apply (exchange_run fuel s req tx rx reply m k2 k3 w').
  - rewrite length_app, length_drop. lia.
  - rewrite length_app, length_drop. lia.
Qed.

(** When zeros follow the reply in the buffer, it gets the response that was sent. *)
Lemma serve_run fuel req resp tx rx n (Q : K → Prop) (w : world K) :
  length tx = 1000%nat → length rx = 1000%nat →
  (ByteSizeLong req ≤ 1000)%Z → wf_packet resp → (0 < ByteSizeLong resp ≤ 1000)%Z →
  drop (length (wire resp)) rx = replicate n x00 →
  serves_then fuel (app w) (net w) (wire req) (wire resp) Q →
  let tx' := wire req ++ drop (length (wire req)) tx in
  let rx' := wire resp ++ replicate n x00 in
  ∃ s k1 k3,
    connection fuel w = Ok (s, with_net k1 w) ∧
    (∀ w', net w' = k1 →
      exchange fuel s req tx rx w' = Ok ((tx', rx', resp), with_net k3 w')) ∧
    length tx' = 1000%nat ∧ length rx' = 1000%nat ∧ Q (Socket_delete s k3).
Proof.
  intros Htx Hrx Hreq Hwf Hl Hz Hs. pose proof (ByteSizeLong_wire resp).
  destruct (serve_any_run fuel req (wire resp) tx rx Q w)
    as (s & k1 & k3 & Ec & Ex & Hl1 & Hl2 & HQ); [done..|lia|done|].
  exists s, k1, k3. rewrite <- Hz. split_and!; try done.
  intros w' Hw'. rewrite (Ex w' Hw'). by rewrite (parse_reply resp rx n) by (done || lia).
Qed.

(** The same with a server that closes the connection: nothing is left to run. *)
Lemma close_run fuel req tx rx (w : world K) :
  length tx = 1000%nat → (ByteSizeLong req ≤ 1000)%Z → closes fuel (app w) (net w) →
  ∃ s k1, connection fuel w = Ok (s, with_net k1 w) ∧
    ∀ w', net w' = k1 → exchange fuel s req tx rx w' = Blocked.
Proof.
  intros Htx Hreq (s & k1 & patience & C & Ec & Hp & Hf & Hcl & HC).
  exists s, k1. split; [by apply connection_run|].
  intros w' <-. by apply (exchange_closed fuel s req tx rx patience C).
Qed.

Lemma length_zeros n : drop n (replicate 1000 x00) = replicate (1000 - n) x00.
Proof. apply drop_replicate. Qed.

(** ** The registration *)

Lemma registerUser_run fuel l rest resp (w : world K) :
  let name := foldl edit [] l in
  Forall (λ z, z ≠ kNewLine) l → con w = Console_init → typed w = l ++ kNewLine :: rest →
  (ByteSizeLong (register_request name) ≤ 1000)%Z →
  wf_packet resp → (0 < ByteSizeLong resp ≤ 1000)%Z →
  serves fuel (app w) (net w) (wire (register_request name)) (wire resp) →
  let id := get_u32 (pr_assigned_id (default RespRegister_default (resp_reg resp))) in
  ∃ out k, registerUser fuel w =
    Ok ((), mkWorld (set_id id (set_username name (app w))) Console_init out rest k).
Proof.
  intros name Hl Hc Ht Hreq Hwf Hresp Hs id.
  destruct (serve_run fuel (register_request name) resp (replicate 1000 x00)
    (replicate 1000 x00) _ _ w eq_refl eq_refl Hreq Hwf Hresp (length_zeros _) Hs)
    as (s & k1 & k3 & Econn & Eex & _).
  unfold registerUser. rewrite (M_bind_ok _ _ _ _ _ Econn).
  destruct (con_read_run (str "Hi, there. Enter your name to start chatting >") l rest
    (with_net k1 w)) as [out Er]; [done..|].
  rewrite (M_bind_ok _ _ _ _ _ Er), (M_bind_ok _ _ _ _ _ (modify_app_run _ _)).
  erewrite M_bind_ok by (by apply Eex). cbn beta iota zeta.
  rewrite (M_bind_ok _ _ _ _ _ (modify_app_run _ _)).
  rewrite (M_bind_ok _ _ _ _ _ (con_write_run _ _)), disconnect_run.
  do 2 eexists. reflexivity.
Qed.

(** ** The background loops and the chat *)

(** What a users response does to the application. *)
Definition users_effect {ord : UMapOrder bytes Z} (resp : Packet) (a : App) : App :=
  let r := default RespUsers_default (resp_users resp) in
  if (get_u32 (pu_resp_value r) =? 0)%Z then (refresh (names_of (online_users r)) a).2 else a.

Lemma handle_users_run {ord : UMapOrder bytes Z} resp (w : world K) :
  ∃ out, handle_users resp w =
    Ok ((), mkWorld (users_effect resp (app w)) (con w) out (typed w) (net w)).
Proof.
  unfold handle_users, users_effect. cbn zeta. destruct (_ =? 0)%Z; cbn [negb].
  - destruct (refresh _ (app w)) as [changed a] eqn:Er.
    erewrite M_bind_ok by (by apply section_app_run). destruct changed; cbn [negb]; [|by eexists].
    rewrite (M_bind_ok _ _ _ _ _ (con_write_run _ _)), (M_bind_ok _ _ _ _ _ (get_app_run _)).
    case_bool_decide; [rewrite con_write_run; by eexists|].
    unfold printOnlineUsers. rewrite (M_bind_ok _ _ _ _ _ (get_app_run _)), con_writes_run.
    by eexists.
  - rewrite con_write_run. destruct w. by eexists.
Qed.

Lemma users_turn_then {ord : UMapOrder bytes Z} fuel bufs resp n Q (w : world K) :
  let req := users_request (id_ (app w)) in
  length bufs.1 = 1000%nat → length bufs.2 = 1000%nat →
  (ByteSizeLong req ≤ 1000)%Z → wf_packet resp → (0 < ByteSizeLong resp ≤ 1000)%Z →
  drop (length (wire resp)) bufs.2 = replicate n x00 →
  serves_then fuel (app w) (net w) (wire req) (wire resp) Q →
  ∃ bufs' w', users_turn fuel bufs w = Ok (bufs', w') ∧
    app w' = users_effect resp (app w) ∧ con w' = con w ∧ typed w' = typed w ∧
    length bufs'.1 = 1000%nat ∧ length bufs'.2 = 1000%nat ∧
    bufs'.2 = wire resp ++ replicate n x00 ∧ Q (net w').
Proof.
  intros req H1' H2' Hreq Hwf Hresp Hz Hs.
  destruct (serve_run fuel req resp bufs.1 bufs.2 n Q w)
    as (s & k1 & k3 & Ec & Ex & Hl1 & Hl2 & HQ); [done..|].
  unfold users_turn. rewrite (M_bind_ok _ _ _ _ _ Ec), (M_bind_ok _ _ _ _ _ (get_app_run _)).
  erewrite M_bind_ok by (by apply Ex). cbn beta iota zeta.
  destruct (handle_users_run resp (with_net k3 (with_net k1 w))) as [out Eh].
  rewrite (M_bind_ok _ _ _ _ _ Eh), (M_bind_ok _ _ _ _ _ (disconnect_run _ _)).
  by do 2 eexists.
Qed.

Lemma users_turn_run {ord : UMapOrder bytes Z} fuel bufs resp n (w : world K) :
  let req := users_request (id_ (app w)) in
  length bufs.1 = 1000%nat → length bufs.2 = 1000%nat →
  (ByteSizeLong req ≤ 1000)%Z → wf_packet resp → (0 < ByteSizeLong resp ≤ 1000)%Z →
  drop (length (wire resp)) bufs.2 = replicate n x00 →
  serves fuel (app w) (net w) (wire req) (wire resp) →
  ∃ bufs' w', users_turn fuel bufs w = Ok (bufs', w') ∧
    app w' = users_effect resp (app w) ∧ con w' = con w ∧ typed w' = typed w.
Proof.
  intros req H1' H2' Hreq Hwf Hresp Hz Hs.
  destruct (users_turn_then fuel bufs resp n (λ _, True) w) as (bufs' & w' & ? & ? & ? & ? & _);
    [done..|]. by exists bufs', w'.
Qed.

(** One turn of the chat with a server that answers. *)
Lemma chat_turn_run fuel l rest tgt bufs resp n (w : world K) :
  let m := foldl edit [] l in
  let '(tgt_id, a) := lookup_target tgt (app w) in
  let req := send_request (id_ (app w)) tgt_id m in
  Forall (λ z, z ≠ kNewLine) l → con w = Console_init → typed w = l ++ kNewLine :: rest →
  m ≠ str "x" →
  length bufs.1 = 1000%nat → length bufs.2 = 1000%nat →
  (ByteSizeLong req ≤ 1000)%Z → wf_packet resp → (0 < ByteSizeLong resp ≤ 1000)%Z →
  drop (length (wire resp)) bufs.2 = replicate n x00 →
  serves fuel (app w) (net w) (wire req) (wire resp) →
  ∃ res out k, chat_turn fuel tgt bufs w = Ok (res, mkWorld a Console_init out rest k) ∧
    (is_Some res ↔ is_Some (r ← resp_send resp; ps_resp_value r)).
Proof.
  intros m. destruct (lookup_target tgt (app w)) as [tgt_id a] eqn:El.
  intros req Hl Hc Ht Hx H1' H2' Hreq Hwf Hresp Hz Hs.
  destruct (con_read_run (str "Send message to " ++ tgt ++ str ">") l rest w)
    as [out Er]; [done..|].
  destruct (serve_run fuel req resp bufs.1 bufs.2 n (λ _, True)
    (mkWorld (app w) Console_init (stdout w ++ out) rest (net w)))
    as (s & k1 & k3 & Ec & Ex & _); [done..|].
  unfold chat_turn. rewrite (M_bind_ok _ _ _ _ _ Er). fold m.
  rewrite bool_decide_eq_false_2 by done.
  rewrite (M_bind_ok _ _ _ _ _ Ec), (M_bind_ok _ _ _ _ _ (get_app_run _)).
  erewrite M_bind_ok by (by apply section_app_run).
  erewrite M_bind_ok by (by apply Ex). cbn beta iota zeta.
  assert (ps_resp_value (default RespSend_default (resp_send resp)) =
    (r ← resp_send resp; ps_resp_value r)) as -> by (by destruct (resp_send resp)).
  destruct (r ← resp_send resp; ps_resp_value r);
    rewrite (M_bind_ok _ _ _ _ _ (con_write_run _ _)), (M_bind_ok _ _ _ _ _ (disconnect_run _ _));
    do 3 eexists; (split; [reflexivity|]); [|done].
  split; eauto.
Qed.

(** One turn of the wait for messages with a server that answers, whatever it answers. *)
Definition shown (a : App) (rx : bytes) : list bytes :=
  map (message_text (id_to_name_ a))
    (messages (default RespRecv_default (resp_recv (ParseFromArray rx).2))).

Lemma messages_turn_then fuel bufs reply Q (w : world K) :
  let req := recv_request (id_ (app w)) in
  length bufs.1 = 1000%nat → length bufs.2 = 1000%nat →
  (ByteSizeLong req ≤ 1000)%Z → (0 < length reply ≤ 1000)%nat →
  serves_then fuel (app w) (net w) (wire req) reply Q →
  ∃ tx k, let rx := reply ++ drop (length reply) bufs.2 in
    messages_turn fuel bufs w = Ok ((tx, rx),
      mkWorld (app w) (con w) (stdout w ++ written (shown (app w) rx) (con w)) (typed w) k) ∧
    length tx = 1000%nat ∧ length rx = 1000%nat ∧ Q k.
Proof.
  intros req H1' H2' Hreq Hl Hs.
  destruct (serve_any_run fuel req reply bufs.1 bufs.2 Q w)
    as (s & k1 & k3 & Ec & Ex & Hl1 & Hl2 & HQ); [done..|].
  unfold messages_turn. rewrite (M_bind_ok _ _ _ _ _ Ec), (M_bind_ok _ _ _ _ _ (get_app_run _)).
  erewrite M_bind_ok by (by apply Ex). cbn beta iota zeta.
  rewrite (M_bind_ok _ _ _ _ _ (get_app_run _)), (M_bind_ok _ _ _ _ _ (con_writes_run _ _)).
  rewrite (M_bind_ok _ _ _ _ _ (disconnect_run _ _)). by do 2 eexists.
Qed.

Lemma messages_turn_run fuel bufs resp n (w : world K) :
  let req := recv_request (id_ (app w)) in
  length bufs.1 = 1000%nat → length bufs.2 = 1000%nat →
  (ByteSizeLong req ≤ 1000)%Z → wf_packet resp → (0 < ByteSizeLong resp ≤ 1000)%Z →
  drop (length (wire resp)) bufs.2 = replicate n x00 →
  serves fuel (app w) (net w) (wire req) (wire resp) →
  ∃ bufs' k, messages_turn fuel bufs w =
    Ok (bufs', mkWorld (app w) (con w)
      (stdout w ++ written (map (message_text (id_to_name_ (app w)))
         (messages (default RespRecv_default (resp_recv resp)))) (con w)) (typed w) k).
Proof.
  intros req H1' H2' Hreq Hwf Hresp Hz Hs. pose proof (ByteSizeLong_wire resp).
  destruct (messages_turn_then fuel bufs (wire resp) (λ _, True) w)
    as (tx & k & -> & _); [done..|lia|done|].
  unfold shown. rewrite (parse_reply resp bufs.2 n) by (done || lia). by do 2 eexists.
Qed.

End network.

(** ** The maps of names *)

(** The map of a list of users: every entry is one of them, every name is in it. *)
Lemma names_of_snoc us u :
  names_of (us ++ [u]) = <[get_str (ou_username u) := get_u32 (ou_user_id u)]> (names_of us).
Proof. unfold names_of. by rewrite foldl_app. Qed.

Lemma names_of_sound us n k :
  names_of us !! n = Some k →
  ∃ u, u ∈ us ∧ get_str (ou_username u) = n ∧ get_u32 (ou_user_id u) = k.
Proof.
  induction us as [|u us IH] using rev_ind; [done|].
  rewrite names_of_snoc. destruct (decide (get_str (ou_username u) = n)) as [<-|Hn].
  - rewrite lookup_insert_eq. intros [= <-]. exists u. set_solver.
  - rewrite lookup_insert_ne by done. intros (u' & ? & ? & ?)%IH. exists u'. set_solver.
Qed.

Lemma names_of_complete us u : u ∈ us → is_Some (names_of us !! get_str (ou_username u)).
Proof.
  induction us as [|u' us IH] using rev_ind; [by intros ?%not_elem_of_nil|].
  rewrite names_of_snoc, elem_of_app, list_elem_of_singleton. intros Hu.
  destruct (decide (get_str (ou_username u') = get_str (ou_username u))) as [->|Hn].
  - rewrite lookup_insert_eq. eauto.
  - rewrite lookup_insert_ne by done. destruct Hu as [?|<-]; [auto|done].
Qed.

(** Emplacing pairs: an entry of the result comes from the pairs, and every ID has one. *)
Lemma emplace_lookup m p i n :
  emplace m p !! i = Some n → m !! i = Some n ∨ p = (n, i).
Proof.
  unfold emplace. destruct p as [n' i']. cbn. destruct (m !! i') eqn:E; [auto|].
  destruct (decide (i' = i)) as [->|]; simplify_map_eq; [|auto]. intros [= ->]. by right.
Qed.

Lemma emplace_mono m p i : is_Some (m !! i) → is_Some (emplace m p !! i).
Proof.
  unfold emplace. destruct p as [n' i']. cbn. destruct (m !! i') eqn:E; [done|].
  destruct (decide (i' = i)) as [->|]; simplify_map_eq; eauto.
Qed.

Lemma emplace_has m n i : is_Some (emplace m (n, i) !! i).
Proof. unfold emplace. cbn. destruct (m !! i) eqn:E; simplify_map_eq; eauto. Qed.

Lemma emplaces_sound l m i n :
  foldl emplace m l !! i = Some n → m !! i = Some n ∨ (n, i) ∈ l.
Proof.
  revert m. induction l as [|p l IH]; intros m; cbn; [auto|].
  intros [Hm|Hin]%IH; [|set_solver]. apply emplace_lookup in Hm as [?| ->]; set_solver.
Qed.

Lemma emplaces_complete l m i n : (n, i) ∈ l → is_Some (foldl emplace m l !! i).
Proof.
  assert (∀ l m, is_Some (m !! i) → is_Some (foldl emplace m l !! i)) as Hmono.
  { clear. induction l as [|p l IH]; intros m Hm; cbn; [done|]. by apply IH, emplace_mono. }
  revert m. induction l as [|p l IH]; intros m; [by intros ?%not_elem_of_nil|].
  intros [<-|Hin]%elem_of_cons; cbn; [apply Hmono, emplace_has|by apply IH].
Qed.

Section sections.
  Context {ord : UMapOrder bytes Z}.

(** Every ID with a name is the ID of that name. *)
Definition names_agree (a : App) : Prop :=
  ∀ i n, id_to_name_ a !! i = Some n → name_to_id_ a !! n = Some i.

(** Every ID of a name has a name. *)
Definition ids_known (a : App) : Prop :=
  ∀ n i, name_to_id_ a !! n = Some i → is_Some (id_to_name_ a !! i).

Lemma refresh_agree new a : names_agree a → names_agree (refresh new a).2.
Proof.
  intros Ha. unfold refresh. case_bool_decide; [done|]. intros i n. cbn.
  intros [Hm|Hin]%emplaces_sound; [by rewrite lookup_empty in Hm|].
  by apply elem_of_umap_seq.
Qed.

Lemma refresh_known new a : ids_known a ∨ new ≠ name_to_id_ a → ids_known (refresh new a).2.
Proof.
  unfold refresh. case_bool_decide as Hn; [by intros [?|?]|]. intros _ n i. cbn.
  intros Hin%elem_of_umap_seq. by eapply emplaces_complete.
Qed.

Lemma lookup_target_agree t a : names_agree a → names_agree (lookup_target t a).2.
Proof.
  intros Ha. unfold lookup_target. destruct (name_to_id_ a !! t) eqn:E; [done|].
  intros i n Hi%Ha. cbn in *. destruct (decide (t = n)) as [->|]; simplify_map_eq; done.
Qed.

(** The critical sections in any order. *)
Inductive section_step : App → App → Prop :=
| step_refresh new a : section_step a (refresh new a).2
| step_lookup t a : section_step a (lookup_target t a).2.

Lemma users_effect_names resp a :
  get_u32 (pu_resp_value (default RespUsers_default (resp_users resp))) = 0%Z →
  name_to_id_ (users_effect resp a) =
    names_of (online_users (default RespUsers_default (resp_users resp))).
Proof.
  intros E. unfold users_effect. rewrite E. cbn. unfold refresh.
  by case_bool_decide.
Qed.

Lemma lookup_target_run t a :
  lookup_target t a =
    (default 0%Z (name_to_id_ a !! t), (lookup_target t a).2) ∧
  name_to_id_ (lookup_target t a).2 !! t = Some (default 0%Z (name_to_id_ a !! t)).
Proof.
  unfold lookup_target. destruct (name_to_id_ a !! t) eqn:E; cbn; [done|].
  by rewrite lookup_insert_eq.
Qed.

End sections.

(** ** The menu *)

Section menu.
  Context {K : Type}.

(** The command a line stands for. *)
Definition command_of (s : bytes) : option Command :=
  if bool_decide (s = str "1") then Some kDisplayOnlineUsers
  else if bool_decide (s = str "2") then Some kChatWithUser
  else None.

Lemma cmd_find_command_of c : cmd_find c = command_of [c].
Proof. by destruct c. Qed.

Lemma command_of_long c1 c2 s : command_of (c1 :: c2 :: s) = None.
Proof. unfold command_of. by rewrite !bool_decide_eq_false_2. Qed.

(** A question, as [ask_command] deals with the line read. *)
Lemma ask_command_step fuel (w : world K) :
  ask_command (S fuel) w =
  (user_cmd ← con_read (str "Enter your choice >");
   match command_of user_cmd with
   | Some cmd => mret cmd
   | None => _ ← con_write (str "Invalid selection, try again"); ask_command fuel
   end) w.
Proof.
  cbn [ask_command]. unfold mbind, M_bind. destruct (con_read _ w) as [[s w']| | |]; try done.
  repeat change (Ok ?x ≫= ?f) with (f x). cbn beta iota. destruct s as [|c [|c2 s]]; [done| |].
  - rewrite cmd_find_command_of. by destruct (command_of [c]).
  - by rewrite command_of_long.
Qed.

Lemma ask_command_run fuel ls l cmd rest (w : world K) :
  Forall (Forall (λ z, z ≠ kNewLine)) (ls ++ [l]) →
  Forall (λ l, command_of (foldl edit [] l) = None) ls →
  command_of (foldl edit [] l) = Some cmd →
  con w = Console_init →
  typed w = concat (map (λ l, l ++ [kNewLine]) (ls ++ [l])) ++ rest →
  (length ls < fuel)%nat →
  ∃ out, ask_command fuel w = Ok (cmd, mkWorld (app w) Console_init out rest (net w)).
Proof.
  intros Hn Hls Hl. revert fuel w.
  induction Hls as [|l' ls Hl' Hls IH]; intros fuel w Hc Ht Hf;
    (destruct fuel as [|fuel]; [cbn in Hf; lia|]); rewrite ask_command_step;
    cbn in Ht; rewrite <- !app_assoc in Ht; cbn in Ht; apply Forall_cons in Hn as [Hn1 Hn2].
  - destruct (con_read_run (str "Enter your choice >") l rest w) as [out Er]; [done..|].
    rewrite (M_bind_ok _ _ _ _ _ Er), Hl. by eexists.
  - destruct (con_read_run (str "Enter your choice >") l'
      (concat (map (λ l, l ++ [kNewLine]) (ls ++ [l])) ++ rest) w) as [out Er]; [done..|].
    rewrite (M_bind_ok _ _ _ _ _ Er), Hl', (M_bind_ok _ _ _ _ _ (con_write_run _ _)).
    edestruct (IH Hn2 fuel) as [out' E]; [| | |exists out'; exact E]; [done..|cbn in Hf; lia].
Qed.

End menu.

(** ** The scripted kernel as a network *)

Lemma script_sendB_recv fuel tx n s k b k' :
  sendB fuel tx n s k = Ok (b, k') → sc_recv k' = sc_recv k.
Proof.
  unfold sendB. generalize 0%Z. revert k. induction fuel as [|fuel IH]; intros k curr; [done|].
  cbn. destruct (curr <? n)%Z; [|by intros [= _ <-]]. unfold sendNb.
  destruct (rd _ _) as [[data ?]| | |]; try done. cbn.
  destruct (script_send data k) as [m k1] eqn:E.
  assert (sc_recv k1 = sc_recv k) as <-.
  { unfold script_send in E. destruct (sc_send k) as [|[]]; by injection E as <- <-. }
  intros Hs. inv_ok.
  repeat match goal with H : context [if ?c then _ else _] |- _ => destruct c end;
    simplify_eq; eauto.
Qed.

(** A network on which every call succeeds and the server answers [reply]. *)
Definition answering (reply : bytes) : script := mkScript 0 [] [] [] [reply] [] [].

Lemma answering_serves fuel a request reply :
  (0 < length reply ≤ 1000)%nat → (1000 < fuel)%nat →
  serves fuel a (answering reply) request reply.
Proof.
  intros Hr Hf. exists (mkSocket true 3), (answering reply), (λ k, length (sc_send k)).
  split_and!; [by destruct fuel; [lia|]|done|apply script_sending|cbn; lia|].
  intros tx n k2 Hs%script_sendB_recv _. cbn in Hs.
  destruct (script_recv 1000 k2) as [[m data] k3] eqn:E. exists 0%nat, k3. split; [lia|].
  split; [|done]. apply delivers_now. cbn. rewrite E. unfold script_recv in E. rewrite Hs in E.
  destruct reply as [|x reply]; [cbn in Hr; lia|].
  rewrite take_ge in E by lia. by injection E as <- <- <-.
Qed.

(** A network on which the server closes the connection. *)
Definition closing : script := mkScript 0 [] [] [] [] [] [].

Lemma closing_closes fuel a : (1000 < fuel)%nat → closes fuel a closing.
Proof.
  intros Hf. exists (mkSocket true 3), closing, (λ k, length (sc_send k)), (λ k, sc_recv k = []).
  split_and!; [by destruct fuel; [lia|]|apply script_sending|cbn; lia|apply script_closed|].
  intros tx n k2 Hs. by apply script_sendB_recv in Hs.
Qed.

(** A world in which the line [s] is about to be typed. *)
Definition line_typed (s : bytes) : list Z := map byte.unsigned s ++ [kNewLine].

Definition world_of {K} (a : App) (s : bytes) (k : K) : world K :=
  mkWorld a Console_init [] (line_typed s) k.
