(* ===== verification/AppTheorems.v ===== *)
(** The properties of the client application, alone and against the server. *)

From S2P Require Import Prelude.
From S2P Require Import Common.
From S2P Require Import Database.
From S2P Require Import Packet.
From S2P Require Import Wire.
From S2P Require Import Server.
From S2P Require Import ServerProofs.
From S2P Require Import BinaryTheorems.
From S2P Require Import Socket.
From S2P Require Import ServerApp.
From S2P Require Import ServerAppProofs.
From S2P Require Import Console.
From S2P Require Import App.
From S2P Require Import AppProofs.

#[local] Existing Instance canonical_order.

(** ** Registration *)

Lemma register_answer_wf id : u32 id → wf_packet (register_answer id).
Proof. intros Hid. split; cbn; done. Qed.

(** C12. Registration end to end: when the client's request reaches a thread of the server
    and what the thread sends reaches the client, the server has registered the name the
    user typed and edited under the next ID, with an empty queue, and the client holds
    that name and that ID. *)
Theorem registration_end_to_end {ord : UMapOrder Z UserMetadata} `{ProtobufLaws}
    {K1 : Type} `{!Kernel K1, !KernelLaws K1} {K2 : Type} `{!Kernel K2, !KernelLaws K2}
    fuel fd db (ks ks1 : K2) n patience l rest (w : world K1) :
  let name := foldl edit [] l in
  let request := wire (register_request name) in
  let reply := wire (register_answer (next_id_ db)) in
  ascii name → u32 (next_id_ db) →
  (0 < length request ≤ 1000)%nat → (0 < length reply ≤ 1000)%nat →
  (* the server's side *)
  delivers fd 1024 request n ks ks1 → sending fd patience →
  (n < fuel)%nat → (1024 + patience ks1 < fuel)%nat →
  (* the client's side *)
  Forall (λ z, z ≠ kNewLine) l → con w = Console_init → typed w = l ++ kNewLine :: rest →
  serves fuel (app w) (net w) request reply →
  let db' := (Database.registerUser name db).2 in
  (∃ ks', handleRequest fuel fd db ks = Ok (db', sys_close fd ks') ∧
          sent fd ks' = sent fd ks ++ reply) ∧
  ∃ w', App.registerUser fuel w = Ok ((), w') ∧
        id_ (app w') = next_id_ db ∧ username_ (app w') = name ∧
        user_map_ db' !! id_ (app w') = Some (mkUserMetadata name []).
Proof.
  intros name request reply Hn Hid Hreq Hrep Hd Hp Hf1 Hf2 Hl Hc Ht Hs db'.
  unfold request in Hreq. unfold reply in Hrep.
  pose proof (ByteSizeLong_wire (register_request name)) as Ereq.
  pose proof (ByteSizeLong_wire (register_answer (next_id_ db))) as Erep.
  assert (0 < ByteSizeLong (register_request name) ≤ 1000)%Z as Hq by (rewrite Ereq; lia).
  assert (0 < ByteSizeLong (register_answer (next_id_ db)) ≤ 1000)%Z as Hr by (rewrite Erep; lia).
  clear Ereq Erep. split.
  - assert (0 < ByteSizeLong (register_request name) ≤ 1024)%Z as Hq' by lia.
    pose proof (handleRequest_answer fuel fd db ks (register_request name) n ks1 patience
      (register_request_wf name Hn) Hq' Hd Hp Hf1 Hf2) as Ha.
    cbn in Ha. by rewrite decide_True in Ha by lia.
  - destruct (registerUser_run fuel l rest (register_answer (next_id_ db)) w)
      as (out & k & E); try done; [exact (proj2 Hq)|].
    eexists. split; [exact E|]. cbn. by rewrite lookup_insert_eq.
Qed.

Definition new_app : App := App_init (str "127.0.0.1") 8080 7.

Lemma registration_end_to_end_witness :
  let l := map byte.unsigned (str "Eve") in
  let request := wire_Packet (register_request (str "Eve")) in
  let reply := wire_Packet (register_answer 2) in
  ∃ w', App.registerUser 2000 (world_of new_app (str "Eve") (answering reply)) = Ok ((), w') ∧
        id_ (app w') = 2%Z ∧ username_ (app w') = str "Eve".
Proof.
  intros l request reply.
  destruct (registration_end_to_end 2000 3 two_users (peer request)
    (mkScript EAGAIN [] [] [] [] [] request) 1 (λ k, length (sc_send k)) l []
    (world_of new_app (str "Eve") (answering reply)))
    as [_ (w' & E & Hid & Hn & _)].
  - apply (bool_decide_eq_true_1 _). by vm_compute.
  - done.
  - vm_compute. lia.
  - vm_compute. lia.
  - apply peer_delivers. vm_compute. lia.
  - apply script_sending.
  - lia.
  - cbn. lia.
  - apply (bool_decide_eq_true_1 _). by vm_compute.
  - done.
  - done.
  - apply answering_serves; [vm_compute; lia|lia].
  - exists w'. exact (conj E (conj Hid Hn)).
Defined.

(** The client does not check the registration: whatever well-formed packet answers,
    a negative response or a packet without a register response included, it takes the
    ID the packet assigns, 0 if there is none, and goes on. *)
Theorem registration_unchecked `{ProtobufLaws} {K : Type} `{KernelLaws K}
    fuel l rest resp (w : world K) :
  let name := foldl edit [] l in
  Forall (λ z, z ≠ kNewLine) l → con w = Console_init → typed w = l ++ kNewLine :: rest →
  (ByteSizeLong (register_request name) ≤ 1000)%Z →
  wf_packet resp → (0 < ByteSizeLong resp ≤ 1000)%Z →
  serves fuel (app w) (net w) (wire (register_request name)) (wire resp) →
  ∃ w', App.registerUser fuel w = Ok ((), w') ∧ username_ (app w') = name ∧
    id_ (app w') = default 0%Z (r ← resp_reg resp; pr_assigned_id r).
Proof.
  intros name Hl Hc Ht Hreq Hwf Hresp Hs.
  destruct (registerUser_run fuel l rest resp w) as (out & k & E); [done..|].
  eexists. split; [exact E|]. split; [done|]. cbn. by destruct (resp_reg resp).
Qed.

Lemma registration_unchecked_witness :
  let resp := with_resp_reg (mkRespRegister (Some 1%Z) None)
                (packet_of_type PACKET_TYPE_RESP_REGISTER) in
  ∃ w', App.registerUser 2000 (world_of new_app (str "Eve") (answering (wire_Packet resp))) =
          Ok ((), w') ∧ username_ (app w') = str "Eve" ∧ id_ (app w') = 0%Z.
Proof.
  intros resp.
  apply (registration_unchecked 2000 (map byte.unsigned (str "Eve")) [] resp
    (world_of new_app (str "Eve") (answering (wire_Packet resp)))).
  - apply (bool_decide_eq_true_1 _). by vm_compute.
  - done.
  - done.
  - by vm_compute.
  - by split.
  - by vm_compute.
  - apply answering_serves; [vm_compute; lia|lia].
Defined.

(** A name whose request does not fit the 1000 bytes of the transmit buffer makes
    the client send from beyond the buffer. *)
Theorem long_name_reads_out_of_bounds `{ProtobufLaws} {K : Type} `{KernelLaws K}
    fuel l rest (w : world K) s k1 :
  Forall (λ z, z ≠ kNewLine) l → con w = Console_init → typed w = l ++ kNewLine :: rest →
  (1000 < ByteSizeLong (register_request (foldl edit [] l)))%Z → (0 < fuel)%nat →
  connection fuel w = Ok (s, with_net k1 w) →
  App.registerUser fuel w = Oob.
Proof.
  intros Hl Hc Ht Hreq Hf Econn. unfold App.registerUser.
  rewrite (M_bind_ok _ _ _ _ _ Econn).
  destruct (con_read_run (str "Hi, there. Enter your name to start chatting >") l rest
    (with_net k1 w)) as [out Er]; [done..|].
  rewrite (M_bind_ok _ _ _ _ _ Er), (M_bind_ok _ _ _ _ _ (modify_app_run _ _)).
  apply M_bind_oob, exchange_oob; [|done]. by rewrite length_replicate.
Qed.

Lemma long_name_reads_out_of_bounds_witness :
  App.registerUser 2000 (world_of new_app (replicate 1000 x61) closing) = Oob.
Proof.
  apply (long_name_reads_out_of_bounds 2000 (replicate 1000 97%Z) []
    (world_of new_app (replicate 1000 x61) closing) (mkSocket true 3) closing).
  - by apply Forall_replicate.
  - done.
  - by vm_compute.
  - by vm_compute.
  - lia.
  - by vm_compute.
Defined.

(** ** The online users *)

(** A database whose IDs and names survive the wire. *)
Definition db_wire (db : Database) : Prop :=
  map_Forall (λ k u, u32 k ∧ ascii (username u)) (user_map_ db).

#[export] Instance db_wire_dec db : Decision (db_wire db) := _.

Lemma users_answer_wf {ord : UMapOrder Z UserMetadata} id db :
  db_wire db → wf_packet (users_answer 0 (others id (umap_seq (user_map_ db)))).
Proof.
  intros Hdb. split; cbn; try done. split; [done|].
  apply Forall_map, Forall_forall. intros [k u] [_ Hin]%list_elem_of_filter.
  apply elem_of_umap_seq in Hin. exact (Hdb k u Hin).
Qed.

(** The names after the response: those of the other users, each with the ID of a user of
    that name. *)
Definition names_of_others (id : Z) (db : Database) (a : App) : Prop :=
  (∀ name k, name_to_id_ a !! name = Some k →
     k ≠ id ∧ ∃ q, user_map_ db !! k = Some (mkUserMetadata name q)) ∧
  (∀ k u, user_map_ db !! k = Some u → k ≠ id → is_Some (name_to_id_ a !! username u)).

Lemma users_effect_others {ord : UMapOrder Z UserMetadata} {ord' : UMapOrder bytes Z} id db a :
  names_of_others id db
    (users_effect (users_answer 0 (others id (umap_seq (user_map_ db)))) a).
Proof.
  unfold names_of_others. rewrite users_effect_names by done. cbn. split.
  - intros name k (u & Hin & <- & <-)%names_of_sound.
    apply list_elem_of_fmap in Hin as ([k u'] & -> & [Hk Hin]%list_elem_of_filter).
    cbn. split; [done|]. apply elem_of_umap_seq in Hin. destruct u' as [name q]. by exists q.
  - intros k u Hk Hne. eapply (names_of_complete _ (mkOnlineUser (Some k) (Some (username u)))).
    apply list_elem_of_fmap. exists (k, u). split; [done|]. apply list_elem_of_filter.
    by rewrite elem_of_umap_seq.
Qed.

(** C13. The online users end to end: when the request of the background loop reaches a
    thread of the server and the answer reaches the client, the turn terminates and the
    client's map holds exactly the names of the other registered users, each with the ID
    of a user of that name. *)
Theorem online_users_end_to_end {ord : UMapOrder Z UserMetadata} {ord' : UMapOrder bytes Z}
    `{ProtobufLaws} {K1 : Type} `{!Kernel K1, !KernelLaws K1}
    {K2 : Type} `{!Kernel K2, !KernelLaws K2}
    fuel fd db (ks ks1 : K2) n patience bufs z (w : world K1) :
  let id := id_ (app w) in
  let answer := users_answer 0 (others id (umap_seq (user_map_ db))) in
  let request := wire (users_request id) in
  userExists id db = true → u32 id → db_wire db →
  (0 < ByteSizeLong (users_request id) ≤ 1000)%Z → (0 < ByteSizeLong answer ≤ 1000)%Z →
  (* the server's side *)
  delivers fd 1024 request n ks ks1 → sending fd patience →
  (n < fuel)%nat → (1024 + patience ks1 < fuel)%nat →
  (* the client's side *)
  length bufs.1 = 1000%nat → length bufs.2 = 1000%nat →
  drop (length (wire answer)) bufs.2 = replicate z x00 →
  serves fuel (app w) (net w) request (wire answer) →
  (∃ ks', handleRequest fuel fd db ks = Ok (db, sys_close fd ks') ∧
          sent fd ks' = sent fd ks ++ wire answer) ∧
  ∃ bufs' w', users_turn fuel bufs w = Ok (bufs', w') ∧
    (∀ name k, name_to_id_ (app w') !! name = Some k →
       k ≠ id ∧ ∃ q, user_map_ db !! k = Some (mkUserMetadata name q)) ∧
    (∀ k u, user_map_ db !! k = Some u → k ≠ id → is_Some (name_to_id_ (app w') !! username u)).
Proof.
  intros id answer request Hex Hid Hdb Hreq Hans Hd Hp Hf1 Hf2 Hb1 Hb2 Hz Hs.
  pose proof (ByteSizeLong_wire answer) as Ea. split.
  - assert (0 < ByteSizeLong (users_request id) ≤ 1024)%Z as Hreq' by lia.
    assert (wf_packet (users_request id)) as Hwf by (split; cbn; done).
    pose proof (handleRequest_answer fuel fd db ks (users_request id) n ks1 patience
      Hwf Hreq' Hd Hp Hf1 Hf2) as Ha.
    unfold answer_packet in Ha. cbn in Ha. rewrite Hex in Ha.
    rewrite decide_True in Ha; [done|]. change (length (wire answer) ≤ 1024)%nat. lia.
  - destruct (users_turn_run fuel bufs answer z w) as (bufs' & w' & E & Ha & _);
      [done|done|exact (proj2 Hreq)|by apply users_answer_wf|done|done|done|].
    exists bufs', w'. split; [done|]. rewrite Ha. apply users_effect_others.
Qed.

Lemma online_users_end_to_end_witness :
  let w := mkWorld (set_id 1 new_app) Console_init [] []
    (answering (wire_Packet (users_answer 0 [(0%Z, mkUserMetadata (str "Ann") [])]))) in
  ∃ bufs' w', users_turn 2000 zeros w = Ok (bufs', w') ∧
    is_Some (name_to_id_ (app w') !! str "Ann").
Proof.
  intros w.
  destruct (online_users_end_to_end 2000 3 two_users (peer (wire_Packet (users_request 1)))
    (mkScript EAGAIN [] [] [] [] [] (wire_Packet (users_request 1))) 1
    (λ k, length (sc_send k)) zeros
    (1000 - length (wire_Packet (users_answer 0 [(0%Z, mkUserMetadata (str "Ann") [])])))
    w) as [_ (bufs' & w' & E & _ & Hin)].
  - done.
  - done.
  - apply (bool_decide_eq_true_1 _). by vm_compute.
  - by vm_compute.
  - by vm_compute.
  - apply peer_delivers. vm_compute. lia.
  - apply script_sending.
  - lia.
  - cbn. lia.
  - done.
  - done.
  - by vm_compute.
  - apply answering_serves; [vm_compute; lia|lia].
  - exists bufs', w'. split; [exact E|].
    exact (Hin 0%Z (mkUserMetadata (str "Ann") []) eq_refl ltac:(done)).
Defined.

(** The two maps of names agree: after any sequence of the critical sections of the
    client's threads, every ID that has a name in [id_to_name_] is the ID of that name
    in [name_to_id_], and right after a refresh that changed the maps every ID in
    [name_to_id_] has a name. *)
Theorem name_maps_agree {ord : UMapOrder bytes Z} ip port uninit a :
  rtc section_step (App_init ip port uninit) a →
  names_agree a ∧ ∀ new, new ≠ name_to_id_ a → ids_known (refresh new a).2.
Proof.
  intros Ha. split; [|intros new Hn; apply refresh_known; auto].
  assert (names_agree (App_init ip port uninit)) as H0 by (intros i n H; done).
  induction Ha as [a|a b c Hab Hbc IH]; [done|]. apply IH.
  destruct Hab; [by apply refresh_agree|by apply lookup_target_agree].
Qed.

Lemma name_maps_agree_witness :
  names_agree (lookup_target (str "Bob") (refresh {[ str "Ann" := 4%Z ]} new_app).2).2.
Proof.
  apply (name_maps_agree (str "127.0.0.1") 8080 7).
  eapply rtc_l; [apply (step_refresh {[ str "Ann" := 4%Z ]})|].
  eapply rtc_l; [apply (step_lookup (str "Bob"))|]. apply rtc_refl.
Defined.

(** ** Messages *)

(** C32. A turn of the chat sends the line that was typed and edited, from the user's ID,
    to the ID the map holds for the target at that moment; if the target has vanished
    from the map, it sends it to the user with ID 0 and enters that ID for the name. The
    turn ends when the server answers, and the chat goes on if the answer has a status. *)
Theorem chat_turn_sends {ord : UMapOrder bytes Z} `{ProtobufLaws} {K : Type} `{KernelLaws K}
    fuel l rest tgt bufs resp n (w : world K) :
  let m := foldl edit [] l in
  let tgt_id := default 0%Z (name_to_id_ (app w) !! tgt) in
  let req := send_request (id_ (app w)) tgt_id m in
  Forall (λ z, z ≠ kNewLine) l → con w = Console_init → typed w = l ++ kNewLine :: rest →
  m ≠ str "x" →
  length bufs.1 = 1000%nat → length bufs.2 = 1000%nat →
  (ByteSizeLong req ≤ 1000)%Z → wf_packet resp → (0 < ByteSizeLong resp ≤ 1000)%Z →
  drop (length (wire resp)) bufs.2 = replicate n x00 →
  serves fuel (app w) (net w) (wire req) (wire resp) →
  ∃ res w', chat_turn fuel tgt bufs w = Ok (res, w') ∧ typed w' = rest ∧
    name_to_id_ (app w') !! tgt = Some tgt_id ∧
    (is_Some res ↔ is_Some (r ← resp_send resp; ps_resp_value r)).
Proof.
  intros m tgt_id req Hl Hc Ht Hx H1' H2' Hreq Hwf Hresp Hz Hs.
  destruct (lookup_target_run tgt (app w)) as [El Ei].
  pose proof (chat_turn_run fuel l rest tgt bufs resp n w) as Hrun. cbn zeta in Hrun.
  rewrite El in Hrun.
  destruct Hrun as (res & out & k & E & Hres); [done..|].
  exists res. eexists. by split_and!.
Qed.

Definition send_answer (v : Z) : Packet :=
  mkPacket (Some (mkHdr (Some PACKET_TYPE_RESP_SEND))) None None None None None None
    (Some (mkRespSend (Some v))) None.

Lemma chat_turn_sends_witness :
  let w := world_of new_app (str "hello") (answering (wire_Packet (send_answer 0))) in
  ∃ res w', chat_turn 2000 (str "Bob") zeros w = Ok (res, w') ∧
    name_to_id_ (app w') !! str "Bob" = Some 0%Z.
Proof.
  intros w.
  destruct (chat_turn_sends 2000 (map byte.unsigned (str "hello")) [] (str "Bob") zeros
    (send_answer 0) (1000 - length (wire_Packet (send_answer 0))) w)
    as (res & w' & E & _ & Hn & _).
  - apply (bool_decide_eq_true_1 _). by vm_compute.
  - done.
  - done.
  - by vm_compute.
  - done.
  - done.
  - by vm_compute.
  - by split.
  - by vm_compute.
  - by vm_compute.
  - apply answering_serves; [vm_compute; lia|lia].
  - exists res, w'. exact (conj E Hn).
Defined.

(** C38. The client hangs on a server that closes the connection without an answer, as
    this server does for requests to send and to receive messages: neither the turn of
    the loop that waits for messages nor the turn of a chat ever returns. *)
Theorem client_hangs_without_answer {ord : UMapOrder bytes Z} `{ProtobufLaws} {K : Type}
    `{KernelLaws K} fuel l rest tgt bufs (w : world K) :
  let m := foldl edit [] l in
  let tgt_id := default 0%Z (name_to_id_ (app w) !! tgt) in
  length bufs.1 = 1000%nat → closes fuel (app w) (net w) →
  ((ByteSizeLong (recv_request (id_ (app w))) ≤ 1000)%Z →
   messages_turn fuel bufs w = Blocked) ∧
  (Forall (λ z, z ≠ kNewLine) l → con w = Console_init → typed w = l ++ kNewLine :: rest →
   m ≠ str "x" →
   (ByteSizeLong (send_request (id_ (app w)) tgt_id m) ≤ 1000)%Z →
   chat_turn fuel tgt bufs w = Blocked).
Proof.
  intros m tgt_id Hb Hcl. split.
  - intros Hreq. destruct (close_run fuel (recv_request (id_ (app w))) bufs.1 bufs.2 w)
      as (s & k1 & Ec & Ex); [done..|].
    unfold messages_turn. rewrite (M_bind_ok _ _ _ _ _ Ec), (M_bind_ok _ _ _ _ _ (get_app_run _)).
    apply M_bind_blocked. by apply Ex.
  - intros Hl Hc Ht Hx Hreq. destruct (lookup_target_run tgt (app w)) as [El _].
    destruct (con_read_run (str "Send message to " ++ tgt ++ str ">") l rest w)
      as [out Er]; [done..|].
    destruct (close_run fuel (send_request (id_ (app w)) tgt_id m) bufs.1 bufs.2
      (mkWorld (app w) Console_init (stdout w ++ out) rest (net w))) as (s & k1 & Ec & Ex);
      [done..|].
    unfold chat_turn. rewrite (M_bind_ok _ _ _ _ _ Er). fold m.
    rewrite bool_decide_eq_false_2 by done.
    rewrite (M_bind_ok _ _ _ _ _ Ec), (M_bind_ok _ _ _ _ _ (get_app_run _)).
    erewrite M_bind_ok by (apply section_app_run; exact El).
    apply M_bind_blocked. by apply Ex.
Qed.

Lemma client_hangs_without_answer_witness :
  messages_turn 2000 zeros (world_of new_app (str "hello") closing) = Blocked ∧
  chat_turn 2000 (str "Bob") zeros (world_of new_app (str "hello") closing) = Blocked.
Proof.
  destruct (client_hangs_without_answer 2000 (map byte.unsigned (str "hello")) [] (str "Bob")
    zeros (world_of new_app (str "hello") closing) ltac:(done)
    ltac:(apply closing_closes; lia)) as [Hm Hc].
  split; [apply Hm; by vm_compute|].
  apply Hc; [|done|done|by vm_compute|by vm_compute].
  apply (bool_decide_eq_true_1 _). by vm_compute.
Defined.

(** A turn of the loop that waits for messages writes every message of the response
    in order, each with the name the client knows for the sender's ID, and changes
    neither the maps nor the console. *)
Theorem messages_turn_writes_all `{ProtobufLaws} {K : Type} `{KernelLaws K}
    fuel bufs value ms n (w : world K) :
  let resp := recv_answer value ms in
  let text m := match id_to_name_ (app w) !! sender_id m with
                | Some name => name ++ str "> "
                | None => str "Unknown sender > "
                end ++ msg m in
  length bufs.1 = 1000%nat → length bufs.2 = 1000%nat →
  (ByteSizeLong (recv_request (id_ (app w))) ≤ 1000)%Z →
  wf_packet resp → (0 < ByteSizeLong resp ≤ 1000)%Z →
  drop (length (wire resp)) bufs.2 = replicate n x00 →
  serves fuel (app w) (net w) (wire (recv_request (id_ (app w)))) (wire resp) →
  ∃ bufs' k, messages_turn fuel bufs w =
    Ok (bufs', mkWorld (app w) (con w) (stdout w ++ written (map text ms) (con w)) (typed w) k).
Proof.
  intros resp text H1' H2' Hreq Hwf Hresp Hz Hs.
  destruct (messages_turn_run fuel bufs resp n w) as (bufs' & k & ->); [done..|].
  assert (map (message_text (id_to_name_ (app w)))
    (messages (default RespRecv_default (resp_recv resp))) = map text ms) as -> by apply map_map.
  by exists bufs', k.
Qed.

Lemma messages_turn_writes_all_witness :
  let w := mkWorld (set_id_to_name {[ 4%Z := str "Ann" ]} new_app) Console_init [] []
    (answering (wire_Packet (recv_answer 0 [mkMsg 4 (str "hi"); mkMsg 5 (str "yo")]))) in
  ∃ bufs' k, messages_turn 2000 zeros w =
    Ok (bufs', mkWorld (app w) (con w)
      (written [str "Ann> hi"; str "Unknown sender > yo"] Console_init) [] k).
Proof.
  intros w.
  destruct (messages_turn_writes_all 2000 zeros 0 [mkMsg 4 (str "hi"); mkMsg 5 (str "yo")]
    (1000 - length (wire_Packet (recv_answer 0 [mkMsg 4 (str "hi"); mkMsg 5 (str "yo")]))) w)
    as (bufs' & k & E).
  - done.
  - done.
  - by vm_compute.
  - split; cbn; try done. split; [done|].
    repeat constructor; try done; apply (bool_decide_eq_true_1 _); by vm_compute.
  - by vm_compute.
  - by vm_compute.
  - apply answering_serves; [vm_compute; lia|lia].
  - exists bufs', k. exact E.
Defined.

(** ** The menu *)

(** The menu returns the command of the first line that is exactly 1 or 2, after
    editing: every other line, the empty one included, is refused and asked again, and
    nothing after the line chosen is consumed. *)
Theorem getUserCommand_chooses {K : Type} fuel ls l cmd rest (w : world K) :
  Forall (Forall (λ z, z ≠ kNewLine)) (ls ++ [l]) →
  Forall (λ l, command_of (foldl edit [] l) = None) ls →
  command_of (foldl edit [] l) = Some cmd →
  con w = Console_init →
  typed w = concat (map (λ l, l ++ [kNewLine]) (ls ++ [l])) ++ rest →
  (length ls < fuel)%nat →
  ∃ out, getUserCommand fuel w = Ok (cmd, mkWorld (app w) Console_init out rest (net w)).
Proof.
  intros Hn Hls Hl Hc Ht Hf. unfold getUserCommand. rewrite (M_bind_ok _ _ _ _ _ (get_app_run w)).
  do 3 rewrite (M_bind_ok _ _ _ _ _ (con_write_run _ _)).
  match goal with |- ∃ _, ask_command _ ?w' = _ =>
    destruct (ask_command_run fuel ls l cmd rest w') as [out E]; try done; by exists out
  end.
Qed.

Lemma getUserCommand_chooses_witness :
  let w := mkWorld new_app Console_init []
             ([10] ++ [51; 10] ++ [49; 50; 10] ++ [51; 127; 50; 10] ++ [104])%Z closing in
  ∃ out, getUserCommand 9 w =
    Ok (kChatWithUser, mkWorld new_app Console_init out [104%Z] closing).
Proof.
  intros w. apply (getUserCommand_chooses 9 [[]; [51]; [49; 50]]%Z [51; 127; 50]%Z kChatWithUser
    [104%Z] w).
  - apply (bool_decide_eq_true_1 _). by vm_compute.
  - apply (bool_decide_eq_true_1 _). by vm_compute.
  - by vm_compute.
  - done.
  - done.
  - cbn. lia.
Defined.

(** ** [ClientParser] against [MccServer] *)

Lemma rd_header_x08 data :
  (4 ≤ length data)%nat →
  ∃ l p, rd_header (x08 :: data) = Ok (mkHeader (kOtherType x08) l, p).
Proof.
  intros Hl. unfold rd_header, rd32, rd. cbn. rewrite (proj2 (Z.ltb_ge _ _)) by lia. cbn.
  by do 2 eexists.
Qed.

Lemma length_varint_pos fuel z : (0 < length (varint (S fuel) z))%nat.
Proof. cbn. destruct (_ <? _)%Z; cbn; lia. Qed.

(** The register request of [ClientParser] does not register its name: its first byte
    is no packet type of the binary protocol, so the server takes it for a protobuf
    request, whose header swallows the name, and registers the empty name. *)
Theorem parser_request_registers_empty_name {ord : UMapOrder Z UserMetadata} name s :
  name ≠ [] → (10 ≤ length (tx_buffer_ s))%nat →
  let data := encodeRequestRegister name in
  parse data (Z.of_nat (length data)) s =
    Ok (10%Z, mkMccServer (Database.registerUser [] (db_ s)).2
                (register_resp (next_id_ (db_ s)) ++ drop 10 (tx_buffer_ s))).
Proof.
  intros Hn Hb data.
  assert (∃ r, data = x08 :: r ∧ (4 ≤ length r)%nat) as (r & Hd & Hr).
  { exists (x00 :: x0a :: enc_varint (Z.of_nat (length name)) ++ name).
    assert (data = [x08; x00; x0a] ++ (enc_varint (Z.of_nat (length name)) ++ name) ++ []) as ->
      by reflexivity.
    rewrite app_nil_r. split; [done|]. cbn [length]. rewrite length_app.
    destruct name as [|x name]; [done|]. unfold enc_varint.
    pose proof (length_varint_pos 9 (Z.of_nat (length (x :: name)))). cbn [length] in *. lia. }
  unfold parse. rewrite Hd. destruct (rd_header_x08 r Hr) as (l & p & ->).
  cbn [mbind outcome_bind type]. rewrite <- Hd, rd_all by done.
  cbn [mbind outcome_bind]. apply parseRequestRegisterProto_empty; [|done].
  cbn [Header_ParseFromIstream wire_protobuf]. by destruct (fields data).
Qed.

Lemma parser_request_registers_empty_name_witness :
  parse (encodeRequestRegister (str "Tilak")) 9 (mkMccServer two_users (replicate 16 x00)) =
    Ok (10%Z, mkMccServer (Database.registerUser [] two_users).2
                (register_resp 2 ++ replicate 6 x00)).
Proof.
  by apply (parser_request_registers_empty_name (str "Tilak")
    (mkMccServer two_users (replicate 16 x00))); [|cbn; lia].
Defined.

