(* ===== verification/Loops.v ===== *)
(** The background loops of the client over many turns: the receive buffer is parsed
    whole and keeps what longer responses have left in it. What the loop for messages shows
    for any replies, and why the loop for the users, whose responses grow, is not harmed. *)

From S2P Require Import Prelude.
From S2P Require Import Common.
From S2P Require Import Database.
From S2P Require Import Packet.
From S2P Require Import Wire.
From S2P Require Import Socket.
From S2P Require Import ServerAppProofs.
From S2P Require Import Console.
From S2P Require Import App.
From S2P Require Import AppProofs.
From S2P Require Import AppTheorems.
From Stdlib Require Import Sorted.

(** ** A server that answers one request after the other *)

Section loops.
  Context `{ProtobufLaws} {K : Type} `{KernelLaws K} {ord : UMapOrder bytes Z}.

Fixpoint serves_all (fuel : nat) (a : App) (k : K) (request : bytes) (replies : list bytes) : Prop :=
  match replies with
  | [] => True
  | reply :: replies =>
      serves_then fuel a k request reply (λ k, serves_all fuel a k request replies)
  end.

(** What a users response leaves alone. *)
Lemma users_effect_same resp a :
  id_ (users_effect resp a) = id_ a ∧ kServerIp (users_effect resp a) = kServerIp a ∧
  kServerPort (users_effect resp a) = kServerPort a.
Proof. unfold users_effect, refresh. by repeat case_match. Qed.

Lemma serves_all_same fuel a a' k request replies :
  kServerIp a' = kServerIp a → kServerPort a' = kServerPort a →
  serves_all fuel a k request replies → serves_all fuel a' k request replies.
Proof.
  intros Hip Hport. revert k. induction replies as [|reply replies IH]; intros k; [done|]. cbn.
  intros (s & k1 & patience & Ec & Hs & Hp & Hf & Hd). exists s, k1, patience.
  rewrite Hip, Hport. split_and!; [done..|]. intros tx n k2 Eb Hsent.
  destruct (Hd tx n k2 Eb Hsent) as (m & k3 & Hm & Hdel & HQ). exists m, k3. auto.
Qed.

(** The background threads of [run] take the turns of their loops. *)
Lemma run_turns_t2 fuel n bufs1 bufs2 (w : world K) :
  run_turns fuel (replicate n t2) bufs1 bufs2 w = first_turns (users_turn fuel) n bufs2 w.
Proof.
  revert bufs2 w. induction n as [|n IH]; intros bufs2 w; [done|]. cbn. unfold mbind, M_bind.
  by destruct (users_turn fuel bufs2 w) as [[bufs w']| | |]; [apply IH|..].
Qed.

Lemma run_turns_t1 fuel n bufs1 bufs2 (w : world K) :
  run_turns fuel (replicate n t1) bufs1 bufs2 w = first_turns (messages_turn fuel) n bufs1 w.
Proof.
  revert bufs1 w. induction n as [|n IH]; intros bufs1 w; [done|]. cbn. unfold mbind, M_bind.
  by destruct (messages_turn fuel bufs1 w) as [[bufs w']| | |]; [apply IH|..].
Qed.

(** The turns of [periodicGetOnlineUsers] when no response is shorter than the one before
    it: each is parsed as it was sent. [filled] bytes of the buffer have been used. *)
Lemma users_turns_run fuel resps filled bufs (w : world K) :
  length bufs.1 = 1000%nat → length bufs.2 = 1000%nat →
  drop filled bufs.2 = replicate (1000 - filled) x00 →
  (ByteSizeLong (users_request (id_ (app w))) ≤ 1000)%Z →
  Forall (λ resp, wf_packet resp ∧ (0 < ByteSizeLong resp ≤ 1000)%Z) resps →
  Sorted le (filled :: map (λ resp, length (wire resp)) resps) →
  serves_all fuel (app w) (net w) (wire (users_request (id_ (app w)))) (map wire resps) →
  ∃ w', first_turns (users_turn fuel) (length resps) bufs w = Ok ((), w') ∧
    app w' = foldl (λ a resp, users_effect resp a) (app w) resps ∧
    con w' = con w ∧ typed w' = typed w.
Proof.
  revert filled bufs w. induction resps as [|resp resps IH];
    intros filled bufs w H1' H2' Hz Hreq Hwf Hs Hserve; [by exists w|].
  apply Forall_cons in Hwf as [[Hwf Hl] Hwfs].
  apply Sorted_inv in Hs as [Hs Hfill%HdRel_inv]. cbn in Hserve.
  pose proof (ByteSizeLong_wire resp) as Hw.
  destruct (users_turn_then fuel bufs resp (1000 - length (wire resp))
    (λ k, serves_all fuel (app w) k (wire (users_request (id_ (app w)))) (map wire resps)) w)
    as (bufs' & w1 & E & Ha & Hc & Ht & Hl1 & Hl2 & Hb & Hs1); [done..| |done|].
  { replace (length (wire resp)) with (filled + (length (wire resp) - filled))%nat at 1 by lia.
    rewrite <- drop_drop, Hz, drop_replicate. f_equal. lia. }
  destruct (users_effect_same resp (app w)) as (Eid & Eip & Eport).
  destruct (IH (length (wire resp)) bufs' w1) as (w' & Er & Ha' & Hc' & Ht'); [done|done|..].
  - by rewrite Hb, drop_app_length.
  - by rewrite Ha, Eid.
  - done.
  - done.
  - rewrite Ha, Eid. by apply (serves_all_same fuel (app w)).
  - exists w'. cbn [length first_turns]. rewrite (M_bind_ok _ _ _ _ _ E).
    split; [exact Er|]. cbn. by rewrite Ha', Hc', Ht', Ha.
Qed.

(** ** The loop for messages, whatever the replies *)






(** ** The users of a growing database *)

(** Nobody is forgotten, and nobody changes name. *)
Definition grows (db db' : Database) : Prop :=
  ∀ k u, user_map_ db !! k = Some u →
    ∃ u', user_map_ db' !! k = Some u' ∧ username u' = username u.

End loops.

Lemma grows_registerUser name db :
  user_map_ db !! next_id_ db = None → grows db (Database.registerUser name db).2.
Proof.
  intros Hn k u Hk. exists u. cbn. rewrite lookup_insert_ne; [done|]. intros <-. congruence.
Qed.

Lemma grows_queueMsg id m db : grows db (queueMsg id m db).2.
Proof.
  intros k u Hk. unfold queueMsg, userExists. case_bool_decide as Hex; cbn; [|by exists u].
  destruct Hex as [v Hv]. unfold db_modify, db_index. rewrite Hv. cbn.
  destruct (decide (id = k)) as [->|]; simplify_map_eq; eauto.
Qed.

(** What the loop needs of the library: the encoding of a users response grows with the
    users it lists, whatever their order. *)
Class UsersAnswerGrows `{Protobuf} : Prop := {
  users_answer_grows value us us' :
    map (λ it, (it.1, username it.2)) us ⊆+ map (λ it, (it.1, username it.2)) us' →
    (ByteSizeLong (users_answer value us) ≤ ByteSizeLong (users_answer value us'))%Z;
}.

Lemma length_varint fuel x y :
  (0 ≤ x ≤ y)%Z → (length (varint fuel x) ≤ length (varint fuel y))%nat.
Proof.
  revert x y. induction fuel as [|fuel IH]; intros x y Hxy; [done|]. cbn.
  destruct (Z.ltb_spec x 128), (Z.ltb_spec y 128); cbn; try lia.
  assert (x / 128 ≤ y / 128)%Z by (apply Z.div_le_mono; lia).
  assert (0 ≤ x / 128)%Z by (apply Z.div_pos; lia). specialize (IH (x / 128) (y / 128))%Z. lia.
Qed.

Lemma length_FLen num bs bs' :
  (length bs ≤ length bs')%nat →
  (length (enc_field (FLen num bs)) ≤ length (enc_field (FLen num bs')))%nat.
Proof.
  intros Hl. cbn. rewrite !length_app.
  pose proof (length_varint 10 (Z.of_nat (length bs)) (Z.of_nat (length bs')) ltac:(lia)).
  unfold enc_varint in *. lia.
Qed.

Lemma length_enc_submseteq fs fs' :
  fs ⊆+ fs' → (length (enc_fields fs) ≤ length (enc_fields fs'))%nat.
Proof.
  intros Hs. assert (∀ l, enc_fields l = l ≫= enc_field) as E.
  { intros l. unfold enc_fields. induction l as [|f l IH]; [done|]. cbn. by rewrite IH. }
  rewrite !E. apply submseteq_length. by rewrite Hs.
Qed.

#[export] Instance wire_users_grow : UsersAnswerGrows.
Proof.
  split. intros value us us' Hs. cbn [ByteSizeLong wire_protobuf]. apply Nat2Z.inj_le.
  set (users := λ us : list (Z * UserMetadata),
    enc_fields (f_RespUsers (mkRespUsers (Some value)
      (map (λ it, mkOnlineUser (Some it.1) (Some (username it.2))) us)))).
  assert (∀ us, wire_Packet (users_answer value us) =
    enc_fields (f_Packet (packet_of_type PACKET_TYPE_RESP_USERS)) ++
    enc_field (FLen 7 (users us))) as E.
  { intros l. unfold wire_Packet, enc_fields. cbn. by rewrite !app_nil_r. }
  rewrite !E, !length_app. apply Nat.add_le_mono_l, length_FLen. unfold users, f_RespUsers.
  apply length_enc_submseteq. cbn [pu_resp_value online_users].
  apply submseteq_app; [done|]. rewrite !map_map.
  apply (fmap_submseteq (λ p : Z * bytes,
    FLen 2 (enc_fields (f_OnlineUser (mkOnlineUser (Some p.1) (Some p.2)))))) in Hs.
  by rewrite <- !list_fmap_compose in Hs.
Qed.

(** What a server with this database answers to a users request of [id]. *)
Definition users_of {ord : UMapOrder Z UserMetadata} (id : Z) (db : Database) : Packet :=
  users_answer 0 (others id (umap_seq (user_map_ db))).

Lemma others_grow {ord : UMapOrder Z UserMetadata} id db db' :
  grows db db' →
  map (λ it, (it.1, username it.2)) (others id (umap_seq (user_map_ db))) ⊆+
  map (λ it, (it.1, username it.2)) (others id (umap_seq (user_map_ db'))).
Proof.
  intros Hg. apply NoDup_submseteq.
  - apply (NoDup_fmap_1 fst). rewrite <- list_fmap_compose.
    apply (sublist_NoDup _ (umap_seq (user_map_ db)).*1); [apply NoDup_umap_seq_fst|].
    apply (fmap_sublist fst), sublist_filter.
  - intros [k n] ([k' u] & [= -> ->] & [Hk Hin]%list_elem_of_filter)%list_elem_of_fmap.
    apply elem_of_umap_seq, Hg in Hin as (u' & Hu' & Hn). apply list_elem_of_fmap.
    exists (k', u'). split; [cbn; by rewrite Hn|]. apply list_elem_of_filter.
    by rewrite elem_of_umap_seq.
Qed.

Lemma users_of_grow {ord : UMapOrder Z UserMetadata} `{ProtobufLaws, !UsersAnswerGrows} id db db' :
  grows db db' → (length (wire (users_of id db)) ≤ length (wire (users_of id db')))%nat.
Proof.
  intros Hg. pose proof (users_answer_grows 0 _ _ (others_grow id db db' Hg)) as Hl.
  unfold users_of. rewrite !ByteSizeLong_wire in Hl. lia.
Qed.

Lemma Sorted_map_le {A} (R : A → A → Prop) (f : A → nat) l :
  (∀ x y, R x y → (f x ≤ f y)%nat) → Sorted R l → Sorted le (map f l).
Proof.
  intros Hf. induction 1 as [|x l Hs IH Hx]; cbn; [constructor|]. constructor; [done|].
  destruct Hx; constructor. auto.
Qed.

(** ** Properties *)

(** C15. The online users over time: as long as the list fits the receive buffer, every turn
    of the background loop ends with exactly the users that were registered when the
    server answered it, whatever registrations and messages came between the turns; what
    earlier responses have left in the buffer, which is parsed whole, does no harm because
    no response is shorter than the ones before. *)
Theorem users_loop_follows_database {ord : UMapOrder Z UserMetadata} {ord' : UMapOrder bytes Z}
    `{ProtobufLaws, !UsersAnswerGrows} {K : Type} `{!Kernel K, !KernelLaws K}
    fuel dbs db (w : world K) :
  let id := id_ (app w) in
  (ByteSizeLong (users_request id) ≤ 1000)%Z →
  Sorted grows (dbs ++ [db]) →
  Forall (λ db, db_wire db ∧ (0 < ByteSizeLong (users_of id db) ≤ 1000)%Z) (dbs ++ [db]) →
  serves_all fuel (app w) (net w) (wire (users_request id))
    (map (λ db, wire (users_of id db)) (dbs ++ [db])) →
  ∃ w', periodicGetOnlineUsers fuel (S (length dbs)) w = Ok ((), w') ∧
    names_of_others id db (app w') ∧ con w' = con w ∧ typed w' = typed w.
Proof.
  intros id Hreq Hg Hwf Hs.
  destruct (users_turns_run fuel (map (users_of id) (dbs ++ [db])) 0 zeros w)
    as (w' & Er & Ha & Hc & Ht).
  - done.
  - done.
  - apply length_zeros.
  - done.
  - apply Forall_map. eapply Forall_impl; [exact Hwf|]. intros d [Hd Hl]. cbn.
    split; [by apply users_answer_wf|done].
  - rewrite map_map. constructor.
    + eapply Sorted_map_le; [|exact Hg]. intros d d' Hd. by apply users_of_grow.
    + destruct dbs; constructor; lia.
  - by rewrite map_map.
  - exists w'. rewrite length_map, length_app, Nat.add_comm in Er. split; [exact Er|].
    split; [|done]. rewrite Ha, map_app, foldl_app. apply users_effect_others.
Qed.

#[local] Existing Instance canonical_order.

(** The scripted network answers with one chunk after the other. *)
Lemma script_sendB_chunks fuel tx n s e replies st rc b k' :
  sendB fuel tx n s (mkScript e [] [] [] replies st rc) = Ok (b, k') →
  ∃ st', k' = mkScript e [] [] [] replies st' rc.
Proof.
  unfold sendB. generalize 0%Z. revert st. induction fuel as [|fuel IH]; intros st curr; [done|].
  cbn. destruct (curr <? n)%Z; [|intros [= _ <-]; by eexists]. unfold sendNb.
  destruct (rd _ _) as [[data ?]| | |]; try done. cbn.
  intros Hs. inv_ok.
  repeat match goal with H : context [if ?c then _ else _] |- _ => destruct c end;
    simplify_eq; eauto.
Qed.

Lemma script_serves_all fuel a request e replies st rc :
  Forall (λ reply, (0 < length reply ≤ 1000)%nat) replies → (1000 < fuel)%nat →
  serves_all fuel a (mkScript e [] [] [] replies st rc) request replies.
Proof.
  intros Hr Hf. revert st rc. induction Hr as [|reply replies Hl Hr IH]; intros st rc; [done|].
  exists (mkSocket true 3), (mkScript e [] [] [] (reply :: replies) [] []), (λ k, length (sc_send k)).
  split_and!; [by destruct fuel; [lia|]|done|apply script_sending|cbn; lia|].
  intros tx n k2 (st' & ->)%script_sendB_chunks _. eexists 0%nat, _. split; [lia|]. split.
  - apply delivers_now. cbn. destruct reply as [|x reply]; [cbn in Hl; lia|].
    unfold script_recv. cbn [sc_recv]. rewrite take_ge, drop_ge by lia. reflexivity.
  - apply IH.
Qed.

(** Two users are registered, then a third one. *)
Definition three_users : Database := (Database.registerUser (str "Cid") two_users).2.

Lemma users_loop_follows_database_witness :
  let replies := map (λ db, wire_Packet (users_of 1 db)) [two_users; two_users; three_users] in
  let w := mkWorld (set_id 1 new_app) Console_init [] [] (mkScript 0 [] [] [] replies [] []) in
  ∃ w', periodicGetOnlineUsers 2000 3 w = Ok ((), w') ∧
    is_Some (name_to_id_ (app w') !! str "Ann") ∧ is_Some (name_to_id_ (app w') !! str "Cid") ∧
    name_to_id_ (app w') !! str "Bob" ≠ Some 1%Z.
Proof.
  intros replies w.
  destruct (users_loop_follows_database 2000 [two_users; two_users] three_users w)
    as (w' & E & [Hof Hin] & _).
  - by vm_compute.
  - assert (grows two_users two_users) by (intros k u Hk; by exists u).
    assert (grows two_users three_users) by by apply grows_registerUser.
    repeat (first [assumption | constructor]).
  - apply (bool_decide_eq_true_1 _). by vm_compute.
  - apply script_serves_all; [|lia]. apply (bool_decide_eq_true_1 _). by vm_compute.
  - exists w'. split; [exact E|]. split_and!.
    + by apply (Hin 0%Z (mkUserMetadata (str "Ann") [])).
    + by apply (Hin 2%Z (mkUserMetadata (str "Cid") [])).
    + intros Hb. destruct (Hof _ _ Hb) as [Hk _]. exact (Hk eq_refl).
Defined.

(** ** What shrinking responses do *)



