(* ===== verification/ClientThreads.v ===== *)
(** The threads of the client ([App::run], [src/client/app.cpp]) at the granularity of
    their accesses to what they share: [name_mtx] and the two maps of names, and the
    console. A thread is a program made of those actions; between two of them any other
    thread can act. What the server answers and what the user types are inputs. *)

From S2P Require Import Prelude.
From S2P Require Import Common.
From S2P Require Import Packet.
From S2P Require Import ServerAppProofs.
From S2P Require Import Console.
From S2P Require Import App.
From stdpp Require Import functions.

#[export] Instance thread_eq_decision : EqDecision thread.
Proof. solve_decision. Defined.

(** ** Programs *)

(** The points the loops of the client go back to. *)
Inductive label :=
| Messages                       (** the loop of [periodicGetMessages] *)
| Users                          (** the loop of [periodicGetOnlineUsers] *)
| Menu                           (** the loop of [run] *)
| Ask                            (** the loop of [getUserCommand] *)
| ChooseTarget                   (** the first loop of [taskChatWithUser] *)
| Chat (target_user : bytes).    (** the second one *)

Inductive cell := NameToId | IdToName.

#[export] Instance cell_eq_decision : EqDecision cell.
Proof. solve_decision. Defined.

Inductive prog :=
| Goto (l : label)
| Lock (k : prog)                                  (** [unique_lock<mutex> lck(name_mtx)] *)
| Unlock (k : prog)                                (** its destructor *)
| Access (rd wr : list cell) (f : App → App) (k : App → prog)
    (** an access to the maps that reads and writes these: their new value, and what
        follows on their old one *)
| Write (s : bytes) (k : prog)                     (** [console_.write(s)] *)
| Read (prompt : bytes) (k : bytes → prog)         (** [console_.read(prompt)] *)
| Reading (k : bytes → prog)                       (** in its loop *)
| Exchange (req : App → Packet) (k : Packet → prog). (** a request and its response *)

(** ** The code of the threads *)

Definition Writes (l : list bytes) (k : prog) : prog := foldr Write k l.

(** [operator[]] of [id_to_name_]. *)
Definition index_name (id : Z) (a : App) : App :=
  match id_to_name_ a !! id with
  | Some _ => a
  | None => set_id_to_name (<[id := []]> (id_to_name_ a)) a
  end.

Section code.
  Context {ord : UMapOrder bytes Z}.

(** [printOnlineUsers]. *)
Definition print_users (k : prog) : prog :=
  Lock (Access [NameToId] [] (λ a, a) (λ a, Writes (other_names a) (Unlock k))).

(** The loop that fills [id_to_name_]. *)
Definition emplaces (l : list (bytes * Z)) (k : prog) : prog :=
  foldr (λ mapping k, Access [NameToId] [IdToName]
           (λ a, set_id_to_name (emplace (id_to_name_ a) mapping) a) (λ _, k)) k l.

(** [periodicGetOnlineUsers] from the loop that refills [id_to_name_] to the end of its
    turn, with the lock held at first. *)
Definition refill_names (new_name_to_id : gmap bytes Z) : prog :=
  emplaces (umap_seq new_name_to_id) (
  Write (str "**********Updated Online users: ") (
  Access [NameToId] [] (λ a, a) (λ a,
  if bool_decide (size (name_to_id_ a) = 0%nat)
  then Write (str "No other users currently online") (Unlock (Goto Users))
  else Unlock (print_users (Goto Users))))).

(** Its critical section from the start, and the list after it. *)
Definition update_names (new_name_to_id : gmap bytes Z) : prog :=
  Lock (Access [NameToId] [] (λ a, a) (λ a,
    if bool_decide (new_name_to_id = name_to_id_ a) then Unlock (Goto Users) else
    Access [] [NameToId] (set_name_to_id new_name_to_id) (λ _,
    Access [] [IdToName] (set_id_to_name ∅) (λ _,
    refill_names new_name_to_id)))).

Definition users_loop : prog :=
  Exchange (λ a, users_request (id_ a)) (λ resp_packet,
  let resp := default RespUsers_default (resp_users resp_packet) in
  if negb (get_u32 (pu_resp_value resp) =? 0)%Z
  then Write (str "DEBUG: ERR, negative response for get online users request") (Goto Users)
  else update_names (names_of (online_users resp))).

(** The body of the loop over the messages; [name_mtx] is not locked. *)
Definition show_message (m : UserMessage) (k : prog) : prog :=
  let id := get_u32 (um_user_id m) in
  Access [IdToName] [] (λ a, a) (λ a,
  match id_to_name_ a !! id with
  | Some _ =>
      Access [IdToName] [IdToName] (index_name id) (λ a,
      Write (default [] (id_to_name_ a !! id) ++ str "> " ++ get_str (um_message m)) k)
  | None => Write (str "Unknown sender > " ++ get_str (um_message m)) k
  end).

Definition messages_loop : prog :=
  Exchange (λ a, recv_request (id_ a)) (λ resp_packet,
  foldr show_message (Goto Messages)
    (messages (default RespRecv_default (resp_recv resp_packet)))).

(** One turn of the menu; [username_] and [id_] do not change any more. *)
Definition menu : prog :=
  Access [] [] (λ a, a) (λ a,
  Write (str "Hi " ++ username_ a ++ str "! Follow the instructions below:") (
  Write (str "Type " ++ quote ++ str "1" ++ quote ++ str " for viewing online users") (
  Write (str "Type " ++ quote ++ str "2" ++ quote ++ str " to chat with a user") (Goto Ask)))).

Definition ask : prog :=
  Read (str "Enter your choice >") (λ user_cmd,
  match user_cmd with
  | [c] =>
      match cmd_find c with
      | Some kDisplayOnlineUsers => print_users (Goto Menu)
      | Some kChatWithUser => Goto ChooseTarget
      | None => Write (str "Invalid selection, try again") (Goto Ask)
      end
  | _ => Write (str "Invalid selection, try again") (Goto Ask)
  end).

Definition choose : prog :=
  Read (str "Enter the name of the user you would like to chat with: ") (λ target_user,
  if bool_decide (target_user = str "x") then Goto Menu else
  Lock (Access [NameToId] [] (λ a, a) (λ a,
  match name_to_id_ a !! target_user with
  | None => Write (str "Error,  user not available") (Unlock (Goto ChooseTarget))
  | Some _ => Unlock (Goto (Chat target_user))
  end))).

Definition chat (target_user : bytes) : prog :=
  Read (str "Send message to " ++ target_user ++ str ">") (λ m,
  if bool_decide (m = str "x") then Goto Menu else
  Lock (Access [NameToId] [NameToId] (λ a, (lookup_target target_user a).2) (λ a,
  Unlock (Exchange (λ a', send_request (id_ a') (lookup_target target_user a).1 m) (λ resp_packet,
  match ps_resp_value (default RespSend_default (resp_send resp_packet)) with
  | None => Write (str "ERR: unexpected server response for sending a message") (Goto Menu)
  | Some v => Write (status_text (SendStatus_of_byte (byte.of_Z v))) (Goto (Chat target_user))
  end))))).

Definition code (l : label) : prog :=
  match l with
  | Messages => messages_loop
  | Users => users_loop
  | Menu => menu
  | Ask => ask
  | ChooseTarget => choose
  | Chat target_user => chat target_user
  end.

(** ** The machine *)

Record client := mkClient {
  c_app : App;
  c_con : Console;
  name_mtx : option thread;
  threads : thread → prog;
}.

Inductive input :=
| NoInput
| Typed (next_char : Z)      (** [getchar] returns *)
| Response (p : Packet).     (** a packet has been parsed *)

(** The console after a critical section. *)
Definition console_after (e : con_event) (c : Console) : Console := (con_step e c).1.2.

(** A step of a thread: the critical sections of the console it performs, and the next
    state; [None] when it cannot move. *)
Definition client_step (t : thread) (i : input) (s : client) : option (list con_event * client) :=
  let go a c o p := mkClient a c o (<[t := p]> (threads s)) in
  match threads s t, i with
  | Goto l, NoInput => Some ([], go (c_app s) (c_con s) (name_mtx s) (code l))
  | Lock k, NoInput =>
      match name_mtx s with
      | None => Some ([], go (c_app s) (c_con s) (Some t) k)
      | Some _ => None
      end
  | Unlock k, NoInput => Some ([], go (c_app s) (c_con s) None k)
  | Access _ _ f k, NoInput => Some ([], go (f (c_app s)) (c_con s) (name_mtx s) (k (c_app s)))
  | Write w k, NoInput =>
      Some ([EvWrite w], go (c_app s) (console_after (EvWrite w) (c_con s)) (name_mtx s) k)
  | Read prompt k, NoInput =>
      Some ([EvRead prompt],
            go (c_app s) (console_after (EvRead prompt) (c_con s)) (name_mtx s) (Reading k))
  | Reading k, Typed z =>
      let c := console_after (EvChar z) (c_con s) in
      Some ([EvChar z],
            go (c_app s) c (name_mtx s)
               (match (con_step (EvChar z) (c_con s)).1.1 with s :: _ => k s | [] => Reading k end))
  | Exchange _ k, Response p => Some ([], go (c_app s) (c_con s) (name_mtx s) (k p))
  | _, _ => None
  end.

(** A schedule, with the inputs: the critical sections of the console, the last state. *)
Fixpoint client_run (schedule : list (thread * input)) (s : client) :
    option (list con_event * client) :=
  match schedule with
  | [] => Some ([], s)
  | (t, i) :: schedule =>
      '(es, s) ← client_step t i s;
      '(es', s) ← client_run schedule s;
      Some (es ++ es', s)
  end.

(** After the registration: [thread t1(...)], [thread t2(...)], and the loop of [run]. *)
Definition client_start (a : App) : client :=
  mkClient a Console_init None
    (λ t, match t with t1 => Goto Messages | t2 => Goto Users | main_thread => Goto Menu end).

(** The states the client can be in. *)
Definition reachable (a : App) (s : client) : Prop :=
  ∃ schedule es, client_run schedule (client_start a) = Some (es, s).

End code.
