(* ===== verification/ClientThreadsProofs.v ===== *)
(** The discipline of the client's threads: what each does with and without [name_mtx],
    that the lock is always given back, what the console sees of them, and what they keep
    of the maps of names. *)

From S2P Require Import Prelude.
From S2P Require Import Common.
From S2P Require Import Packet.
From S2P Require Import ServerAppProofs.
From S2P Require Import Console.
From S2P Require Import App.
From S2P Require Import AppProofs.
From S2P Require Import ClientThreads.
From stdpp Require Import functions.

(** ** The maps of names *)

(** Every ID with a name other than the empty one is the ID of that name. *)
Definition weakly_agree (a : App) : Prop :=
  ∀ i n, id_to_name_ a !! i = Some n → n = [] ∨ name_to_id_ a !! n = Some i.

(** The holder of the lock restores the agreement before it gives the lock back, whatever
    the loop over the messages, which does not take the lock, enters in between. *)
Fixpoint restores (p : prog) (a : App) : Prop :=
  match p with
  | Unlock _ => weakly_agree a
  | Access _ _ f k => ∀ ids, let a' := foldr index_name a ids in restores (k a') (f a')
  | Write _ k => restores k a
  | _ => False
  end.

Lemma name_to_id_index id a : name_to_id_ (index_name id a) = name_to_id_ a.
Proof. unfold index_name. by case_match. Qed.

Lemma name_to_id_indexes ids a : name_to_id_ (foldr index_name a ids) = name_to_id_ a.
Proof. induction ids as [|id ids IH]; [done|]. cbn. by rewrite name_to_id_index. Qed.

Lemma weakly_agree_index id a : weakly_agree a → weakly_agree (index_name id a).
Proof.
  intros Ha. unfold index_name. case_match eqn:E; [done|]. intros i n Hi. cbn in *.
  destruct (decide (id = i)) as [->|]; simplify_map_eq; [by left|by apply Ha].
Qed.

Lemma weakly_agree_indexes ids a : weakly_agree a → weakly_agree (foldr index_name a ids).
Proof. intros Ha. induction ids; cbn; [done|by apply weakly_agree_index]. Qed.

Lemma restores_index p id a : restores p a → restores p (index_name id a).
Proof.
  revert a. induction p as [l|k IH|k IH|rd wr f k IH|w k IH|prompt k IH|k IH|req k IH];
    intros a; cbn; try done.
  - apply weakly_agree_index.
  - intros Hr ids. specialize (Hr (ids ++ [id])). by rewrite foldr_app in Hr.
  - apply IH.
Qed.

Lemma restores_writes l k a : restores k a → restores (Writes l k) a.
Proof. intros Hk. by induction l. Qed.

Lemma weakly_agree_lookup_target t a : weakly_agree a → weakly_agree (lookup_target t a).2.
Proof.
  intros Ha. unfold lookup_target. destruct (name_to_id_ a !! t) eqn:E; [done|].
  intros i n Hi. cbn in *. destruct (Ha i n Hi) as [?|Hn]; [by left|right].
  destruct (decide (t = n)) as [->|]; simplify_map_eq; done.
Qed.

Section restoring.
  Context {ord : UMapOrder bytes Z}.

Lemma restores_emplaces l k new a :
  weakly_agree a → name_to_id_ a = new → (∀ n i, (n, i) ∈ l → new !! n = Some i) →
  (∀ a, weakly_agree a → restores k a) → restores (emplaces l k) a.
Proof.
  intros Ha Hn Hl Hk. revert a Ha Hn. induction l as [|[n i] l IH]; intros a Ha Hn; [by apply Hk|].
  cbn. intros ids. apply IH; cbn.
  - intros n' i' Hin. apply Hl. by right.
  - intros i' n' [Hold|[= <- <-]]%emplace_lookup.
    + by apply (weakly_agree_indexes ids a Ha).
    + right. cbn. rewrite name_to_id_indexes, Hn. apply Hl. by left.
  - by rewrite name_to_id_indexes.
Qed.

(** The lock is taken by [k] only to restore the agreement. *)
Definition keeps (k : prog) : Prop := ∀ a, weakly_agree a → restores k a.

Lemma keeps_read rd wr k :
  (∀ a, weakly_agree a → restores (k a) a) → keeps (Access rd wr (λ a, a) k).
Proof. intros Hk a Ha ids. by apply Hk, weakly_agree_indexes. Qed.

Lemma update_names_keeps new : match update_names new with Lock k => keeps k | _ => False end.
Proof.
  apply keeps_read. intros a Ha. case_bool_decide; [done|]. cbn. intros ids1 ids2.
  apply (restores_emplaces _ _ new).
  - intros i n. cbn. by rewrite lookup_empty.
  - cbn. by rewrite name_to_id_indexes.
  - intros n i Hin. by apply elem_of_umap_seq.
  - intros a' Ha'. cbn. intros ids. case_bool_decide; by apply weakly_agree_indexes.
Qed.

End restoring.

(** ** The locking discipline *)

Definition thread_of (l : label) : thread :=
  match l with Messages => t1 | Users => t2 | _ => main_thread end.

(** [ok t held p]: the thread [t] may run [p], with [name_mtx] held or not. It touches
    [name_to_id_] only when it holds the lock, [id_to_name_] only then or in the loop over
    the messages, which changes nothing but by its [operator[]]; it gives the lock back
    with the maps in agreement; only the main thread reads from the console; and nobody
    waits for the user, the server or the lock while holding the lock. *)
Inductive ok (t : thread) : bool → prog → Prop :=
| ok_goto l : thread_of l = t → ok t false (Goto l)
| ok_lock k : (∀ a, weakly_agree a → restores k a) → ok t true k → ok t false (Lock k)
| ok_unlock k : ok t false k → ok t true (Unlock k)
| ok_access held rd wr f k :
    (NameToId ∈ rd ++ wr → held = true) → (IdToName ∈ rd ++ wr → held = true ∨ t = t1) →
    (held = false → ∀ a, f a = a ∨ ∃ id, f a = index_name id a) →
    (∀ a, ok t held (k a)) → ok t held (Access rd wr f k)
| ok_write held s k : ok t held k → ok t held (Write s k)
| ok_read prompt k : t = main_thread → (∀ s, ok t false (k s)) → ok t false (Read prompt k)
| ok_exchange req k : (∀ p, ok t false (k p)) → ok t false (Exchange req k).

Create HintDb threads discriminated.
#[export] Hint Constructors ok : threads.
#[export] Hint Extern 1 (thread_of _ = _) => reflexivity : threads.

(** Goals on the cells an access declares. *)
Ltac cells :=
  intros Hin; first [done | by left | by right | intros ?; by left | intros ?; right; by eexists
    | apply (bool_decide_eq_true_2 _) in Hin; vm_compute in Hin; discriminate Hin].

Lemma ok_writes t held l k : ok t held k → ok t held (Writes l k).
Proof. intros Hk. induction l; cbn; auto with threads. Qed.
#[export] Hint Resolve ok_writes : threads.

Section discipline.
  Context {ord : UMapOrder bytes Z}.

Lemma ok_print_users t k : ok t false k → ok t false (print_users k).
Proof.
  intros Hk. apply ok_lock; [|apply ok_access; [cells..|]; auto with threads].
  apply keeps_read. intros a Ha. by apply restores_writes.
Qed.
#[local] Hint Resolve ok_print_users : threads.

Lemma ok_emplaces t l k : ok t true k → ok t true (emplaces l k).
Proof. intros Hk. induction l; cbn; [done|]. by apply ok_access; [cells..|]. Qed.
#[local] Hint Resolve ok_emplaces : threads.

Lemma ok_refill_names new : ok t2 true (refill_names new).
Proof.
  apply ok_emplaces, ok_write, ok_access; [cells..|]. intros a.
  case_bool_decide; auto with threads.
Qed.

Lemma ok_update_names new : ok t2 false (update_names new).
Proof.
  apply ok_lock; [apply (update_names_keeps new)|]. apply ok_access; [cells..|]. intros a.
  case_bool_decide; [auto with threads|]. repeat (apply ok_access; [cells..|]; intros ?).
  apply ok_refill_names.
Qed.

Lemma ok_show_message m k : ok t1 false k → ok t1 false (show_message m k).
Proof.
  intros Hk. unfold show_message. apply ok_access; [cells..|]. intros a.
  case_match; [|auto with threads]. apply ok_access; [cells..|auto with threads].
Qed.

Lemma ok_show_messages l : ok t1 false (foldr show_message (Goto Messages) l).
Proof. induction l; cbn; [auto with threads|by apply ok_show_message]. Qed.

(** The code of every loop keeps to the discipline. *)
Lemma code_ok l : ok (thread_of l) false (code l).
Proof.
  destruct l as [| | | | |target]; cbn [code thread_of];
    unfold messages_loop, users_loop, menu, ask, choose, chat.
  - apply ok_exchange. intros p. apply ok_show_messages.
  - apply ok_exchange. intros p. case_match; [auto with threads|apply ok_update_names].
  - apply ok_access; [cells..|]. auto with threads.
  - apply ok_read; [done|]. intros [|c [|]]; [auto with threads| |auto with threads].
    destruct (cmd_find c) as [[]|]; auto with threads.
  - apply ok_read; [done|]. intros s. case_bool_decide; [auto with threads|].
    apply ok_lock; [|apply ok_access; [cells..|]; intros a; case_match; auto with threads].
    apply keeps_read. intros a Ha. by case_match.
  - apply ok_read; [done|]. intros s. case_bool_decide; [auto with threads|].
    apply ok_lock.
    { intros a Ha ids. by apply weakly_agree_lookup_target, weakly_agree_indexes. }
    apply ok_access; [cells..|]. intros a. apply ok_unlock, ok_exchange. intros p.
    case_match; auto with threads.
Qed.

(** A thread in the loop of [console_.read] is the main thread, without the lock. *)
Definition thread_ok (t : thread) (held : bool) (p : prog) : Prop :=
  match p with
  | Reading k => t = main_thread ∧ held = false ∧ ∀ s, ok t false (k s)
  | p => ok t held p
  end.

Definition holds (s : client) (t : thread) : bool := bool_decide (name_mtx s = Some t).

Definition disciplined (s : client) : Prop := ∀ t, thread_ok t (holds s t) (threads s t).

Lemma ok_thread_ok t held p : ok t held p → thread_ok t held p.
Proof. by destruct 1; constructor. Qed.

Lemma disciplined_start a : disciplined (client_start a).
Proof. intros []; apply ok_thread_ok; by constructor. Qed.

(** A thread moves, the lock changing hands only as it says. *)
Lemma disciplined_move t p a c o (s : client) :
  disciplined s → thread_ok t (bool_decide (o = Some t)) p →
  (∀ t', t' ≠ t → o = Some t' ↔ name_mtx s = Some t') →
  disciplined (mkClient a c o (<[t := p]> (threads s))).
Proof.
  intros Hs Hp Ho t'. cbn. destruct (decide (t' = t)) as [->|Hne].
  - by rewrite fn_lookup_insert.
  - rewrite fn_lookup_insert_ne by done. unfold holds. cbn.
    rewrite (bool_decide_ext _ _ (Ho t' Hne)). apply Hs.
Qed.

Lemma disciplined_step t i s es s' :
  disciplined s → client_step t i s = Some (es, s') → disciplined s'.
Proof.
  intros Hs Hstep. pose proof (Hs t) as Ht. unfold client_step in Hstep.
  assert (∀ p a c, thread_ok t (holds s t) p →
    disciplined (mkClient a c (name_mtx s) (<[t := p]> (threads s)))) as Hmove.
  { intros p a c Hp. by apply disciplined_move. }
  destruct (threads s t) as [l|k|k|rd wr f k|w k|prompt k|k|req k] eqn:Ep, i as [|z|p]; try done;
    cbn [thread_ok] in Ht.
  - injection Hstep as <- <-. inversion Ht as [l' El Hh| | | | | |]; subst. rewrite <- Hh in Hmove.
    apply Hmove, ok_thread_ok, code_ok.
  - destruct (name_mtx s) eqn:Eo; [done|]. injection Hstep as <- <-.
    inversion Ht; subst. apply disciplined_move; [done| |].
    + rewrite bool_decide_eq_true_2 by done. by apply ok_thread_ok.
    + intros t' Hne. rewrite Eo. split; [by intros [= ->]|done].
  - injection Hstep as <- <-. inversion Ht as [| |k' Hk Hh| | | |]; subst.
    symmetry in Hh. apply bool_decide_eq_true_1 in Hh.
    apply disciplined_move; [done|by apply ok_thread_ok|].
    intros t' Hne. rewrite Hh. split; [done|by intros [= ->]].
  - injection Hstep as <- <-. inversion Ht; subst. by apply Hmove, ok_thread_ok.
  - injection Hstep as <- <-. inversion Ht; subst. by apply Hmove, ok_thread_ok.
  - injection Hstep as <- <-. inversion Ht as [| | | | |? ? Hm Hk Hh|]; subst. rewrite <- Hh in Hmove.
    by apply Hmove.
  - destruct Ht as (-> & Hh & Hk). injection Hstep as <- <-. rewrite Hh in Hmove. apply Hmove.
    destruct (read_char z (c_con s)) as [[[r|] c] o]; cbn [fst snd option_list option_rect];
      [by apply ok_thread_ok|done].
  - injection Hstep as <- <-. inversion Ht as [| | | | | |? ? Hk Hh]; subst. rewrite <- Hh in Hmove.
    by apply Hmove, ok_thread_ok.
Qed.

Lemma client_run_app sch1 sch2 s :
  client_run (sch1 ++ sch2) s =
  '(es1, s) ← client_run sch1 s; '(es2, s) ← client_run sch2 s; Some (es1 ++ es2, s).
Proof.
  revert s. induction sch1 as [|[t i] sch1 IH]; intros s; cbn.
  { by destruct (client_run sch2 s) as [[]|]. }
  destruct (client_step t i s) as [[es s1]|]; cbn; [|done]. rewrite IH.
  destruct (client_run sch1 s1) as [[es1 s2]|]; cbn; [|done].
  destruct (client_run sch2 s2) as [[es2 s3]|]; cbn; [|done]. by rewrite app_assoc.
Qed.

(** An invariant of the steps holds of all the states of a schedule. *)
Lemma client_run_ind (P : client → Prop) sch s es s' :
  (∀ t i s es s', P s → client_step t i s = Some (es, s') → P s') →
  P s → client_run sch s = Some (es, s') → P s'.
Proof.
  intros Hstep. revert s es. induction sch as [|[t i] sch IH]; intros s es Hs Hr; cbn in Hr.
  { by simplify_eq. }
  destruct (client_step t i s) as [[es1 s1]|] eqn:E; cbn in Hr; [|done].
  destruct (client_run sch s1) as [[es2 s2]|] eqn:E'; cbn in Hr; [|done]. simplify_eq. eauto.
Qed.

Lemma reachable_disciplined a s : reachable a s → disciplined s.
Proof.
  intros (sch & es & Hr). eapply (client_run_ind disciplined); [|apply disciplined_start|done].
  intros. by eapply disciplined_step.
Qed.

(** ** What is kept of the maps *)

(** Without a holder of the lock the maps agree; otherwise the holder restores that. *)
Definition names_kept (s : client) : Prop :=
  match name_mtx s with
  | None => weakly_agree (c_app s)
  | Some t => restores (threads s t) (c_app s)
  end.

Lemma names_kept_step t i s es s' :
  disciplined s → names_kept s → client_step t i s = Some (es, s') → names_kept s'.
Proof.
  intros Hs Hn Hstep. pose proof (Hs t) as Ht. unfold client_step in Hstep. unfold names_kept in *.
  (* a step of a thread that leaves the lock alone *)
  assert (∀ p a c,
    (name_mtx s = Some t → restores (threads s t) (c_app s) → restores p a) →
    (name_mtx s ≠ Some t → a = c_app s ∨ ∃ id, a = index_name id (c_app s)) →
    names_kept (mkClient a c (name_mtx s) (<[t := p]> (threads s)))) as Hmove.
  { intros p a c Hown Hother. unfold names_kept. cbn. destruct (name_mtx s) as [t'|] eqn:Eo.
    - destruct (decide (t' = t)) as [->|Hne]; [rewrite fn_lookup_insert; auto|].
      rewrite fn_lookup_insert_ne by done.
      destruct Hother as [->|[id ->]]; [congruence|done|by apply restores_index].
    - destruct Hother as [->|[id ->]]; [done|done|by apply weakly_agree_index]. }
  destruct (threads s t) as [l|k|k|rd wr f k|w k|prompt k|k|req k] eqn:Ep, i as [|z|p]; try done;
    cbn [thread_ok] in Ht.
  - injection Hstep as <- <-. apply Hmove; [by intros _ []|by left].
  - destruct (name_mtx s) eqn:Eo; [done|]. injection Hstep as <- <-. cbn.
    rewrite fn_lookup_insert. inversion Ht; subst. auto.
  - injection Hstep as <- <-. cbn. inversion Ht as [| |k' Hk Hh| | | |]; subst.
    symmetry in Hh. apply bool_decide_eq_true_1 in Hh. rewrite Hh, Ep in Hn. exact Hn.
  - injection Hstep as <- <-. inversion Ht as [| | |? ? ? ? ? ? ? Hf| | |]; subst. apply Hmove.
    + intros _ Hr. exact (Hr []).
    + intros Hne. apply Hf. by apply bool_decide_eq_false_2.
  - injection Hstep as <- <-. apply Hmove; [done|by left].
  - injection Hstep as <- <-. apply Hmove; [by intros _ []|by left].
  - injection Hstep as <- <-. apply Hmove; [by intros _ []|by left].
  - injection Hstep as <- <-. apply Hmove; [by intros _ []|by left].
Qed.

Lemma reachable_names_kept a s : weakly_agree a → reachable a s → names_kept s.
Proof.
  intros Ha (sch & es & Hr).
  eapply (client_run_ind (λ s, disciplined s ∧ names_kept s)); [| |done].
  - intros t i s1 es1 s2 [Hd Hn] Hstep. split; [by eapply disciplined_step|by eapply names_kept_step].
  - split; [apply disciplined_start|done].
Qed.

(** ** The lock is given back *)

Lemma lock_released t p : ok t true p → ∀ s,
  threads s t = p → name_mtx s = Some t →
  ∃ n es s', client_run (replicate n (t, NoInput)) s = Some (es, s') ∧ name_mtx s' = None ∧
    c_con s' = (con_run es (c_con s)).1.2.
Proof.
  intros Hok. remember true as held eqn:Hh.
  induction Hok as [| |k Hk _|held rd wr f k Hn Hi Hf Hk IH|held w k Hk IH| |]; intros s Hp Ho;
    try discriminate Hh; try subst held.
  - exists 1%nat, []. eexists. cbn. unfold client_step. rewrite Hp. cbn. split; [done|done].
  - set (s1 := mkClient (f (c_app s)) (c_con s) (name_mtx s) (<[t := k (c_app s)]> (threads s))).
    destruct (IH (c_app s) eq_refl s1) as (n & es & s' & Hr & Hn' & Hc);
      [by cbn; rewrite fn_lookup_insert|done|].
    exists (S n), es, s'. cbn [replicate client_run]. unfold client_step at 1. rewrite Hp.
    cbn [mbind option_bind]. fold s1. by rewrite Hr.
  - set (s1 := mkClient (c_app s) (console_after (EvWrite w) (c_con s)) (name_mtx s)
      (<[t := k]> (threads s))).
    destruct (IH eq_refl s1) as (n & es & s' & Hr & Hn' & Hc);
      [by cbn; rewrite fn_lookup_insert|done|].
    exists (S n), (EvWrite w :: es), s'. cbn [replicate client_run]. unfold client_step at 1.
    rewrite Hp. cbn [mbind option_bind]. fold s1. rewrite Hr. split; [done|]. split; [done|].
    rewrite Hc. unfold s1, console_after. cbn [c_con con_run].
    destruct (con_step (EvWrite w) (c_con s)) as [[rs c] o]. cbn [fst snd].
    by destruct (con_run es c) as [[? ?] ?].
Qed.

(** ** The console *)

(** The main thread is in the loop of [console_.read]. *)
Definition is_reading (s : client) : bool :=
  match threads s main_thread with Reading _ => true | _ => false end.

Lemma ok_not_reading t held k : ¬ ok t held (Reading k).
Proof. by inversion 1. Qed.

Lemma is_reading_ok t held p a c o (s : client) :
  ok t held p → is_reading (mkClient a c o (<[t := p]> (threads s))) =
    if decide (t = main_thread) then false else is_reading s.
Proof.
  intros Hp. unfold is_reading. cbn. case_decide as Ht.
  - subst t. rewrite fn_lookup_insert. destruct p; try done. by apply ok_not_reading in Hp.
  - by rewrite fn_lookup_insert_ne.
Qed.

(** A step performs at most one critical section of the console, one that the reader may
    perform; between two reads of the main thread nothing is left at the prompt. *)
Lemma client_step_console t i s es s' :
  disciplined s → (is_reading s = false → c_con s = Console_init) →
  client_step t i s = Some (es, s') →
  (∀ es', single_reader (is_reading s') es' → single_reader (is_reading s) (es ++ es')) ∧
  c_con s' = (con_run es (c_con s)).1.2 ∧
  (is_reading s' = false → c_con s' = Console_init).
Proof.
  intros Hs Hc Hstep. pose proof (Hs t) as Ht. unfold client_step in Hstep.
  assert ((∀ k, threads s t ≠ Reading k) → t = main_thread → is_reading s = false) as Hnr.
  { intros Hn ->. unfold is_reading. destruct (threads s main_thread) eqn:E; try done.
    by destruct (Hn k). }
  (* a step after which the thread is not reading, with at most one write *)
  assert (∀ held p a o (w : option bytes),
    (∀ k, threads s t ≠ Reading k) → ok t held p →
    let es := from_option (λ w, [EvWrite w]) [] w in
    let s' := mkClient a (from_option (λ w, console_after (EvWrite w) (c_con s)) (c_con s) w) o
      (<[t := p]> (threads s)) in
    (∀ es', single_reader (is_reading s') es' → single_reader (is_reading s) (es ++ es')) ∧
    c_con s' = (con_run es (c_con s)).1.2 ∧ (is_reading s' = false → c_con s' = Console_init))
    as Hquiet.
  { intros held p a o w Hn Hp. specialize (Hnr Hn). cbn zeta.
    assert (∀ c, is_reading (mkClient a c o (<[t := p]> (threads s))) = is_reading s) as Hr.
    { intros c. rewrite (is_reading_ok t held) by done. case_decide; [|done]. by rewrite Hnr. }
    rewrite Hr. destruct w as [w|]; cbn; [|done].
    unfold console_after. cbn. rewrite write_state. cbn. split_and!; [done|done|done]. }
  destruct (threads s t) as [l|k|k|rd wr f k|w k|prompt k|k|req k] eqn:Ep, i as [|z|p]; try done;
    cbn [thread_ok] in Ht.
  - injection Hstep as <- <-. inversion Ht as [l' El Hh| | | | | |]; subst.
    by eapply (Hquiet false _ _ _ None); [|apply code_ok].
  - destruct (name_mtx s); [done|]. injection Hstep as <- <-. inversion Ht; subst.
    by eapply (Hquiet true _ _ _ None).
  - injection Hstep as <- <-. inversion Ht; subst. by eapply (Hquiet false _ _ _ None).
  - injection Hstep as <- <-. inversion Ht; subst. by eapply (Hquiet _ _ _ _ None).
  - injection Hstep as <- <-. inversion Ht; subst. by eapply (Hquiet _ _ _ _ (Some w)).
  - injection Hstep as <- <-. inversion Ht as [| | | | |? ? -> Hk Hh|]; subst.
    specialize (Hnr ltac:(done) eq_refl). rewrite Hnr.
    unfold is_reading. cbn. rewrite fn_lookup_insert. by split_and!.
  - destruct Ht as (-> & Hh & Hk). injection Hstep as <- <-.
    assert (is_reading s = true) as Hr by (unfold is_reading; by rewrite Ep).
    rewrite Hr. unfold is_reading, console_after. cbn. rewrite fn_lookup_insert.
    destruct (decide (z = kNewLine)) as [->|Hz].
    + rewrite read_char_newline. cbn. specialize (Hk (m_user_input (c_con s))).
      destruct (k (m_user_input (c_con s))); try done. by apply ok_not_reading in Hk.
    + destruct (read_char_edit z (c_con s) Hz) as [o ->]. cbn.
      by rewrite (proj2 (Z.eqb_neq z kNewLine)).
  - injection Hstep as <- <-. inversion Ht as [| | | | | |? ? Hk Hh]; subst.
    by eapply (Hquiet _ _ _ _ None).
Qed.

Lemma client_run_console sch s es s' :
  disciplined s → (is_reading s = false → c_con s = Console_init) →
  client_run sch s = Some (es, s') →
  single_reader (is_reading s) es ∧ c_con s' = (con_run es (c_con s)).1.2.
Proof.
  revert s es. induction sch as [|[t i] sch IH]; intros s es Hs Hc Hr; cbn in Hr.
  { by simplify_eq. }
  destruct (client_step t i s) as [[es1 s1]|] eqn:E; cbn in Hr; [|done].
  destruct (client_run sch s1) as [[es2 s2]|] eqn:E'; cbn in Hr; [|done]. simplify_eq.
  pose proof (disciplined_step _ _ _ _ _ Hs E) as Hs1.
  destruct (client_step_console _ _ _ _ _ Hs Hc E) as (Hsr & Hcon & Hc1).
  destruct (IH s1 es2 Hs1 Hc1 E') as [Hsr2 Hcon2]. split; [by apply Hsr|].
  rewrite Hcon2, Hcon, con_run_app. destruct (con_run es1 (c_con s)) as [[rs c] o]. cbn.
  by destruct (con_run es2 c) as [[rs' c'] o'].
Qed.

End discipline.
