(* ===== verification/ClientThreadsTheorems.v ===== *)
(** The properties of the client's threads: their races, the progress they make, what
    the terminal shows of them, the maps of names they keep, and their agreement with the
    turns of [App]. *)

From stdpp Require Import functions.
From S2P Require Import Prelude.
From S2P Require Import Common.
From S2P Require Import Packet.
From S2P Require Import Wire.
From S2P Require Import Socket.
From S2P Require Import ServerAppProofs.
From S2P Require Import Console.
From S2P Require Import App.
From S2P Require Import AppProofs.
From S2P Require Import AppTheorems.
From S2P Require Import ClientThreads.
From S2P Require Import ClientThreadsProofs.

(** ** A thread on its own *)

(** What a thread writes until it waits, for the user, the server or its next turn, how it
    goes on then, and the maps it leaves. *)
Fixpoint solo (p : prog) (a : App) : list bytes * prog * App :=
  match p with
  | Lock k | Unlock k => solo k a
  | Access _ _ f k => solo (k a) (f a)
  | Write w k => let '(ws, q, a') := solo k a in (w :: ws, q, a')
  | p => ([], p, a)
  end.

(** The thread waiting for a response gets it. *)
Definition answered (p : prog) (resp : Packet) : prog :=
  match p with Exchange _ k => k resp | p => p end.

Lemma solo_writes l k a :
  solo (Writes l k) a = (l ++ (solo k a).1.1, (solo k a).1.2, (solo k a).2).
Proof.
  induction l as [|w l IH]; cbn; [by destruct (solo k a) as [[]]|].
  fold (Writes l k). by rewrite IH.
Qed.

Lemma app_eta a : set_name_to_id (name_to_id_ a) a = a ∧ set_id_to_name (id_to_name_ a) a = a.
Proof. by destruct a. Qed.

Section alone.
  Context {ord : UMapOrder bytes Z}.

Lemma solo_emplaces l k a :
  solo (emplaces l k) a = solo k (set_id_to_name (foldl emplace (id_to_name_ a) l) a).
Proof.
  revert a. induction l as [|m l IH]; intros a; cbn; [by rewrite (proj2 (app_eta a))|].
  fold (emplaces l k). by rewrite IH.
Qed.

Lemma solo_run t held p : ok t held p → ∀ s : client,
  threads s t = p → name_mtx s = (if held : bool then Some t else None) →
  let '(ws, q, a) := solo p (c_app s) in
  ∃ n s', client_run (replicate n (t, NoInput)) s = Some (map EvWrite ws, s') ∧
    threads s' t = q ∧ c_app s' = a ∧ name_mtx s' = None.
Proof.
  assert (∀ k (s s1 : client) es1,
    client_step t NoInput s = Some (es1, s1) →
    (let '(ws, q, a) := solo k (c_app s1) in
     ∃ n s', client_run (replicate n (t, NoInput)) s1 = Some (map EvWrite ws, s') ∧
       threads s' t = q ∧ c_app s' = a ∧ name_mtx s' = None) →
    let '(ws, q, a) := solo k (c_app s1) in
    ∃ n s', client_run (replicate n (t, NoInput)) s = Some (es1 ++ map EvWrite ws, s') ∧
       threads s' t = q ∧ c_app s' = a ∧ name_mtx s' = None) as Hgo.
  { intros k s s1 es1 E. destruct (solo k (c_app s1)) as [[ws q] a].
    intros (n & s' & Hr & H). exists (S n), s'. cbn. rewrite E. cbn. by rewrite Hr. }
  induction 1 as [l|k ? Hk IH|k Hk IH|held rd wr f k Hn Hi Hf Hk IH|held w k Hk IH|prompt k ? Hk|req k Hk];
    intros s Hp Ho; cbn [solo]; try (exists 0%nat, s; done).
  - set (s1 := mkClient (c_app s) (c_con s) (Some t) (<[t := k]> (threads s))).
    apply (Hgo k s s1 []); [unfold client_step; by rewrite Hp, Ho|].
    by apply (IH s1); cbn; [rewrite fn_lookup_insert|].
  - set (s1 := mkClient (c_app s) (c_con s) None (<[t := k]> (threads s))).
    apply (Hgo k s s1 []); [unfold client_step; by rewrite Hp|].
    by apply (IH s1); cbn; [rewrite fn_lookup_insert|].
  - set (s1 := mkClient (f (c_app s)) (c_con s) (name_mtx s) (<[t := k (c_app s)]> (threads s))).
    apply (Hgo (k (c_app s)) s s1 []); [unfold client_step; by rewrite Hp|].
    by apply (IH (c_app s) s1); cbn; [rewrite fn_lookup_insert|].
  - set (s1 := mkClient (c_app s) (console_after (EvWrite w) (c_con s)) (name_mtx s)
      (<[t := k]> (threads s))).
    pose proof (Hgo k s s1 [EvWrite w]) as H. specialize (IH s1). cbn [c_app s1] in H, IH.
    destruct (solo k (c_app s)) as [[ws q] a]. apply H.
    + unfold client_step. by rewrite Hp.
    + by apply IH; cbn; [rewrite fn_lookup_insert|].
Qed.

End alone.

(** ** Races *)

Definition accesses (p : prog) : list cell * list cell :=
  match p with Access rd wr _ _ => (rd, wr) | _ => ([], []) end.

Definition touches (c : cell) (p : prog) : bool :=
  bool_decide (c ∈ (accesses p).1 ++ (accesses p).2).
Definition writes_to (c : cell) (p : prog) : bool := bool_decide (c ∈ (accesses p).2).

(** Two threads are about to access the map [c], the first of them to write it. *)
Definition race (c : cell) (t t' : thread) (s : client) : Prop :=
  t ≠ t' ∧ writes_to c (threads s t) ∧ touches c (threads s t').

Lemma touches_held c t held p :
  touches c p → thread_ok t held p → held = true ∨ c = IdToName ∧ t = t1.
Proof.
  intros Hc. destruct p as [| | |rd wr f k| | | |];
    try (apply bool_decide_unpack, not_elem_of_nil in Hc; done).
  apply bool_decide_unpack in Hc. cbn in Hc. intros Hok. inversion Hok; subst.
  destruct c; [by left; auto|]. destruct held; [by left|]. right. split; [done|].
  match goal with H : IdToName ∈ rd ++ wr → _ |- _ => by destruct (H Hc) end.
Qed.

Lemma writes_touches c p : writes_to c p → touches c p.
Proof.
  intros Hw%bool_decide_unpack. apply bool_decide_pack. apply elem_of_app. by right.
Qed.

Section client.
  Context {ord : UMapOrder bytes Z}.

Lemma touches_reachable a s c t :
  reachable a s → touches c (threads s t) → name_mtx s = Some t ∨ c = IdToName ∧ t = t1.
Proof.
  intros Hr Hc. destruct (touches_held c t (holds s t) _ Hc) as [Hh|?]; [|left|by right].
  - by apply (reachable_disciplined a).
  - by apply bool_decide_eq_true_1 in Hh.
Qed.

(** C17. The lock protects [name_to_id_], and the only data race of the client is the one
    on [id_to_name_] of the thread that shows the messages: in every state the threads can
    reach, a thread that accesses [name_to_id_] owns [name_mtx], and of two threads with
    conflicting accesses one is that thread, at [id_to_name_], and the other one owns the
    lock. *)
Theorem races_are_on_id_to_name a s :
  reachable a s →
  (∀ t, touches NameToId (threads s t) → name_mtx s = Some t) ∧
  ∀ c t t', race c t t' s →
    c = IdToName ∧ (t = t1 ∧ name_mtx s = Some t' ∨ t' = t1 ∧ name_mtx s = Some t).
Proof.
  intros Hr. split.
  - intros t Ht. by destruct (touches_reachable _ _ _ _ Hr Ht) as [?|[? ?]].
  - intros c t t' (Hne & Hw%writes_touches & Ht').
    destruct (touches_reachable _ _ _ _ Hr Hw) as [Ho|[-> ->]],
      (touches_reachable _ _ _ _ Hr Ht') as [Ho'|[? ->]]; split; try done; try congruence; auto.
Qed.

(** ** Progress *)

(** C21. No thread keeps the others waiting: whoever owns [name_mtx] gives it back after
    finitely many steps of its own, none of which waits for the user, the server or the
    lock; so the threads never deadlock, and any of them can move, given its input, after
    steps of the owner alone. *)
Theorem client_never_deadlocks a s t :
  reachable a s →
  ∃ n es s', client_run (from_option (λ t', replicate n (t', NoInput)) [] (name_mtx s)) s =
      Some (es, s') ∧
    name_mtx s' = None ∧ ∃ i r, client_step t i s' = Some r.
Proof.
  intros Hr.
  assert (∀ s : client, name_mtx s = None → ∃ i r, client_step t i s = Some r) as Hmove.
  { intros s1 Ho. unfold client_step. destruct (threads s1 t) as [| | | | | | |] eqn:Ep.
    1-6: exists NoInput; rewrite ?Ho; by eexists.
    - by exists (Typed 0); eexists.
    - by exists (Response (packet_of_type PACKET_TYPE_REQUEST_USERS)); eexists. }
  destruct (name_mtx s) as [t'|] eqn:Ho; cbn.
  - pose proof (reachable_disciplined a s Hr t') as Ht. unfold holds in Ht.
    rewrite Ho, bool_decide_eq_true_2 in Ht by done.
    destruct (lock_released t' (threads s t')) with s as (n & es & s' & Hrun & Hn & _); [|done..|].
    { by destruct (threads s t'); try done; destruct Ht as (_ & [=] & _). }
    exists n, es, s'. by repeat (split; [by auto|]); auto.
  - exists 0%nat, [], s. by repeat (split; [by auto|]); auto.
Qed.

(** ** The terminal *)

(** C16. What a client shows stays readable as long as it is printable and fits the lines:
    whatever the threads, the user and the server do, the console is never read by two
    threads. If the texts written, the prompts and what is typed are printable characters
    (names and messages that come from the server need not be) and each text, and the prompt
    with the input at all times, is shorter than a line of the terminal, then every terminal
    that treats printable characters, new lines, carriage returns and backspaces as
    documented, starting on an empty line, shows, above the prompt and the input and below
    what it showed before, the texts the threads have written and the lines the user has
    entered, each whole, in the order of their critical sections and up to trailing blanks,
    with the cursor at the end of the input. On a line that wraps it does not
    ([Console.wrapped_line_is_not_redrawn]). *)
Theorem client_terminal `{TerminalLaws} a schedule es s t :
  client_run schedule (client_start a) = Some (es, s) →
  single_reader false es ∧
  (Forall event_plain es → fits_line columns es [] [] →
   line (view t) = [] → col (view t) = 0%nat →
   let v := view (feed (con_run es Console_init).2 t) in
   Forall2 shows (done_lines (view t) ++ transcript es [] []) (done_lines v) ∧
   shows (m_prompt (c_con s) ++ m_user_input (c_con s)) (line v) ∧
   col v = length (m_prompt (c_con s) ++ m_user_input (c_con s))).
Proof.
  intros Hrun.
  destruct (client_run_console _ _ _ _ (disciplined_start a) (λ _, eq_refl) Hrun) as [Hsr Hc].
  split; [done|]. intros Hp Hw Hln Hk.
  pose proof (con_run_terminal es t Hln Hk Hp Hsr Hw) as Hv. cbn in Hc.
  destruct (con_run es Console_init) as [[rs c] out]. cbn in Hc. by subst.
Qed.

(** ** The maps *)

(** C22. What the threads keep of the maps: in every reachable state in which the lock is
    free, every ID with a name other than the empty one is the ID of that name. *)
Theorem client_names_agree a s i n :
  weakly_agree a → reachable a s → name_mtx s = None →
  id_to_name_ (c_app s) !! i = Some n → n ≠ [] → name_to_id_ (c_app s) !! n = Some i.
Proof.
  intros Ha Hr Ho Hi Hn. pose proof (reachable_names_kept a s Ha Hr) as H.
  unfold names_kept in H. rewrite Ho in H. by destruct (H i n Hi).
Qed.

(** ** The turns of [App] *)

(** What the thread [t2] does with a response, alone, is [handle_users]. *)
Lemma solo_users {K} resp (w : world K) :
  let '(ws, q, a) := solo (answered users_loop resp) (app w) in
  q = Goto Users ∧
  handle_users resp w =
    Ok ((), mkWorld a (con w) (stdout w ++ written ws (con w)) (typed w) (net w)).
Proof.
  unfold handle_users. cbn [answered users_loop]. cbn zeta. destruct (_ =? 0)%Z; cbn [negb].
  2: { rewrite con_write_run. by destruct w. }
  set (new := names_of _). unfold update_names. cbn [solo].
  rewrite (M_bind_ok _ _ w (refresh new (app w)).1 (mkWorld (refresh new (app w)).2 (con w)
    (stdout w) (typed w) (net w))) by (apply section_app_run; by destruct (refresh new (app w))).
  unfold refresh. destruct (decide (new = name_to_id_ (app w))) as [Hn|Hn].
  { rewrite !bool_decide_eq_true_2 by done. split; [done|]. unfold written. cbn.
    rewrite app_nil_r. by destruct w. }
  rewrite !bool_decide_eq_false_2 by done. cbn [solo fst snd negb].
  unfold refill_names. rewrite solo_emplaces. cbn [solo name_to_id_ set_name_to_id set_id_to_name id_to_name_].
  rewrite (M_bind_ok _ _ _ _ _ (con_write_run _ _)), (M_bind_ok _ _ _ _ _ (get_app_run _)).
  cbn [app with_stdout name_to_id_ set_name_to_id set_id_to_name].
  case_bool_decide as Hz; cbn [solo].
  - split; [done|]. rewrite con_write_run. unfold written. cbn. by rewrite !app_nil_r, <- app_assoc.
  - unfold print_users. cbn [solo]. rewrite solo_writes. cbn [solo fst snd]. split; [done|].
    unfold printOnlineUsers. rewrite (M_bind_ok _ _ _ _ _ (get_app_run _)), con_writes_run.
    unfold written, with_stdout. cbn. by rewrite !app_nil_r, <- app_assoc.
Qed.

Lemma solo_show_message m k a :
  solo (show_message m k) a =
    (message_text (id_to_name_ a) m :: (solo k a).1.1, (solo k a).1.2, (solo k a).2).
Proof.
  unfold show_message, message_text. cbn [solo].
  destruct (id_to_name_ a !! get_u32 (um_user_id m)) as [n|] eqn:E; cbn [solo].
  - assert (index_name (get_u32 (um_user_id m)) a = a) as ->
      by (unfold index_name; by rewrite E).
    rewrite E. cbn. destruct (solo k a) as [[]]. by rewrite <- app_assoc.
  - by destruct (solo k a) as [[]].
Qed.

Lemma solo_messages l k a :
  solo (foldr show_message k l) a =
    (map (message_text (id_to_name_ a)) l ++ (solo k a).1.1, (solo k a).1.2, (solo k a).2).
Proof.
  induction l as [|m l IH]; cbn [foldr map]; [by destruct (solo k a) as [[]]|].
  by rewrite solo_show_message, IH.
Qed.

(** C24. The turns of the application model are the threads' own: a background thread that
    gets its response with the lock free and is not interrupted until its next turn does
    to the maps, and writes, what [handle_users] and the turn of the messages do. *)
Theorem uninterrupted_turns_agree {K} (s : client) resp (w : world K) :
  name_mtx s = None → app w = c_app s →
  (threads s t2 = users_loop →
   ∃ n ws s', client_run ((t2, Response resp) :: replicate n (t2, NoInput)) s =
       Some (map EvWrite ws, s') ∧
     threads s' t2 = Goto Users ∧ name_mtx s' = None ∧
     handle_users resp w =
       Ok ((), mkWorld (c_app s') (con w) (stdout w ++ written ws (con w)) (typed w) (net w))) ∧
  (threads s t1 = messages_loop →
   let texts := map (message_text (id_to_name_ (app w)))
     (messages (default RespRecv_default (resp_recv resp))) in
   ∃ n s', client_run ((t1, Response resp) :: replicate n (t1, NoInput)) s =
       Some (map EvWrite texts, s') ∧
     threads s' t1 = Goto Messages ∧ name_mtx s' = None ∧ c_app s' = app w).
Proof.
  intros Ho Ha.
  assert (∀ t l, threads s t = code l → thread_of l = t →
    match code l with Exchange _ _ => True | _ => False end →
    let '(ws, q, a) := solo (answered (code l) resp) (app w) in
    ∃ n s', client_run ((t, Response resp) :: replicate n (t, NoInput)) s =
        Some (map EvWrite ws, s') ∧ threads s' t = q ∧ c_app s' = a ∧ name_mtx s' = None) as Hgo.
  { intros t l Ht Hl Hex. pose proof (code_ok l) as Hok. rewrite Hl in Hok.
    destruct (code l) as [| | | | | | |req k] eqn:El; try done. cbn [answered].
    inversion Hok as [| | | | | |? ? Hk]; subst req0 k0.
    set (s1 := mkClient (c_app s) (c_con s) (name_mtx s) (<[t := k resp]> (threads s))).
    pose proof (solo_run t false _ (Hk resp) s1) as Hs. cbn in Hs. rewrite Ha.
    destruct (solo (k resp) (c_app s)) as [[ws q] a].
    destruct Hs as (n & s' & Hr & Hrest); [by rewrite fn_lookup_insert|done|].
    exists n, s'. split; [|done]. cbn. unfold client_step at 1. rewrite Ht. cbn.
    fold s1. by rewrite Hr. }
  split; intros Ht.
  - specialize (Hgo t2 Users Ht eq_refl I). cbn [code] in Hgo.
    pose proof (solo_users resp w) as Hu.
    destruct (solo (answered users_loop resp) (app w)) as [[ws q] a].
    destruct Hgo as (n & s' & Hr & Hq & <- & Hn), Hu as [-> Hu]. by exists n, ws, s'.
  - specialize (Hgo t1 Messages Ht eq_refl I). cbn [code answered messages_loop] in Hgo.
    rewrite solo_messages in Hgo. cbn [solo fst snd] in Hgo. rewrite app_nil_r in Hgo.
    destruct Hgo as (n & s' & Hr & Hq & Hc & Hn). by exists n, s'.
Qed.

(** ** What the race does *)

Lemma emplaces_keep l m i n : m !! i = Some n → foldl emplace m l !! i = Some n.
Proof.
  revert m. induction l as [|p l IH]; intros m Hm; [done|]. apply IH. unfold emplace.
  destruct (decide (p.2 = i)) as [->|]; [by rewrite Hm|]. by case_match; simplify_map_eq.
Qed.

Lemma solo_refill_names new a :
  let '(_, q, a') := solo (refill_names new) a in
  q = Goto Users ∧ name_to_id_ a' = name_to_id_ a ∧
  id_to_name_ a' = foldl emplace (id_to_name_ a) (umap_seq new).
Proof.
  unfold refill_names. rewrite solo_emplaces. cbn [solo]. case_bool_decide; cbn [solo]; [done|].
  unfold print_users. cbn [solo]. by rewrite solo_writes.
Qed.

Lemma client_run_cons t i sch s es s1 :
  client_step t i s = Some (es, s1) →
  client_run ((t, i) :: sch) s = '(es', s') ← client_run sch s1; Some (es ++ es', s').
Proof. intros E. cbn. by rewrite E. Qed.

(** The two accesses that race: [operator[]] in the loop over the messages, and [clear]. *)
Definition naming (id : Z) (m : bytes) : prog :=
  Access [IdToName] [IdToName] (index_name id) (λ a,
    Write (default [] (id_to_name_ a !! id) ++ str "> " ++ m) (Goto Messages)).
Definition clearing (new : gmap bytes Z) : prog :=
  Access [] [IdToName] (set_id_to_name ∅) (λ _, refill_names new).

(** The sender has been found when the list of users changes. *)
Lemma race_opens (s : client) id m user us :
  let new := names_of (online_users (default RespUsers_default (resp_users (users_answer 0 us)))) in
  name_mtx s = None → threads s t1 = messages_loop → threads s t2 = users_loop →
  id_to_name_ (c_app s) !! id = Some user → new ≠ name_to_id_ (c_app s) →
  ∃ sch s1, client_run sch s = Some ([], s1) ∧
    threads s1 t1 = naming id m ∧ threads s1 t2 = clearing new ∧
    name_mtx s1 = Some t2 ∧ c_app s1 = set_name_to_id new (c_app s).
Proof.
  intros new Ho H1 H2 Hid Hnew. destruct s as [a c o ths]. cbn in Ho, H1, H2, Hid. subst o.
  change (new ≠ name_to_id_ a) in Hnew.
  set (setting := Access [] [NameToId] (set_name_to_id new) (λ _, clearing new)).
  set (ths1 := <[t1 := show_message (mkUserMessage (Some id) (Some m)) (Goto Messages)]> ths).
  set (ths2 := <[t1 := naming id m]> ths1).
  assert (naming id m = match id_to_name_ a !! id with
    | Some _ => naming id m
    | None => Write (str "Unknown sender > " ++ m) (Goto Messages)
    end) as E1 by (by rewrite Hid).
  assert (setting = if bool_decide (new = name_to_id_ a) then Unlock (Goto Users)
    else setting) as E2 by (by rewrite bool_decide_eq_false_2).
  set (comparing := match update_names new with Lock k => k | k => k end).
  set (ths4 := <[t2 := comparing]> (<[t2 := update_names new]> ths2)).
  set (ths5 := <[t2 := setting]> ths4).
  exists [(t1, Response (recv_answer 0 [mkMsg id m])); (t1, NoInput);
    (t2, Response (users_answer 0 us)); (t2, NoInput); (t2, NoInput); (t2, NoInput)].
  exists (mkClient (set_name_to_id new a) c (Some t2) (<[t2 := clearing new]> ths5)). split.
  - erewrite client_run_cons by (unfold client_step; cbn [threads]; by rewrite H1).
    rewrite (client_run_cons _ _ _ _ [] (mkClient a c None ths2))
      by (unfold ths2; rewrite E1; reflexivity).
    erewrite client_run_cons.
    2: { unfold client_step. assert (ths2 t2 = users_loop) as E3 by exact H2. cbn [threads].
         rewrite E3. reflexivity. }
    erewrite client_run_cons by reflexivity.
    rewrite (client_run_cons _ _ _ _ [] (mkClient a c (Some t2) ths5))
      by (unfold ths5; rewrite E2 at 1; reflexivity).
    by erewrite client_run_cons by reflexivity.
  - done.
Qed.

(** [clear] comes first, and the entry [operator[]] makes is there when the map is filled. *)
Lemma race_goes_on (s : client) id m new :
  name_mtx s = Some t2 → threads s t1 = naming id m → threads s t2 = clearing new →
  ∃ sch es s', client_run sch s = Some (es, s') ∧ EvWrite (str "> " ++ m) ∈ es ∧
    name_mtx s' = None ∧ name_to_id_ (c_app s') = name_to_id_ (c_app s) ∧
    id_to_name_ (c_app s') !! id = Some [].
Proof.
  intros Ho H1 H2. destruct s as [a c o ths]. cbn in Ho, H1, H2. subst o.
  set (a' := index_name id (set_id_to_name ∅ a)).
  assert (id_to_name_ a' = {[id := []]}) as Ha' by reflexivity.
  set (w := default [] (id_to_name_ (set_id_to_name ∅ a) !! id) ++ str "> " ++ m).
  set (s3 := mkClient a' (console_after (EvWrite w) c) (Some t2) (<[t1 := Goto Messages]>
    (<[t1 := Write w (Goto Messages)]> (<[t2 := refill_names new]> ths)))).
  pose proof (solo_run t2 true _ (ok_refill_names new) s3 eq_refl eq_refl) as Hs.
  pose proof (solo_refill_names new a') as Hr. cbn [c_app s3] in Hs.
  destruct (solo (refill_names new) a') as [[ws q] a2].
  destruct Hs as (n & s2 & Hrun & _ & <- & Ho), Hr as (_ & Hn & Hi).
  exists ([(t2, NoInput); (t1, NoInput); (t1, NoInput)] ++ replicate n (t2, NoInput)),
    (EvWrite w :: map EvWrite ws), s2.
  assert (client_run [(t2, NoInput); (t1, NoInput); (t1, NoInput)] (mkClient a c (Some t2) ths) =
    Some ([EvWrite w], s3)) as E.
  { set (ths1 := <[t2 := refill_names new]> ths).
    rewrite (client_run_cons _ _ _ _ [] (mkClient (set_id_to_name ∅ a) c (Some t2) ths1))
      by (unfold client_step; cbn [threads]; by rewrite H2).
    rewrite (client_run_cons _ _ _ _ [] (mkClient a' c (Some t2)
      (<[t1 := Write w (Goto Messages)]> ths1))); [reflexivity|].
    unfold client_step. assert (ths1 t1 = naming id m) as E1 by exact H1. cbn [threads].
    by rewrite E1. }
  split_and!; [|by left|done|done|].
  - by rewrite client_run_app, E; cbn; rewrite Hrun.
  - rewrite Hi, Ha'. apply emplaces_keep, lookup_insert_eq.
Qed.

(** C29. The race has consequences: while the list of users is being replaced, a message of
    a user with a known name can be shown with an empty name, and the empty name stays in
    [id_to_name_] after the lock has been given back, although [name_to_id_] has the
    user's name. *)
Theorem race_loses_a_name (s : client) id m user us :
  let new := names_of (online_users (default RespUsers_default (resp_users (users_answer 0 us)))) in
  name_mtx s = None → threads s t1 = messages_loop → threads s t2 = users_loop →
  id_to_name_ (c_app s) !! id = Some user → new ≠ name_to_id_ (c_app s) →
  ∃ sch1 s1 sch2 es2 s2,
    client_run sch1 s = Some ([], s1) ∧ race IdToName t2 t1 s1 ∧
    client_run sch2 s1 = Some (es2, s2) ∧ EvWrite (str "> " ++ m) ∈ es2 ∧
    name_mtx s2 = None ∧ name_to_id_ (c_app s2) = new ∧ id_to_name_ (c_app s2) !! id = Some [].
Proof.
  intros new Ho H1 H2 Hid Hnew.
  destruct (race_opens s id m user us Ho H1 H2 Hid Hnew) as (sch1 & s1 & Hr1 & Ht1 & Ht2 & Ho1 & Ha).
  destruct (race_goes_on s1 id m new Ho1 Ht1 Ht2) as (sch2 & es & s2 & Hr2 & Hw & Ho2 & Hn & Hi).
  exists sch1, s1, sch2, es, s2. rewrite Hn, Ha. split_and!; try done.
  unfold race. by rewrite Ht1, Ht2.
Qed.

End client.

(** ** Witnesses *)

#[local] Existing Instance canonical_order.

(** The client knows Ann; she writes, and her message is being shown when Bob registers. *)
Definition ann_app : App :=
  set_name_to_id {[str "Ann" := 4%Z]} (set_id_to_name {[4%Z := str "Ann"]} new_app).

Definition with_bob : Packet :=
  users_answer 0 [(4%Z, mkUserMetadata (str "Ann") []); (5%Z, mkUserMetadata (str "Bob") [])].

Definition both_asked : list (thread * input) := [(t1, NoInput); (t2, NoInput)].

Definition bob_registers : list (thread * input) :=
  both_asked ++
  [(t1, Response (recv_answer 0 [mkMsg 4 (str "hi")])); (t1, NoInput);
   (t2, Response with_bob); (t2, NoInput); (t2, NoInput); (t2, NoInput)].

(** Whether a schedule runs, its critical sections and the state after it. *)
Definition runs (sch : list (thread * input)) : bool :=
  match client_run sch (client_start ann_app) with Some _ => true | None => false end.
Definition events_of (sch : list (thread * input)) : list con_event :=
  default [] (fst <$> client_run sch (client_start ann_app)).
Definition client_at (sch : list (thread * input)) : client :=
  default (client_start ann_app) (snd <$> client_run sch (client_start ann_app)).

Lemma run_at sch : runs sch = true →
  client_run sch (client_start ann_app) = Some (events_of sch, client_at sch).
Proof.
  unfold runs, events_of, client_at. by destruct (client_run sch (client_start ann_app)) as [[]|].
Qed.

Lemma reachable_at sch : runs sch = true → reachable ann_app (client_at sch).
Proof. intros Hr%run_at. by eexists _, _. Qed.

Lemma at_both_asked :
  client_at both_asked = mkClient ann_app Console_init None
    (<[t2 := users_loop]> (<[t1 := messages_loop]> (threads (client_start ann_app)))).
Proof. reflexivity. Qed.

Lemma races_are_on_id_to_name_witness :
  race IdToName t2 t1 (client_at bob_registers) ∧ name_mtx (client_at bob_registers) = Some t2 ∧
  IdToName = IdToName ∧
  (t2 = t1 ∧ name_mtx (client_at bob_registers) = Some t1 ∨
   t1 = t1 ∧ name_mtx (client_at bob_registers) = Some t2).
Proof.
  assert (race IdToName t2 t1 (client_at bob_registers)) as Hr.
  { split_and!; [done|by vm_compute..]. }
  split_and!; [done|by vm_compute|done|].
  apply (proj2 (races_are_on_id_to_name ann_app (client_at bob_registers)
    (reachable_at bob_registers ltac:(by vm_compute))) IdToName t2 t1 Hr).
Defined.

Lemma client_never_deadlocks_witness :
  name_mtx (client_at bob_registers) = Some t2 ∧
  ∃ n es s', client_run (from_option (λ t', replicate n (t', NoInput)) []
      (name_mtx (client_at bob_registers))) (client_at bob_registers) = Some (es, s') ∧
    name_mtx s' = None ∧ ∃ i r, client_step main_thread i s' = Some r.
Proof.
  split; [by vm_compute|].
  apply (client_never_deadlocks ann_app (client_at bob_registers) main_thread).
  apply reachable_at. by vm_compute.
Defined.

(** The user is typing a choice when the message is shown. *)
Definition typing : list (thread * input) :=
  replicate 7 (main_thread, NoInput) ++ [(main_thread, Typed 49)] ++ bob_registers ++
  [(t1, NoInput); (t1, NoInput)].

Lemma client_terminal_witness :
  let es := events_of typing in
  let s := client_at typing in
  let v := @view (wrapping 80) (@feed (wrapping 80) (con_run es Console_init).2 screen_init) in
  single_reader false es ∧
  (Forall2 shows (done_lines (@view (wrapping 80) screen_init) ++ transcript es [] []) (done_lines v) ∧
   shows (m_prompt (c_con s) ++ m_user_input (c_con s)) (line v) ∧
   col v = length (m_prompt (c_con s) ++ m_user_input (c_con s))) ∧
  m_user_input (c_con s) = str "1" ∧ str "Ann> hi" ∈ transcript es [] [].
Proof.
  intros es s v.
  destruct (@client_terminal _ (wrapping 80) (wrapping_laws 80 ltac:(lia)) ann_app typing es s screen_init)
    as [H1 H2].
  - apply run_at. by vm_compute.
  - assert (Forall event_plain es) as Hp by (apply (bool_decide_eq_true_1 _); by vm_compute).
    assert (fits_line 80 es [] []) as Hw
      by (apply (@bool_decide_eq_true_1 _ (fits_line_dec 80 es [] [])); by vm_compute).
    refine (conj H1 (conj (H2 Hp Hw eq_refl eq_refl) (conj _ _))).
    + by vm_compute.
    + apply (bool_decide_eq_true_1 _). by vm_compute.
Defined.

Lemma client_names_agree_witness :
  name_to_id_ (c_app (client_at both_asked)) !! str "Ann" = Some 4%Z.
Proof.
  apply (client_names_agree ann_app (client_at both_asked) 4 (str "Ann")).
  - intros i n Hi. right. cbn in *. by apply lookup_singleton_Some in Hi as [<- <-].
  - apply reachable_at. by vm_compute.
  - by vm_compute.
  - by vm_compute.
  - done.
Defined.

Lemma uninterrupted_turns_agree_witness :
  let s := client_at both_asked in
  let w := mkWorld (c_app s) Console_init [] [] () in
  ∃ n ws s', client_run ((t2, Response with_bob) :: replicate n (t2, NoInput)) s =
      Some (map EvWrite ws, s') ∧
    threads s' t2 = Goto Users ∧ name_mtx s' = None ∧
    handle_users with_bob w =
      Ok ((), mkWorld (c_app s') (con w) (stdout w ++ written ws (con w)) (typed w) (net w)).
Proof.
  cbn zeta. rewrite at_both_asked.
  set (s := mkClient _ _ _ _).
  exact (proj1 (uninterrupted_turns_agree s with_bob (mkWorld ann_app Console_init [] [] ())
    eq_refl eq_refl) eq_refl).
Defined.

Lemma race_loses_a_name_witness :
  ∃ sch1 s1 sch2 es2 s2,
    client_run sch1 (client_at both_asked) = Some ([], s1) ∧ race IdToName t2 t1 s1 ∧
    client_run sch2 s1 = Some (es2, s2) ∧ EvWrite (str "> " ++ str "hi") ∈ es2 ∧
    name_mtx s2 = None ∧
    name_to_id_ (c_app s2) = {[str "Ann" := 4%Z; str "Bob" := 5%Z]} ∧
    id_to_name_ (c_app s2) !! 4%Z = Some [].
Proof.
  assert (names_of (online_users (default RespUsers_default (resp_users with_bob))) =
    {[str "Ann" := 4%Z; str "Bob" := 5%Z]}) as <- by (by apply (bool_decide_eq_true_1 _); vm_compute).
  rewrite at_both_asked. set (s := mkClient _ _ _ _).
  apply (race_loses_a_name s 4 (str "hi") (str "Ann")
    [(4%Z, mkUserMetadata (str "Ann") []); (5%Z, mkUserMetadata (str "Bob") [])]).
  - reflexivity.
  - reflexivity.
  - reflexivity.
  - by vm_compute.
  - apply (bool_decide_eq_true_1 _). by vm_compute.
Defined.
