(* ===== verification/Service.v ===== *)
(** The server application as a chat service: the requests that it answers are answered
    as the history of [ChatSpec] determines, by a server that takes one request after the
    other and hence by the threads while a registering one is alone with the database. *)

From S2P Require Import Prelude.
From S2P Require Import Common.
From S2P Require Import ChatSpec.
From S2P Require Import Database.
From S2P Require Import Packet.
From S2P Require Import Wire.
From S2P Require Import Session.
From S2P Require Import Socket.
From S2P Require Import Network.
From S2P Require Import ServerApp.
From S2P Require Import ServerAppProofs.
From S2P Require Import Threads.
From S2P Require Import ThreadsProofs.
From S2P Require Import ThreadsTheorems.
From S2P Require Import App.
From S2P Require Import AppProofs.

#[local] Existing Instance canonical_order.

(** ** Requests and answers as packets *)

(** The packet a client sends for a request. *)
Definition request_packet (r : request) : option Packet :=
  match r with
  | RRegister name => Some (register_request name)
  | RUsers id => Some (users_request id)
  | RSend _ _ _ | RRecv _ => None
  end.

(** What a client takes from the packet that answers it. *)
Definition read_reply (r : request) (reply : Packet) : response :=
  match r with
  | RRegister _ =>
      let resp := default RespRegister_default (resp_reg reply) in
      PRegister (get_u32 (pr_resp_value resp) =? 0)%Z (get_u32 (pr_assigned_id resp))
  | RUsers _ =>
      let resp := default RespUsers_default (resp_users reply) in
      if (get_u32 (pu_resp_value resp) =? 0)%Z
      then PUsers true (App.names_of (online_users resp)) else PUsers false ∅
  | RSend _ _ _ => PSend false kSuccess
  | RRecv _ => PRecv false []
  end.

(** A request whose fields fit, one of those the server answers. *)
Definition in_range (r : request) : Prop :=
  match r with
  | RRegister name => u32 (Z.of_nat (length name))
  | RUsers id => u32 id
  | RSend _ _ _ | RRecv _ => False
  end.

(** A conversation from one history to another, every answer being one that the history
    before it allows. *)
Inductive conversation : history → list request → list response → history → Prop :=
| conversation_nil h : conversation h [] [] h
| conversation_cons h r p rs ps h' :
    answer_spec h r p → conversation (h ++ log r p) rs ps h' →
    conversation h (r :: rs) (p :: ps) h'.

Section service.
  Context {ord : UMapOrder Z UserMetadata}.

(** The names of the other users, as the client of the protobuf service reads them. *)
Lemma app_names_of_users_spec h db id :
  db_models h db →
  users_spec id h (App.names_of
    (map (λ it, mkOnlineUser (Some it.1) (Some (username it.2)))
       (ServerAppProofs.others id (umap_seq (user_map_ db))))).
Proof.
  intros Hm. split.
  - intros name k (u & Hin & <- & <-)%names_of_sound.
    apply list_elem_of_fmap in Hin as ([k u'] & -> & [Hk Hin]%list_elem_of_filter). cbn in *.
    apply elem_of_umap_seq in Hin. rewrite (dm_lookup _ _ Hm) in Hin.
    apply fmap_Some in Hin as (name & Hn & ->). done.
  - intros k name Hne Hn.
    apply (names_of_complete _ (mkOnlineUser (Some k) (Some name))), list_elem_of_fmap.
    exists (k, mkUserMetadata name (pending k h)). split; [done|].
    apply list_elem_of_filter. split; [done|]. apply elem_of_umap_seq.
    by rewrite (dm_lookup _ _ Hm), Hn.
Qed.

(** One request. *)
Lemma answer_packet_refines h db r p :
  db_models h db → in_range r → request_packet r = Some p →
  (Z.of_nat (length (registered h)) + 1 < 2 ^ 32)%Z →
  ∃ reply db', answer_packet p db = (Some reply, db') ∧
    answer_spec h r (read_reply r reply) ∧ db_models (h ++ log r (read_reply r reply)) db'.
Proof.
  intros Hm Hr Hp Hb. destruct r as [name|id| |]; cbn in Hp; simplify_eq.
  - do 2 eexists. split; [reflexivity|]. split.
    + cbn. split; [done|]. apply (dm_next _ _ Hm).
    + by apply after_register.
  - do 2 eexists. split; [reflexivity|]. cbn [get_u32 default ru_requestor_id].
    rewrite (dm_exists _ _ _ Hm).
    destruct (name_of id h) as [name|] eqn:E;
      [rewrite bool_decide_eq_true_2 by eauto|rewrite bool_decide_eq_false_2 by apply is_Some_None];
      cbn; rewrite E, app_nil_r; (split; [|done]); (split; [done|]); [|done].
    by apply app_names_of_users_spec.
Qed.

Lemma registered_log h r p :
  (length (registered (h ++ log r p)) ≤ length (registered h) + 1)%nat.
Proof.
  rewrite registered_app, length_app. apply Nat.add_le_mono_l.
  destruct r, p as [| |ok []|]; cbn; lia.
Qed.

(** The requests of a log, served one after the other. *)
Lemma serve_seq_conversation `{!Protobuf, !ProtobufLaws} log rs h db :
  db_models h db →
  Forall2 (λ e r, request_packet r = Some e.2 ∧ in_range r) log rs →
  (Z.of_nat (length (registered h) + length rs) < 2 ^ 32)%Z →
  ∃ replies h',
    length replies = length log ∧
    (serve_seq log db).1 = zip_with (λ e reply, (e, wire reply)) log replies ∧
    conversation h rs (zip_with read_reply rs replies) h' ∧
    db_models h' (serve_seq log db).2.
Proof.
  intros Hm Hf. revert h db Hm. induction Hf as [|[i p] r log rs [Hp Hr] Hf IH]; intros h db Hm Hb.
  { exists [], h. split_and!; [done..|constructor|done]. }
  cbn [length fst snd] in *.
  destruct (answer_packet_refines h db r p) as (reply & db1 & Ea & Hs & Hm1); [done|done|done|lia|].
  pose proof (registered_log h r (read_reply r reply)) as Hlog.
  destruct (IH (h ++ ChatSpec.log r (read_reply r reply)) db1 Hm1 ltac:(lia))
    as (replies & h' & Hl & Hrs & Hc & Hm').
  exists (reply :: replies), h'. cbn [serve_seq]. rewrite Ea. cbn [from_option].
  destruct (serve_seq log db1) as [rs1 db2]. cbn [fst snd] in *. subst rs1.
  split_and!; [cbn; lia|done|by constructor|done].
Qed.

End service.

(** ** The threads *)

(** C4. While a thread inside [registerUser] is alone with the database, the threads
    are a chat service: for the
    requests a client may make to register or to ask for the users, there is a
    conversation in which every answer is the one its history allows, the database is
    the one that history describes, and every connection whose sending has succeeded has
    been sent the answer of its request in that conversation. *)
Theorem threads_implement_chat {ord : UMapOrder Z UserMetadata} `{ProtobufLaws} {K : Type}
    `{ConnectionLaws K} ss h db k schedule log rs (s : server K) :
  db_models h db →
  execute schedule (server_start ss db k) = Ok (log, s) →
  exclusive_run schedule (server_start ss db k) →
  Forall2 (λ e r, request_packet r = Some e.2 ∧ in_range r) log rs →
  (Z.of_nat (length (registered h) + length rs) < 2 ^ 32)%Z →
  ∃ replies h',
    conversation h rs (zip_with read_reply rs replies) h' ∧
    ((∀ i t, handlers s !! i = Some t → in_flight t = false) → db_models h' (the_db s)) ∧
    ∀ i t, handlers s !! i = Some t → at_ t = Returning true →
      ∃ j p reply, log !! j = Some (i, p) ∧ replies !! j = Some reply ∧
        sent (fd_ (my_socket t)) (kernel s) = wire reply.
Proof.
  intros Hm Hs Hex Hrs Hb.
  destruct (serve_seq_conversation log rs h db) as (replies & h' & _ & Hseq & Hc & Hm'); [done..|].
  pose proof (inv_execute db [] schedule _ log s (inv_start db ss k) Hex Hs) as Hinv.
  rewrite app_nil_l in Hinv. exists replies, h'. split; [done|]. split.
  - intros Hq. rewrite (db_ok_settled _ _ _ (inv_db _ _ _ Hinv) Hq). done.
  - intros i t Hi Ht. pose proof (inv_handlers _ _ _ Hinv i t Hi) as Hh.
    unfold handler_ok, answered in Hh. rewrite Ht in Hh. destruct Hh as (reply & Ha & _ & E).
    rewrite Hseq in Ha. apply list_elem_of_lookup in Ha as [j Hj].
    apply lookup_zip_with_Some in Hj as ([i' p] & reply' & [= <- _ ->] & Hlj & Hrj).
    exists j, p, reply'. split_and!; [done..|by apply E].
Qed.

Lemma two_users_models : db_models [EvRegister (str "Ann"); EvRegister (str "Bob")] two_users.
Proof.
  apply (after_register [EvRegister (str "Ann")]); [|by vm_compute].
  apply (after_register []); [apply db_models_init|by vm_compute].
Qed.

Lemma threads_implement_chat_witness :
  ∃ log s replies h',
    execute interleaved interleaved_start = Ok (log, s) ∧
    conversation [EvRegister (str "Ann"); EvRegister (str "Bob")]
      [RRegister (str "Eve"); RUsers 0]
      (zip_with read_reply [RRegister (str "Eve"); RUsers 0] replies) h'.
Proof.
  assert ((λ x, x.1) <$> execute interleaved interleaved_start =
    Ok [(0%nat, register_request (str "Eve")); (1%nat, users_request 0)]) as Hc
    by (vm_compute; reflexivity).
  destruct (execute interleaved interleaved_start) as [[log s]| | |] eqn:E; try discriminate Hc.
  injection Hc as ->.
  destruct (threads_implement_chat (K := Network.net) (mkServerSocket 0) _ two_users _ interleaved _
    [RRegister (str "Eve"); RUsers 0] s two_users_models E
    ltac:(apply (bool_decide_eq_true_1 _); vm_compute; reflexivity)
    ltac:(repeat constructor; done) ltac:(done)) as (replies & h' & Hconv & _).
  do 2 eexists. exists replies, h'. split; [reflexivity|exact Hconv].
Defined.
