(* ===== verification/System.v ===== *)
(** The whole system: one server and any number of clients, each with its three threads.
    A client's thread moves as in [ClientThreads]; a request, a registration too, takes
    effect at the server in one step, its answer reaches the client in a later one, and
    both fit the buffers. The source has no such steps: [Database::registerUser] takes no
    lock. [Composed] has the threads of the server instead, and refines this machine as
    long as a thread inside [registerUser] is alone with the database, and only then. What
    is proved of this machine alone is a property of the program under that condition. *)

From stdpp Require Import functions.
From S2P Require Import Prelude.
From S2P Require Import Common.
From S2P Require Import Database.
From S2P Require Import Packet.
From S2P Require Import ServerAppProofs.
From S2P Require Import Console.
From S2P Require Import App.
From S2P Require Import AppProofs.
From S2P Require Import AppTheorems.
From S2P Require Import Loops.
From S2P Require Import ClientThreads.
From S2P Require Import ClientThreadsProofs.
From S2P Require Import ClientThreadsTheorems.

(** ** The machine *)

(** A client, and for each of its threads what the server has made of the thread's request:
    [None] before it has, [Some None] when it has closed the connection without an answer. *)
Record node := mkNode {
  nd_client : client;
  nd_reply : thread → option (option Packet);
}.

(** A client whose registration has taken effect: the answer with its ID is on the way, or
    it has arrived and the threads run. *)
Inductive peer :=
| Waiting (name : bytes) (id : Z)
| Running (nd : node).

(** The database, and the clients in the order of their registrations. *)
Record system := mkSystem {
  sys_db : Database;
  nodes : list peer;
}.

Section system.
  Context {ord : UMapOrder Z UserMetadata} {ord' : UMapOrder bytes Z} `{Protobuf}.

(** Packets that fit the buffers and survive the wire; what happens to others is not
    defined here. *)
Definition delivers_whole (p : Packet) : Prop :=
  wf_packet p ∧ (0 < ByteSizeLong p ≤ 1000)%Z.

#[export] Instance delivers_whole_dec p : Decision (delivers_whole p) := and_dec _ _.

(** The client after [registerUser]. *)
Definition node_start (ip : bytes) (port uninit id : Z) (name : bytes) : node :=
  mkNode (client_start (set_id id (set_username name (App_init ip port uninit)))) (λ _, None).

(** What a step does to the [i]-th client. *)
Definition with_node (i : nat) (nd : node) (db : Database) (s : system) : system :=
  mkSystem db (<[i := Running nd]> (nodes s)).

(** A request takes effect in one step: what the handler threads do is not atomic, and
    amounts to this under the condition of [Composed.exclusive_step]. *)
Inductive sys_step : system → system → Prop :=
(** The server handles the request of a client to register. *)
| sys_register s name r db :
    delivers_whole (register_request name) →
    answer_packet (register_request name) (sys_db s) = (Some r, db) → delivers_whole r →
    sys_step s (mkSystem db
      (nodes s ++ [Waiting name (get_u32 (pr_assigned_id (default RespRegister_default (resp_reg r))))]))
(** The answer arrives, and the client starts its threads. *)
| sys_started s i ip port uninit name id :
    nodes s !! i = Some (Waiting name id) →
    sys_step s (with_node i (node_start ip port uninit id name) (sys_db s) s)
(** A step of a thread that is not waiting for the server. *)
| sys_local s i nd t inp es c :
    nodes s !! i = Some (Running nd) → (∀ p, inp ≠ Response p) →
    client_step t inp (nd_client nd) = Some (es, c) →
    sys_step s (with_node i (mkNode c (nd_reply nd)) (sys_db s) s)
(** The server handles the request a thread is waiting with. *)
| sys_serve s i nd t req k r db :
    nodes s !! i = Some (Running nd) → threads (nd_client nd) t = Exchange req k →
    nd_reply nd t = None → delivers_whole (req (c_app (nd_client nd))) →
    answer_packet (req (c_app (nd_client nd))) (sys_db s) = (r, db) →
    from_option delivers_whole True r →
    sys_step s (with_node i (mkNode (nd_client nd) (<[t := Some r]> (nd_reply nd))) db s)
(** The answer arrives. *)
| sys_deliver s i nd t resp es c :
    nodes s !! i = Some (Running nd) → nd_reply nd t = Some (Some resp) →
    client_step t (Response resp) (nd_client nd) = Some (es, c) →
    sys_step s (with_node i (mkNode c (<[t := None]> (nd_reply nd))) (sys_db s) s).

Definition sys_start : system := mkSystem Database_init [].

Definition sys_reachable (s : system) : Prop := rtc sys_step sys_start s.

(** ** Schedules

    The same steps as a function of who moves. *)
Inductive action :=
| Register (name : bytes)
| Start (i : nat) (ip : bytes) (port uninit : Z)
| Local (i : nat) (t : thread) (inp : input)
| Serve (i : nat) (t : thread)
| Deliver (i : nat) (t : thread).

Definition running (i : nat) (s : system) : option node :=
  match nodes s !! i with Some (Running nd) => Some nd | _ => None end.

Lemma running_Some i s nd : running i s = Some nd → nodes s !! i = Some (Running nd).
Proof. unfold running. intros Hr. by repeat case_match; simplify_eq. Qed.

Definition is_response (inp : input) : bool :=
  match inp with Response _ => true | _ => false end.

Definition sys_move (m : action) (s : system) : option system :=
  match m with
  | Register name =>
      guard (delivers_whole (register_request name));;
      match answer_packet (register_request name) (sys_db s) with
      | (Some r, db) =>
          guard (delivers_whole r);;
          Some (mkSystem db (nodes s ++
            [Waiting name (get_u32 (pr_assigned_id (default RespRegister_default (resp_reg r))))]))
      | _ => None
      end
  | Start i ip port uninit =>
      match nodes s !! i with
      | Some (Waiting name id) =>
          Some (with_node i (node_start ip port uninit id name) (sys_db s) s)
      | _ => None
      end
  | Local i t inp =>
      nd ← running i s;
      guard (is_response inp = false);;
      '(_, c) ← client_step t inp (nd_client nd);
      Some (with_node i (mkNode c (nd_reply nd)) (sys_db s) s)
  | Serve i t =>
      nd ← running i s;
      match threads (nd_client nd) t, nd_reply nd t with
      | Exchange req _, None =>
          guard (delivers_whole (req (c_app (nd_client nd))));;
          let '(r, db) := answer_packet (req (c_app (nd_client nd))) (sys_db s) in
          guard (from_option delivers_whole True r);;
          Some (with_node i (mkNode (nd_client nd) (<[t := Some r]> (nd_reply nd))) db s)
      | _, _ => None
      end
  | Deliver i t =>
      nd ← running i s;
      match nd_reply nd t with
      | Some (Some resp) =>
          '(_, c) ← client_step t (Response resp) (nd_client nd);
          Some (with_node i (mkNode c (<[t := None]> (nd_reply nd))) (sys_db s) s)
      | _ => None
      end
  end.

Definition sys_moves (ms : list action) (s : system) : option system :=
  foldl (λ o m, o ≫= sys_move m) (Some s) ms.

Lemma sys_move_step m s s' : sys_move m s = Some s' → sys_step s s'.
Proof.
  destruct m as [name|i ip port uninit|i t inp|i t|i t]; cbn [sys_move].
  - destruct (answer_packet _ _) as [[r|] db] eqn:Ea; intros Hm; simplify_option_eq.
    by eapply sys_register.
  - destruct (nodes s !! i) as [[name id|]|] eqn:Hi; try done. intros [= <-]. by constructor.
  - destruct (running i s) as [nd|] eqn:Hi; [apply running_Some in Hi|done]. cbn. intros Hm.
    destruct (client_step t inp (nd_client nd)) as [[es c]|] eqn:Hc; simplify_option_eq.
    eapply sys_local; [done| |done]. by intros p ->.
  - destruct (running i s) as [nd|] eqn:Hi; [apply running_Some in Hi|done]. cbn.
    destruct (threads (nd_client nd) t) as [| | | | | | |req k] eqn:Ht; try done.
    destruct (nd_reply nd t) eqn:Hr; [done|].
    destruct (answer_packet _ _) as [r db] eqn:Ea. intros Hm. simplify_option_eq.
    by eapply sys_serve.
  - destruct (running i s) as [nd|] eqn:Hi; [apply running_Some in Hi|done]. cbn.
    destruct (nd_reply nd t) as [[resp|]|] eqn:Hr; try done.
    destruct (client_step t _ _) as [[es c]|] eqn:Hc; [|done]. intros [= <-].
    by eapply sys_deliver.
Qed.

Lemma sys_moves_reachable ms s s' :
  sys_reachable s → sys_moves ms s = Some s' → sys_reachable s'.
Proof.
  unfold sys_moves. revert s. induction ms as [|m ms IH]; intros s Hs Hm; cbn in Hm.
  { by simplify_eq. }
  destruct (sys_move m s) as [s1|] eqn:E.
  - eapply IH, Hm. by eapply rtc_r, sys_move_step.
  - exfalso. clear -Hm. by induction ms.
Qed.

End system.
