(* ===== verification/SystemProofs.v ===== *)
(** The invariant of the whole system: every name a client knows is that of another user,
    what each thread of a client does rests on names that stay true, and the steps keep
    this as long as the IDs last. *)

From stdpp Require Import functions.
From S2P Require Import Prelude.
From S2P Require Import Common.
From S2P Require Import Database.
From S2P Require Import Packet.
From S2P Require Import ServerAppProofs.
From S2P Require Import Console.
From S2P Require Import App.
From S2P Require Import AppProofs.
From S2P Require Import AppTheorems.
From S2P Require Import Loops.
From S2P Require Import ClientThreads.
From S2P Require Import ClientThreadsProofs.
From S2P Require Import ClientThreadsTheorems.
From S2P Require Import System.

(** ** Names that are true *)

#[export] Instance grows_preorder : PreOrder grows.
Proof.
  split; [intros db k u Hk; by exists u|].
  intros db1 db2 db3 H12 H23 k u Hk. destruct (H12 k u Hk) as (u2 & Hk2 & E2).
  destruct (H23 k u2 Hk2) as (u3 & Hk3 & E3). exists u3. split; [done|congruence].
Qed.

Section system.
  Context {ord : UMapOrder Z UserMetadata} {ord' : UMapOrder bytes Z} `{Protobuf}.

(** In [db] the user [k] has the name [n]. *)
Definition user_named (db : Database) (k : Z) (n : bytes) : Prop :=
  ∃ u, user_map_ db !! k = Some u ∧ username u = n.

Lemma user_named_grows db db' k n : grows db db' → user_named db k n → user_named db' k n.
Proof. intros Hg (u & Hk & <-). destruct (Hg k u Hk) as (u' & ? & ?). by exists u'. Qed.

Definition other_named (db : Database) (me k : Z) (n : bytes) : Prop := k ≠ me ∧ user_named db k n.

Lemma other_named_grows db db' me k n :
  grows db db' → other_named db me k n → other_named db' me k n.
Proof. intros Hg [? ?]. split; [done|by eapply user_named_grows]. Qed.

(** The names in [m] are those of other users. *)
Definition names_true (db : Database) (me : Z) (m : gmap bytes Z) : Prop :=
  ∀ n k, m !! n = Some k → other_named db me k n.

Definition maps_true (db : Database) (me : Z) (a : App) : Prop :=
  names_true db me (name_to_id_ a) ∧
  ∀ k n, id_to_name_ a !! k = Some n → other_named db me k n.

Lemma names_true_grows db db' me m : grows db db' → names_true db me m → names_true db' me m.
Proof. intros Hg Hm n k Hk%Hm. by eapply other_named_grows. Qed.

Lemma maps_true_grows db db' me a : grows db db' → maps_true db me a → maps_true db' me a.
Proof.
  intros Hg [Hn Hi]. split; [by eapply names_true_grows|].
  intros k n Hk%Hi. by eapply other_named_grows.
Qed.

Lemma names_true_users_of db me :
  names_true db me (names_of (online_users (default RespUsers_default (resp_users (users_of me db))))).
Proof.
  intros n k (u & Hin & <- & <-)%names_of_sound. cbn in Hin.
  apply list_elem_of_fmap in Hin as ([k' u'] & -> & [Hk Hin]%list_elem_of_filter). cbn in *.
  split; [done|]. apply elem_of_umap_seq in Hin. by exists u'.
Qed.

(** A list of the users has all the names known before. *)
Lemma users_of_complete db me m :
  names_true db me m →
  dom m ⊆ dom (names_of (online_users (default RespUsers_default (resp_users (users_of me db))))).
Proof.
  intros Hm n [k Hk]%elem_of_dom. apply Hm in Hk as [Hne (u & Hu & <-)]. apply elem_of_dom.
  apply (names_of_complete _ (mkOnlineUser (Some k) (Some (username u)))), list_elem_of_fmap.
  exists (k, u). split; [done|]. apply list_elem_of_filter. by rewrite elem_of_umap_seq.
Qed.

(** ** What the main thread does

    With the names [N] known for good, it changes nothing, starts to chat only with them,
    and sends only to other users. *)
Fixpoint steady (db : Database) (me : Z) (p : prog) (N : gset bytes) : Prop :=
  match p with
  | Goto (Chat t) => t ∈ N
  | Goto _ => True
  | Lock k | Unlock k | Write _ k => steady db me k N
  | Access _ _ f k => ∀ db' a, grows db db' → maps_true db' me a → N ⊆ dom (name_to_id_ a) →
      f a = a ∧ steady db' me (k a) (dom (name_to_id_ a))
  | Read _ k | Reading k => ∀ s, steady db me (k s) N
  | Exchange req _ => ∃ tgt n m,
      (∀ a, req a = send_request (id_ a) tgt m) ∧ tgt ≠ me ∧ user_named db tgt n
  end.

Lemma steady_mono db db' me p N N' :
  grows db db' → N ⊆ N' → steady db me p N → steady db' me p N'.
Proof.
  intros Hg. revert N N'. induction p as [l|k IH|k IH|rd wr f k IH|w k IH|prompt k IH|k IH|req k IH];
    intros N N' HN; cbn; try (by apply IH).
  - destruct l; [done..|]. apply HN.
  - intros Hp db1 a Hg1 Ha HN1. apply Hp; [by etrans|done|by etrans].
  - intros Hp s. by eapply IH.
  - intros Hp s. by eapply IH.
  - intros (tgt & n & m & ? & ? & ?). exists tgt, n, m. split_and!; [done..|].
    by eapply user_named_grows.
Qed.

Lemma steady_writes db me l k N : steady db me k N → steady db me (Writes l k) N.
Proof. intros Hk. by induction l. Qed.

Lemma steady_print_users db me k N :
  (∀ db' N', grows db db' → N ⊆ N' → steady db' me k N') → steady db me (print_users k) N.
Proof. intros Hk db' a Hg Ha HN. split; [done|]. apply steady_writes. cbn. auto. Qed.

(** The code of the main thread. *)
Lemma code_steady db me l N :
  thread_of l = main_thread → steady db me (Goto l) N → steady db me (code l) N.
Proof.
  intros Hl HN. destruct l as [| | | | |t]; try done; cbn [code] in *.
  - intros [|c [|c' s]]; [done| |done]. destruct (cmd_find c) as [[]|]; [|done|done].
    by apply steady_print_users.
  - intros t. case_bool_decide; [done|]. intros db' a Hg Ha HN'. split; [done|].
    destruct (name_to_id_ a !! t) eqn:E; cbn; [by apply elem_of_dom|done].
  - intros s. case_bool_decide; [done|]. intros db' a Hg Ha HN'. cbn in HN.
    apply HN', elem_of_dom in HN as [k Hk]. unfold lookup_target. rewrite Hk. split; [done|].
    cbn. apply Ha in Hk as [Hne Hk]. by exists k, t, s.
Qed.

(** ** What the second thread does

    With the map [m] of names it changes the maps only to true ones, forgets no name, and
    asks for nothing but the users. *)
Fixpoint refreshes (db : Database) (me : Z) (p : prog) (m : gmap bytes Z) : Prop :=
  match p with
  | Goto l => l = Users
  | Lock k | Unlock k | Write _ k => refreshes db me k m
  | Access _ _ f k => ∀ db' a, grows db db' → maps_true db' me a → name_to_id_ a = m →
      maps_true db' me (f a) ∧ id_ (f a) = id_ a ∧ username_ (f a) = username_ a ∧
      dom m ⊆ dom (name_to_id_ (f a)) ∧ refreshes db' me (k a) (name_to_id_ (f a))
  | Read _ _ | Reading _ => False
  | Exchange req k => Exchange req k = users_loop
  end.

Lemma refreshes_grows db db' me p m :
  grows db db' → refreshes db me p m → refreshes db' me p m.
Proof.
  intros Hg. induction p as [l|k IH|k IH|rd wr f k IH|w k IH|prompt k IH|k IH|req k IH]; cbn; try done.
  intros Hp db1 a Hg1. apply Hp. by etrans.
Qed.

Lemma refreshes_read db me rd wr k m :
  (∀ db' a, grows db db' → name_to_id_ a = m → refreshes db' me (k a) m) →
  refreshes db me (Access rd wr (λ a, a) k) m.
Proof. intros Hk db' a Hg Ha Hm. rewrite Hm. split_and!; auto. Qed.

Lemma refreshes_writes db me l k m : refreshes db me k m → refreshes db me (Writes l k) m.
Proof. intros Hk. by induction l. Qed.

Lemma refreshes_emplaces db me l k m :
  (∀ n i, (n, i) ∈ l → other_named db me i n) →
  (∀ db', grows db db' → refreshes db' me k m) → refreshes db me (emplaces l k) m.
Proof.
  revert db. induction l as [|[n i] l IH]; intros db Hl Hk; [by apply Hk|].
  intros db' a Hg [Hn Hi] Hm. cbn. rewrite Hm. split_and!; [|done..|].
  - split; cbn; [done|]. intros i' n' [Hold|[= <- <-]]%emplace_lookup; [by apply Hi|].
    eapply other_named_grows, Hl; [done|by left].
  - apply IH; [|intros db1 Hg1; apply Hk; by etrans].
    intros n' i' Hin. eapply other_named_grows, Hl; [done|by right].
Qed.

Lemma refreshes_update_names db me new m :
  names_true db me new → dom m ⊆ dom new → refreshes db me (update_names new) m.
Proof.
  intros Hnew Hm. apply (refreshes_read _ _ [NameToId] []). intros db1 a Hg1 _. case_bool_decide; [done|].
  intros db2 a2 Hg2 Ha2 Ha2m. cbn.
  assert (names_true db2 me new) as Hnew2 by (eapply names_true_grows; [|done]; by etrans).
  split_and!; [by split; [|apply Ha2]|done..|].
  intros db3 a3 Hg3 Ha3 Ha3m. cbn. rewrite Ha3m. split_and!; [|done..|].
  { split; cbn; [rewrite Ha3m; by eapply names_true_grows|by intros ??]. }
  apply refreshes_emplaces.
  - intros n i Hin%elem_of_umap_seq. by eapply (names_true_grows db2), Hin.
  - intros db4 Hg4. cbn. apply (refreshes_read _ _ [NameToId] []). intros db5 a5 Hg5 Ha5. case_bool_decide; [done|].
    cbn. apply (refreshes_read _ _ [NameToId] []). intros db6 a6 Hg6 Ha6. by apply refreshes_writes.
Qed.

(** What it does with the answer. *)
Lemma refreshes_answer db me req k m :
  Exchange req k = users_loop → names_true db me m →
  refreshes db me (k (users_of me db)) m.
Proof.
  intros [= _ ->] Hm. cbn -[names_of].
  by apply refreshes_update_names; [apply names_true_users_of|apply users_of_complete].
Qed.

(** ** A client *)

(** What a thread may be about to do, with the map [m]. The first thread never gets past
    its first request, which the server does not answer. *)
Definition follows (db : Database) (me : Z) (t : thread) (p : prog) (m : gmap bytes Z) : Prop :=
  match t with
  | t1 => p = Goto Messages ∨ p = messages_loop
  | t2 => refreshes db me p m
  | main_thread => steady db me p (dom m)
  end.

Record node_ok (db : Database) (me : Z) (nd : node) : Prop := {
  nk_id : id_ (c_app (nd_client nd)) = me;
  nk_named : user_named db me (username_ (c_app (nd_client nd)));
  nk_maps : maps_true db me (c_app (nd_client nd));
  nk_threads t :
    follows db me t (threads (nd_client nd) t) (name_to_id_ (c_app (nd_client nd)));
  nk_silent t : t ≠ t2 → nd_reply nd t = None ∨ nd_reply nd t = Some None;
  nk_reply r : nd_reply nd t2 = Some r → ∃ resp req k,
    r = Some resp ∧ threads (nd_client nd) t2 = Exchange req k ∧
    refreshes db me (k resp) (name_to_id_ (c_app (nd_client nd)));
  nk_reachable : ∃ a, reachable a (nd_client nd);
}.

Lemma follows_mono db db' me t p m m' :
  grows db db' → dom m ⊆ dom m' → (t = t2 → m' = m) → follows db me t p m → follows db' me t p m'.
Proof.
  intros Hg Hm Ht. destruct t; cbn; [done| |by eapply steady_mono].
  rewrite Ht by done. by apply refreshes_grows.
Qed.

Lemma node_ok_grows db db' me nd : grows db db' → node_ok db me nd → node_ok db' me nd.
Proof.
  intros Hg [Hid Hnm Hm Ht Hs Hr Ha]. split; try done.
  - by eapply user_named_grows.
  - by eapply maps_true_grows.
  - intros t. by eapply follows_mono.
  - intros r (resp & req & k & ? & ? & ?)%Hr. exists resp, req, k. split_and!; [done..|].
    by eapply refreshes_grows.
Qed.

Lemma reachable_step a t i s es s' :
  reachable a s → client_step t i s = Some (es, s') → reachable a s'.
Proof.
  intros (sch & es0 & Hr) Hs. exists (sch ++ [(t, i)]), (es0 ++ es ++ []).
  rewrite client_run_app, Hr. cbn. by rewrite Hs.
Qed.

(** A thread moves, keeping to what it follows. *)
Lemma node_move db me nd t i es p a con o reply :
  node_ok db me nd →
  client_step t i (nd_client nd) =
    Some (es, mkClient a con o (<[t := p]> (threads (nd_client nd)))) →
  id_ a = id_ (c_app (nd_client nd)) → username_ a = username_ (c_app (nd_client nd)) →
  maps_true db me a → dom (name_to_id_ (c_app (nd_client nd))) ⊆ dom (name_to_id_ a) →
  (t ≠ t2 → a = c_app (nd_client nd)) → follows db me t p (name_to_id_ a) →
  (∀ t', t' ≠ t2 → reply t' = nd_reply nd t') →
  reply t2 = (if decide (t = t2) then None else nd_reply nd t2) →
  node_ok db me (mkNode (mkClient a con o (<[t := p]> (threads (nd_client nd)))) reply).
Proof.
  intros [Hid Hnm Hm Ht Hs Hr [a0 Ha]] Hstep Hia Hua Hma Hda Hother Hp Hrs Hr2.
  split; cbn [nd_client nd_reply c_app threads].
  - congruence.
  - by rewrite Hua.
  - done.
  - intros t'. destruct (decide (t' = t)) as [->|Hne]; [by rewrite fn_lookup_insert|].
    rewrite fn_lookup_insert_ne by done. eapply follows_mono, Ht; [done..|].
    intros ->. by rewrite Hother.
  - intros t' Hne. rewrite Hrs by done. by apply Hs.
  - intros r. rewrite Hr2. case_decide as Ht2; [done|].
    rewrite fn_lookup_insert_ne, Hother by done. apply Hr.
  - exists a0. by eapply reachable_step.
Qed.

(** A step that does not wait for the server. *)
Lemma node_local db me nd t i es c :
  node_ok db me nd → (∀ p, i ≠ Response p) →
  client_step t i (nd_client nd) = Some (es, c) → node_ok db me (mkNode c (nd_reply nd)).
Proof.
  intros Hnd Hi Hstep.
  assert (t = t2 → nd_reply nd t2 = None) as Hr2.
  { intros ->. destruct (nd_reply nd t2) eqn:E; [|done]. exfalso.
    apply (nk_reply _ _ _ Hnd) in E as (? & ? & ? & _ & E & _).
    unfold client_step in Hstep. rewrite E in Hstep. destruct i; try done. by eapply Hi. }
  assert (nd_reply nd t2 = (if decide (t = t2) then None else nd_reply nd t2)) as Hreply.
  { case_decide; auto. }
  pose proof (nk_threads _ _ _ Hnd t) as Ht. pose proof (nk_maps _ _ _ Hnd) as Hm.
  pose proof Hstep as Hc. unfold client_step in Hc.
  destruct (threads (nd_client nd) t) as [l|k|k|rd wr f k|w k|prompt k|k|req k] eqn:Ep, i as [|z|p];
    try done.
  - injection Hc as <- <-. eapply node_move; try done.
    destruct t; cbn in Ht |- *.
    + destruct Ht as [[= ->]|]; [by right|done].
    + by subst l.
    + apply code_steady; [|done]. destruct (nk_reachable _ _ _ Hnd) as [a Ha].
      pose proof (reachable_disciplined _ _ Ha main_thread) as Hd. rewrite Ep in Hd. by inversion Hd.
  - destruct (name_mtx (nd_client nd)); [done|]. injection Hc as <- <-.
    eapply node_move; try done. destruct t; cbn in Ht |- *; [by destruct Ht|done|done].
  - injection Hc as <- <-. eapply node_move; try done. destruct t; cbn in Ht |- *; [by destruct Ht|done|done].
  - injection Hc as <- <-. destruct t; cbn in Ht.
    + by destruct Ht.
    + destruct (Ht db (c_app (nd_client nd))) as (Hm' & Hia & Hua & Hda & Hp); [done..|].
      by eapply node_move.
    + destruct (Ht db (c_app (nd_client nd))) as [Hf Hp]; [done..|]. rewrite Hf in *.
      by eapply node_move.
  - injection Hc as <- <-. eapply node_move; try done. destruct t; cbn in Ht |- *; [by destruct Ht|done|done].
  - injection Hc as <- <-. eapply node_move; try done. destruct t; cbn in Ht |- *; [by destruct Ht|done|done].
  - destruct (con_step (EvChar z) (c_con (nd_client nd))) as [[rs c'] o] eqn:Ec.
    cbn in Hc. injection Hc as <- <-. eapply node_move; try done.
    destruct t; cbn in Ht |- *; [by destruct Ht|done|]. by destruct rs.
  - by destruct (Hi p).
Qed.

(** An answer arrives, which only the second thread gets. *)
Lemma node_deliver db me nd t resp es c :
  node_ok db me nd → nd_reply nd t = Some (Some resp) →
  client_step t (Response resp) (nd_client nd) = Some (es, c) →
  node_ok db me (mkNode c (<[t := None]> (nd_reply nd))).
Proof.
  intros Hnd Hrt Hstep. assert (t = t2) as ->.
  { destruct (decide (t = t2)) as [|Hne]; [done|]. destruct (nk_silent _ _ _ Hnd t Hne); congruence. }
  pose proof Hrt as (resp' & req & k & [= <-] & Ep & Hk)%(nk_reply _ _ _ Hnd).
  pose proof Hstep as Hc. unfold client_step in Hc. rewrite Ep in Hc. injection Hc as <- <-.
  eapply node_move; try done.
  - apply Hnd.
  - intros t' Hne. by rewrite fn_lookup_insert_ne.
Qed.

(** The server handles a request of a client whose ID is registered. *)
Lemma node_serve db me nd t req k :
  node_ok db me nd → threads (nd_client nd) t = Exchange req k →
  ∃ r, answer_packet (req (c_app (nd_client nd))) db = (r, db) ∧
    node_ok db me (mkNode (nd_client nd) (<[t := Some r]> (nd_reply nd))).
Proof.
  intros Hnd Ep. pose proof (nk_threads _ _ _ Hnd t) as Ht. rewrite Ep in Ht.
  assert (∀ r, (t ≠ t2 → r = None) →
    (t = t2 → ∃ resp, r = Some resp ∧ refreshes db me (k resp) (name_to_id_ (c_app (nd_client nd)))) →
    node_ok db me (mkNode (nd_client nd) (<[t := Some r]> (nd_reply nd)))) as Hok.
  { intros r Hother Hsecond. split; try apply Hnd; cbn [nd_client nd_reply].
    - intros t' Hne. destruct (decide (t' = t)) as [->|].
      + rewrite fn_lookup_insert. right. by rewrite Hother.
      + rewrite fn_lookup_insert_ne by done. by apply (nk_silent _ _ _ Hnd).
    - intros r'. destruct (decide (t = t2)) as [->|].
      + rewrite fn_lookup_insert. intros [= <-]. destruct Hsecond as (resp & -> & Hk); [done|].
        by exists resp, req, k.
      + rewrite fn_lookup_insert_ne by done. apply (nk_reply _ _ _ Hnd). }
  destruct t; cbn in Ht.
  - destruct Ht as [|[= -> ->]]; [done|]. exists None. split; [done|]. by apply Hok.
  - exists (Some (users_of me db)). split.
    + injection Ht as -> _. rewrite (nk_id _ _ _ Hnd). cbn. destruct (nk_named _ _ _ Hnd) as (u & Hu & _).
      by rewrite (proj2 (userExists_true _ _)) by eauto.
    + apply Hok; [done|]. intros _. eexists. split; [done|]. eapply refreshes_answer; [done|].
      apply (nk_maps _ _ _ Hnd).
  - destruct Ht as (tgt & n & m & Hreq & _). exists None. rewrite Hreq. split; [done|]. by apply Hok.
Qed.

(** The client that has just registered. *)
Lemma node_ok_start db ip port uninit id name :
  user_named db id name → node_ok db id (node_start ip port uninit id name).
Proof.
  intros Hn. split; cbn; try done.
  - intros []; [by left|done|done].
  - intros t _. by left.
  - eexists. by exists [], [].
Qed.

(** ** The system *)

Record sys_inv (s : system) : Prop := {
  si_db : db_inv (Z.of_nat (length (nodes s))) (sys_db s);
  si_queues k u : user_map_ (sys_db s) !! k = Some u → msg_q u = [];
  si_waiting i name id : nodes s !! i = Some (Waiting name id) →
    id = Z.of_nat i ∧ user_named (sys_db s) id name;
  si_nodes i nd : nodes s !! i = Some (Running nd) → node_ok (sys_db s) (Z.of_nat i) nd;
}.

Lemma sys_inv_start : sys_inv sys_start.
Proof. split; [apply db_inv_init|by intros k u; cbn; rewrite lookup_empty|done|done]. Qed.

Lemma sys_inv_with_node i nd s :
  sys_inv s → is_Some (nodes s !! i) → node_ok (sys_db s) (Z.of_nat i) nd →
  sys_inv (with_node i nd (sys_db s) s).
Proof.
  intros [Hdb Hq Hw Hn] Hi%lookup_lt_is_Some_1 Hok. split; cbn.
  - by rewrite length_insert.
  - done.
  - intros j name id Hj. apply list_lookup_insert_Some in Hj as [(_ & ? & _)|[_ ?]]; [done|auto].
  - intros j nd1 Hj. apply list_lookup_insert_Some in Hj as [(<- & [= <-] & _)|[_ ?]]; auto.
Qed.

Lemma sys_inv_register s name :
  sys_inv s → (Z.of_nat (length (nodes s)) < 2 ^ 32)%Z →
  sys_inv (mkSystem (Database.registerUser name (sys_db s)).2
    (nodes s ++ [Waiting name (next_id_ (sys_db s))])).
Proof.
  intros [Hdb Hq Hw Hn] Hlen. pose proof (db_inv_fresh _ _ Hdb Hlen) as Hfresh.
  pose proof (grows_registerUser name _ Hfresh) as Hgrows.
  assert (next_id_ (sys_db s) = Z.of_nat (length (nodes s))) as Hid.
  { rewrite (inv_next _ _ Hdb). apply wrap32_id. unfold u32. lia. }
  split; cbn [nodes sys_db].
  - rewrite length_app. cbn. rewrite Nat2Z.inj_add. by apply db_inv_register.
  - intros k u. cbn. intros [[_ <-]|[_ Hk]]%lookup_insert_Some; [done|by eapply Hq].
  - intros j name' id [Hj|[Hlt Hj]]%lookup_app_Some.
    + destruct (Hw _ _ _ Hj) as [Hj' Hnm]. split; [done|by eapply user_named_grows].
    + apply list_lookup_singleton_Some in Hj as [Hj [= <- <-]]. split; [rewrite Hid; lia|].
      eexists. cbn. by rewrite lookup_insert_eq.
  - intros j nd [Hj|[Hlt Hj]]%lookup_app_Some; [by eapply node_ok_grows, Hn|].
    by apply list_lookup_singleton_Some in Hj as [_ ?].
Qed.

Lemma sys_inv_step s s' :
  sys_inv s → sys_step s s' → (Z.of_nat (length (nodes s')) ≤ 2 ^ 32)%Z → sys_inv s'.
Proof.
  intros Hs Hstep. destruct Hstep as [s name r db _ Ha _|s i ip port uninit name id Hi
    |s i nd t inp es c Hi Hinp Hc|s i nd t req k r db Hi Ht _ _ Ha _|s i nd t resp es c Hi Hr Hc].
  - cbn [nodes]. rewrite length_app. cbn in Ha |- *. injection Ha as <- <-. intros Hlen.
    apply (sys_inv_register s name); [done|lia].
  - intros _. destruct (si_waiting _ Hs _ _ _ Hi) as [-> Hnm].
    apply sys_inv_with_node; [done|by eauto|by apply node_ok_start].
  - intros _. apply sys_inv_with_node; [done|by eauto|]. eapply node_local; [by eapply si_nodes|done..].
  - intros _. destruct (node_serve (sys_db s) (Z.of_nat i) nd t req k) as (r' & E & Hok);
      [by eapply si_nodes|done|]. rewrite E in Ha. simplify_eq.
    by apply sys_inv_with_node; [|by eauto|].
  - intros _. apply sys_inv_with_node; [done|by eauto|].
    eapply node_deliver; [by eapply si_nodes|done..].
Qed.

Lemma nodes_step s s' : sys_step s s' → (length (nodes s) ≤ length (nodes s'))%nat.
Proof. destruct 1; cbn; rewrite ?length_app, ?length_insert; lia. Qed.

Lemma nodes_steps s s' : rtc sys_step s s' → (length (nodes s) ≤ length (nodes s'))%nat.
Proof. induction 1 as [|s s1 s2 Hs%nodes_step _ IH]; lia. Qed.

Lemma sys_inv_steps s s' :
  sys_inv s → rtc sys_step s s' → (Z.of_nat (length (nodes s')) ≤ 2 ^ 32)%Z → sys_inv s'.
Proof.
  intros Hs Hsteps. revert s' Hsteps. refine (rtc_ind_r _ _ _ _); [done|].
  intros s1 s2 _ Hstep IH Hlen. pose proof (nodes_step _ _ Hstep).
  eapply sys_inv_step; [apply IH; lia|done..].
Qed.

Lemma sys_reachable_inv s :
  sys_reachable s → (Z.of_nat (length (nodes s)) ≤ 2 ^ 32)%Z → sys_inv s.
Proof. apply sys_inv_steps, sys_inv_start. Qed.

(** The name a client has registered. *)
Definition peer_name (p : peer) : bytes :=
  match p with Waiting name _ => name | Running nd => username_ (c_app (nd_client nd)) end.

Lemma peer_named s j p :
  sys_inv s → nodes s !! j = Some p → user_named (sys_db s) (Z.of_nat j) (peer_name p).
Proof.
  intros Hs Hj. destruct p as [name id|nd].
  - by destruct (si_waiting _ Hs _ _ _ Hj) as [-> ?].
  - apply (nk_named _ _ _ (si_nodes _ Hs _ _ Hj)).
Qed.

(** The registered users are the clients. *)
Lemma user_named_client s k n :
  sys_inv s → user_named (sys_db s) k n →
  ∃ j p, k = Z.of_nat j ∧ nodes s !! j = Some p ∧ peer_name p = n.
Proof.
  intros Hs (u & Hu & <-). assert (is_Some (user_map_ (sys_db s) !! k)) as Hk by eauto.
  apply (inv_dom _ _ (si_db _ Hs)) in Hk.
  destruct (lookup_lt_is_Some_2 (nodes s) (Z.to_nat k)) as [p Hp]; [lia|].
  exists (Z.to_nat k), p. split; [lia|]. split; [done|].
  destruct (peer_named s _ _ Hs Hp) as (u' & Hu' & <-).
  rewrite Z2Nat.id in Hu' by lia. congruence.
Qed.

End system.
