(* ===== verification/SystemTheorems.v ===== *)
(** The properties of the whole system: who the clients are to one another, to whom their
    messages go, what they wait for, and that they can catch up with the registrations. *)

From stdpp Require Import functions.
From S2P Require Import Prelude.
From S2P Require Import Common.
From S2P Require Import Database.
From S2P Require Import Packet.
From S2P Require Import Wire.
From S2P Require Import ServerAppProofs.
From S2P Require Import Console.
From S2P Require Import App.
From S2P Require Import AppProofs.
From S2P Require Import AppTheorems.
From S2P Require Import Loops.
From S2P Require Import ClientThreads.
From S2P Require Import ClientThreadsProofs.
From S2P Require Import ClientThreadsTheorems.
From S2P Require Import System.
From S2P Require Import SystemProofs.

Section system.
  Context {ord : UMapOrder Z UserMetadata} {ord' : UMapOrder bytes Z} `{Protobuf}.

(** Another client than the [i]-th has the ID [k] and the name [n]. *)
Definition other_client (s : system) (i : nat) (k : Z) (n : bytes) : Prop :=
  ∃ j p, j ≠ i ∧ k = Z.of_nat j ∧ nodes s !! j = Some p ∧ peer_name p = n.

Lemma user_named_other s i k n :
  sys_inv s → k ≠ Z.of_nat i → user_named (sys_db s) k n → other_client s i k n.
Proof.
  intros Hs Hne (j & p & -> & Hj & Hn)%(user_named_client s); [|done].
  exists j, p. by split_and!; [congruence|..].
Qed.

Lemma names_true_other s i m n k :
  sys_inv s → names_true (sys_db s) (Z.of_nat i) m → m !! n = Some k → other_client s i k n.
Proof. intros Hs Hm [Hne Hn]%Hm. by apply user_named_other. Qed.

(** ** Who is who *)

(** The clients know one another rightly: while the 32-bit IDs last, in every state the
    system can reach, whatever its clients and its server have done in whatever order, the
    client that has registered as the i-th has the ID i and is in the database under the
    name its user has typed, and every entry of its two maps of names is the ID and the
    name of another client. *)
Theorem clients_know_each_other s i nd :
  sys_reachable s → (Z.of_nat (length (nodes s)) ≤ 2 ^ 32)%Z → nodes s !! i = Some (Running nd) →
  id_ (c_app (nd_client nd)) = Z.of_nat i ∧
  (∃ u, user_map_ (sys_db s) !! Z.of_nat i = Some u ∧
    username u = username_ (c_app (nd_client nd))) ∧
  (∀ n k, name_to_id_ (c_app (nd_client nd)) !! n = Some k → other_client s i k n) ∧
  ∀ k n, id_to_name_ (c_app (nd_client nd)) !! k = Some n →
    other_client s i k n.
Proof.
  intros Hr Hl Hi. pose proof (sys_reachable_inv _ Hr Hl) as Hs.
  pose proof (si_nodes _ Hs _ _ Hi) as Hnd. destruct (nk_maps _ _ _ Hnd) as [Hn Hid].
  split_and!; [apply Hnd|apply Hnd| |].
  - intros n k. by apply names_true_other.
  - intros k n [? ?]%Hid. by apply user_named_other.
Qed.

(** ** To whom the messages go *)

(** The user chats only with the name of another client that the map still holds, and
    what the main thread sends carries the client's own ID and that of another client. *)
Lemma messages_are_addressed s i nd :
  sys_reachable s → (Z.of_nat (length (nodes s)) ≤ 2 ^ 32)%Z → nodes s !! i = Some (Running nd) →
  (∀ t, threads (nd_client nd) main_thread = Goto (Chat t) →
    ∃ k, name_to_id_ (c_app (nd_client nd)) !! t = Some k ∧ other_client s i k t) ∧
  ∀ req k, threads (nd_client nd) main_thread = Exchange req k →
    ∃ tgt n m, req (c_app (nd_client nd)) = send_request (Z.of_nat i) tgt m ∧
      other_client s i tgt n.
Proof.
  intros Hr Hl Hi. pose proof (sys_reachable_inv _ Hr Hl) as Hs.
  pose proof (si_nodes _ Hs _ _ Hi) as Hnd. pose proof (nk_threads _ _ _ Hnd main_thread) as Ht.
  split.
  - intros t E. rewrite E in Ht. cbn in Ht. apply elem_of_dom in Ht as [k Hk]. exists k.
    split; [done|]. eapply names_true_other; [done| |done]. apply (nk_maps _ _ _ Hnd).
  - intros req k E. rewrite E in Ht. destruct Ht as (tgt & n & m & Hreq & Hne & Hnm).
    exists tgt, n, m. rewrite Hreq, (nk_id _ _ _ Hnd). split; [done|by apply user_named_other].
Qed.

(** ** What they wait for *)

Lemma waits_forever s i nd t req k s' :
  sys_inv s → t ≠ t2 → nodes s !! i = Some (Running nd) → threads (nd_client nd) t = Exchange req k →
  sys_step s s' → ∃ nd', nodes s' !! i = Some (Running nd') ∧ threads (nd_client nd') t = Exchange req k.
Proof.
  intros Hs Ht Hi Ep Hstep.
  assert (∀ j nd2 db, (j = i → threads (nd_client nd2) t = Exchange req k) →
    ∃ nd', nodes (with_node j nd2 db s) !! i = Some (Running nd') ∧
      threads (nd_client nd') t = Exchange req k) as Hwith.
  { intros j nd2 db E. cbn. destruct (decide (j = i)) as [->|].
    - exists nd2. rewrite list_lookup_insert_eq by (by eapply lookup_lt_Some). auto.
    - exists nd. by rewrite list_lookup_insert_ne. }
  assert (∀ t' inp c es, client_step t' inp (nd_client nd) = Some (es, c) →
    t' ≠ t → threads c t = Exchange req k) as Hother.
  { intros t' inp c es Hc Hne. unfold client_step in Hc.
    destruct (threads (nd_client nd) t'), inp; try done;
      try (destruct (name_mtx (nd_client nd)); [done|]); injection Hc as <- <-; cbn;
      by rewrite fn_lookup_insert_ne. }
  destruct Hstep as [s name r db _ _ _|s j ip port uninit name id Hj|s j nd1 t' inp es c Hj Hinp Hc
    |s j nd1 t' req' k' r db Hj Hp _ _ _ _|s j nd1 t' resp es c Hj Hrp Hc].
  - exists nd. split; [|done]. cbn. by apply lookup_app_l_Some.
  - apply Hwith. intros ->. by simplify_eq.
  - apply Hwith. intros ->. simplify_eq. eapply Hother; [done|]. intros ->.
    unfold client_step in Hc. rewrite Ep in Hc. destruct inp; try done. by eapply Hinp.
  - apply Hwith. intros ->. by simplify_eq.
  - apply Hwith. intros ->. simplify_eq. eapply Hother; [done|]. intros ->.
    destruct (nk_silent _ _ _ (si_nodes _ Hs _ _ Hi) t Ht); congruence.
Qed.

Lemma waits_steps s i nd t req k s' :
  sys_inv s → t ≠ t2 → nodes s !! i = Some (Running nd) → threads (nd_client nd) t = Exchange req k →
  rtc sys_step s s' → (Z.of_nat (length (nodes s')) ≤ 2 ^ 32)%Z →
  ∃ nd', nodes s' !! i = Some (Running nd') ∧ threads (nd_client nd') t = Exchange req k.
Proof.
  intros Hs Ht Hi Ep Hsteps Hl. revert nd Hs Hi Ep.
  induction Hsteps as [s|s s1 s2 Hstep Hsteps IH]; intros nd Hs Hi Ep; [by exists nd|].
  destruct (waits_forever _ _ _ _ _ _ _ Hs Ht Hi Ep Hstep) as (nd1 & Hi1 & Ep1).
  pose proof (nodes_steps _ _ Hsteps). eapply IH; [done| |done..].
  eapply sys_inv_step; [done..|lia].
Qed.

(** C18. What the missing answers do to the system: in every reachable state no message is
    queued for anybody, the thread that shows the messages has not got past its first
    request, so that the data race on [id_to_name_] does not occur with this server, and a
    thread other than the one that lists the users, once it has sent a request, waits for
    ever, whatever happens. *)
Theorem unanswered_threads_wait s i nd :
  sys_reachable s → (Z.of_nat (length (nodes s)) ≤ 2 ^ 32)%Z → nodes s !! i = Some (Running nd) →
  (∀ k u, user_map_ (sys_db s) !! k = Some u → msg_q u = []) ∧
  (threads (nd_client nd) t1 = Goto Messages ∨ threads (nd_client nd) t1 = messages_loop) ∧
  (∀ c t t', ¬ race c t t' (nd_client nd)) ∧
  ∀ t req k s', t ≠ t2 → threads (nd_client nd) t = Exchange req k →
    rtc sys_step s s' → (Z.of_nat (length (nodes s')) ≤ 2 ^ 32)%Z →
    ∃ nd', nodes s' !! i = Some (Running nd') ∧ threads (nd_client nd') t = Exchange req k.
Proof.
  intros Hr Hl Hi. pose proof (sys_reachable_inv _ Hr Hl) as Hs.
  pose proof (si_nodes _ Hs _ _ Hi) as Hnd. pose proof (nk_threads _ _ _ Hnd t1) as Ht.
  split_and!; [apply Hs|done| |].
  - destruct (nk_reachable _ _ _ Hnd) as [a Ha].
    assert (∀ c, ¬ touches c (threads (nd_client nd) t1)) as Hno.
    { intros c. destruct Ht as [-> | ->]; intros []%bool_decide_unpack%not_elem_of_nil. }
    intros c t t' (Hne & Hw%writes_touches & Htouch).
    destruct (touches_reachable _ _ _ _ Ha Hw) as [Ho|[-> ->]]; [|by eapply Hno].
    destruct (touches_reachable _ _ _ _ Ha Htouch) as [Ho'|[? ->]]; [congruence|by eapply Hno].
  - intros t req k s' Hne Ep. by apply (waits_steps s i nd).
Qed.

(** ** Catching up *)

(** Steps of the [i]-th client alone. *)
Lemma sys_run s i nd sch es c :
  Forall (λ x, x.2 = NoInput) sch → nodes s !! i = Some (Running nd) →
  client_run sch (nd_client nd) = Some (es, c) →
  rtc sys_step s (with_node i (mkNode c (nd_reply nd)) (sys_db s) s).
Proof.
  intros Hsch. revert s nd es. induction Hsch as [|[t inp] sch Hinp Hsch IH]; intros s nd es Hi Hrun.
  { cbn in Hrun. simplify_eq. unfold with_node. destruct nd, s. cbn in *. by rewrite list_insert_id. }
  cbn in Hinp, Hrun. subst inp.
  destruct (client_step t NoInput (nd_client nd)) as [[es1 c1]|] eqn:E; cbn in Hrun; [|done].
  destruct (client_run sch c1) as [[es2 c2]|] eqn:E'; cbn in Hrun; [|done]. simplify_eq.
  eapply rtc_l; [by apply (sys_local s i nd t NoInput es1 c1)|].
  assert (nodes (with_node i (mkNode c1 (nd_reply nd)) (sys_db s) s) !! i =
    Some (Running (mkNode c1 (nd_reply nd)))) as Hi1.
  { cbn. apply list_lookup_insert_eq. by eapply lookup_lt_Some. }
  specialize (IH _ _ es2 Hi1 E'). unfold with_node in *. cbn in *.
  by rewrite list_insert_insert_eq in IH.
Qed.

Section catching_up.
  Context (s : system) (i : nat) (nd : node).
  Hypothesis Hs : sys_inv s.
  Hypothesis Hl : (Z.of_nat (length (nodes s)) ≤ 2 ^ 32)%Z.
  Hypothesis Hi : nodes s !! i = Some (Running nd).

(** Steps lead from [s] to a state that differs in the [i]-th client, which is this. *)
Definition leads (nd' : node) : Prop := rtc sys_step s (with_node i nd' (sys_db s) s).

Lemma leads_here : leads nd.
Proof. unfold leads, with_node. destruct s. cbn in *. by rewrite list_insert_id. Qed.

Lemma leads_lookup nd' : nodes (with_node i nd' (sys_db s) s) !! i = Some (Running nd').
Proof. cbn. apply list_lookup_insert_eq. by eapply lookup_lt_Some. Qed.

Lemma leads_ok nd' : leads nd' → node_ok (sys_db s) (Z.of_nat i) nd'.
Proof.
  intros Hsteps. apply (si_nodes (with_node i nd' (sys_db s) s)); [|apply leads_lookup].
  eapply sys_inv_steps; [done..|]. cbn. by rewrite length_insert.
Qed.

Lemma leads_trans nd1 nd2 :
  leads nd1 →
  rtc sys_step (with_node i nd1 (sys_db s) s)
    (with_node i nd2 (sys_db s) (with_node i nd1 (sys_db s) s)) →
  leads nd2.
Proof.
  unfold leads, with_node. cbn. rewrite list_insert_insert_eq. by etrans.
Qed.

Lemma leads_run nd1 sch es c :
  leads nd1 → Forall (λ x, x.2 = NoInput) sch → client_run sch (nd_client nd1) = Some (es, c) →
  leads (mkNode c (nd_reply nd1)).
Proof.
  intros H1 Hsch Hrun. eapply leads_trans; [done|].
  by eapply (sys_run (with_node i nd1 (sys_db s) s)); [|apply leads_lookup|].
Qed.

Lemma leads_deliver nd1 req k resp :
  leads nd1 → threads (nd_client nd1) t2 = Exchange req k → nd_reply nd1 t2 = Some (Some resp) →
  leads (mkNode (mkClient (c_app (nd_client nd1)) (c_con (nd_client nd1)) (name_mtx (nd_client nd1))
    (<[t2 := k resp]> (threads (nd_client nd1)))) (<[t2 := None]> (nd_reply nd1))).
Proof.
  intros H1 Ep Hr. eapply leads_trans; [done|]. apply rtc_once.
  eapply (sys_deliver (with_node i nd1 (sys_db s) s)); [apply leads_lookup|done|].
  unfold client_step. by rewrite Ep.
Qed.

(** The owner of the lock gives it back. *)
Lemma leads_free : ∃ nd1, leads nd1 ∧ name_mtx (nd_client nd1) = None.
Proof.
  destruct (name_mtx (nd_client nd)) as [t|] eqn:Ho; [|exists nd; split; [apply leads_here|done]].
  destruct (nk_reachable _ _ _ (leads_ok _ leads_here)) as [a Ha].
  pose proof (reachable_disciplined _ _ Ha t) as Ht. unfold holds in Ht.
  rewrite Ho, bool_decide_eq_true_2 in Ht by done.
  destruct (lock_released t (threads (nd_client nd) t)) with (nd_client nd)
    as (n & es & c & Hrun & Hn & _); [|done..|].
  { by destruct (threads (nd_client nd) t); try done; destruct Ht as (_ & [=] & _). }
  exists (mkNode c (nd_reply nd)). split; [|done].
  refine (leads_run _ _ _ _ leads_here _ Hrun). by apply Forall_replicate.
Qed.

(** With the lock free, the second thread runs until it waits. *)
Lemma leads_solo nd1 :
  leads nd1 → name_mtx (nd_client nd1) = None → nd_reply nd1 t2 = None →
  let '(_, q, a) := solo (threads (nd_client nd1) t2) (c_app (nd_client nd1)) in
  ∃ c, leads (mkNode c (nd_reply nd1)) ∧ threads c t2 = q ∧ c_app c = a ∧ name_mtx c = None.
Proof.
  intros H1 Ho Hr. destruct (nk_reachable _ _ _ (leads_ok _ H1)) as [a Ha].
  pose proof (reachable_disciplined _ _ Ha t2) as Ht.
  assert (holds (nd_client nd1) t2 = false) as Hh by (unfold holds; by rewrite Ho).
  rewrite Hh in Ht.
  assert (ok t2 false (threads (nd_client nd1) t2)) as Hok.
  { destruct (threads (nd_client nd1) t2); try done. by destruct Ht. }
  pose proof (solo_run _ _ _ Hok _ eq_refl Ho) as Hsolo.
  destruct (solo _ _) as [[ws q] a']. destruct Hsolo as (n & c & Hrun & Hq & Happ & Hn).
  exists c. split_and!; [|done..].
  refine (leads_run _ _ _ _ H1 _ Hrun). by apply Forall_replicate.
Qed.

Lemma solo_stops p a :
  match (solo p a).1.2 with Lock _ | Unlock _ | Access _ _ _ _ | Write _ _ => False | _ => True end.
Proof.
  revert a. induction p as [l|k IH|k IH|rd wr f k IH|w k IH|prompt k IH|k IH|req k IH];
    intros a; cbn; try done; [apply IH|apply IH|apply IH|].
  specialize (IH a). by destruct (solo k a) as [[]].
Qed.

Lemma leads_asking : ∃ nd1, leads nd1 ∧ name_mtx (nd_client nd1) = None ∧
  nd_reply nd1 t2 = None ∧ threads (nd_client nd1) t2 = users_loop.
Proof.
  assert (∃ nd1, leads nd1 ∧ name_mtx (nd_client nd1) = None ∧ nd_reply nd1 t2 = None)
    as (nd1 & H1 & Ho & Hr).
  { destruct leads_free as (nd1 & H1 & Ho). destruct (nd_reply nd1 t2) as [r|] eqn:Er; [|by eauto].
    destruct (nk_reply _ _ _ (leads_ok _ H1) _ Er) as (resp & req & k & -> & Ep & _).
    eexists. split; [by eapply leads_deliver|]. cbn. by rewrite fn_lookup_insert. }
  pose proof (leads_solo nd1 H1 Ho Hr) as Hsolo.
  pose proof (solo_stops (threads (nd_client nd1) t2) (c_app (nd_client nd1))) as Hq.
  destruct (solo _ _) as [[ws q] a]. destruct Hsolo as (c & H2 & Et & Ea & Hn). cbn in Hq.
  pose proof (nk_threads _ _ _ (leads_ok _ H2) t2) as Ht. cbn in Ht. rewrite Et in Ht.
  destruct q as [l| | | | | | |req k]; try done; cbn in Ht.
  - subst l. eexists. split; [eapply (leads_run _ [(t2, NoInput)]); [done|by repeat constructor|]|].
    + cbn. unfold client_step. by rewrite Et.
    + cbn. by rewrite fn_lookup_insert.
  - exists (mkNode c (nd_reply nd1)). cbn. by rewrite Et.
Qed.

Lemma solo_update_names new a :
  let '(_, q, a') := solo (update_names new) a in name_to_id_ a' = new.
Proof.
  unfold update_names. cbn [solo]. case_bool_decide as Hn; [done|].
  cbn [solo]. pose proof (solo_refill_names new (set_id_to_name ∅ (set_name_to_id new a))) as Hf.
  by destruct (solo _ _) as [[ws q] a']; destruct Hf as (_ & ? & _).
Qed.

(** The names the server would send now. *)
Definition names_now : gmap bytes Z :=
  names_of (online_users (default RespUsers_default (resp_users (users_of (Z.of_nat i) (sys_db s))))).

Lemma leads_to_names :
  delivers_whole (users_request (Z.of_nat i)) →
  delivers_whole (users_of (Z.of_nat i) (sys_db s)) →
  ∃ nd1, leads nd1 ∧ name_mtx (nd_client nd1) = None ∧
    name_to_id_ (c_app (nd_client nd1)) = names_now.
Proof.
  intros Hreq Hresp. destruct leads_asking as (nd1 & H1 & Ho & Hr & Ep).
  unfold users_loop in Ep. pose proof (leads_ok _ H1) as Hnd.
  assert (leads (mkNode (nd_client nd1)
    (<[t2 := Some (Some (users_of (Z.of_nat i) (sys_db s)))]> (nd_reply nd1)))) as H2.
  { eapply leads_trans; [done|]. apply rtc_once.
    eapply (sys_serve (with_node i nd1 (sys_db s) s)); [apply leads_lookup|done|done| | |done].
    - cbv beta. by rewrite (nk_id _ _ _ Hnd).
    - cbv beta. rewrite (nk_id _ _ _ Hnd). cbn. destruct (nk_named _ _ _ Hnd) as (u & Hu & _).
      by rewrite (proj2 (userExists_true _ _)) by eauto. }
  eapply leads_deliver in H2; [|done|cbn; by rewrite fn_lookup_insert]. cbn [nd_client nd_reply] in H2.
  pose proof (leads_solo _ H2 Ho ltac:(cbn; by rewrite fn_lookup_insert)) as Hsolo.
  pose proof (solo_update_names names_now (c_app (nd_client nd1))) as Hn.
  cbn [nd_client threads c_app] in Hsolo. rewrite fn_lookup_insert in Hsolo.
  change (negb _) with false in Hsolo. cbv iota in Hsolo. fold names_now in Hsolo.
  destruct (solo (update_names names_now) (c_app (nd_client nd1))) as [[ws q] a].
  destruct Hsolo as (c & H3 & _ & Ha & Hm). eexists. split; [done|]. split; [done|].
  cbn. by rewrite Ha.
Qed.

End catching_up.

(** C9. A client can always catch up, in [System], where a registration takes effect in one
    step, as the unlocked [registerUser] of the source does only while no other thread uses
    the database (with overlapping registrations a name can be lost), and where requests
    and answers fit the buffers. If the request for the users and its present answer fit,
    then from every reachable state with at most 2^32 clients, in the middle of whatever
    the client's threads do, steps of that client and of the server alone lead to a state
    in which the lock is free and the names the client knows are exactly those of the other
    clients. *)
Theorem clients_can_catch_up s i nd :
  sys_reachable s → (Z.of_nat (length (nodes s)) ≤ 2 ^ 32)%Z → nodes s !! i = Some (Running nd) →
  delivers_whole (users_request (Z.of_nat i)) →
  delivers_whole (users_of (Z.of_nat i) (sys_db s)) →
  ∃ nd', rtc sys_step s (with_node i nd' (sys_db s) s) ∧
    name_mtx (nd_client nd') = None ∧
    ∀ n, is_Some (name_to_id_ (c_app (nd_client nd')) !! n) ↔ ∃ k, other_client s i k n.
Proof.
  intros Hr Hl Hi Hreq Hresp. pose proof (sys_reachable_inv _ Hr Hl) as Hs.
  destruct (leads_to_names s i nd Hs Hl Hi Hreq Hresp) as (nd' & Hleads & Hm & Hn).
  exists nd'. split; [exact Hleads|]. split; [done|]. intros n. rewrite Hn. split.
  - intros [k Hk]. exists k. eapply names_true_other; [done| |done]. apply names_true_users_of.
  - intros (k & j & p & Hne & -> & Hj & <-). apply elem_of_dom.
    apply (users_of_complete _ _ {[peer_name p := Z.of_nat j]}).
    + intros n' k' [<- <-]%lookup_singleton_Some. split; [lia|by apply peer_named].
    + rewrite dom_singleton. set_solver.
Qed.

End system.

(** ** A conversation *)

#[local] Existing Instance canonical_order.

Definition joins (i : nat) (name : bytes) : list action :=
  [Register name; Start i (str "127.0.0.1") 8080 7].
Definition locals (i n : nat) (t : thread) : list action := replicate n (Local i t NoInput).
Definition types (i : nat) (s : bytes) : list action :=
  map (λ b, Local i main_thread (Typed (byte.unsigned b))) s ++ [Local i main_thread (Typed kNewLine)].
Definition asks (i : nat) : list action :=
  locals i 1 t2 ++ [Serve i t2; Deliver i t2] ++ locals i 12 t2.

(** Ann and Bob register, and Ann learns of Bob, chooses to chat with him and sends. *)
Definition ann_chats : list action :=
  joins 0 (str "Ann") ++ joins 1 (str "Bob") ++ asks 0 ++ locals 0 1 t1 ++ [Serve 0 t1] ++
  locals 0 7 main_thread ++ types 0 (str "2") ++ locals 0 2 main_thread ++ types 0 (str "Bob") ++
  locals 0 3 main_thread.
Definition ann_sends : list action :=
  ann_chats ++ locals 0 2 main_thread ++ types 0 (str "hi") ++ locals 0 3 main_thread.

Definition after (ms : list action) : system := default sys_start (sys_moves ms sys_start).
Definition plays (ms : list action) : bool :=
  match sys_moves ms sys_start with Some _ => true | None => false end.
Definition ann (ms : list action) : node :=
  default (node_start [] 0 0 0 []) (running 0 (after ms)).
Definition ann_at (ms : list action) (t : thread) : prog := threads (nd_client (ann ms)) t.
Definition few (ms : list action) : bool := bool_decide (length (nodes (after ms)) < 9)%nat.
Definition runs (ms : list action) : bool :=
  match running 0 (after ms) with Some _ => true | None => false end.

Lemma after_reachable ms : plays ms = true → sys_reachable (after ms).
Proof.
  unfold plays, after. destruct (sys_moves ms sys_start) as [s|] eqn:E; [|done]. intros _.
  apply (sys_moves_reachable ms sys_start); [by apply rtc_refl|done].
Qed.

Lemma ann_lookup ms : runs ms = true → nodes (after ms) !! 0%nat = Some (Running (ann ms)).
Proof.
  unfold runs, ann. destruct (running 0 (after ms)) as [nd|] eqn:E; [|done]. intros _.
  by apply running_Some.
Qed.

Lemma exchange_at p :
  (match p with Exchange _ _ => true | _ => false end) = true → ∃ req k, p = Exchange req k.
Proof. destruct p as [| | | | | | |req k]; try done. by exists req, k. Qed.

Lemma few_ids ms : few ms = true → (Z.of_nat (length (nodes (after ms))) ≤ 2 ^ 32)%Z.
Proof. unfold few. intros Hf%bool_decide_eq_true_1. lia. Qed.

Lemma clients_know_each_other_witness :
  id_ (c_app (nd_client (ann ann_sends))) = 0%Z ∧ other_client (after ann_sends) 0 1 (str "Bob").
Proof.
  destruct (clients_know_each_other (after ann_sends) 0 (ann ann_sends)) as (Hid & _ & Hn & _).
  - apply after_reachable. by vm_compute.
  - apply few_ids. by vm_compute.
  - apply ann_lookup. by vm_compute.
  - split; [exact Hid|]. apply Hn. by vm_compute.
Defined.

(** Nothing that happens later moves her main thread. *)
Lemma unanswered_threads_wait_witness :
  ∃ req k, ann_at ann_sends main_thread = Exchange req k ∧
    ∀ s', rtc sys_step (after ann_sends) s' → (Z.of_nat (length (nodes s')) ≤ 2 ^ 32)%Z →
      ∃ nd', nodes s' !! 0%nat = Some (Running nd') ∧
        threads (nd_client nd') main_thread = Exchange req k.
Proof.
  destruct (exchange_at (ann_at ann_sends main_thread)) as (req & k & E); [by vm_compute|].
  exists req, k. split; [exact E|]. intros s' Hs' Hl'.
  destruct (unanswered_threads_wait (after ann_sends) 0 (ann ann_sends)) as (_ & _ & _ & Hw).
  - apply after_reachable. by vm_compute.
  - apply few_ids. by vm_compute.
  - apply ann_lookup. by vm_compute.
  - refine (Hw main_thread req k s' _ E Hs' Hl'). discriminate.
Defined.

(** Cid registers while Ann is in the middle of a turn. *)
Definition cid_joins : list action :=
  joins 0 (str "Ann") ++ joins 1 (str "Bob") ++ locals 0 1 t2 ++ [Serve 0 t2; Deliver 0 t2] ++
  locals 0 3 t2 ++ [Register (str "Cid")].

Lemma clients_can_catch_up_witness :
  name_mtx (nd_client (ann cid_joins)) = Some t2 ∧
  name_to_id_ (c_app (nd_client (ann cid_joins))) !! str "Cid" = None ∧
  ∃ nd', rtc sys_step (after cid_joins)
      (with_node 0 nd' (sys_db (after cid_joins)) (after cid_joins)) ∧
    name_mtx (nd_client nd') = None ∧
    ∀ n, is_Some (name_to_id_ (c_app (nd_client nd')) !! n) ↔
         ∃ k, other_client (after cid_joins) 0 k n.
Proof.
  split; [by vm_compute|]. split; [by vm_compute|].
  apply (clients_can_catch_up (after cid_joins) 0 (ann cid_joins)).
  - apply after_reachable. by vm_compute.
  - apply few_ids. by vm_compute.
  - apply ann_lookup. by vm_compute.
  - apply (bool_decide_eq_true_1 _). by vm_compute.
  - apply (bool_decide_eq_true_1 _). by vm_compute.
Defined.
