(* ===== verification/Liveness.v ===== *)
(** Infinite executions of [System], where a registration is one step, and what fairness
    gives: the list of the users of a running client is refreshed again and again, so that
    it comes to know everybody who has registered and never forgets anybody. *)

From stdpp Require Import functions.
From S2P Require Import Prelude.
From S2P Require Import Common.
From S2P Require Import Database.
From S2P Require Import Packet.
From S2P Require Import Wire.
From S2P Require Import ServerAppProofs.
From S2P Require Import Console.
From S2P Require Import App.
From S2P Require Import AppProofs.
From S2P Require Import AppTheorems.
From S2P Require Import Loops.
From S2P Require Import ClientThreads.
From S2P Require Import ClientThreadsProofs.
From S2P Require Import System.
From S2P Require Import SystemProofs.
From S2P Require Import SystemTheorems.

(** ** Executions *)

(** The thread of the [i]-th client whose action this is, a request of it being handled or
    its answer arriving included. *)
Definition mover (i : nat) (a : option action) : option thread :=
  match a with
  | Some (Local j t _) | Some (Serve j t) | Some (Deliver j t) =>
      if decide (j = i) then Some t else None
  | _ => None
  end.

Section executions.
  Context {ord : UMapOrder Z UserMetadata} {ord' : UMapOrder bytes Z} `{Protobuf}.

(** At every moment one action takes place, or none. *)
Record execution (σ : nat → system) (ρ : nat → option action) : Prop := {
  ex_start : sys_reachable (σ 0%nat);
  ex_next m :
    match ρ m with
    | Some a => sys_move a (σ m) = Some (σ (S m))
    | None => σ (S m) = σ m
    end;
}.

(** Every step of the system is one of the actions. *)
Lemma sys_step_action s s' : sys_step s s' → ∃ a, sys_move a s = Some s'.
Proof.
  assert (∀ i nd, nodes s !! i = Some (Running nd) → running i s = Some nd) as Hrun
    by (intros i nd Hi; unfold running; by rewrite Hi).
  intros Hstep. destruct Hstep as [s name r db Hreq Ha Hr|s i ip port uninit name id Hi
    |s i nd t inp es c Hi Hinp Hc|s i nd t req k r db Hi Ht Hn Hreq Ha Hr|s i nd t resp es c Hi Hr Hc].
  - exists (Register name). cbn [sys_move]. rewrite Ha. by rewrite !option_guard_True.
  - exists (Start i ip port uninit). cbn. by rewrite Hi.
  - exists (Local i t inp). cbn. rewrite (Hrun _ _ Hi). cbn.
    rewrite option_guard_True by (destruct inp; try done; by destruct (Hinp p)). cbn. by rewrite Hc.
  - exists (Serve i t). cbn. rewrite (Hrun _ _ Hi). cbn. rewrite Ht, Hn, Ha.
    by rewrite !option_guard_True.
  - exists (Deliver i t). cbn. rewrite (Hrun _ _ Hi). cbn. rewrite Hr. by rewrite Hc.
Qed.

(** The thread can act, without the user typing anything. *)
Definition enabled (i : nat) (t : thread) (s : system) : Prop :=
  ∃ a, a ∈ [Local i t NoInput; Serve i t; Deliver i t] ∧ is_Some (sys_move a s).

(** It does not stay able to act for ever without acting. *)
Definition weakly_fair (σ : nat → system) (ρ : nat → option action) (i : nat) (t : thread) : Prop :=
  again (λ m, ¬ enabled i t (σ m) ∨ mover i (ρ m) = Some t).

(** If it can act again and again, it does. *)
Definition strongly_fair (σ : nat → system) (ρ : nat → option action) (i : nat) (t : thread) : Prop :=
  again (λ m, enabled i t (σ m)) → again (λ m, mover i (ρ m) = Some t).

(** ** One client in a step of the system *)

Inductive client_next (db : Database) (nd : node) : option thread → node → Prop :=
| next_still : client_next db nd None nd
| next_local t inp es c :
    client_step t inp (nd_client nd) = Some (es, c) → (∀ p, inp ≠ Response p) →
    client_next db nd (Some t) (mkNode c (nd_reply nd))
| next_serve t req k r db' :
    threads (nd_client nd) t = Exchange req k → nd_reply nd t = None →
    answer_packet (req (c_app (nd_client nd))) db = (r, db') →
    client_next db nd (Some t) (mkNode (nd_client nd) (<[t := Some r]> (nd_reply nd)))
| next_deliver t resp es c :
    nd_reply nd t = Some (Some resp) → client_step t (Response resp) (nd_client nd) = Some (es, c) →
    client_next db nd (Some t) (mkNode c (<[t := None]> (nd_reply nd))).

Lemma running_with_node i j nd nd' db s :
  running i s = Some nd →
  running i (with_node j nd' db s) = Some (if decide (j = i) then nd' else nd).
Proof.
  unfold running. cbn. intros Hr. case_decide as Hj; [subst j|by rewrite list_lookup_insert_ne].
  destruct (nodes s !! i) eqn:E; [|done].
  by rewrite list_lookup_insert_eq by (by eapply lookup_lt_Some).
Qed.

Lemma sys_move_next a i s s' nd :
  sys_move a s = Some s' → running i s = Some nd →
  ∃ nd', running i s' = Some nd' ∧ client_next (sys_db s) nd (mover i (Some a)) nd'.
Proof.
  intros Hm Hr.
  assert (∀ j t nd1 nd' db, running j s = Some nd1 → client_next (sys_db s) nd1 (Some t) nd' →
    ∃ nd'', running i (with_node j nd' db s) = Some nd'' ∧
      client_next (sys_db s) nd (if decide (j = i) then Some t else None) nd'') as Hwith.
  { intros j t nd1 nd' db Hj Hn. rewrite (running_with_node _ _ nd) by done. eexists. split; [done|].
    case_decide; [|constructor]. by simplify_eq. }
  destruct a as [name|j ip port uninit|j t inp|j t|j t]; cbn [sys_move mover] in *.
  - exists nd. split; [|constructor]. destruct (answer_packet _ _) as [[r|] db]; simplify_option_eq.
    apply running_Some in Hr. unfold running. cbn. by rewrite (lookup_app_l_Some _ _ _ _ Hr).
  - destruct (nodes s !! j) as [[name id|]|] eqn:Hj; try done. injection Hm as <-.
    exists nd. split; [|constructor]. rewrite (running_with_node _ _ nd) by done.
    case_decide; [subst j|done]. by apply running_Some in Hr; simplify_eq.
  - destruct (running j s) as [nd1|] eqn:Hj; cbn in Hm; [|done].
    destruct (client_step t inp (nd_client nd1)) as [[es c]|] eqn:Ec;
      cbn in Hm; case_guard; cbn in Hm; simplify_eq.
    eapply Hwith; [done|]. eapply next_local; [done|]. by intros p ->.
  - destruct (running j s) as [nd1|] eqn:Hj; cbn in Hm; [|done].
    destruct (threads (nd_client nd1) t) as [| | | | | | |req k] eqn:Ep; try done.
    destruct (nd_reply nd1 t) eqn:Er; [done|].
    destruct (answer_packet _ _) as [r db] eqn:Ea.
    repeat (case_guard; cbn in Hm; try done). simplify_eq.
    eapply Hwith; [done|]. by eapply next_serve.
  - destruct (running j s) as [nd1|] eqn:Hj; cbn in Hm; [|done].
    destruct (nd_reply nd1 t) as [[resp|]|] eqn:Er; try done.
    destruct (client_step t _ _) as [[es c]|] eqn:Ec; cbn in Hm; simplify_eq.
    eapply Hwith; [done|]. by eapply next_deliver.
Qed.

(** What a thread waits with is not changed by the others. *)
Definition same_at (t : thread) (nd nd' : node) : Prop :=
  threads (nd_client nd') t = threads (nd_client nd) t ∧ nd_reply nd' t = nd_reply nd t ∧
  (name_mtx (nd_client nd) = Some t → name_mtx (nd_client nd') = Some t).

Lemma client_step_keeps t inp c es c' t' :
  disciplined c → client_step t inp c = Some (es, c') → t ≠ t' →
  threads c' t' = threads c t' ∧ (name_mtx c = Some t' → name_mtx c' = Some t').
Proof.
  intros Hd Hc Hne. specialize (Hd t). unfold client_step in Hc.
  assert (∀ k, thread_ok t (holds c t) (Unlock k) → name_mtx c = Some t' → None = Some t') as Hun.
  { intros k Hk Ho. inversion Hk as [| |k' _ Hh| | | |]; subst. symmetry in Hh.
    apply bool_decide_eq_true_1 in Hh. congruence. }
  destruct (threads c t) as [l|k|k|rd wr f k|w k|prompt k|k|req k], inp; try done;
    try (destruct (name_mtx c); [done|]); injection Hc as <- <-; cbn;
    rewrite fn_lookup_insert_ne by done; split; try done. by eapply Hun.
Qed.

Lemma client_next_keeps db nd o nd' t :
  disciplined (nd_client nd) → client_next db nd o nd' → o ≠ Some t → same_at t nd nd'.
Proof.
  intros Hd Hn Ho. unfold same_at.
  destruct Hn as [|t' inp es c Hc _|t' req k r db' Hp Hr Ha|t' resp es c Hr Hc]; cbn.
  - done.
  - assert (t' ≠ t) as Hne by congruence.
    by destruct (client_step_keeps _ _ _ _ _ t Hd Hc Hne).
  - by rewrite fn_lookup_insert_ne by congruence.
  - assert (t' ≠ t) as Hne by congruence. rewrite fn_lookup_insert_ne by done.
    by destruct (client_step_keeps _ _ _ _ _ t Hd Hc Hne).
Qed.

(** What a thread with the program [p] and the reply [r] does in its own step. *)
Definition own_step (db : Database) (t : thread) (p : prog) (r : option (option Packet))
    (nd nd' : node) : Prop :=
  match p with
  | Goto l => threads (nd_client nd') t = code l ∧ nd_reply nd' t = r
  | Lock k | Unlock k | Write _ k => threads (nd_client nd') t = k
  | Access _ _ f k =>
      threads (nd_client nd') t = k (c_app (nd_client nd)) ∧
      c_app (nd_client nd') = f (c_app (nd_client nd))
  | Exchange req k =>
      match r with
      | None => threads (nd_client nd') t = Exchange req k ∧
          nd_reply nd' t = Some (answer_packet (req (c_app (nd_client nd))) db).1
      | Some r => ∃ resp, r = Some resp ∧ threads (nd_client nd') t = k resp
      end
  | Read _ _ | Reading _ => True
  end.

Lemma client_next_own db nd t nd' :
  client_next db nd (Some t) nd' →
  own_step db t (threads (nd_client nd) t) (nd_reply nd t) nd nd'.
Proof.
  intros Hn. inversion Hn as [|t' inp es c Hc Hinp|t' req k r db' Hp Hr Ha|t' resp es c Hr Hc];
    subst; unfold own_step; cbn.
  - unfold client_step in Hc.
    destruct (threads (nd_client nd) t), inp; try done;
      try (destruct (name_mtx (nd_client nd)); [done|]); try (by destruct (Hinp p));
      injection Hc as <- <-; cbn; by rewrite ?fn_lookup_insert.
  - by rewrite Hp, Hr, fn_lookup_insert, Ha.
  - rewrite Hr. unfold client_step in Hc. destruct (threads (nd_client nd) t); try done.
    injection Hc as <- <-. cbn. rewrite fn_lookup_insert. eauto.
Qed.

Lemma client_next_lock db nd t nd' :
  client_next db nd (Some t) nd' →
  match threads (nd_client nd) t with
  | Unlock _ => name_mtx (nd_client nd') = None
  | Lock _ => name_mtx (nd_client nd') = Some t
  | _ => name_mtx (nd_client nd') = name_mtx (nd_client nd)
  end.
Proof.
  intros Hn. inversion Hn as [|t' inp es c Hc _|t' req k r db' Hp Hr Ha|t' resp es c Hr Hc];
    subst; cbn; [|by rewrite Hp|];
    unfold client_step in Hc;
    destruct (threads (nd_client nd) t); try (destruct inp); try done;
    try (destruct (name_mtx (nd_client nd)); [done|]); by injection Hc as <- <-.
Qed.

(** A request of the second thread is answered with the users. *)
Lemma asks_for_users db me nd req k :
  node_ok db me nd → threads (nd_client nd) t2 = Exchange req k →
  req (c_app (nd_client nd)) = users_request me ∧
  answer_packet (users_request me) db = (Some (users_of me db), db).
Proof.
  intros Hnd Ep. pose proof (nk_threads _ _ _ Hnd t2) as Hr. rewrite Ep in Hr. cbn in Hr.
  injection Hr as -> _. rewrite (nk_id _ _ _ Hnd). split; [done|]. cbn.
  destruct (nk_named _ _ _ Hnd) as (u & Hu & _).
  by rewrite (proj2 (userExists_true _ _)) by eauto.
Qed.

(** No name is forgotten. *)
Lemma client_next_names db me nd o nd' :
  node_ok db me nd → client_next db nd o nd' →
  dom (name_to_id_ (c_app (nd_client nd))) ⊆ dom (name_to_id_ (c_app (nd_client nd'))).
Proof.
  intros Hnd Hn.
  assert (∀ t inp es c, client_step t inp (nd_client nd) = Some (es, c) →
    dom (name_to_id_ (c_app (nd_client nd))) ⊆ dom (name_to_id_ (c_app c))) as Hstep.
  { intros t inp es c Hc. pose proof (nk_threads _ _ _ Hnd t) as Ht.
    pose proof (nk_maps _ _ _ Hnd) as Hm. unfold client_step in Hc.
    destruct (threads (nd_client nd) t) as [l|k|k|rd wr f k|w k|prompt k|k|req k], inp; try done;
      try (destruct (name_mtx (nd_client nd)); [done|]); injection Hc as <- <-; try done.
    cbn. destruct t; cbn in Ht.
    - by destruct Ht.
    - by destruct (Ht db (c_app (nd_client nd))) as (_ & _ & _ & ? & _).
    - by destruct (Ht db (c_app (nd_client nd))) as [-> _]. }
  destruct Hn; cbn; [done|by eapply Hstep|done|by eapply Hstep].
Qed.

Lemma sys_move_grows a s s' :
  sys_inv s → sys_move a s = Some s' → (Z.of_nat (length (nodes s')) ≤ 2 ^ 32)%Z →
  grows (sys_db s) (sys_db s').
Proof.
  intros Hs Hm%sys_move_step Hl. destruct Hm as [s name r db _ Ha _|s i ip port uninit name id Hi
    |s i nd t inp es c Hi Hinp Hc|s i nd t req k r db Hi Ht _ _ Ha _|s i nd t resp es c Hi Hr Hc];
    cbn [sys_db with_node nodes] in *; try reflexivity.
  - cbn in Ha. injection Ha as <- <-. rewrite length_app in Hl. cbn in Hl.
    apply grows_registerUser, (db_inv_fresh _ _ (si_db _ Hs)). lia.
  - destruct (node_serve (sys_db s) (Z.of_nat i) nd t req k) as (r' & E & _);
      [by eapply si_nodes|done|]. rewrite E in Ha. by simplify_eq.
Qed.

(** ** A client in an execution *)

Section one_client.
  Context (σ : nat → system) (ρ : nat → option action) (i : nat).
  Hypothesis Hσ : execution σ ρ.
  Hypothesis few_nodes : ∀ m, (Z.of_nat (length (nodes (σ m))) ≤ 2 ^ 32)%Z.
  Hypothesis request_fits : delivers_whole (users_request (Z.of_nat i)).
  Hypothesis answers_fit : ∀ m, delivers_whole (users_of (Z.of_nat i) (sys_db (σ m))).
  Hypothesis main_fair : weakly_fair σ ρ i main_thread.
  Hypothesis users_fair : strongly_fair σ ρ i t2.

Lemma ex_inv m : sys_inv (σ m).
Proof.
  apply sys_reachable_inv; [|done]. induction m as [|m IH]; [apply Hσ|].
  pose proof (ex_next _ _ Hσ m) as Hm. destruct (ρ m) as [a|]; [|by rewrite Hm].
  eapply rtc_r; [exact IH|by eapply sys_move_step].
Qed.

Definition at_ (m : nat) (nd : node) : Prop := running i (σ m) = Some nd.

Lemma at_ok m nd : at_ m nd → node_ok (sys_db (σ m)) (Z.of_nat i) nd.
Proof. intros Hnd%running_Some. by eapply (si_nodes _ (ex_inv m)). Qed.

Lemma at_disciplined m nd : at_ m nd → disciplined (nd_client nd).
Proof. intros Hnd. destruct (nk_reachable _ _ _ (at_ok _ _ Hnd)) as [a Ha]. by eapply reachable_disciplined. Qed.

Lemma at_next m nd :
  at_ m nd → ∃ nd', at_ (S m) nd' ∧ client_next (sys_db (σ m)) nd (mover i (ρ m)) nd'.
Proof.
  unfold at_. intros Hnd. pose proof (ex_next _ _ Hσ m) as Hm. destruct (ρ m) as [a|].
  - by eapply sys_move_next.
  - rewrite Hm. exists nd. split; [done|constructor].
Qed.

(** The names known and the users registered only become more. *)
Lemma at_later m m' nd :
  (m ≤ m')%nat → at_ m nd → grows (sys_db (σ m)) (sys_db (σ m')) ∧ ∃ nd', at_ m' nd' ∧
    dom (name_to_id_ (c_app (nd_client nd))) ⊆ dom (name_to_id_ (c_app (nd_client nd'))).
Proof.
  intros Hm Hnd. induction Hm as [|m' Hm (Hg & nd' & Hnd' & Hd)]; [by split; [reflexivity|exists nd]|].
  split.
  - etrans; [exact Hg|]. pose proof (ex_next _ _ Hσ m') as Hn.
    destruct (ρ m') as [a|]; [|by rewrite Hn].
    eapply sys_move_grows; [apply ex_inv|done|done].
  - destruct (at_next _ _ Hnd') as (nd2 & Hnd2 & Hn). exists nd2. split; [done|].
    etrans; [exact Hd|]. by eapply client_next_names, Hn; apply at_ok.
Qed.

(** Until it acts, a thread stays as it is. *)
Lemma at_until t m nd d :
  at_ m nd →
  (∃ m' nd', (m ≤ m')%nat ∧ at_ m' nd' ∧ same_at t nd nd' ∧ mover i (ρ m') = Some t) ∨
  ∃ nd', at_ (m + d) nd' ∧ same_at t nd nd'.
Proof.
  intros Hnd. induction d as [|d IH].
  { right. exists nd. by rewrite Nat.add_0_r. }
  destruct IH as [|(nd' & Hnd' & Hsame)]; [by left|].
  destruct (decide (mover i (ρ (m + d)) = Some t)) as [Ht|Ht].
  - left. exists (m + d)%nat, nd'. split; [lia|done].
  - right. destruct (at_next _ _ Hnd') as (nd2 & Hnd2 & Hn). exists nd2.
    rewrite Nat.add_succ_r. split; [done|].
    destruct (client_next_keeps _ _ _ _ t (at_disciplined _ _ Hnd') Hn Ht) as (? & ? & ?).
    destruct Hsame as (? & ? & ?). split_and!; [congruence|congruence|auto].
Qed.

(** What a thread that acts again and again does next. *)
Lemma at_acts t m m0 nd :
  at_ m nd → (m ≤ m0)%nat → mover i (ρ m0) = Some t →
  ∃ m' nd1 nd2, (m ≤ m')%nat ∧ at_ m' nd1 ∧ same_at t nd nd1 ∧ at_ (S m') nd2 ∧
    client_next (sys_db (σ m')) nd1 (Some t) nd2.
Proof.
  intros Hnd Hle Hm0.
  assert (∃ m' nd', (m ≤ m')%nat ∧ at_ m' nd' ∧ same_at t nd nd' ∧ mover i (ρ m') = Some t)
    as (m' & nd1 & Hm' & Hnd1 & Hsame & Hmove).
  { destruct (at_until t m nd (m0 - m)) as [|(nd' & Hnd' & Hsame)]; [done..|].
    exists m0, nd'. replace (m + (m0 - m))%nat with m0 in Hnd' by lia. done. }
  destruct (at_next _ _ Hnd1) as (nd2 & Hnd2 & Hn). rewrite Hmove in Hn.
  by exists m', nd1, nd2.
Qed.

(** ** The lock is given back *)

Lemma enabled_local m nd t es c :
  at_ m nd → client_step t NoInput (nd_client nd) = Some (es, c) → enabled i t (σ m).
Proof.
  unfold at_. intros Hnd Hc. exists (Local i t NoInput). split; [by left|]. cbn. rewrite Hnd. cbn. rewrite Hc.
  by eexists.
Qed.

(** A holder of the lock can act. *)
Lemma owner_enabled m nd t p :
  at_ m nd → threads (nd_client nd) t = p → ok t true p → enabled i t (σ m).
Proof.
  intros Hnd Hp Hok. remember true as held eqn:Hh.
  destruct Hok; try discriminate Hh; (eapply enabled_local; [done|]);
    unfold client_step; rewrite Hp; done.
Qed.

Lemma owner_ok m nd t :
  at_ m nd → name_mtx (nd_client nd) = Some t → ok t true (threads (nd_client nd) t).
Proof.
  intros Hnd Ho. pose proof (at_disciplined _ _ Hnd t) as Hd. unfold holds in Hd.
  rewrite bool_decide_eq_true_2 in Hd by done.
  by destruct (threads (nd_client nd) t); try done; destruct Hd as (_ & [=] & _).
Qed.

Lemma main_acts m nd :
  at_ m nd → name_mtx (nd_client nd) = Some main_thread →
  ∃ m' nd1 nd2, (m ≤ m')%nat ∧ at_ m' nd1 ∧ same_at main_thread nd nd1 ∧ at_ (S m') nd2 ∧
    client_next (sys_db (σ m')) nd1 (Some main_thread) nd2.
Proof.
  intros Hnd Ho. destruct (main_fair m) as (m0 & Hm0 & [Hdis|Hmove]); [|by eapply at_acts].
  destruct (at_until main_thread m nd (m0 - m)) as [(m' & nd' & Hm' & _ & _ & Hmove)|(nd' & Hnd' & Hsame)];
    [done|by eapply at_acts|].
  replace (m + (m0 - m))%nat with m0 in Hnd' by lia. destruct Hdis, Hsame as (_ & _ & Ho').
  eapply owner_enabled; [done..|]. eapply owner_ok; [done|auto].
Qed.

Lemma lock_is_freed p : ∀ m nd,
  at_ m nd → threads (nd_client nd) main_thread = p → name_mtx (nd_client nd) = Some main_thread →
  ∃ m' nd', (m ≤ m')%nat ∧ at_ m' nd' ∧ name_mtx (nd_client nd') = None.
Proof.
  induction p as [l|k IH|k IH|rd wr f k IH|w k IH|prompt k IH|k IH|req k IH]; intros m nd Hnd Hp Ho;
    pose proof (owner_ok _ _ _ Hnd Ho) as Hok; rewrite Hp in Hok; try (by inversion Hok);
    destruct (main_acts _ _ Hnd Ho) as (m' & nd1 & nd2 & Hm' & Hnd1 & (Hp1 & _ & Ho1) & Hnd2 & Hn);
    specialize (Ho1 Ho); rewrite Hp in Hp1;
    pose proof (client_next_lock _ _ _ _ Hn) as Ho2; rewrite Hp1 in Ho2;
    pose proof (client_next_own _ _ _ _ Hn) as Hp2; rewrite Hp1 in Hp2; cbn in Hp2.
  - exists (S m'), nd2. split; [lia|done].
  - destruct Hp2 as [Hp2 _]. destruct (IH _ _ _ Hnd2 Hp2) as (m3 & nd3 & ? & ?); [congruence|].
    exists m3, nd3. split; [lia|done].
  - destruct (IH _ _ Hnd2 Hp2) as (m3 & nd3 & ? & ?); [congruence|].
    exists m3, nd3. split; [lia|done].
Qed.

(** ** The second thread acts again and again *)

(** The first thread never holds the lock. *)
Lemma owner_cases m nd t :
  at_ m nd → name_mtx (nd_client nd) = Some t → t = main_thread ∨ t = t2.
Proof.
  intros Hnd Ho. pose proof (owner_ok _ _ _ Hnd Ho) as Hok. destruct t; [|by right|by left].
  destruct (nk_threads _ _ _ (at_ok _ _ Hnd) t1) as [E|E]; rewrite E in Hok; by inversion Hok.
Qed.

Lemma lock_is_free_later m nd :
  at_ m nd → name_mtx (nd_client nd) ≠ Some t2 →
  ∃ m' nd', (m ≤ m')%nat ∧ at_ m' nd' ∧ name_mtx (nd_client nd') = None.
Proof.
  intros Hnd Hne. destruct (name_mtx (nd_client nd)) as [t|] eqn:Ho; [|by exists m, nd].
  destruct (owner_cases _ _ _ Hnd Ho) as [->| ->]; [|done]. by eapply lock_is_freed.
Qed.

(** It waits for nothing but the lock. *)
Lemma users_enabled m nd :
  at_ m nd →
  match threads (nd_client nd) t2 with Lock _ => name_mtx (nd_client nd) = None | _ => True end →
  enabled i t2 (σ m).
Proof.
  intros Hnd Hlock. pose proof (at_ok _ _ Hnd) as Hok. pose proof (nk_threads _ _ _ Hok t2) as Hr.
  cbn in Hr. destruct (threads (nd_client nd) t2) as [l|k|k|rd wr f k|w k|prompt k|k|req k] eqn:Ep;
    try done; try (eapply enabled_local; [done|]; unfold client_step; rewrite Ep, ?Hlock; done).
  unfold at_ in Hnd. destruct (nd_reply nd t2) as [r|] eqn:Er.
  - destruct (nk_reply _ _ _ Hok _ Er) as (resp & req' & k' & -> & _ & _).
    exists (Deliver i t2). split; [by do 2 right; left|]. cbn. rewrite Hnd. cbn. rewrite Er.
    unfold client_step. rewrite Ep. by eexists.
  - exists (Serve i t2). split; [by right; left|]. cbn. rewrite Hnd. cbn. rewrite Ep, Er.
    destruct (asks_for_users _ _ _ _ _ Hok Ep) as [-> Ha]. rewrite Ha.
    rewrite !option_guard_True by (done || apply answers_fit). by eexists.
Qed.

Lemma acting_enabled m nd :
  at_ m nd → mover i (ρ m) = Some t2 → enabled i t2 (σ m).
Proof.
  intros Hnd Hmove. pose proof (ex_next _ _ Hσ m) as Hm.
  destruct (ρ m) as [[name|j ip port uninit|j t inp|j t|j t]|]; try done; cbn [mover] in Hmove;
    case_decide; simplify_eq; eexists; (split; [rewrite !elem_of_cons|by eexists]); auto.
  left. pose proof (nk_threads _ _ _ (at_ok _ _ Hnd) t2) as Hr. cbn in Hm, Hr.
  unfold at_ in Hnd. rewrite Hnd in Hm. cbn in Hm. case_guard as Hinp; cbn in Hm; [|done].
  unfold client_step in Hm. by destruct (threads (nd_client nd) t2), inp.
Qed.

Lemma users_again m nd : at_ m nd → again (λ m', mover i (ρ m') = Some t2).
Proof.
  intros Hnd. apply users_fair. intros m0.
  destruct (at_later m (m `max` m0) nd) as (_ & nd0 & Hnd0 & _); [lia|done|].
  assert ((∃ k, threads (nd_client nd0) t2 = Lock k) ∨ enabled i t2 (σ (m `max` m0))) as [[k Hk]|He].
  { pose proof (users_enabled _ _ Hnd0) as He.
    destruct (threads (nd_client nd0) t2); try (by right; apply He). left. eauto. }
  - destruct (lock_is_free_later _ _ Hnd0) as (m1 & nd1 & Hm1 & Hnd1 & Ho).
    { intros Ho. pose proof (owner_ok _ _ _ Hnd0 Ho) as Hok. rewrite Hk in Hok. by inversion Hok. }
    destruct (at_until t2 _ _ (m1 - m `max` m0) Hnd0)
      as [(m2 & nd2 & Hm2 & Hnd2 & _ & Hmove)|(nd2 & Hnd2 & Hsame)].
    + exists m2. split; [lia|by eapply acting_enabled].
    + replace (m `max` m0 + (m1 - m `max` m0))%nat with m1 in Hnd2 by lia.
      assert (nd2 = nd1) as -> by (unfold at_ in *; congruence).
      exists m1. split; [lia|]. apply (users_enabled _ _ Hnd1).
      destruct Hsame as [-> _]. by rewrite Hk.
  - exists (m `max` m0). split; [lia|done].
Qed.

(** What it does next. *)
Lemma users_act m nd p r :
  at_ m nd → threads (nd_client nd) t2 = p → nd_reply nd t2 = r →
  ∃ m' nd1 nd2, (m ≤ m')%nat ∧ at_ m' nd1 ∧ at_ (S m') nd2 ∧ threads (nd_client nd1) t2 = p ∧
    own_step (sys_db (σ m')) t2 p r nd1 nd2.
Proof.
  intros Hnd <- <-. destruct (users_again _ _ Hnd m) as (m0 & Hm0 & Hmove).
  destruct (at_acts t2 m m0 nd) as (m' & nd1 & nd2 & Hm' & Hnd1 & (Hp & Hr & _) & Hnd2 & Hn);
    [done..|].
  exists m', nd1, nd2. split_and!; try done. rewrite <- Hp, <- Hr. by apply client_next_own.
Qed.

(** ** It asks for the users again and again *)

(** From [m] on there is a moment at which the client satisfies [P]. *)
Definition later (m : nat) (P : nat → node → Prop) : Prop :=
  ∃ m' nd, (m ≤ m')%nat ∧ at_ m' nd ∧ P m' nd.

Lemma later_weaken m m' P : (m ≤ m')%nat → later m' P → later m P.
Proof. intros Hm (m1 & nd & ? & ?). exists m1, nd. split; [lia|done]. Qed.

Definition asking (nd : node) : Prop :=
  threads (nd_client nd) t2 = users_loop ∧ nd_reply nd t2 = None.

Lemma users_asks p : ∀ m nd, at_ m nd → threads (nd_client nd) t2 = p → later m (λ _, asking).
Proof.
  induction p as [l|k IH|k IH|rd wr f k IH|w k IH|prompt k IH|k IH|req k IH]; intros m nd Hnd Hp;
    pose proof (at_ok _ _ Hnd) as Hok; pose proof (nk_threads _ _ _ Hok t2) as Hr;
    rewrite Hp in Hr; cbn in Hr; try done;
    destruct (users_act _ _ _ _ Hnd Hp eq_refl) as (m' & nd1 & nd2 & Hm' & Hnd1 & Hnd2 & Hp1 & Hact);
    cbn in Hact; try (apply (later_weaken m (S m')); [lia|by eapply IH]).
  - destruct Hact as [Hp2 Hr2]. subst l. exists (S m'), nd2. split; [lia|]. do 2 (split; [done|]).
    rewrite Hr2. destruct (nd_reply nd t2) eqn:E; [|done].
    destruct (nk_reply _ _ _ Hok _ E) as (? & ? & ? & _ & ? & _). congruence.
  - destruct Hact as [Hp2 _]. apply (later_weaken m (S m')); [lia|by eapply IH].
  - destruct (nd_reply nd t2) as [r|] eqn:E.
    + destruct Hact as (resp & _ & Hp2). apply (later_weaken m (S m')); [lia|by eapply IH].
    + exists m, nd. split_and!; [done..|]. unfold asking. by rewrite Hp.
Qed.

(** The names of the others, as the server sends them. *)
Definition names_at (m : nat) : gmap bytes Z :=
  names_of (online_users (default RespUsers_default
    (resp_users (users_of (Z.of_nat i) (sys_db (σ m)))))).

(** What it asks is answered with the users of that moment. *)
Lemma users_answered m nd :
  at_ m nd → asking nd →
  later m (λ _ nd', ∃ m', (m ≤ m')%nat ∧
    threads (nd_client nd') t2 = update_names (names_at m')).
Proof.
  intros Hnd [Hp Hr].
  destruct (users_act _ _ _ _ Hnd Hp Hr) as (m1 & nd1 & nd2 & Hm1 & Hnd1 & Hnd2 & Hp1 & Hp2 & Hr2).
  destruct (asks_for_users _ _ _ _ _ (at_ok _ _ Hnd1) Hp1) as [Hreq Ha].
  rewrite Hreq, Ha in Hr2. fold users_loop in Hp2.
  destruct (users_act _ _ _ _ Hnd2 Hp2 Hr2) as (m3 & nd3 & nd4 & Hm3 & _ & Hnd4 & _ & Hact).
  destruct Hact as (resp & [= <-] & Hp4). change (negb _) with false in Hp4. cbv iota in Hp4.
  exists (S m3), nd4. split; [lia|]. split; [done|]. exists m1. split; [lia|exact Hp4].
Qed.

(** It stores the list it has got. *)
Lemma users_store m nd new :
  at_ m nd → threads (nd_client nd) t2 = update_names new →
  later m (λ _ nd', name_to_id_ (c_app (nd_client nd')) = new).
Proof.
  intros Hnd Hp.
  destruct (users_act _ _ _ _ Hnd Hp eq_refl) as (m1 & nd1 & nd2 & Hm1 & _ & Hnd2 & _ & Hp2).
  destruct (users_act _ _ _ _ Hnd2 Hp2 eq_refl) as (m3 & nd3 & nd4 & Hm3 & Hnd3 & Hnd4 & _ & Hp4 & _).
  case_bool_decide as Heq; [exists m3, nd3; split; [lia|done]|].
  destruct (users_act _ _ _ _ Hnd4 Hp4 eq_refl) as (m5 & nd5 & nd6 & Hm5 & _ & Hnd6 & _ & _ & Happ).
  exists (S m5), nd6. split; [lia|]. by rewrite Happ.
Qed.

(** Those who have registered by [m] are among them. *)
Lemma names_at_complete m m' nd k n :
  (m ≤ m')%nat → at_ m nd → other_client (σ m) i k n → n ∈ dom (names_at m').
Proof.
  intros Hm Hnd (j & p & Hne & -> & Hj & <-). destruct (at_later _ _ _ Hm Hnd) as [Hg _].
  apply (users_of_complete _ _ {[peer_name p := Z.of_nat j]}); [|rewrite dom_singleton; set_solver].
  intros n' k' [<- <-]%lookup_singleton_Some. split; [lia|].
  eapply user_named_grows; [exact Hg|]. by apply peer_named; [apply ex_inv|].
Qed.

(** From every moment on it comes to know the others of that moment, and keeps them. *)
Lemma users_spread m nd :
  at_ m nd → ∃ m', (m ≤ m')%nat ∧ ∀ m'', (m' ≤ m'')%nat → ∃ nd', at_ m'' nd' ∧
    ∀ k n, other_client (σ m) i k n → is_Some (name_to_id_ (c_app (nd_client nd')) !! n).
Proof.
  intros Hnd. destruct (users_asks _ _ _ Hnd eq_refl) as (m1 & nd1 & Hm1 & Hnd1 & Hask).
  destruct (users_answered _ _ Hnd1 Hask) as (m2 & nd2 & Hm2 & Hnd2 & m0 & Hm0 & Hp).
  destruct (users_store _ _ _ Hnd2 Hp) as (m3 & nd3 & Hm3 & Hnd3 & Hstored).
  exists m3. split; [lia|]. intros m'' Hm''.
  destruct (at_later _ _ _ Hm'' Hnd3) as (_ & nd' & Hnd' & Hdom). exists nd'. split; [done|].
  intros k n Ho. apply elem_of_dom, Hdom. rewrite Hstored.
  eapply (names_at_complete m); [lia|done..].
Qed.

End one_client.

(** C6. News of a registration spreads, in [System], where a registration takes effect in
    one step, as the unlocked [registerUser] of the source does only while no other thread
    uses the database (with overlapping registrations a user is overwritten and its name
    forgotten), and where requests and answers fit the buffers. In every infinite execution
    of that machine in which the client's request for the users and the answer to it fit at
    all times, at most 2^32 clients register, the thread that lists the users acts again
    and again if it can act again and again, and the main thread does not stay able to act
    for ever without acting, a running client comes to know, from any moment on, the names
    of all other clients that have registered by that moment and never forgets one;
    whatever it knows is the name of another client. *)
Theorem registrations_spread σ ρ i m nd :
  execution σ ρ → (∀ m', (Z.of_nat (length (nodes (σ m'))) ≤ 2 ^ 32)%Z) →
  delivers_whole (users_request (Z.of_nat i)) →
  (∀ m', delivers_whole (users_of (Z.of_nat i) (sys_db (σ m')))) →
  strongly_fair σ ρ i t2 → weakly_fair σ ρ i main_thread → running i (σ m) = Some nd →
  ∃ m', (m ≤ m')%nat ∧ ∀ m'', (m' ≤ m'')%nat → ∃ nd', running i (σ m'') = Some nd' ∧
    (∀ k n, other_client (σ m) i k n → is_Some (name_to_id_ (c_app (nd_client nd')) !! n)) ∧
    ∀ n k, name_to_id_ (c_app (nd_client nd')) !! n = Some k → other_client (σ m'') i k n.
Proof.
  intros Hσ Hl Hreq Hresp Husers Hmain Hnd.
  destruct (users_spread σ ρ i Hσ Hl Hreq Hresp Hmain Husers m nd Hnd) as (m' & Hm' & Hspread).
  exists m'. split; [done|]. intros m'' Hm''. destruct (Hspread m'' Hm'') as (nd' & Hnd' & Hknown).
  exists nd'. split_and!; [done..|]. intros n k. eapply names_true_other; [by eapply ex_inv|].
  by apply (nk_maps _ _ _ (at_ok σ ρ i Hσ Hl m'' nd' Hnd')).
Qed.

End executions.

(** ** A schedule that is fair

    The actions of one thread of one client are tried in turn. *)

Section taking_turns.
  Context {ord : UMapOrder Z UserMetadata} {ord' : UMapOrder bytes Z} `{Protobuf}.
  Context (s : system) (i : nat) (t : thread).

Definition turn (m : nat) : action :=
  match (m mod 3)%nat with 0%nat => Local i t NoInput | 1%nat => Serve i t | _ => Deliver i t end.

Fixpoint turns (m : nat) : system :=
  match m with
  | O => s
  | S m => default (turns m) (sys_move (turn m) (turns m))
  end.

Definition turn_taken (m : nat) : option action :=
  match sys_move (turn m) (turns m) with Some _ => Some (turn m) | None => None end.

Lemma turns_execution : sys_reachable s → execution turns turn_taken.
Proof.
  intros Hs. split; [done|]. intros m. unfold turn_taken. cbn.
  by destruct (sys_move (turn m) (turns m)) eqn:E; cbn; rewrite ?E.
Qed.

Lemma turn_mover m : mover i (Some (turn m)) = Some t.
Proof. unfold turn. do 2 (case_match; [by cbn; rewrite decide_True|]). cbn. by rewrite decide_True. Qed.

Lemma turn_taken_mover m : mover i (turn_taken m) = Some t ∨ turns (S m) = turns m ∧ sys_move (turn m) (turns m) = None.
Proof.
  unfold turn_taken. cbn. destruct (sys_move (turn m) (turns m)); [left; apply turn_mover|by right].
Qed.

Lemma turn_any a m :
  a ∈ [Local i t NoInput; Serve i t; Deliver i t] → turn m = a ∨ turn (S m) = a ∨ turn (S (S m)) = a.
Proof.
  rewrite !elem_of_cons, elem_of_nil. unfold turn.
  pose proof (Nat.mod_upper_bound m 3 ltac:(done)) as Hlt.
  rewrite (Nat.Div0.add_mod 1 m 3 : (S m mod 3)%nat = _),
    (Nat.Div0.add_mod 2 m 3 : (S (S m) mod 3)%nat = _).
  destruct (m mod 3)%nat as [|[|[|]]]; [| | |lia]; cbn; intros [->|[->|[->|[]]]]; auto.
Qed.

Lemma turns_fair : strongly_fair turns turn_taken i t.
Proof.
  intros He m. destruct (He m) as (m' & Hm' & a & Ha & Hmove).
  destruct (turn_taken_mover m') as [|[E0 N0]]; [by exists m'|].
  destruct (turn_taken_mover (S m')) as [|[E1 N1]]; [exists (S m'); split; [lia|done]|].
  destruct (turn_taken_mover (S (S m'))) as [|[_ N2]]; [exists (S (S m')); split; [lia|done]|].
  rewrite E1, E0 in N2. rewrite E0 in N1. destruct Hmove as [s' Hmove].
  destruct (turn_any a m' Ha) as [E|[E|E]]; congruence.
Qed.

Lemma turn_keeps m s1 s2 :
  sys_inv s1 → sys_move (turn m) s1 = Some s2 →
  sys_db s2 = sys_db s1 ∧ length (nodes s2) = length (nodes s1).
Proof.
  intros Hs Hm. unfold turn in Hm. destruct (m mod 3)%nat as [|[|]]; cbn in Hm;
    destruct (running i s1) as [nd|] eqn:Hi; try done; cbn in Hm.
  - destruct (client_step t NoInput (nd_client nd)) as [[es c]|]; [|done]. cbn in Hm.
    simplify_option_eq. cbn. by rewrite length_insert.
  - destruct (threads (nd_client nd) t) as [| | | | | | |req k] eqn:Ep; try done.
    destruct (nd_reply nd t); [done|].
    destruct (node_serve (sys_db s1) (Z.of_nat i) nd t req k) as (r & E & _);
      [by eapply si_nodes; [|apply running_Some]|done|].
    rewrite E in Hm. repeat (case_guard; cbn in Hm; try done). simplify_eq.
    cbn. by rewrite length_insert.
  - destruct (nd_reply nd t) as [[resp|]|]; try done.
    destruct (client_step t (Response resp) (nd_client nd)) as [[es c]|]; [|done].
    cbn in Hm. simplify_eq. cbn. by rewrite length_insert.
Qed.

Hypothesis start_ok : sys_inv s.
Hypothesis few_nodes : (Z.of_nat (length (nodes s)) ≤ 2 ^ 32)%Z.

Lemma turns_keep m :
  sys_inv (turns m) ∧ sys_db (turns m) = sys_db s ∧ length (nodes (turns m)) = length (nodes s).
Proof.
  induction m as [|m (Hinv & Hdb & Hlen)]; [done|]. cbn.
  destruct (sys_move (turn m) (turns m)) as [s'|] eqn:E; [|done]. cbn.
  destruct (turn_keeps _ _ _ Hinv E) as [-> Hlen']. split_and!; [|done|congruence].
  apply sys_move_step in E. eapply sys_inv_step; [done..|]. by rewrite Hlen', Hlen.
Qed.

(** A thread that reads from the console waits for the user. *)
Definition reads (t' : thread) (s1 : system) : bool :=
  match running i s1 with
  | Some nd => match threads (nd_client nd) t' with Reading _ => true | _ => false end
  | None => false
  end.

Lemma reads_disabled t' s1 : reads t' s1 = true → ¬ enabled i t' s1.
Proof.
  unfold reads. destruct (running i s1) as [nd|] eqn:Hi; [|done].
  destruct (threads (nd_client nd) t') eqn:Ep; try done. intros _ (a & Ha & [s2 Hm]).
  apply list_elem_of_In in Ha. destruct Ha as [<-|[<-|[<-|[]]]]; cbn in Hm; rewrite Hi in Hm; cbn in Hm.
  - unfold client_step in Hm. by rewrite Ep in Hm.
  - by rewrite Ep in Hm.
  - destruct (nd_reply nd t') as [[resp|]|]; try done. unfold client_step in Hm. by rewrite Ep in Hm.
Qed.

Lemma turns_read t' m : t' ≠ t → reads t' s = true → reads t' (turns m) = true.
Proof.
  intros Ht Hr. induction m as [|m IH]; [done|]. cbn.
  destruct (sys_move (turn m) (turns m)) as [s'|] eqn:E; [|done]. cbn.
  unfold reads in *. destruct (running i (turns m)) as [nd|] eqn:Hi; [|done].
  destruct (sys_move_next _ i _ _ nd E Hi) as (nd' & -> & Hn). rewrite turn_mover in Hn.
  pose proof (si_nodes _ (proj1 (turns_keep m)) _ _ (running_Some _ _ _ Hi)) as Hok.
  destruct (nk_reachable _ _ _ Hok) as [a Ha].
  destruct (client_next_keeps _ _ _ _ t' (reachable_disciplined _ _ Ha) Hn) as [-> _]; congruence.
Qed.

Lemma turns_read_fair t' : t' ≠ t → reads t' s = true → weakly_fair turns turn_taken i t'.
Proof. intros Ht Hr m. exists m. split; [done|]. left. by apply reads_disabled, turns_read. Qed.

End taking_turns.

(** Ann and Bob register, Ann leaves the prompt alone. *)
#[local] Existing Instance canonical_order.

Definition ann_waits : list action :=
  joins 0 (str "Ann") ++ joins 1 (str "Bob") ++ locals 0 7 main_thread.

Lemma registrations_spread_witness :
  name_to_id_ (c_app (nd_client (ann ann_waits))) !! str "Bob" = None ∧
  ∃ m', ∀ m'', (m' ≤ m'')%nat → ∃ nd', running 0 (turns (after ann_waits) 0 t2 m'') = Some nd' ∧
    is_Some (name_to_id_ (c_app (nd_client nd')) !! str "Bob").
Proof.
  split; [by vm_compute|].
  assert (sys_reachable (after ann_waits)) as Hr by (apply after_reachable; by vm_compute).
  pose proof (few_ids ann_waits ltac:(by vm_compute)) as Hl.
  pose proof (sys_reachable_inv _ Hr Hl) as Hs.
  pose proof (ann_lookup ann_waits ltac:(by vm_compute)) as Hi.
  destruct (registrations_spread (turns (after ann_waits) 0 t2) (turn_taken (after ann_waits) 0 t2)
    0 0 (ann ann_waits)) as (m' & _ & Hspread).
  - by apply turns_execution.
  - intros m. by destruct (turns_keep (after ann_waits) 0 t2 Hs Hl m) as (_ & _ & ->).
  - apply (bool_decide_eq_true_1 _). by vm_compute.
  - intros m. destruct (turns_keep (after ann_waits) 0 t2 Hs Hl m) as (_ & -> & _).
    apply (bool_decide_eq_true_1 _). by vm_compute.
  - apply turns_fair.
  - apply turns_read_fair; [exact Hs|exact Hl|discriminate|by vm_compute].
  - unfold running. cbn [turns]. by rewrite Hi.
  - exists m'. intros m'' Hm''. destruct (Hspread m'' Hm'') as (nd' & Hnd' & Hknown & _).
    exists nd'. split; [exact Hnd'|]. apply (Hknown 1%Z).
    destruct (nodes (after ann_waits) !! 1%nat) as [p|] eqn:E; [|by vm_compute in E].
    exists 1%nat, p. split_and!; [done|done|exact E|].
    apply (f_equal (fmap peer_name)) in E. vm_compute in E. by injection E.
Defined.
