(* ===== verification/Composed.v ===== *)
(** The whole system with the threads of the server: the accepting thread and the handler
    threads of [Threads] over a kernel, and the clients of [ClientThreads]. What connects
    them are the bytes: a connection delivers the request of a client's thread, and the
    bytes a handler has sent are parsed by the client. *)

From stdpp Require Import functions.
From S2P Require Import Prelude.
From S2P Require Import Common.
From S2P Require Import Database.
From S2P Require Import Packet.
From S2P Require Import Socket.
From S2P Require Import Network.
From S2P Require Import ServerApp.
From S2P Require Import ServerAppProofs.
From S2P Require Import Threads.
From S2P Require Import ThreadsProofs.
From S2P Require Import Console.
From S2P Require Import App.
From S2P Require Import ClientThreads.
From S2P Require Import System.

(** The connection of a thread that has sent a request: the handler that serves it, or the
    bytes that are on their way back. *)
Inductive link :=
| Serving (i : nat)
| Arriving (bs : bytes).

#[export] Instance link_eq_decision : EqDecision link.
Proof. solve_decision. Defined.

Record fnode := mkFnode {
  fn_client : client;
  fn_link : thread → option link;
}.

(** A client whose name is in the database, before and after it has got its ID. *)
Inductive fpeer :=
| FWaiting (name : bytes) (l : link)
| FRunning (fn : fnode).

#[local] Arguments server_step : simpl never.

Section composed.
  Context {ord : UMapOrder Z UserMetadata} {ord' : UMapOrder bytes Z} `{ProtobufLaws}
    {K : Type} `{ConnectionLaws K}.

(** The server, the handlers whose requests are going to register a name, and the clients
    in the order in which their names enter the database. *)
Record composed := mkComposed {
  c_server : server K;
  c_new : gmap nat bytes;
  c_peers : list fpeer;
}.

Definition with_server (srv : server K) (f : composed) : composed :=
  mkComposed srv (c_new f) (c_peers f).

Definition with_peer (n : nat) (p : fpeer) (srv : server K) (f : composed) : composed :=
  mkComposed srv (c_new f) (<[n := p]> (c_peers f)).

(** What a client parses when these bytes arrive. *)
Definition parse_response (bs : bytes) : Packet :=
  (ParseFromArray (take 1000 (bs ++ replicate 1000 x00))).2.

(** The connection of a handler has delivered these bytes. *)
Definition delivered (srv : server K) (i : nat) (bs : bytes) : Prop :=
  ∃ h, handlers srv !! i = Some h ∧ rcvd (fd_ (my_socket h)) (kernel srv) = bs.

Definition is_receiving (pc : handler_pc) : bool :=
  match pc with Receiving _ => true | _ => false end.

Definition at_insert (pc : handler_pc) : bool :=
  match pc with Registering _ (RegStart _) => true | _ => false end.

(** The answer the [i]-th handler is about to give fits. *)
Definition answer_fits (srv : server K) (h : handler) : Prop :=
  ∀ p, takes_effect (at_ h) = Some p →
    from_option delivers_whole True (answer_packet p (the_db srv)).1.

Inductive composed_step : composed → composed → Prop :=
| cs_accept f srv :
    server_step Accept (c_server f) = Ok srv →
    composed_step f (with_server srv f)
(** A turn of a receive loop that finds nothing. *)
| cs_idle f i h srv h' :
    handlers (c_server f) !! i = Some h → is_receiving (at_ h) = true →
    server_step (Run i) (c_server f) = Ok srv →
    handlers srv !! i = Some h' → is_receiving (at_ h') = true →
    composed_step f (with_server srv f)
(** A handler gets the request a thread is waiting with. *)
| cs_receive f i h srv h' n fn t req k :
    handlers (c_server f) !! i = Some h → is_receiving (at_ h) = true →
    server_step (Run i) (c_server f) = Ok srv →
    handlers srv !! i = Some h' → is_receiving (at_ h') = false →
    c_peers f !! n = Some (FRunning fn) → threads (fn_client fn) t = Exchange req k →
    fn_link fn t = None → delivers_whole (req (c_app (fn_client fn))) →
    delivered srv i (wire (req (c_app (fn_client fn)))) →
    composed_step f (with_peer n
      (FRunning (mkFnode (fn_client fn) (<[t := Some (Serving i)]> (fn_link fn)))) srv f)
(** A handler gets the request of a client that registers. *)
| cs_receive_new f i h srv h' name :
    handlers (c_server f) !! i = Some h → is_receiving (at_ h) = true →
    server_step (Run i) (c_server f) = Ok srv →
    handlers srv !! i = Some h' → is_receiving (at_ h') = false →
    delivers_whole (register_request name) → delivered srv i (wire (register_request name)) →
    composed_step f (mkComposed srv (<[i := name]> (c_new f)) (c_peers f))
(** Any other step of a handler but the insertion of a name. *)
| cs_run f i h srv :
    handlers (c_server f) !! i = Some h → is_receiving (at_ h) = false →
    at_insert (at_ h) = false → answer_fits (c_server f) h →
    server_step (Run i) (c_server f) = Ok srv →
    composed_step f (with_server srv f)
(** A handler inserts a name. *)
| cs_insert f i h srv name :
    handlers (c_server f) !! i = Some h → at_insert (at_ h) = true →
    answer_fits (c_server f) h → server_step (Run i) (c_server f) = Ok srv →
    c_new f !! i = Some name →
    composed_step f (mkComposed srv (delete i (c_new f))
      (c_peers f ++ [FWaiting name (Serving i)]))
(** A handler has sent its answer; the connection is still open. *)
| cs_sent f n fn t i h :
    c_peers f !! n = Some (FRunning fn) → fn_link fn t = Some (Serving i) →
    handlers (c_server f) !! i = Some h → at_ h = Returning true →
    sent (fd_ (my_socket h)) (kernel (c_server f)) ≠ [] →
    composed_step f (with_peer n (FRunning (mkFnode (fn_client fn)
      (<[t := Some (Arriving (sent (fd_ (my_socket h)) (kernel (c_server f))))]> (fn_link fn))))
      (c_server f) f)
| cs_sent_new f n name i h :
    c_peers f !! n = Some (FWaiting name (Serving i)) →
    handlers (c_server f) !! i = Some h → at_ h = Returning true →
    sent (fd_ (my_socket h)) (kernel (c_server f)) ≠ [] →
    composed_step f (with_peer n
      (FWaiting name (Arriving (sent (fd_ (my_socket h)) (kernel (c_server f)))))
      (c_server f) f)
(** The answer to a registration arrives, and the client starts its threads. *)
| cs_start f n name bs ip port uninit :
    c_peers f !! n = Some (FWaiting name (Arriving bs)) →
    let id := get_u32 (pr_assigned_id (default RespRegister_default (resp_reg (parse_response bs)))) in
    composed_step f (with_peer n
      (FRunning (mkFnode (nd_client (node_start ip port uninit id name)) (λ _, None)))
      (c_server f) f)
(** A step of a client's thread that does not wait for the server. *)
| cs_local f n fn t inp es c :
    c_peers f !! n = Some (FRunning fn) → (∀ p, inp ≠ Response p) →
    client_step t inp (fn_client fn) = Some (es, c) →
    composed_step f (with_peer n (FRunning (mkFnode c (fn_link fn))) (c_server f) f)
(** An answer arrives. *)
| cs_deliver f n fn t bs es c :
    c_peers f !! n = Some (FRunning fn) → fn_link fn t = Some (Arriving bs) →
    client_step t (Response (parse_response bs)) (fn_client fn) = Some (es, c) →
    composed_step f (with_peer n (FRunning (mkFnode c (<[t := None]> (fn_link fn))))
      (c_server f) f).

(** The steps in which a thread inside [registerUser] stays alone with the database: no
    other is inside it, and none is between the first and the last entry of a list of
    users. Nothing in the source enforces this: [registerUser] ([database.cpp:11]) and
    [handleRequestUsers] ([server_app.cpp:48]) take no lock, and the handler threads run at
    the same time. Without it two clients can get the same ID and the name of one of them
    is lost ([overlapping_registrations_not_linearizable]). *)
Definition exclusive_step (f f' : composed) : Prop :=
  composed_step f f' ∧ exclusive (c_server f').

Definition composed_start (ss : ServerSocket) (k : K) : composed :=
  mkComposed (server_start ss Database_init k) ∅ [].

(** The states that such steps reach: not all that [composed_step] reaches. *)
Definition exclusively_reachable (ss : ServerSocket) (k : K) (f : composed) : Prop :=
  rtc exclusive_step (composed_start ss k) f.

(** ** Schedules

    The same steps as a function of who moves. *)
Inductive move :=
| MAccept
| MIdle (i : nat)
| MRun (i : nat)
| MReceive (i n : nat) (t : thread)
| MReceiveNew (i : nat) (name : bytes)
| MInsert (i : nat)
| MSent (n : nat) (t : thread)
| MSentNew (n : nat)
| MStart (n : nat) (ip : bytes) (port uninit : Z)
| MLocal (n : nat) (t : thread) (inp : input)
| MDeliver (n : nat) (t : thread).

#[export] Instance delivered_dec srv i bs : Decision (delivered srv i bs).
Proof.
  destruct (handlers srv !! i) as [h|] eqn:Hi;
    [destruct (decide (rcvd (fd_ (my_socket h)) (kernel srv) = bs))|].
  - left. by exists h.
  - right. abstract (intros (h' & Hi' & ?); congruence).
  - right. abstract (intros (h' & Hi' & ?); congruence).
Defined.

#[export] Instance answer_fits_dec srv h : Decision (answer_fits srv h).
Proof.
  unfold answer_fits. destruct (takes_effect (at_ h)) as [p|] eqn:He.
  - destruct (decide (from_option delivers_whole True (answer_packet p (the_db srv)).1)).
    + left. abstract (by intros p' [= <-]).
    + right. abstract (intros Hf; by specialize (Hf p eq_refl)).
  - left. abstract (by intros).
Defined.

Definition ok_server (o : outcome (server K)) : option (server K) :=
  match o with Ok srv => Some srv | _ => None end.

Lemma ok_server_Some o srv : ok_server o = Some srv → o = Ok srv.
Proof. destruct o; cbn; congruence. Qed.

Definition the_running (n : nat) (f : composed) : option fnode :=
  match c_peers f !! n with Some (FRunning fn) => Some fn | _ => None end.

Definition the_waiting (n : nat) (f : composed) : option (bytes * link) :=
  match c_peers f !! n with Some (FWaiting name l) => Some (name, l) | _ => None end.

Lemma the_running_Some n f fn : the_running n f = Some fn → c_peers f !! n = Some (FRunning fn).
Proof. unfold the_running. intros Hr. by repeat case_match; simplify_eq. Qed.

Lemma the_waiting_Some n f name l :
  the_waiting n f = Some (name, l) → c_peers f !! n = Some (FWaiting name l).
Proof. unfold the_waiting. intros Hr. by repeat case_match; simplify_eq. Qed.

(** A step of the [i]-th handler out of its receive loop. *)
Definition receives (i : nat) (f : composed) : option (server K) :=
  h ← handlers (c_server f) !! i;
  guard (is_receiving (at_ h) = true);;
  srv ← ok_server (server_step (Run i) (c_server f));
  h' ← handlers srv !! i;
  guard (is_receiving (at_ h') = false);;
  Some srv.

(** The handler a connection belongs to and the bytes it has sent, once it has sent all. *)
Definition has_sent (l : option link) (f : composed) : option bytes :=
  match l with
  | Some (Serving i) =>
      h ← handlers (c_server f) !! i;
      match at_ h with
      | Returning true =>
          let bs := sent (fd_ (my_socket h)) (kernel (c_server f)) in
          guard (bs ≠ []);; Some bs
      | _ => None
      end
  | _ => None
  end.

#[local] Arguments has_sent : simpl never.
#[local] Arguments receives : simpl never.

Definition composed_move (m : move) (f : composed) : option composed :=
  match m with
  | MAccept => srv ← ok_server (server_step Accept (c_server f)); Some (with_server srv f)
  | MIdle i =>
      h ← handlers (c_server f) !! i;
      srv ← ok_server (server_step (Run i) (c_server f));
      h' ← handlers srv !! i;
      guard (is_receiving (at_ h) = true ∧ is_receiving (at_ h') = true);;
      Some (with_server srv f)
  | MRun i =>
      h ← handlers (c_server f) !! i;
      guard (is_receiving (at_ h) = false ∧ at_insert (at_ h) = false ∧ answer_fits (c_server f) h);;
      srv ← ok_server (server_step (Run i) (c_server f));
      Some (with_server srv f)
  | MReceive i n t =>
      srv ← receives i f;
      fn ← the_running n f;
      match threads (fn_client fn) t with
      | Exchange req _ =>
          let p := req (c_app (fn_client fn)) in
          guard (fn_link fn t = None ∧ delivers_whole p ∧ delivered srv i (wire p));;
          Some (with_peer n
            (FRunning (mkFnode (fn_client fn) (<[t := Some (Serving i)]> (fn_link fn)))) srv f)
      | _ => None
      end
  | MReceiveNew i name =>
      srv ← receives i f;
      let p := register_request name in
      guard (delivers_whole p ∧ delivered srv i (wire p));;
      Some (mkComposed srv (<[i := name]> (c_new f)) (c_peers f))
  | MInsert i =>
      h ← handlers (c_server f) !! i;
      srv ← ok_server (server_step (Run i) (c_server f));
      name ← c_new f !! i;
      guard (at_insert (at_ h) = true ∧ answer_fits (c_server f) h);;
      Some (mkComposed srv (delete i (c_new f)) (c_peers f ++ [FWaiting name (Serving i)]))
  | MSent n t =>
      fn ← the_running n f;
      bs ← has_sent (fn_link fn t) f;
      Some (with_peer n (FRunning (mkFnode (fn_client fn) (<[t := Some (Arriving bs)]> (fn_link fn))))
              (c_server f) f)
  | MSentNew n =>
      '(name, l) ← the_waiting n f;
      bs ← has_sent (Some l) f;
      Some (with_peer n (FWaiting name (Arriving bs)) (c_server f) f)
  | MStart n ip port uninit =>
      match the_waiting n f with
      | Some (name, Arriving bs) =>
          let id := get_u32 (pr_assigned_id
            (default RespRegister_default (resp_reg (parse_response bs)))) in
          Some (with_peer n
            (FRunning (mkFnode (nd_client (node_start ip port uninit id name)) (λ _, None)))
            (c_server f) f)
      | _ => None
      end
  | MLocal n t inp =>
      fn ← the_running n f;
      guard (is_response inp = false);;
      '(_, c) ← client_step t inp (fn_client fn);
      Some (with_peer n (FRunning (mkFnode c (fn_link fn))) (c_server f) f)
  | MDeliver n t =>
      fn ← the_running n f;
      match fn_link fn t with
      | Some (Arriving bs) =>
          '(_, c) ← client_step t (Response (parse_response bs)) (fn_client fn);
          Some (with_peer n (FRunning (mkFnode c (<[t := None]> (fn_link fn)))) (c_server f) f)
      | _ => None
      end
  end.

Fixpoint composed_moves (ms : list move) (f : composed) : option composed :=
  match ms with
  | [] => Some f
  | m :: ms =>
      f' ← composed_move m f;
      guard (exclusive (c_server f'));;
      composed_moves ms f'
  end.

Lemma receives_Some i f srv :
  receives i f = Some srv → ∃ h h', handlers (c_server f) !! i = Some h ∧
    is_receiving (at_ h) = true ∧ server_step (Run i) (c_server f) = Ok srv ∧
    handlers srv !! i = Some h' ∧ is_receiving (at_ h') = false.
Proof.
  unfold receives. intros Hr. simplify_option_eq. eexists _, _. split_and!; try done.
  by apply ok_server_Some.
Qed.

Lemma has_sent_Some l f bs :
  has_sent l f = Some bs → ∃ i h, l = Some (Serving i) ∧ handlers (c_server f) !! i = Some h ∧
    at_ h = Returning true ∧ bs = sent (fd_ (my_socket h)) (kernel (c_server f)) ∧ bs ≠ [].
Proof.
  unfold has_sent. intros Hr. destruct l as [[i|]|]; try done.
  destruct (handlers (c_server f) !! i) as [h|] eqn:Hi; [|done]. cbn in Hr.
  destruct (at_ h) as [| | | | |[]|] eqn:Ha; try done. simplify_option_eq. by exists i, h.
Qed.

Lemma composed_move_step m f f' : composed_move m f = Some f' → composed_step f f'.
Proof.
  destruct m as [|i|i|i n t|i name|i|n t|n|n ip port uninit|n t inp|n t];
    cbn [composed_move]; intros Hm.
  - simplify_option_eq. by apply cs_accept, ok_server_Some.
  - simplify_option_eq. destruct_and!. by eapply cs_idle; [..|by apply ok_server_Some| |].
  - simplify_option_eq. destruct_and!. by eapply cs_run; [..|by apply ok_server_Some].
  - destruct (receives i f) as [srv|] eqn:Hr; [|done]. cbn in Hm.
    destruct (the_running n f) as [fn|] eqn:Hn; [|done]. cbn in Hm.
    destruct (threads (fn_client fn) t) as [| | | | | | |req k] eqn:Ep; try done.
    simplify_option_eq. destruct_and!. apply the_running_Some in Hn.
    apply receives_Some in Hr as (h & h' & ? & ? & ? & ? & ?). by eapply cs_receive.
  - destruct (receives i f) as [srv|] eqn:Hr; [|done]. cbn in Hm. simplify_option_eq. destruct_and!.
    apply receives_Some in Hr as (h & h' & ? & ? & ? & ? & ?). by eapply cs_receive_new.
  - simplify_option_eq. destruct_and!. by eapply cs_insert; [..|by apply ok_server_Some|].
  - destruct (the_running n f) as [fn|] eqn:Hn; [|done]. cbn in Hm.
    destruct (has_sent (fn_link fn t) f) as [bs|] eqn:Hb; [|done]. injection Hm as <-.
    apply the_running_Some in Hn. apply has_sent_Some in Hb as (i & h & ? & ? & ? & -> & ?).
    by eapply cs_sent.
  - destruct (the_waiting n f) as [[name l]|] eqn:Hn; [|done]. cbn in Hm.
    destruct (has_sent (Some l) f) as [bs|] eqn:Hb; [|done]. injection Hm as <-.
    apply the_waiting_Some in Hn. apply has_sent_Some in Hb as (i & h & [= ->] & ? & ? & -> & ?).
    by eapply cs_sent_new.
  - destruct (the_waiting n f) as [[name [i|bs]]|] eqn:Hn; try done. injection Hm as <-.
    apply the_waiting_Some in Hn. by apply cs_start.
  - destruct (the_running n f) as [fn|] eqn:Hn; [|done]. cbn in Hm. apply the_running_Some in Hn.
    destruct (client_step t inp (fn_client fn)) as [[es c]|] eqn:Hc; simplify_option_eq.
    eapply cs_local; [done| |done]. by intros p ->.
  - destruct (the_running n f) as [fn|] eqn:Hn; [|done]. cbn in Hm. apply the_running_Some in Hn.
    destruct (fn_link fn t) as [[i|bs]|] eqn:Hl; try done.
    destruct (client_step t _ _) as [[es c]|] eqn:Hc; [|done]. injection Hm as <-.
    by eapply cs_deliver.
Qed.

Lemma composed_moves_reachable ss k ms f f' :
  exclusively_reachable ss k f → composed_moves ms f = Some f' → exclusively_reachable ss k f'.
Proof.
  revert f. induction ms as [|m ms IH]; intros f Hf Hm; cbn in Hm; [by simplify_eq|].
  destruct (composed_move m f) as [f1|] eqn:E; [|done]. cbn in Hm. case_guard; [|done]. cbn in Hm.
  eapply IH, Hm. eapply rtc_r; [done|]. split; [by eapply composed_move_step|done].
Qed.

End composed.

Arguments composed : clear implicits.
