(* ===== verification/ComposedProofs.v ===== *)
(** The simulation: as long as a thread inside [registerUser] is alone with the database,
    the steps of the composed threads are steps of [System], in which a request takes
    effect at once. *)

From stdpp Require Import functions.
From S2P Require Import Prelude.
From S2P Require Import Common.
From S2P Require Import Database.
From S2P Require Import Packet.
From S2P Require Import Socket.
From S2P Require Import Network.
From S2P Require Import ServerApp.
From S2P Require Import ServerAppProofs.
From S2P Require Import Threads.
From S2P Require Import ThreadsProofs.
From S2P Require Import Console.
From S2P Require Import App.
From S2P Require Import ClientThreads.
From S2P Require Import ClientThreadsProofs.
From S2P Require Import ClientThreadsTheorems.
From S2P Require Import Loops.
From S2P Require Import System.
From S2P Require Import SystemProofs.
From S2P Require Import Composed.

(** The request of a handler that has not taken effect. *)
Definition pending (pc : handler_pc) : option Packet :=
  match pc with
  | Dispatching p | Registering p (RegStart _) => Some p
  | _ => None
  end.

Section handlers.
  Context {ord : UMapOrder Z UserMetadata} `{ProtobufLaws} {K : Type} `{ConnectionLaws K}.

Lemma server_step_run (srv srv' : server K) i h :
  handlers srv !! i = Some h → server_step (Run i) srv = Ok srv' →
  ∃ pc db k, thread_step (my_socket h) (at_ h) (the_db srv) (kernel srv) = Ok (pc, db, k) ∧
    srv' = after srv i h pc db k.
Proof.
  intros Hi Hs. cbn [server_step] in Hs. rewrite Hi in Hs.
  destruct (thread_step _ _ _ _) as [[[pc db] k]| | |]; cbn in Hs; try done.
  injection Hs as <-. by exists pc, db, k.
Qed.

Lemma send_response_plain resp :
  is_receiving (send_response resp) = false ∧ pending (send_response resp) = None.
Proof. unfold send_response. by destruct (serialize resp _ _). Qed.

(** A step of a handler that has received its request. *)
Lemma thread_step_pending s pc db (k : K) pc' db' k' :
  thread_step s pc db k = Ok (pc', db', k') → is_receiving pc = false →
  is_receiving pc' = false ∧
  match takes_effect pc with
  | None => pending pc' = pending pc
  | Some p => pending pc = Some p ∧ pending pc' = None
  end.
Proof.
  intros Hs Hr.
  destruct pc as [rx|p|p [name|name|id|id]|p resp [it|]|tx target curr|ok|]; cbn in Hs, Hr |- *; try done.
  - destruct (register_name p) as [name|]; [by simplify_eq|].
    destruct (lists_users p db); [by simplify_eq|].
    destruct (respond p _ db) as [[[n tx] db1]| | |]; cbn in Hs; by simplify_eq.
  - by simplify_eq.
  - by simplify_eq.
  - by simplify_eq.
  - injection Hs as <- <- <-. apply send_response_plain.
  - unfold list_user in Hs. destruct (it_neq it (db_end db)); cbn in Hs.
    + destruct (it_deref it) as [[id u]| | |]; cbn in Hs; by simplify_eq.
    + injection Hs as <- <- <-. apply send_response_plain.
  - by simplify_eq.
  - destruct (curr <? target)%Z; [|by simplify_eq].
    destruct (sendNb _ _ _ _) as [[n k1]| | |]; cbn in Hs; [|done..].
    destruct (n <? 0)%Z; by simplify_eq.
  - by simplify_eq.
  - by simplify_eq.
Qed.

(** A step of a handler in its receive loop. *)
Lemma thread_step_receiving s pc db (k : K) pc' db' k' :
  thread_step s pc db k = Ok (pc', db', k') → is_receiving pc = true →
  takes_effect pc = None ∧ pending pc = None ∧ db' = db ∧
  (is_receiving pc' = true ∧ pending pc' = None ∨
   is_receiving pc' = false ∧ ∃ p, pc' = Dispatching p).
Proof.
  intros Hs Hr. destruct pc as [rx| | | | | |]; try done. cbn in Hs.
  destruct (receiveNb _ _ _ _ _) as [[[n rx'] k1]| | |]; cbn in Hs; try done.
  destruct (n =? 0)%Z; [injection Hs as <- <- <-; split_and!; [done..|by left]|].
  destruct (ParseFromArray _) as [ok p]. injection Hs as <- <- <-. split_and!; [done..|right; eauto].
Qed.

(** Where the bytes of a handler's request come from. *)
Lemma pending_parsed db0 log (srv : server K) i h p :
  inv db0 log srv → handlers srv !! i = Some h → pending (at_ h) = Some p →
  (i ∉ log.*1) ∧ p = parsed (rcvd (fd_ (my_socket h)) (kernel srv)) ∧
  (at_insert (at_ h) = true → is_Some (register_name p)).
Proof.
  intros Hinv Hi Hp. pose proof (inv_handlers _ _ _ Hinv i h Hi) as Hh. unfold handler_ok, started in Hh.
  rewrite serve_seq_requests in Hh.
  destruct (at_ h) as [|q|q []| | | |]; cbn in Hp; try done; injection Hp as ->.
  - by destruct Hh as (? & _ & ?).
  - destruct Hh as (? & _ & ? & ?). by eauto.
Qed.

(** A handler that has sent everything has sent the answer of its request. *)
Lemma returned_sent db0 log (srv : server K) i h p bs :
  inv db0 log srv → handlers srv !! i = Some h → at_ h = Returning true →
  (i, p, bs) ∈ (serve_seq log db0).1 → sent (fd_ (my_socket h)) (kernel srv) = bs.
Proof.
  intros Hinv Hi Hr Hin. pose proof (inv_handlers _ _ _ Hinv i h Hi) as Hh.
  unfold handler_ok in Hh. rewrite Hr in Hh. destruct Hh as (reply & Ha & _ & ->); [|done].
  unfold answered in Ha. pose proof (inv_once _ _ _ Hinv) as Hnd.
  rewrite <- (serve_seq_requests log db0) in Hnd.
  apply list_elem_of_lookup in Ha as [j1 H1'], Hin as [j2 H2'].
  assert (j1 = j2) as ->.
  { eapply (NoDup_lookup _ j1 j2 i Hnd); rewrite !list_lookup_fmap; [by rewrite H1'|by rewrite H2']. }
  congruence.
Qed.

End handlers.

(** ** Packets that arrive whole *)

Section whole.
  Context `{ProtobufLaws}.

Lemma take_padded {A} (l : list A) x n :
  (length l ≤ n)%nat → take n (l ++ replicate n x) = l ++ replicate (n - length l) x.
Proof.
  intros Hl. rewrite take_app_ge by lia. f_equal. rewrite take_replicate. f_equal. lia.
Qed.

Lemma delivers_whole_length p :
  delivers_whole p → wf_packet p ∧ (length (wire p) ≤ 1000)%nat ∧ (ByteSizeLong p < 2 ^ 31)%Z.
Proof. intros [Hwf Hl]. rewrite ByteSizeLong_wire in *. split; [done|lia]. Qed.

Lemma parse_response_wire p : delivers_whole p → parse_response (wire p) = p.
Proof.
  intros (Hwf & Hl & Hb)%delivers_whole_length. unfold parse_response.
  rewrite take_padded by done. by apply ParseFromArray_padded.
Qed.

Lemma parsed_wire p : delivers_whole p → parsed (wire p) = p.
Proof.
  intros (Hwf & Hl & Hb)%delivers_whole_length. unfold parsed.
  rewrite drop_replicate, take_ge by (rewrite length_app, length_replicate; lia).
  by apply ParseFromArray_padded.
Qed.

Lemma wire_nonempty p : delivers_whole p → wire p ≠ [].
Proof. intros [_ Hl] E. rewrite ByteSizeLong_wire, E in Hl. cbn in Hl. lia. Qed.

End whole.

(** ** The relation *)

(** The answers of the sequential server, by the handler: its request and the bytes. *)
Abbreviation answers := (list (nat * Packet * bytes)).

Section relation.
  Context {ord : UMapOrder Z UserMetadata} {ord' : UMapOrder bytes Z} `{ProtobufLaws}
    {K : Type} `{ConnectionLaws K}.

(** The [i]-th handler holds the request [p], which has not taken effect. *)
Definition holds_request (hs : list handler) (i : nat) (p : Packet) : Prop :=
  ∃ h, hs !! i = Some h ∧ pending (at_ h) = Some p.

(** A thread of a client with the connection [l], and what the server has made of its
    request. *)
Definition thread_sim (rs : answers) (hs : list handler) (p : prog) (a : App)
    (l : option link) (r : option (option Packet)) : Prop :=
  match l with
  | None => r = None
  | Some l => ∃ req k, p = Exchange req k ∧
      match l with
      | Serving i =>
          r = None ∧ delivers_whole (req a) ∧ holds_request hs i (req a) ∨
          ∃ resp, r = Some resp ∧ from_option delivers_whole True resp ∧
            (i, req a, from_option wire [] resp) ∈ rs
      | Arriving bs => ∃ resp, r = Some (Some resp) ∧ delivers_whole resp ∧ bs = wire resp
      end
  end.

Definition peer_sim (rs : answers) (hs : list handler) (fp : fpeer) (p : peer) : Prop :=
  match fp, p with
  | FWaiting name l, Waiting name' id =>
      name = name' ∧ delivers_whole (register_answer id) ∧
      match l with
      | Serving i => (i, register_request name, wire (register_answer id)) ∈ rs
      | Arriving bs => bs = wire (register_answer id)
      end
  | FRunning fn, Running nd =>
      fn_client fn = nd_client nd ∧
      ∀ t, thread_sim rs hs (threads (nd_client nd) t) (c_app (nd_client nd)) (fn_link fn t)
             (nd_reply nd t)
  | _, _ => False
  end.

(** Whose request a handler serves: that of a client about to register, that of the
    [n]-th client for its registration, or that of one of its threads. *)
Inductive origin :=
| New
| Peer (n : nat) (t : option thread).

Definition peer_link (fp : fpeer) (t : option thread) : option link :=
  match fp, t with
  | FWaiting _ l, None => Some l
  | FRunning fn, Some t => fn_link fn t
  | _, _ => None
  end.

Lemma peer_link_cases fp l :
  (∃ t, peer_link fp t = Some l) ∨ ∀ t, peer_link fp t ≠ Some l.
Proof.
  destruct (decide (peer_link fp None = Some l)) as [|Hw]; [eauto|].
  destruct (decide (peer_link fp (Some t1) = Some l)) as [|Hm]; [eauto|].
  destruct (decide (peer_link fp (Some t2) = Some l)) as [|Hu]; [eauto|].
  destruct (decide (peer_link fp (Some main_thread) = Some l)) as [|Hc]; [eauto|].
  right. by intros [[]|].
Qed.

Definition linked (f : composed K) (i : nat) (o : origin) : Prop :=
  match o with
  | New => is_Some (c_new f !! i)
  | Peer n t => ∃ fp, c_peers f !! n = Some fp ∧ peer_link fp t = Some (Serving i)
  end.

Record sim (log : list (nat * Packet)) (f : composed K) (a : system) : Prop := {
  sm_srv : inv Database_init log (c_server f);
  sm_db : sys_db a = (serve_seq log Database_init).2;
  sm_peers : Forall2 (peer_sim (serve_seq log Database_init).1 (handlers (c_server f)))
    (c_peers f) (nodes a);
  sm_new i name : c_new f !! i = Some name →
    delivers_whole (register_request name) ∧
    holds_request (handlers (c_server f)) i (register_request name);
  sm_origin i p : holds_request (handlers (c_server f)) i p → ∃ o, linked f i o;
  sm_unique i o o' : linked f i o → linked f i o' → o = o';
  sm_linked i o : linked f i o →
    ∃ h, handlers (c_server f) !! i = Some h ∧ is_receiving (at_ h) = false;
}.

(** What the handlers that serve others go on to hold. *)
Lemma thread_sim_frame rs rs' hs hs' p a l r :
  (∀ e, e ∈ rs → e ∈ rs') →
  (∀ i q, l = Some (Serving i) → holds_request hs i q → holds_request hs' i q) →
  thread_sim rs hs p a l r → thread_sim rs' hs' p a l r.
Proof.
  intros Hrs Hhs. destruct l as [l|]; [|done]. cbn. intros (req & k & -> & Hl).
  exists req, k. split; [done|]. destruct l as [i|bs]; [|done].
  destruct Hl as [(-> & Hd & Hh)|(resp & -> & Hd & Hin)]; [left|right]; eauto 6.
Qed.

Lemma peer_sim_frame rs rs' hs hs' fp p :
  (∀ e, e ∈ rs → e ∈ rs') →
  (∀ i t q, peer_link fp t = Some (Serving i) → holds_request hs i q → holds_request hs' i q) →
  peer_sim rs hs fp p → peer_sim rs' hs' fp p.
Proof.
  intros Hrs Hhs. destruct fp as [name l|fn], p as [name' id|nd]; cbn; try done.
  - intros (-> & Hd & Hl). split; [done|]. split; [done|]. destruct l; auto.
  - intros [-> Ht]. split; [done|]. intros t.
    eapply thread_sim_frame; [done| |apply Ht]. intros i q. apply (Hhs i (Some t)).
Qed.

Lemma linked_server (f : composed K) srv i o : linked (with_server srv f) i o ↔ linked f i o.
Proof. by destruct o. Qed.

(** A step of the server in which no request takes effect and none is received. *)
Lemma sim_quiet log f a srv :
  sim log f a → inv Database_init log srv →
  (∀ i q, holds_request (handlers (c_server f)) i q ↔ holds_request (handlers srv) i q) →
  (∀ i h, handlers (c_server f) !! i = Some h → is_receiving (at_ h) = false →
     ∃ h', handlers srv !! i = Some h' ∧ is_receiving (at_ h') = false) →
  sim log (with_server srv f) a.
Proof.
  intros Hs Hinv Hh Hr. split; cbn [c_server with_server c_new c_peers].
  - done.
  - apply (sm_db _ _ _ Hs).
  - eapply Forall2_impl; [apply (sm_peers _ _ _ Hs)|]. intros fp p.
    apply peer_sim_frame; [done|]. intros i t q _. apply Hh.
  - intros i name [Hd Hn]%(sm_new _ _ _ Hs). split; [done|by apply Hh].
  - intros i p Hp. setoid_rewrite linked_server. eapply (sm_origin _ _ _ Hs). by apply Hh.
  - intros i o o'. rewrite !linked_server. apply (sm_unique _ _ _ Hs).
  - intros i o. rewrite linked_server. intros (h & Hi & Hrc)%(sm_linked _ _ _ Hs). by eapply Hr.
Qed.

(** ** The requests of the clients *)

(** A request depends on the ID of the client alone, and registers nobody. *)
Lemma node_request db me nd t req k :
  node_ok db me nd → threads (nd_client nd) t = Exchange req k →
  (∀ a, id_ a = me → req a = req (c_app (nd_client nd))) ∧
  register_name (req (c_app (nd_client nd))) = None.
Proof.
  intros Hnd Ep. pose proof (nk_threads _ _ _ Hnd t) as Ht. pose proof (nk_id _ _ _ Hnd) as Hid.
  rewrite Ep in Ht. destruct t; cbn in Ht.
  - destruct Ht as [|[= -> _]]; [done|]. split; [|done]. intros a Ha. by rewrite Hid, Ha.
  - injection Ht as -> _. split; [|done]. intros a Ha. by rewrite Hid, Ha.
  - destruct Ht as (tgt & n & m & Hreq & _). rewrite Hreq. split; [|done].
    intros a Ha. by rewrite Hreq, Hid, Ha.
Qed.

Lemma peer_lookup log f a n fn :
  sim log f a → c_peers f !! n = Some (FRunning fn) →
  ∃ nd, nodes a !! n = Some (Running nd) ∧ fn_client fn = nd_client nd ∧
    ∀ t, thread_sim (serve_seq log Database_init).1 (handlers (c_server f))
      (threads (nd_client nd) t) (c_app (nd_client nd)) (fn_link fn t) (nd_reply nd t).
Proof.
  intros Hs Hn. destruct (Forall2_lookup_l _ _ _ _ _ (sm_peers _ _ _ Hs) Hn) as ([name id|nd] & Ha & Hp).
  - done.
  - destruct Hp as [Hc Ht]. by exists nd.
Qed.

Lemma waiting_lookup log f a n name l :
  sim log f a → c_peers f !! n = Some (FWaiting name l) →
  ∃ id, nodes a !! n = Some (Waiting name id) ∧ delivers_whole (register_answer id) ∧
    match l with
    | Serving i => (i, register_request name, wire (register_answer id)) ∈ (serve_seq log Database_init).1
    | Arriving bs => bs = wire (register_answer id)
    end.
Proof.
  intros Hs Hn. destruct (Forall2_lookup_l _ _ _ _ _ (sm_peers _ _ _ Hs) Hn) as ([name' id|nd] & Ha & Hp);
    [|done].
  destruct Hp as (<- & Hd & Hl). by exists id.
Qed.

(** Who has a request that has not taken effect. *)
Lemma pending_origin log f a i h p :
  sim log f a → sys_inv a → handlers (c_server f) !! i = Some h → pending (at_ h) = Some p →
  (∃ name, c_new f !! i = Some name ∧ p = register_request name) ∨
  ∃ n t fn nd req k, linked f i (Peer n (Some t)) ∧ c_peers f !! n = Some (FRunning fn) ∧
    nodes a !! n = Some (Running nd) ∧ threads (nd_client nd) t = Exchange req k ∧
    nd_reply nd t = None ∧ p = req (c_app (nd_client nd)) ∧ delivers_whole p ∧
    register_name p = None.
Proof.
  intros Hs Ha Hi Hp. destruct (pending_parsed _ _ _ _ _ _ (sm_srv _ _ _ Hs) Hi Hp) as (Hni & _ & _).
  assert (∀ q bs, (i, q, bs) ∉ (serve_seq log Database_init).1) as Hno.
  { intros q bs Hin. apply Hni. rewrite <- (serve_seq_requests log Database_init).
    apply (list_elem_of_fmap_2 fst _ (i, q)). by apply (list_elem_of_fmap_2 fst _ (i, q, bs)). }
  destruct (sm_origin _ _ _ Hs i p) as [[|n t] Ho]; [by exists h|..].
  - left. destruct Ho as [name Hn]. exists name. split; [done|].
    destruct (sm_new _ _ _ Hs _ _ Hn) as (_ & h' & Hi' & Hp'). congruence.
  - destruct Ho as (fp & Hn & Hl). destruct fp as [name l|fn], t as [t|]; cbn in Hl; try done.
    { apply (waiting_lookup log f a) in Hn as (id & _ & _ & Hin); [|done]. injection Hl as ->.
      by apply Hno in Hin. }
    right. destruct (peer_lookup log f a n fn) as (nd & Hnd & Hc & Ht); [done..|].
    specialize (Ht t). rewrite Hl in Ht. destruct Ht as (req & k & Ep & Hst).
    destruct Hst as [(Hr & Hd & (h' & Hi' & Hp'))|(resp & _ & _ & Hin)]; [|by apply Hno in Hin].
    simplify_eq.
    exists n, t, fn, nd, req, k. split_and!; try done; [by exists (FRunning fn)|].
    eapply node_request; [by eapply si_nodes|done].
Qed.

(** ** The steps of one client *)

Lemma linked_with_peer (f : composed K) n fp fp' srv j o :
  c_peers f !! n = Some fp →
  linked (with_peer n fp' srv f) j o ↔
  (∃ t, o = Peer n t ∧ peer_link fp' t = Some (Serving j)) ∨
  (∀ t, o ≠ Peer n t) ∧ linked f j o.
Proof.
  intros Hn. destruct o as [|m t]; cbn.
  { split; [intros ?; right; by split|]. by intros [(t & ? & _)|[_ ?]]. }
  destruct (decide (m = n)) as [->|Hne].
  - rewrite list_lookup_insert_eq by (by eapply lookup_lt_Some). split.
    + intros (fp1 & [= <-] & Ht). left. eauto.
    + intros [(t' & [= <-] & Ht)|[Ho _]]; [eauto|by destruct (Ho t)].
  - rewrite list_lookup_insert_ne by done. split.
    + intros Hl. right. split; [congruence|done].
    + intros [(t' & ? & _)|[_ Hl]]; [congruence|done].
Qed.

(** The [n]-th client and the server go on; the handlers that serve other clients hold
    what they held. *)
Lemma sim_update log log' f a n fp fp' p p' srv db :
  sim log f a → c_peers f !! n = Some fp → nodes a !! n = Some p →
  inv Database_init log' srv → db = (serve_seq log' Database_init).2 →
  (∀ e, e ∈ (serve_seq log Database_init).1 → e ∈ (serve_seq log' Database_init).1) →
  (∀ j q, (∀ t, peer_link fp' t ≠ Some (Serving j)) →
     holds_request (handlers (c_server f)) j q ↔ holds_request (handlers srv) j q) →
  (∀ j h, handlers (c_server f) !! j = Some h → is_receiving (at_ h) = false →
     ∃ h', handlers srv !! j = Some h' ∧ is_receiving (at_ h') = false) →
  peer_sim (serve_seq log' Database_init).1 (handlers srv) fp' p' →
  (∀ t j, peer_link fp' t = Some (Serving j) →
     peer_link fp t = Some (Serving j) ∨
     (∀ o, ¬ linked f j o) ∧ (∀ t', peer_link fp' t' = Some (Serving j) → t' = t) ∧
     ∃ h, handlers srv !! j = Some h ∧ is_receiving (at_ h) = false) →
  (∀ t j, peer_link fp t = Some (Serving j) →
     peer_link fp' t = Some (Serving j) ∨ ∀ q, ¬ holds_request (handlers srv) j q) →
  sim log' (with_peer n fp' srv f) (mkSystem db (<[n := p']> (nodes a))).
Proof.
  intros Hs Hn Ha Hinv Hdb Hrs Hhold Hrecv Hp Hnew Hold.
  (* what the clients other than the [n]-th are served by *)
  assert (∀ j o, (∀ t, o ≠ Peer n t) → linked f j o → ∀ t, peer_link fp' t ≠ Some (Serving j))
    as Hother.
  { intros j o Ho Hl t Ht. destruct (Hnew t j Ht) as [Hl'|(Hno & _)]; [|by eapply Hno].
    apply (Ho t). apply (sm_unique _ _ _ Hs j); [done|]. by exists fp. }
  split; cbn [with_peer c_server c_new c_peers sys_db nodes].
  - done.
  - done.
  - pose proof (sm_peers _ _ _ Hs) as Hpeers. pose proof (Forall2_length _ _ _ Hpeers) as Hlen.
    apply Forall2_same_length_lookup_2; [by rewrite !length_insert|]. intros m fp1 p1 Hm1 Hm2.
    apply list_lookup_insert_Some in Hm1 as [(<- & <- & _)|[Hne Hm1]].
    { rewrite list_lookup_insert_eq in Hm2 by (by eapply lookup_lt_Some). by injection Hm2 as <-. }
    rewrite list_lookup_insert_ne in Hm2 by done.
    eapply peer_sim_frame; [done| |by eapply (Forall2_lookup_lr _ _ _ _ _ _ Hpeers)].
    intros j t q Ht. apply Hhold. eapply (Hother j (Peer m t)); [congruence|by exists fp1].
  - intros j name Hj. destruct (sm_new _ _ _ Hs _ _ Hj) as [Hd Hq]. split; [done|].
    apply Hhold; [|done]. eapply (Hother j New); [done|]. by eexists.
  - intros j q Hq.
    destruct (peer_link_cases fp' (Serving j)) as [[t Ht]|Hno].
    + exists (Peer n t). apply (linked_with_peer f n fp); [done|]. eauto.
    + destruct (sm_origin _ _ _ Hs j q) as [o Ho]; [by apply Hhold|]. exists o.
      apply (linked_with_peer f n fp); [done|]. right. split; [|done]. intros t ->.
      destruct Ho as (fp1 & Hfp & Ht). simplify_eq. destruct (Hold t j Ht) as [Ht'|Hn']; [by eapply Hno|by eapply Hn'].
  - intros j o o'. rewrite !(linked_with_peer f n fp) by done.
    intros [(t & -> & Ht)|[Ho Hl]] [(t' & -> & Ht')|[Ho' Hl']].
    + destruct (Hnew t j Ht) as [Hl|(_ & Ht1 & _)]; [|by rewrite (Ht1 t')].
      destruct (Hnew t' j Ht') as [Hl'|(Hno & _)]; [|by destruct (Hno (Peer n t)); exists fp].
      apply (sm_unique _ _ _ Hs j); by exists fp.
    + by destruct (Hother j o' Ho' Hl' t).
    + by destruct (Hother j o Ho Hl t').
    + by apply (sm_unique _ _ _ Hs j).
  - intros j o. rewrite (linked_with_peer f n fp) by done. intros [(t & -> & Ht)|[_ Hl]].
    + destruct (Hnew t j Ht) as [Hl|(_ & _ & ?)]; [|done].
      destruct (sm_linked _ _ _ Hs j (Peer n t)) as (h & ? & ?); [by exists fp|]. by eapply Hrecv.
    + destruct (sm_linked _ _ _ Hs j o Hl) as (h & ? & ?). by eapply Hrecv.
Qed.

(** ** The steps of the server *)

Lemma holds_after (srv : server K) i h pc db k j q :
  handlers srv !! i = Some h →
  holds_request (handlers (after srv i h pc db k)) j q ↔
  if decide (j = i) then pending pc = Some q else holds_request (handlers srv) j q.
Proof.
  intros Hi. unfold holds_request. cbn. case_decide as Hj.
  - subst j. rewrite list_lookup_insert_eq by (by eapply lookup_lt_Some). split.
    + by intros (h' & [= <-] & ?).
    + intros Hp. by eexists.
  - by rewrite list_lookup_insert_ne.
Qed.

Lemma receiving_after (srv : server K) i h pc db k j h' :
  handlers srv !! i = Some h → (is_receiving (at_ h) = false → is_receiving pc = false) →
  handlers srv !! j = Some h' → is_receiving (at_ h') = false →
  ∃ h1, handlers (after srv i h pc db k) !! j = Some h1 ∧ is_receiving (at_ h1) = false.
Proof.
  intros Hi Hpc Hj Hr. cbn. destruct (decide (j = i)) as [->|].
  - rewrite list_lookup_insert_eq by (by eapply lookup_lt_Some). simplify_eq. eexists. split; [done|].
    by apply Hpc.
  - rewrite list_lookup_insert_ne by done. eauto.
Qed.

Lemma sim_accept log f a srv :
  sim log f a → server_step Accept (c_server f) = Ok srv → exclusive srv →
  sim log (with_server srv f) a.
Proof.
  intros Hs Hstep Hex. pose proof (inv_step _ _ _ _ _ (sm_srv _ _ _ Hs) Hstep Hex) as Hinv.
  cbn [effects] in Hinv. rewrite app_nil_r in Hinv.
  assert (∃ l, handlers srv = handlers (c_server f) ++ l ∧ ∀ h, h ∈ l → pending (at_ h) = None)
    as (l & El & Hl).
  { cbn in Hstep. destruct (getConnection _ _) as [[[] fd] k].
    - cbn in Hstep. injection Hstep as <-. eexists. split; [reflexivity|].
      by intros h ->%list_elem_of_singleton.
    - injection Hstep as <-. exists []. split; [by rewrite app_nil_r|]. by intros h ?%not_elem_of_nil. }
  apply (sim_quiet log f a srv Hs Hinv); rewrite El.
  - intros i q. split; intros (h & Hi & Hp); exists h; (split; [|done]).
    + by apply lookup_app_l_Some.
    + apply lookup_app_Some in Hi as [?|[_ Hi%list_elem_of_lookup_2]]; [done|].
      rewrite Hl in Hp; done.
  - intros i h Hi Hr. exists h. split; [by apply lookup_app_l_Some|done].
Qed.

Lemma sim_idle log f a i h srv h' :
  sim log f a → handlers (c_server f) !! i = Some h → is_receiving (at_ h) = true →
  server_step (Run i) (c_server f) = Ok srv → handlers srv !! i = Some h' →
  is_receiving (at_ h') = true → exclusive srv → sim log (with_server srv f) a.
Proof.
  intros Hs Hi Hr Hstep Hi' Hr' Hex.
  pose proof (inv_step _ _ _ _ _ (sm_srv _ _ _ Hs) Hstep Hex) as Hinv.
  destruct (server_step_run _ _ _ _ Hi Hstep) as (pc & db & k & Ht & ->).
  apply thread_step_receiving in Ht as (He & Hp & -> & Ht); [|done].
  cbn [effects] in Hinv. rewrite Hi in Hinv. cbn in Hinv. rewrite He, app_nil_r in Hinv.
  rewrite (handlers_after_eq _ _ _ h) in Hi' by done. injection Hi' as <-. cbn in Hr'.
  destruct Ht as [[_ Hpc]|[Hpc _]]; [|congruence].
  apply (sim_quiet log f a _ Hs Hinv).
  - intros j q. rewrite (holds_after _ i h) by done. case_decide as Hj; [|done]. subst j. rewrite Hpc.
    split; [|done]. intros (h1 & Hi1 & Hp1). congruence.
  - intros j h1. apply receiving_after; [done|]. congruence.
Qed.

(** A step after the request has been received and without an effect on the database. *)
Lemma sim_run log f a i h srv :
  sim log f a → handlers (c_server f) !! i = Some h → is_receiving (at_ h) = false →
  takes_effect (at_ h) = None →
  server_step (Run i) (c_server f) = Ok srv → exclusive srv → sim log (with_server srv f) a.
Proof.
  intros Hs Hi Hr He Hstep Hex.
  pose proof (inv_step _ _ _ _ _ (sm_srv _ _ _ Hs) Hstep Hex) as Hinv.
  destruct (server_step_run _ _ _ _ Hi Hstep) as (pc & db & k & Ht & ->).
  apply thread_step_pending in Ht as [Hr' Hp]; [|done]. rewrite He in Hp.
  cbn [effects] in Hinv. rewrite Hi in Hinv. cbn in Hinv. rewrite He, app_nil_r in Hinv.
  apply (sim_quiet log f a _ Hs Hinv).
  - intros j q. rewrite (holds_after _ i h) by done. case_decide as Hj; [|done]. subst j. rewrite Hp.
    split; [intros (h1 & Hi1 & Hp1); congruence|intros Hq; by exists h].
  - intros j h1. apply receiving_after; [done|]. congruence.
Qed.

Lemma system_same a n p : nodes a !! n = Some p → mkSystem (sys_db a) (<[n := p]> (nodes a)) = a.
Proof. intros Hn. destruct a. cbn in *. by rewrite list_insert_id. Qed.

(** A handler that has just received the bytes of a packet. *)
Lemma received log (srv srv' : server K) i h h' q :
  inv Database_init log srv → handlers srv !! i = Some h → is_receiving (at_ h) = true →
  server_step (Run i) srv = Ok srv' → handlers srv' !! i = Some h' → is_receiving (at_ h') = false →
  delivers_whole q → delivered srv' i (wire q) → exclusive srv' →
  inv Database_init log srv' ∧ pending (at_ h') = Some q ∧
  ∃ db k, srv' = after srv i h (at_ h') db k.
Proof.
  intros Hinv Hi Hr Hstep Hi' Hr' Hq (h2 & Hi2 & Hbs) Hex.
  pose proof (inv_step _ _ _ _ _ Hinv Hstep Hex) as Hinv'.
  destruct (server_step_run _ _ _ _ Hi Hstep) as (pc & db & k & Ht & ->).
  apply thread_step_receiving in Ht as (He & _ & -> & Ht); [|done].
  cbn [effects] in Hinv'. rewrite Hi in Hinv'. cbn in Hinv'. rewrite He, app_nil_r in Hinv'.
  split; [done|].
  rewrite (handlers_after_eq _ _ _ h) in Hi' by done. injection Hi' as <-. cbn in Hr' |- *.
  destruct Ht as [[Hpc _]|[_ [p ->]]]; [congruence|]. split; [|by eexists _, _].
  rewrite (handlers_after_eq _ _ _ h) in Hi2 by done. injection Hi2 as <-. cbn in *.
  destruct (pending_parsed _ _ _ i (mkHandler (my_socket h) (Dispatching p)) p Hinv')
    as (_ & -> & _); [by apply (handlers_after_eq _ _ _ h)|done|].
  cbn. f_equal. rewrite Hbs. by apply parsed_wire.
Qed.

Lemma sim_receive log f a i h srv h' n fn t req k :
  sim log f a →
  handlers (c_server f) !! i = Some h → is_receiving (at_ h) = true →
  server_step (Run i) (c_server f) = Ok srv → handlers srv !! i = Some h' →
  is_receiving (at_ h') = false →
  c_peers f !! n = Some (FRunning fn) → threads (fn_client fn) t = Exchange req k →
  fn_link fn t = None → delivers_whole (req (c_app (fn_client fn))) →
  delivered srv i (wire (req (c_app (fn_client fn)))) → exclusive srv →
  sim log (with_peer n
    (FRunning (mkFnode (fn_client fn) (<[t := Some (Serving i)]> (fn_link fn)))) srv f) a.
Proof.
  intros Hs Hi Hr Hstep Hi' Hr' Hn Ep Hl Hq Hbs Hex.
  destruct (received log _ _ _ _ _ _ (sm_srv _ _ _ Hs) Hi Hr Hstep Hi' Hr' Hq Hbs Hex)
    as (Hinv & Hp & db & ks & ->).
  destruct (peer_lookup log f a n fn) as (nd & Hnd & Hc & Ht); [done..|].
  assert (∀ o, ¬ linked f i o) as Hno.
  { intros o (h1 & Hi1 & Hr1)%(sm_linked _ _ _ Hs). congruence. }
  rewrite <- (system_same a n (Running nd)) by done.
  eapply (sim_update log log f a n (FRunning fn) _ (Running nd)); try done.
  - apply (sm_db _ _ _ Hs).
  - intros j q Hj. rewrite (holds_after _ i h) by done. case_decide as Hji; [|done].
    specialize (Hj (Some t)). cbn in Hj. rewrite fn_lookup_insert in Hj. congruence.
  - intros j h1. apply receiving_after; [done|]. congruence.
  - split; [done|]. intros t'. cbn [fn_link]. specialize (Ht t'). rewrite <- Hc in *.
    destruct (decide (t' = t)) as [->|Hne].
    + rewrite fn_lookup_insert. exists req, k. split; [done|]. left. rewrite Hl in Ht.
      split; [exact Ht|]. split; [done|]. by exists h'.
    + rewrite fn_lookup_insert_ne by done. eapply thread_sim_frame; [done| |exact Ht].
      intros j q Hlj. rewrite (holds_after _ i h) by done. case_decide as Hji; [|done]. subst j.
      destruct (Hno (Peer n (Some t'))). by exists (FRunning fn).
  - intros [t'|] j; [|done]. cbn. destruct (decide (t' = t)) as [->|Hne]; [|by rewrite fn_lookup_insert_ne; auto].
    rewrite fn_lookup_insert. intros [= <-]. right. split; [done|]. split; [|by exists h'].
    intros [t''|]; [|done]. destruct (decide (t'' = t)) as [->|]; [done|].
    rewrite fn_lookup_insert_ne by done. intros Hlj. destruct (Hno (Peer n (Some t''))).
    by exists (FRunning fn).
  - intros [t'|] j; [|done]. cbn. intros Hlj. left. rewrite fn_lookup_insert_ne; congruence.
Qed.

Lemma sim_receive_new log f a i h srv h' name :
  sim log f a →
  handlers (c_server f) !! i = Some h → is_receiving (at_ h) = true →
  server_step (Run i) (c_server f) = Ok srv → handlers srv !! i = Some h' →
  is_receiving (at_ h') = false →
  delivers_whole (register_request name) → delivered srv i (wire (register_request name)) →
  exclusive srv → sim log (mkComposed srv (<[i := name]> (c_new f)) (c_peers f)) a.
Proof.
  intros Hs Hi Hr Hstep Hi' Hr' Hq Hbs Hex.
  destruct (received log _ _ _ _ _ _ (sm_srv _ _ _ Hs) Hi Hr Hstep Hi' Hr' Hq Hbs Hex)
    as (Hinv & Hp & db & ks & ->).
  assert (∀ o, ¬ linked f i o) as Hno.
  { intros o (h1 & Hi1 & Hr1)%(sm_linked _ _ _ Hs). congruence. }
  set (f' := mkComposed (after (c_server f) i h (at_ h') db ks) (<[i := name]> (c_new f)) (c_peers f)).
  assert (∀ j o, linked f' j o ↔ j = i ∧ o = New ∨ j ≠ i ∧ linked f j o) as Hlinked.
  { intros j [|m t]; cbn.
    - rewrite lookup_insert_is_Some. destruct (decide (i = j)); intuition congruence.
    - split; [|by intros [[_ ?]|[_ ?]]]. intros Hl. right. split; [|done]. intros ->. by eapply (Hno (Peer m t)). }
  assert (∀ j q, holds_request (handlers (after (c_server f) i h (at_ h') db ks)) j q ↔
    j = i ∧ q = register_request name ∨ j ≠ i ∧ holds_request (handlers (c_server f)) j q) as Hhold.
  { intros j q. rewrite (holds_after _ i h) by done. rewrite Hp. case_decide; intuition congruence. }
  split; cbn [c_server c_new c_peers f'].
  - done.
  - apply (sm_db _ _ _ Hs).
  - apply Forall2_same_length_lookup_2; [by eapply Forall2_length, (sm_peers _ _ _ Hs)|].
    intros m fp p Hm1 Hm2. eapply peer_sim_frame;
      [done| |by eapply (Forall2_lookup_lr _ _ _ _ _ _ (sm_peers _ _ _ Hs))].
    intros j t q Ht Hq'. apply Hhold. right. split; [|done]. intros ->. apply (Hno (Peer m t)).
    by exists fp.
  - intros j name' [[<- <-]|[Hne Hj]]%lookup_insert_Some; [split; [done|]; apply Hhold; by left|].
    destruct (sm_new _ _ _ Hs _ _ Hj) as [Hd' Hq']. split; [done|]. apply Hhold. by right.
  - intros j q [[-> ->]|[Hne Hq']]%Hhold.
    + exists New. apply Hlinked. by left.
    + destruct (sm_origin _ _ _ Hs _ _ Hq') as [o Ho]. exists o. apply Hlinked. by right.
  - intros j o o' [[-> ->]|[Hj Ho]]%Hlinked [[? ->]|[Hj' Ho']]%Hlinked; try done.
    by apply (sm_unique _ _ _ Hs j).
  - intros j o [[-> ->]|[Hj Ho]]%Hlinked; [by exists h'|].
    destruct (sm_linked _ _ _ Hs j o Ho) as (h1 & Hj1 & Hr1).
    eapply receiving_after; [done| |done..]. congruence.
Qed.

(** ** The steps in which a request takes effect *)

Lemma peer_same (f : composed K) n fp srv :
  c_peers f !! n = Some fp → with_peer n fp srv f = with_server srv f.
Proof. intros Hn. unfold with_peer, with_server. by rewrite list_insert_id. Qed.

Lemma takes_effect_insert pc p :
  takes_effect pc = Some p → at_insert pc = false → register_name p = None.
Proof.
  destruct pc as [|q|q []| | | |]; cbn; try done.
  destruct (register_name q) eqn:E; [done|]. by intros [= ->].
Qed.

(** The answers after one more request. *)
Lemma answers_snoc log i p :
  let db := (serve_seq log Database_init).2 in
  serve_seq (log ++ [(i, p)]) Database_init =
    ((serve_seq log Database_init).1 ++ [(i, p, from_option wire [] (answer_packet p db).1)],
     (answer_packet p db).2).
Proof.
  cbn zeta. rewrite serve_seq_snoc. destruct (serve_seq log Database_init) as [rs db]. cbn.
  by destruct (answer_packet p db).
Qed.

(** A request that registers nobody is answered as by [System], which it does not change. *)
Lemma effect_answer log f a h p :
  sim log f a → takes_effect (at_ h) = Some p → register_name p = None →
  answer_fits (c_server f) h →
  ∃ r, answer_packet p (sys_db a) = (r, sys_db a) ∧ from_option delivers_whole True r.
Proof.
  intros Hs He Hreg Hfit. destruct (inv_db _ _ _ (sm_srv _ _ _ Hs)) as [Hmap _].
  rewrite <- (sm_db _ _ _ Hs) in Hmap. eexists. split; [by apply answer_packet_reader|by apply Hfit].
Qed.

(** The thread whose request takes effect has its answer; the others of its client wait as
    before. *)
Lemma thread_answered log f a i h pc db k n t fn nd req next r :
  sim log f a → handlers (c_server f) !! i = Some h →
  linked f i (Peer n (Some t)) → c_peers f !! n = Some (FRunning fn) →
  fn_client fn = nd_client nd →
  (∀ t, thread_sim (serve_seq log Database_init).1 (handlers (c_server f))
     (threads (nd_client nd) t) (c_app (nd_client nd)) (fn_link fn t) (nd_reply nd t)) →
  threads (nd_client nd) t = Exchange req next → from_option delivers_whole True r →
  peer_sim ((serve_seq log Database_init).1 ++
      [(i, req (c_app (nd_client nd)), from_option wire [] r)])
    (handlers (after (c_server f) i h pc db k)) (FRunning fn)
    (Running (mkNode (nd_client nd) (<[t := Some r]> (nd_reply nd)))).
Proof.
  intros Hs Hi Hl Hn Hc Hts Ep Hr. split; [done|]. intros t'. cbn [nd_client nd_reply].
  destruct (decide (t' = t)) as [->|Hne].
  - destruct Hl as (fp & Hn' & Hl). simplify_eq. cbn in Hl. rewrite fn_lookup_insert, Hl.
    exists req, next. split; [done|]. right. exists r. split_and!; [done..|].
    apply elem_of_app. right. by apply list_elem_of_singleton.
  - rewrite fn_lookup_insert_ne by done.
    eapply thread_sim_frame; [| |exact (Hts t')]; [intros e Hin; apply elem_of_app; by left|].
    intros j q Hlj. rewrite (holds_after _ i h) by done. case_decide as Hji; [|done]. subst j.
    assert (Peer n (Some t') = Peer n (Some t)) as [= ->]; [|done].
    apply (sm_unique _ _ _ Hs i); [by exists (FRunning fn)|done].
Qed.

Lemma sim_effect log f a i h p srv :
  sim log f a → sys_inv a → handlers (c_server f) !! i = Some h →
  takes_effect (at_ h) = Some p → at_insert (at_ h) = false → is_receiving (at_ h) = false →
  answer_fits (c_server f) h → server_step (Run i) (c_server f) = Ok srv → exclusive srv →
  ∃ log' a', sys_step a a' ∧ sim log' (with_server srv f) a'.
Proof.
  intros Hs Ha Hi He Hins Hr Hfit Hstep Hex.
  pose proof (takes_effect_insert _ _ He Hins) as Hreg.
  destruct (effect_answer log f a h p) as (r & Hans & Hr1); [done..|].
  pose proof (inv_step _ _ _ _ _ (sm_srv _ _ _ Hs) Hstep Hex) as Hinv.
  cbn [effects] in Hinv. rewrite Hi in Hinv. cbn in Hinv. rewrite He in Hinv. cbn in Hinv.
  destruct (server_step_run _ _ _ _ Hi Hstep) as (pc & db & ks & Ht & ->).
  apply thread_step_pending in Ht as [Hr' Hp]; [|done]. rewrite He in Hp. destruct Hp as [Hp Hpc].
  destruct (pending_origin log f a i h p)
    as [(name & _ & ->)|(n & t & fn & nd & req & k & Hl & Hn & Hnd & Ep & Hrep & -> & Hd & _)];
    [done..|done|].
  destruct (peer_lookup log f a n fn) as (nd' & Hnd' & Hc & Hts); [done..|]. simplify_eq.
  pose proof (answers_snoc log i (req (c_app (nd_client nd)))) as Hsnoc. cbn zeta in Hsnoc.
  rewrite <- (sm_db _ _ _ Hs), Hans in Hsnoc. cbn [fst snd] in Hsnoc.
  exists (log ++ [(i, req (c_app (nd_client nd)))]),
    (with_node n (mkNode (nd_client nd) (<[t := Some r]> (nd_reply nd))) (sys_db a) a).
  split; [by eapply sys_serve|]. rewrite <- (peer_same f n (FRunning fn)) by done.
  eapply (sim_update log _ f a n (FRunning fn) _ (Running nd)); try done.
  - by rewrite Hsnoc.
  - rewrite Hsnoc. intros e Hin. apply elem_of_app. by left.
  - intros j q Hj. rewrite (holds_after _ i h) by done. case_decide as Hji; [|done]. subst j.
    destruct Hl as (fp & Hn' & Hl). simplify_eq. by destruct (Hj (Some t)).
  - intros j h1. apply receiving_after; [done|]. congruence.
  - rewrite Hsnoc. by eapply thread_answered.
  - by left.
  - by left.
Qed.

(** *** Insertions *)

(** The handlers' clients after one of them has become the last of those in the database. *)
Lemma linked_insert log f a i name srv j o :
  sim log f a → is_Some (c_new f !! i) →
  linked (mkComposed srv (delete i (c_new f)) (c_peers f ++ [FWaiting name (Serving i)])) j o ↔
  j = i ∧ o = Peer (length (c_peers f)) None ∨ j ≠ i ∧ linked f j o.
Proof.
  intros Hs Hi. split.
  - destruct o as [|m t]; cbn.
    + intros Hj. destruct (decide (j = i)) as [->|]; [rewrite lookup_delete_eq in Hj; by destruct Hj|].
      rewrite lookup_delete_ne in Hj by done. by right.
    + intros (fp & [Hm|[Hm Hfp]]%lookup_app_Some & Ht).
      * right. split; [|by exists fp]. intros ->.
        assert (Peer m t = New); [|done]. apply (sm_unique _ _ _ Hs i); [by exists fp|done].
      * left. apply list_lookup_singleton_Some in Hfp as [Hm0 <-]. destruct t as [t|]; [done|].
        injection Ht as ->. split; [done|]. f_equal. lia.
  - intros [[-> ->]|[Hj Ho]].
    + eexists. split; [apply list_lookup_middle; done|done].
    + destruct o as [|m t]; cbn in *; [by rewrite lookup_delete_ne|].
      destruct Ho as (fp & Hm & Ht). exists fp. split; [by apply lookup_app_l_Some|done].
Qed.

(** What a handler that inserts a name does. *)
Lemma insert_step log f a i h name srv :
  sim log f a → handlers (c_server f) !! i = Some h → at_insert (at_ h) = true →
  answer_fits (c_server f) h → server_step (Run i) (c_server f) = Ok srv → exclusive srv →
  c_new f !! i = Some name →
  inv Database_init (log ++ [(i, register_request name)]) srv ∧
  delivers_whole (register_answer (next_id_ (sys_db a))) ∧
  ∃ db k, srv = after (c_server f) i h (Registering (register_request name) (RegInserted name)) db k.
Proof.
  intros Hs Hi Hins Hfit Hstep Hex Hn.
  destruct (sm_new _ _ _ Hs _ _ Hn) as (_ & h1 & Hi1 & Hp). simplify_eq.
  destruct (at_ h) as [|?|p [nm|nm|id|id]| | | |] eqn:Hpc; try done. cbn in Hp. injection Hp as ->.
  pose proof (inv_handlers _ _ _ (sm_srv _ _ _ Hs) i h Hi) as Hh.
  unfold handler_ok in Hh. rewrite Hpc in Hh. destruct Hh as (_ & _ & _ & Hnm).
  cbn in Hnm. injection Hnm as <-.
  pose proof (inv_step _ _ _ _ _ (sm_srv _ _ _ Hs) Hstep Hex) as Hinv.
  cbn [effects] in Hinv. rewrite Hi in Hinv. cbn in Hinv. rewrite Hpc in Hinv. cbn in Hinv.
  split; [done|]. destruct (server_step_run _ _ _ _ Hi Hstep) as (pc & db & ks & Ht & ->).
  rewrite Hpc in Ht. cbn in Ht. injection Ht as <- _ _.
  destruct (insert_settled _ _ _ _ _ _ _ _ _ (sm_srv _ _ _ Hs) Hi Hpc Hex) as [Hsettled _].
  rewrite <- (sm_db _ _ _ Hs) in Hsettled. split; [|by eexists _, _].
  assert (takes_effect (at_ h) = Some (register_request name)) as E by by rewrite Hpc.
  pose proof (Hfit _ E) as Hf. rewrite Hsettled in Hf. exact Hf.
Qed.

Lemma sim_insert log f a i h name srv :
  sim log f a → handlers (c_server f) !! i = Some h → at_insert (at_ h) = true →
  answer_fits (c_server f) h → server_step (Run i) (c_server f) = Ok srv → exclusive srv →
  c_new f !! i = Some name →
  ∃ log' a', sys_step a a' ∧
    sim log' (mkComposed srv (delete i (c_new f)) (c_peers f ++ [FWaiting name (Serving i)])) a'.
Proof.
  intros Hs Hi Hins Hfit Hstep Hex Hn. destruct (sm_new _ _ _ Hs _ _ Hn) as [Hd _].
  destruct (insert_step log f a i h name srv) as (Hinv & Hid & db & ks & ->); [done..|].
  pose proof (answers_snoc log i (register_request name)) as Hsnoc. cbn zeta in Hsnoc.
  rewrite <- (sm_db _ _ _ Hs), (answer_packet_register _ name) in Hsnoc by done.
  cbn [fst snd from_option] in Hsnoc.
  eexists _, _. split; [by eapply (sys_register a name (register_answer (next_id_ (sys_db a))))|].
  set (srv := after _ _ _ _ _ _) in *.
  assert (∀ j q, holds_request (handlers srv) j q ↔ j ≠ i ∧ holds_request (handlers (c_server f)) j q)
    as Hhold.
  { intros j q. unfold srv. rewrite (holds_after _ i h) by done. case_decide; [|tauto]. split; [done|].
    by intros [? _]. }
  assert (is_Some (c_new f !! i)) as Hnew by by eexists.
  split; cbn [c_server c_new c_peers sys_db nodes].
  - exact Hinv.
  - by rewrite Hsnoc.
  - rewrite Hsnoc. cbn [fst]. apply Forall2_app.
    + apply Forall2_same_length_lookup_2; [by eapply Forall2_length, (sm_peers _ _ _ Hs)|].
      intros m fp p Hm1 Hm2. eapply peer_sim_frame;
        [| |by eapply (Forall2_lookup_lr _ _ _ _ _ _ (sm_peers _ _ _ Hs))].
      { intros e He. apply elem_of_app. by left. }
      intros j t q Ht Hq. apply Hhold. split; [|done]. intros ->.
      assert (Peer m t = New); [|done]. apply (sm_unique _ _ _ Hs i); [by exists fp|done].
    + apply Forall2_cons. split; [|constructor]. split; [done|]. split; [done|].
      apply elem_of_app. right. by apply list_elem_of_singleton.
  - intros j name' [Hne Hj]%lookup_delete_Some.
    destruct (sm_new _ _ _ Hs _ _ Hj) as [Hd' Hq']. split; [done|]. by apply Hhold.
  - intros j q [Hj Hq]%Hhold. destruct (sm_origin _ _ _ Hs _ _ Hq) as [o Ho]. exists o.
    eapply (linked_insert log f a); [done..|by right].
  - intros j o o'. rewrite !(linked_insert log f a) by done.
    intros [[-> ->]|[Hj Ho]] [[? ->]|[Hj' Ho']]; try done. by apply (sm_unique _ _ _ Hs j).
  - intros j o. rewrite (linked_insert log f a) by done. intros [[-> ->]|[Hj Ho]].
    + eexists. split; [by apply (handlers_after_eq _ _ _ h)|done].
    + destruct (sm_linked _ _ _ Hs j o Ho) as (h1 & Hj1 & Hr1). by eapply receiving_after.
Qed.

(** ** The steps of the clients *)

(** The [n]-th client goes on, losing connections at most. *)
Lemma sim_client log f a n fp fp' p p' :
  sim log f a → c_peers f !! n = Some fp → nodes a !! n = Some p →
  peer_sim (serve_seq log Database_init).1 (handlers (c_server f)) fp' p' →
  (∀ t j, peer_link fp' t = Some (Serving j) → peer_link fp t = Some (Serving j)) →
  (∀ t j, peer_link fp t = Some (Serving j) → peer_link fp' t = Some (Serving j) ∨
     ∀ q, ¬ holds_request (handlers (c_server f)) j q) →
  sim log (with_peer n fp' (c_server f) f) (mkSystem (sys_db a) (<[n := p']> (nodes a))).
Proof.
  intros Hs Hn Ha Hp Hnew Hold. eapply (sim_update log log); try done.
  - apply Hs.
  - apply (sm_db _ _ _ Hs).
  - eauto.
  - intros t j Ht. left. by apply Hnew.
Qed.

Lemma returning_holds (hs : list handler) i h b q :
  hs !! i = Some h → at_ h = Returning b → ¬ holds_request hs i q.
Proof. intros Hi Hr (h' & Hi' & Hp). simplify_eq. rewrite Hr in Hp. done. Qed.

Lemma sim_sent log f a n fn t i h :
  sim log f a → c_peers f !! n = Some (FRunning fn) → fn_link fn t = Some (Serving i) →
  handlers (c_server f) !! i = Some h → at_ h = Returning true →
  sent (fd_ (my_socket h)) (kernel (c_server f)) ≠ [] →
  sim log (with_peer n (FRunning (mkFnode (fn_client fn)
    (<[t := Some (Arriving (sent (fd_ (my_socket h)) (kernel (c_server f))))]> (fn_link fn))))
    (c_server f) f) a.
Proof.
  intros Hs Hn Hl Hi Hr Hne. destruct (peer_lookup log f a n fn) as (nd & Hnd & Hc & Hts); [done..|].
  rewrite <- (system_same a n (Running nd)) by done.
  eapply (sim_client log f a n (FRunning fn) _ (Running nd)); try done.
  - split; [done|]. intros t'. cbn [fn_link fn_client]. specialize (Hts t').
    destruct (decide (t' = t)) as [->|Hne']; [|by rewrite fn_lookup_insert_ne].
    rewrite fn_lookup_insert. rewrite Hl in Hts. destruct Hts as (req & k & Ep & Hst).
    exists req, k. split; [done|].
    destruct Hst as [(_ & _ & Hh)|(r & Hrep & Hd & Hin)]; [by eapply returning_holds in Hh|].
    rewrite (returned_sent _ _ _ _ _ _ _ (sm_srv _ _ _ Hs) Hi Hr Hin) in Hne |- *.
    destruct r as [resp|]; [|done]. by exists resp.
  - intros [t'|] j; [|done]. cbn. destruct (decide (t' = t)) as [->|Hne'];
      [by rewrite fn_lookup_insert|by rewrite fn_lookup_insert_ne].
  - intros [t'|] j; [|done]. cbn. destruct (decide (t' = t)) as [->|Hne'];
      [|rewrite fn_lookup_insert_ne; auto].
    rewrite Hl. intros [= <-]. right. intros q. by eapply returning_holds.
Qed.

Lemma sim_sent_new log f a n name i h :
  sim log f a → c_peers f !! n = Some (FWaiting name (Serving i)) →
  handlers (c_server f) !! i = Some h → at_ h = Returning true →
  sim log (with_peer n
    (FWaiting name (Arriving (sent (fd_ (my_socket h)) (kernel (c_server f))))) (c_server f) f) a.
Proof.
  intros Hs Hn Hi Hr. destruct (waiting_lookup log f a n name (Serving i)) as (id & Hnd & Hd & Hin); [done..|].
  rewrite <- (system_same a n (Waiting name id)) by done.
  eapply (sim_client log f a n (FWaiting name (Serving i)) _ (Waiting name id)); try done.
  - split; [done|]. split; [done|]. by eapply returned_sent; [apply Hs|..].
  - by intros [].
  - intros [|] j; [done|]. cbn. intros [= <-]. right. intros q. by eapply returning_holds.
Qed.

Lemma sim_start log f a n name bs ip port uninit :
  sim log f a → c_peers f !! n = Some (FWaiting name (Arriving bs)) →
  let id := get_u32 (pr_assigned_id (default RespRegister_default (resp_reg (parse_response bs)))) in
  ∃ a', sys_step a a' ∧
    sim log (with_peer n
      (FRunning (mkFnode (nd_client (node_start ip port uninit id name)) (λ _, None)))
      (c_server f) f) a'.
Proof.
  intros Hs Hn. destruct (waiting_lookup log f a n name (Arriving bs)) as (id & Hnd & Hd & ->); [done..|].
  rewrite parse_response_wire by done. cbn zeta.
  change (get_u32 _) with id.
  eexists. split; [by apply (sys_started a n ip port uninit)|].
  eapply (sim_client log f a n (FWaiting name _) _ (Waiting name id)); try done.
  - by intros [].
  - by intros [].
Qed.

(** A step changes the program of its thread alone. *)
Lemma client_step_others t inp (c c' : client) es t' :
  client_step t inp c = Some (es, c') → t' ≠ t → threads c' t' = threads c t'.
Proof.
  intros Hc Hne. unfold client_step in Hc.
  destruct (threads c t), inp; try done; try (destruct (name_mtx c); [done|]);
    injection Hc as _ <-; cbn; by rewrite fn_lookup_insert_ne.
Qed.

(** The threads that wait go on waiting with the same requests. *)
Lemma thread_sim_client rs hs db me nd nd' t l r :
  node_ok db me nd → node_ok db me nd' →
  threads (nd_client nd') t = threads (nd_client nd) t →
  thread_sim rs hs (threads (nd_client nd) t) (c_app (nd_client nd)) l r →
  thread_sim rs hs (threads (nd_client nd') t) (c_app (nd_client nd')) l r.
Proof.
  intros Hnd Hnd' ->. destruct l as [l|]; [|done]. cbn. intros (req & k & Ep & Hl).
  exists req, k. split; [done|]. destruct (node_request db me nd t req k Hnd Ep) as [Hreq _].
  by rewrite (Hreq (c_app (nd_client nd'))) by apply (nk_id _ _ _ Hnd').
Qed.

Lemma sim_local log f a n fn t inp es c :
  sim log f a → sys_inv a → c_peers f !! n = Some (FRunning fn) → (∀ p, inp ≠ Response p) →
  client_step t inp (fn_client fn) = Some (es, c) →
  ∃ a', sys_step a a' ∧
    sim log (with_peer n (FRunning (mkFnode c (fn_link fn))) (c_server f) f) a'.
Proof.
  intros Hs Ha Hn Hinp Hc. destruct (peer_lookup log f a n fn) as (nd & Hnd & Ec & Hts); [done..|].
  rewrite Ec in Hc. pose proof (si_nodes _ Ha _ _ Hnd) as Hok.
  eexists. split; [by eapply sys_local|].
  eapply (sim_client log f a n (FRunning fn) _ (Running nd)); try done.
  - split; [done|]. intros t'. cbn [fn_link fn_client nd_client nd_reply].
    destruct (decide (t' = t)) as [->|Hne].
    + specialize (Hts t). destruct (fn_link fn t) as [l|]; [|done].
      destruct Hts as (req & k & Ep & _). unfold client_step in Hc. rewrite Ep in Hc.
      destruct inp; try done. by destruct (Hinp p).
    + eapply (thread_sim_client _ _ _ _ nd (mkNode c (nd_reply nd))); [done| | |apply Hts].
      * by eapply node_local.
      * by eapply client_step_others.
  - by left.
Qed.

Lemma sim_deliver log f a n fn t bs es c :
  sim log f a → sys_inv a → c_peers f !! n = Some (FRunning fn) →
  fn_link fn t = Some (Arriving bs) →
  client_step t (Response (parse_response bs)) (fn_client fn) = Some (es, c) →
  ∃ a', sys_step a a' ∧
    sim log (with_peer n (FRunning (mkFnode c (<[t := None]> (fn_link fn)))) (c_server f) f) a'.
Proof.
  intros Hs Ha Hn Hl Hc. destruct (peer_lookup log f a n fn) as (nd & Hnd & Ec & Hts); [done..|].
  rewrite Ec in Hc. pose proof (si_nodes _ Ha _ _ Hnd) as Hok.
  pose proof (Hts t) as Ht. rewrite Hl in Ht. destruct Ht as (req & k & Ep & resp & Hr & Hd & ->).
  rewrite parse_response_wire in Hc by done.
  eexists. split; [by eapply sys_deliver|].
  eapply (sim_client log f a n (FRunning fn) _ (Running nd)); try done.
  - split; [done|]. intros t'. cbn [fn_link fn_client nd_client nd_reply].
    destruct (decide (t' = t)) as [->|Hne]; [by rewrite !fn_lookup_insert|].
    rewrite !fn_lookup_insert_ne by done.
    eapply (thread_sim_client _ _ _ _ nd (mkNode c (<[t := None]> (nd_reply nd))));
      [done| | |apply Hts].
    + by eapply node_deliver.
    + by eapply client_step_others.
  - intros [t'|] j; [|done]. cbn. destruct (decide (t' = t)) as [->|Hne'];
      [by rewrite fn_lookup_insert|by rewrite fn_lookup_insert_ne].
  - intros [t'|] j; [|done]. cbn. destruct (decide (t' = t)) as [->|Hne'];
      [by rewrite Hl|rewrite fn_lookup_insert_ne; auto].
Qed.

(** ** The simulation *)

Lemma sim_step log f a f' :
  sim log f a → sys_inv a → exclusive_step f f' →
  ∃ log' a', rtc sys_step a a' ∧ sim log' f' a'.
Proof.
  intros Hs Ha [Hstep Hex]. destruct Hstep; cbn [c_server with_server with_peer] in Hex.
  - exists log, a. split; [done|by eapply sim_accept].
  - exists log, a. split; [done|by eapply sim_idle].
  - exists log, a. split; [done|by eapply sim_receive].
  - exists log, a. split; [done|by eapply sim_receive_new].
  - destruct (takes_effect (at_ h)) as [p|] eqn:He.
    + destruct (sim_effect log f a i h p srv) as (log' & a' & Hst & Hs'); [done..|].
      exists log', a'. split; [by apply rtc_once|done].
    + exists log, a. split; [done|by eapply sim_run].
  - destruct (sim_insert log f a i h name srv) as (log' & a' & Hst & Hs'); [done..|].
    exists log', a'. split; [by apply rtc_once|done].
  - exists log, a. split; [done|by eapply sim_sent].
  - exists log, a. split; [done|by eapply sim_sent_new].
  - destruct (sim_start log f a n name bs ip port uninit) as (a' & Hst & Hs'); [done..|].
    exists log, a'. split; [by apply rtc_once|done].
  - destruct (sim_local log f a n fn t inp es c) as (a' & Hst & Hs'); [done..|].
    exists log, a'. split; [by apply rtc_once|done].
  - destruct (sim_deliver log f a n fn t bs es c) as (a' & Hst & Hs'); [done..|].
    exists log, a'. split; [by apply rtc_once|done].
Qed.

Lemma sim_start_state ss k : sim [] (composed_start ss k) sys_start.
Proof.
  split; cbn.
  - apply inv_start.
  - done.
  - constructor.
  - intros i name. by rewrite lookup_empty.
  - intros i p (h & Hi & _). done.
  - intros i [|m t]; cbn; [rewrite lookup_empty; by intros ? []|by intros ? (fp & ? & _)].
  - intros i [|m t]; cbn; [rewrite lookup_empty; by intros []|by intros (fp & ? & _)].
Qed.

Lemma peers_step (f f' : composed K) :
  composed_step f f' → (length (c_peers f) ≤ length (c_peers f'))%nat.
Proof. destruct 1; cbn; rewrite ?length_app, ?length_insert; lia. Qed.

Lemma composed_sim ss k f :
  exclusively_reachable ss k f → (Z.of_nat (length (c_peers f)) ≤ 2 ^ 32)%Z →
  ∃ log a, sys_reachable a ∧ sim log f a.
Proof.
  revert f. refine (rtc_ind_r _ _ _ _).
  { intros _. exists [], sys_start. split; [by apply rtc_refl|apply sim_start_state]. }
  intros f f' _ Hstep IH Hl. pose proof (peers_step _ _ (proj1 Hstep)) as Hlen.
  destruct IH as (log & a & Hr & Hs); [lia|].
  assert (sys_inv a) as Ha.
  { apply sys_reachable_inv; [done|]. rewrite <- (Forall2_length _ _ _ (sm_peers _ _ _ Hs)). lia. }
  destruct (sim_step log f a f' Hs Ha Hstep) as (log' & a' & Hst & Hs').
  exists log', a'. split; [unfold sys_reachable in *; by etrans|done].
Qed.

End relation.
