(* ===== verification/ComposedTheorems.v ===== *)
(** What the composition of all threads promises as long as a thread inside [registerUser] is
    alone with the database: it refines [System], and so its clients know one another
    rightly and address their messages to one another. *)

From stdpp Require Import functions.
From S2P Require Import Prelude.
From S2P Require Import Common.
From S2P Require Import Database.
From S2P Require Import Packet.
From S2P Require Import Wire.
From S2P Require Import Socket.
From S2P Require Import Network.
From S2P Require Import ServerApp.
From S2P Require Import ServerAppProofs.
From S2P Require Import Threads.
From S2P Require Import ThreadsProofs.
From S2P Require Import Console.
From S2P Require Import App.
From S2P Require Import ClientThreads.
From S2P Require Import ClientThreadsProofs.
From S2P Require Import ClientThreadsTheorems.
From S2P Require Import Loops.
From S2P Require Import System.
From S2P Require Import SystemProofs.
From S2P Require Import Composed.
From S2P Require Import SystemTheorems.
From S2P Require Import ComposedProofs.

Section composed.
  Context {ord : UMapOrder Z UserMetadata} {ord' : UMapOrder bytes Z} `{ProtobufLaws}
    {K : Type} `{ConnectionLaws K}.

(** ** Refinement *)

(** A client of the composed system and of [System]: the same client, and an answer on its
    way is the one the thread has got. *)
Definition same_peer (fp : fpeer) (p : peer) : Prop :=
  match fp, p with
  | FWaiting name l, Waiting name' id =>
      name = name' ∧ ∀ bs, l = Arriving bs → bs = wire (register_answer id)
  | FRunning fn, Running nd =>
      fn_client fn = nd_client nd ∧
      ∀ t, (fn_link fn t = None → nd_reply nd t = None) ∧
        ∀ bs, fn_link fn t = Some (Arriving bs) →
          ∃ resp, nd_reply nd t = Some (Some resp) ∧ bs = wire resp
  | _, _ => False
  end.

Lemma peer_sim_same rs hs fp p : peer_sim rs hs fp p → same_peer fp p.
Proof.
  destruct fp as [name l|fn], p as [name' id|nd]; cbn; try done.
  - intros (-> & _ & Hl). split; [done|]. by intros bs ->.
  - intros [-> Ht]. split; [done|]. intros t. specialize (Ht t).
    split; [intros Hl; by rewrite Hl in Ht|]. intros bs Hl. rewrite Hl in Ht.
    destruct Ht as (req & k & _ & resp & ? & _ & ?). by exists resp.
Qed.

(** C1. The threads of the whole program refine the system in which requests are atomic.
    The accepting thread, the handler threads and the threads of any number of clients,
    interleaved at their system calls, accesses to the database, the maps and the lock,
    with connections that deliver requests and answers whole: as long as a thread inside
    [registerUser] is alone with the database, every state they reach is, for the clients
    and the answers on their way, a state that [System] reaches, and so is the database
    when no thread is inside [registerUser]. *)
Theorem composed_refines_system ss k f :
  exclusively_reachable ss k f → (Z.of_nat (length (c_peers f)) ≤ 2 ^ 32)%Z →
  ∃ a, sys_reachable a ∧ Forall2 same_peer (c_peers f) (nodes a) ∧
    ((∀ i h, handlers (c_server f) !! i = Some h → in_flight h = false) →
     the_db (c_server f) = sys_db a).
Proof.
  intros Hr Hl. destruct (composed_sim ss k f Hr Hl) as (log & a & Ha & Hs).
  exists a. split; [done|]. split.
  - eapply Forall2_impl; [apply (sm_peers _ _ _ Hs)|]. intros fp p. apply peer_sim_same.
  - intros Hq. rewrite (sm_db _ _ _ Hs). eapply db_ok_settled; [|done].
    apply (inv_db _ _ _ (sm_srv _ _ _ Hs)).
Qed.

(** ** Names *)

Definition fpeer_name (fp : fpeer) : bytes :=
  match fp with FWaiting name _ => name | FRunning fn => username_ (c_app (fn_client fn)) end.

(** Another client than the [n]-th has the ID [k] and the name [nm]. *)
Definition other_peer (f : composed K) (n : nat) (k : Z) (nm : bytes) : Prop :=
  ∃ j fp, j ≠ n ∧ k = Z.of_nat j ∧ c_peers f !! j = Some fp ∧ fpeer_name fp = nm.

Lemma other_client_peer log f a n k nm :
  sim log f a → other_client a n k nm → other_peer f n k nm.
Proof.
  intros Hs (j & p & Hne & -> & Hj & <-).
  destruct (Forall2_lookup_r _ _ _ _ _ (sm_peers _ _ _ Hs) Hj) as (fp & Hfp & Hp).
  exists j, fp. split_and!; [done..|].
  destruct fp as [name l|fn], p as [name' id|nd]; try done; cbn.
  - by destruct Hp.
  - by destruct Hp as [-> _].
Qed.

(** C2. The clients of the program know one another rightly, all the server's and all the
    clients' threads being interleaved, provided that a thread inside [registerUser] is
    alone with the database in every step, which nothing in the source enforces: with
    overlapping registrations two clients can get one ID. In every state so reached, with
    connections that deliver requests and answers whole, answers that fit the buffers and
    at most 2^32 clients, the client whose name was inserted as the n-th has the ID n, and
    every entry of its two maps of names is the ID and the name of another client. *)
Theorem composed_clients_know_each_other ss k f n fn :
  exclusively_reachable ss k f → (Z.of_nat (length (c_peers f)) ≤ 2 ^ 32)%Z →
  c_peers f !! n = Some (FRunning fn) →
  let a := c_app (fn_client fn) in
  id_ a = Z.of_nat n ∧
  (∀ nm id, name_to_id_ a !! nm = Some id → other_peer f n id nm) ∧
  (∀ id nm, id_to_name_ a !! id = Some nm → other_peer f n id nm).
Proof.
  intros Hr Hl Hn a. destruct (composed_sim ss k f Hr Hl) as (log & s & Ha & Hs).
  assert (sys_inv s) as Hinv.
  { apply sys_reachable_inv; [done|]. by rewrite <- (Forall2_length _ _ _ (sm_peers _ _ _ Hs)). }
  destruct (peer_lookup log f s n fn) as (nd & Hnd & Hc & _); [done..|]. subst a. rewrite Hc.
  pose proof (si_nodes _ Hinv _ _ Hnd) as Hok. destruct (nk_maps _ _ _ Hok) as [Hm Hi].
  split_and!.
  - apply Hok.
  - intros nm id [? ?]%Hm. by eapply other_client_peer, user_named_other.
  - intros id nm [? ?]%Hi. by eapply other_client_peer, user_named_other.
Qed.

(** C8. A message is addressed to somebody, all threads being interleaved, provided that a
    thread inside [registerUser] is alone with the database in every step, which nothing in
    the source enforces: a registration that overlaps another can overwrite a user, whose
    name then vanishes from the maps. In every state so reached, with connections that
    deliver requests and answers whole, answers that fit the buffers and at most 2^32
    clients, the user of a client chats only with a name that is still in the client's map,
    with the ID of another client of that name, so that [operator[]] does not enter the ID
    0 for a missing one; and what the main thread sends carries the client's own ID and
    that of another client. *)
Theorem composed_messages_are_addressed ss k f n fn :
  exclusively_reachable ss k f → (Z.of_nat (length (c_peers f)) ≤ 2 ^ 32)%Z →
  c_peers f !! n = Some (FRunning fn) →
  let a := c_app (fn_client fn) in
  (∀ tgt, threads (fn_client fn) main_thread = Goto (Chat tgt) →
    ∃ id, name_to_id_ a !! tgt = Some id ∧ other_peer f n id tgt) ∧
  (∀ req next, threads (fn_client fn) main_thread = Exchange req next →
    ∃ tgt nm m, req a = send_request (Z.of_nat n) tgt m ∧ other_peer f n tgt nm).
Proof.
  intros Hr Hl Hn a. destruct (composed_sim ss k f Hr Hl) as (log & s & Ha & Hs).
  rewrite (Forall2_length _ _ _ (sm_peers _ _ _ Hs)) in Hl.
  destruct (peer_lookup log f s n fn) as (nd & Hnd & Hc & _); [done..|]. subst a. rewrite Hc.
  destruct (messages_are_addressed s n nd Ha Hl Hnd) as [Hchat Hsend]. split.
  - intros tgt (id & ? & ?)%Hchat. exists id. split; [done|]. by eapply other_client_peer.
  - intros req next (tgt & nm & m & ? & ?)%Hsend. exists tgt, nm, m. split; [done|].
    by eapply other_client_peer.
Qed.

End composed.

(** ** A run *)

#[local] Existing Instance canonical_order.

(** A connection that delivers this packet, after a moment without data, and takes the
    answer in pieces. *)
Definition delivers (p : Packet) : option script :=
  Some (mkScript 0 [] [] [Some 3; None]%nat [[]; wire_Packet p] [] []).

Definition three_connections : Network.net :=
  mkNet 0 [delivers (register_request (str "Ann")); delivers (register_request (str "Bob"));
           delivers (users_request 0)] ∅ ∅.

Definition runs_of (i n : nat) : list move := replicate n (MRun i).

(** Ann and Bob register, the steps of their handlers interleaved, and Ann asks for the
    users. *)
Definition ann_and_bob : list move :=
  [MAccept; MIdle 0; MAccept; MReceiveNew 0 (str "Ann"); MRun 0; MIdle 1; MInsert 0; MRun 0; MRun 0;
   MReceiveNew 1 (str "Bob"); MRun 0; MRun 1; MRun 0; MInsert 1] ++ runs_of 0 3 ++ runs_of 1 3 ++
  [MSentNew 0; MStart 0 (str "127.0.0.1") 8080 7] ++ runs_of 1 4 ++
  [MLocal 0 t2 NoInput; MAccept; MIdle 2; MReceive 2 0 t2] ++ runs_of 2 9 ++
  [MSent 0 t2; MRun 2; MDeliver 0 t2].

Definition ann_knows : list move := ann_and_bob ++ replicate 12 (MLocal 0 t2 NoInput).

Definition composed_after (ms : list move) : composed Network.net :=
  default (composed_start (mkServerSocket 0) three_connections)
    (composed_moves ms (composed_start (mkServerSocket 0) three_connections)).
Definition plays_out (ms : list move) : bool :=
  match composed_moves ms (composed_start (mkServerSocket 0) three_connections) with
  | Some f => bool_decide (length (c_peers f) < 9)%nat
  | None => false
  end.
Definition first_client (ms : list move) : fnode :=
  default (mkFnode (nd_client (node_start [] 0 0 0 [])) (λ _, None)) (the_running 0 (composed_after ms)).

Lemma plays_out_reachable ms :
  plays_out ms = true →
  exclusively_reachable (mkServerSocket 0) three_connections (composed_after ms) ∧
  (Z.of_nat (length (c_peers (composed_after ms))) ≤ 2 ^ 32)%Z.
Proof.
  unfold plays_out, composed_after. destruct (composed_moves ms _) as [f|] eqn:E; [|done].
  intros Hl%bool_decide_eq_true_1. cbn. split; [|lia].
  by eapply composed_moves_reachable; [apply rtc_refl|].
Qed.

Lemma first_client_lookup ms :
  (match the_running 0 (composed_after ms) with Some _ => true | None => false end) = true →
  c_peers (composed_after ms) !! 0%nat = Some (FRunning (first_client ms)).
Proof.
  unfold first_client. destruct (the_running 0 (composed_after ms)) as [fn|] eqn:E; [|done].
  intros _. by apply the_running_Some.
Qed.

Lemma composed_refines_system_witness :
  length (c_peers (composed_after ann_knows)) = 2%nat ∧
  ∃ a, sys_reachable a ∧ Forall2 same_peer (c_peers (composed_after ann_knows)) (nodes a) ∧
    ((∀ i h, handlers (c_server (composed_after ann_knows)) !! i = Some h → in_flight h = false) →
     the_db (c_server (composed_after ann_knows)) = sys_db a).
Proof.
  split; [by vm_compute|].
  destruct (plays_out_reachable ann_knows) as [Hr Hl]; [by vm_compute|].
  exact (composed_refines_system _ _ _ Hr Hl).
Defined.

Lemma composed_clients_know_each_other_witness :
  id_ (c_app (fn_client (first_client ann_knows))) = 0%Z ∧
  other_peer (composed_after ann_knows) 0 1 (str "Bob").
Proof.
  destruct (plays_out_reachable ann_knows) as [Hr Hl]; [by vm_compute|].
  destruct (composed_clients_know_each_other _ _ _ 0 (first_client ann_knows) Hr Hl) as (Hid & Hn & _).
  - apply first_client_lookup. by vm_compute.
  - split; [exact Hid|]. apply Hn. by vm_compute.
Defined.

(** Ann chooses to chat with Bob; later her message is on its way. *)
Definition mains (n : nat) : list move := replicate n (MLocal 0 main_thread NoInput).
Definition typed_by_ann (s : bytes) : list move :=
  map (λ b, MLocal 0 main_thread (Typed (byte.unsigned b))) s ++
  [MLocal 0 main_thread (Typed kNewLine)].

Definition ann_chats_with_bob : list move :=
  ann_knows ++ mains 7 ++ typed_by_ann (str "2") ++ mains 2 ++ typed_by_ann (str "Bob") ++ mains 3.
Definition ann_writes_to_bob : list move :=
  ann_chats_with_bob ++ mains 2 ++ typed_by_ann (str "hi") ++ mains 3.

Lemma composed_messages_are_addressed_witness :
  other_peer (composed_after ann_chats_with_bob) 0 1 (str "Bob") ∧
  ∃ req next tgt nm m,
    threads (fn_client (first_client ann_writes_to_bob)) main_thread = Exchange req next ∧
    req (c_app (fn_client (first_client ann_writes_to_bob))) = send_request 0 tgt m ∧
    other_peer (composed_after ann_writes_to_bob) 0 tgt nm.
Proof.
  split.
  - destruct (plays_out_reachable ann_chats_with_bob) as [Hr Hl]; [by vm_compute|].
    destruct (composed_messages_are_addressed _ _ _ 0 (first_client ann_chats_with_bob) Hr Hl)
      as [Hc _]; [apply first_client_lookup; by vm_compute|].
    destruct (Hc (str "Bob")) as (id & Hid & Ho); [by vm_compute|].
    assert (id = 1%Z) as -> by (vm_compute in Hid; congruence). exact Ho.
  - destruct (plays_out_reachable ann_writes_to_bob) as [Hr Hl]; [by vm_compute|].
    destruct (composed_messages_are_addressed _ _ _ 0 (first_client ann_writes_to_bob) Hr Hl)
      as [_ He]; [apply first_client_lookup; by vm_compute|].
    destruct (exchange_at (threads (fn_client (first_client ann_writes_to_bob)) main_thread))
      as (req & next & E); [by vm_compute|].
    destruct (He req next E) as (tgt & nm & m & Hreq & Ho). exists req, next, tgt, nm, m.
    exact (conj E (conj Hreq Ho)).
Defined.
