(* ===== verification/Main.v ===== *)
(** The processes: the [main] functions of the two applications
    ([src/server/server_app.cpp], [src/client/app.cpp]) with [std::stoi] and the
    conversion of the port, the terminal's attributes set by [Console()]
    ([src/console/console.cpp]), and the host name printed by [ServerSocket::printInfo]
    ([src/tcp_lib/server_socket.h], [src/tcp_lib/tcp_util.h]). *)

From S2P Require Import Prelude.
From S2P Require Import Common.
From S2P Require Import Database.
From S2P Require Import Packet.
From S2P Require Import Wire.
From S2P Require Import Socket.
From S2P Require Import Console.
From S2P Require Import ServerApp.
From S2P Require Import App.

#[local] Existing Instance canonical_order.

(** ** [std::stoi]

    White space, a sign, the longest run of digits; what follows is ignored. Without a
    digit, or outside the range of [int], it throws, and nothing here catches. *)
Definition stoi (s : bytes) : outcome Z :=
  let l := (span isspace s).2 in
  let '(neg, l) :=
    match l with
    | b :: r =>
        if bool_decide (b = x2d) then (true, r)
        else if bool_decide (b = x2b) then (false, r) else (false, l)
    | [] => (false, l)
    end in
  let digits := (span isdigit l).1 in
  let v := if neg : bool then (- number_of digits)%Z else number_of digits in
  if bool_decide (digits = []) then Abort
  else if (v <? - 2 ^ 31)%Z || (2 ^ 31 <=? v)%Z then Abort
  else Ok v.

(** The conversion of an [int] to the [uint16_t] of a port. *)
Definition uint16 (z : Z) : Z := (z mod 2 ^ 16)%Z.

(** ** The server's [main]

    [argv[argc]] is null and there is nothing after it: making a [string] of either is
    undefined. *)
Definition arg (argv : list bytes) (i : nat) : outcome bytes :=
  match argv !! i with Some s => Ok s | None => Oob end.

Section server.
  Context {ord : UMapOrder Z UserMetadata} `{Protobuf} {K : Type} `{Kernel K}.

(** [ServerApp(string ip, int port)]. *)
Record ServerApp := mkServerApp { ip_ : bytes; port_ : Z }.

(** [run] converts the port when it makes the listening socket. *)
Definition server_run (fuel n : nat) (a : ServerApp) (db : Database) (k : K) :
    outcome (Database * K) :=
  ServerApp.run fuel n (ip_ a) (uint16 (port_ a)) db k.

Definition server_main (fuel n : nat) (argv : list bytes) (k : K) : outcome (Database * K) :=
  ip ← arg argv 1;
  s ← arg argv 2;
  port ← stoi s;
  server_run fuel n (mkServerApp ip port) Database_init k.
End server.

(** ** The client's [main] *)

Section client.
  Context {ord : UMapOrder bytes Z} `{Protobuf} {K : Type} `{Kernel K}.

(** [uninit] is what [id_] holds before the registration; the threads take turns in the
    order given, and [chars] are typed. *)
Definition client_main (fuel : nat) (order : list thread) (uninit : Z) (chars : list Z) (k : K) :
    outcome (unit * world K) :=
  let str_ip := str "127.0.0.1" in
  let str_port := str "8080" in
  port ← stoi str_port;
  App.run fuel order (mkWorld (App_init str_ip (uint16 port) uninit) Console_init [] chars k).
End client.

(** ** [Console()] *)

Definition ICANON : Z := 2.
Definition ECHO : Z := 8.

(** The local modes that are set, from those the terminal had. *)
Definition console_lflag (c_lflag : Z) : Z := Z.land c_lflag (Z.lnot (Z.lor ICANON ECHO)).

(** The console and the terminal's local modes afterwards. *)
Definition Console_new (c_lflag : Z) : Console * Z := (Console_init, console_lflag c_lflag).

(** ** The host name *)

(** [operator<<] on a [char *]: the bytes before the first null one. *)
Definition c_string (buf : bytes) : outcome bytes :=
  match span (λ b, negb (bool_decide (b = x00))) buf with
  | (s, _ :: _) => Ok s
  | (_, []) => Oob
  end.

(** [printHostName(fd)], what it writes to the standard output; [gethostname n] is the
    result and the contents of the buffer of [n] bytes. *)
Definition printHostName (gethostname : nat → Z * bytes) (fd : Z) : outcome bytes :=
  let '(res, hostNameBuff) := gethostname 100%nat in
  if negb (res =? 0)%Z then Ok []
  else s ← c_string hostNameBuff; Ok (str "Host name: " ++ s ++ endl).

(** [ServerSocket::printInfo()]. *)
Definition printInfo (gethostname : nat → Z * bytes) (ss : ServerSocket) : outcome bytes :=
  printHostName gethostname (ss_fd_ ss).

(** ** [stoi] reads what [to_string] writes *)

Lemma number_of_go x s :
  foldl (λ n d, n * 10 + (byte.unsigned d - 48))%Z 0%Z (str (pretty_N_go x s)) =
  foldl (λ n d, n * 10 + (byte.unsigned d - 48))%Z (Z.of_N x) (str s).
Proof.
  revert s. induction (N.lt_wf_0 x) as [x _ IH]; intros s.
  destruct (decide (x = 0)%N) as [->|Hx]; [done|].
  rewrite pretty_N_go_step by lia. rewrite IH by (apply N.div_lt; lia).
  change (str (String ?c s)) with (Ascii.byte_of_ascii c :: str s). cbn [foldl]. f_equal.
  assert (byte.unsigned (Ascii.byte_of_ascii (pretty_N_char (x `mod` 10))) - 48 =
    Z.of_N (x `mod` 10))%Z as ->.
  { pose proof (N.mod_lt x 10 ltac:(lia)). destruct (x `mod` 10)%N as [|p]; [done|].
    do 4 (destruct p as [p|p|]; try done; try lia). }
  rewrite N2Z.inj_div, N2Z.inj_mod. pose proof (Z.div_mod (Z.of_N x) 10). lia.
Qed.

Lemma digits_go x s :
  Forall (λ b, isdigit b = true) (str s) → Forall (λ b, isdigit b = true) (str (pretty_N_go x s)).
Proof.
  revert s. induction (N.lt_wf_0 x) as [x _ IH]; intros s Hs.
  destruct (decide (x = 0)%N) as [->|Hx]; [done|].
  rewrite pretty_N_go_step by lia. apply IH; [apply N.div_lt; lia|].
  change (str (String ?c s)) with (Ascii.byte_of_ascii c :: str s). constructor; [|done].
  pose proof (N.mod_lt x 10 ltac:(lia)). destruct (x `mod` 10)%N as [|p]; [done|].
  do 4 (destruct p as [p|p|]; try done; try lia).
Qed.

Lemma dec_positive p :
  str (pretty (N.pos p)) ≠ [] ∧ Forall (λ b, isdigit b = true) (str (pretty (N.pos p))) ∧
  number_of (str (pretty (N.pos p))) = Z.pos p.
Proof.
  unfold pretty, pretty_N. rewrite decide_False by done.
  assert (number_of (str (pretty_N_go (N.pos p) "")) = Z.pos p) as Hn by apply number_of_go.
  split_and!; [|by apply digits_go|done]. intros E. by rewrite E in Hn.
Qed.

(** A number in range, after any white space and before anything but a digit. *)
Lemma stoi_digits ws (neg : bool) ds rest :
  Forall (λ b, isspace b = true) ws →
  ds ≠ [] → Forall (λ b, isdigit b = true) ds →
  (∀ b, head rest = Some b → isdigit b = false) →
  let v := if neg then (- number_of ds)%Z else number_of ds in
  stoi (ws ++ (if neg then [x2d] else []) ++ ds ++ rest) =
    if (v <? - 2 ^ 31)%Z || (2 ^ 31 <=? v)%Z then Abort else Ok v.
Proof.
  intros Hws Hne Hds Hrest v. destruct ds as [|d ds]; [done|].
  apply Forall_cons in Hds as Hd. destruct Hd as [Hd _].
  destruct (isdigit_facts d Hd) as (Hsp & Hm & Hp & _).
  assert (span isdigit ((d :: ds) ++ rest) = (d :: ds, rest)) as Hspan.
  { clear -Hds Hrest. induction Hds as [|b l Hb Hl IH]; cbn.
    - destruct rest as [|b rest]; [done|]. cbn. by rewrite (Hrest b).
    - cbn in IH. by rewrite Hb, IH. }
  assert (∀ r, span isspace (ws ++ r) = (ws ++ (span isspace r).1, (span isspace r).2)) as Hskip.
  { intros r. clear -Hws. induction Hws as [|b l Hb Hl IH]; cbn; [by destruct (span _ r)|].
    by rewrite Hb, IH. }
  unfold stoi. rewrite Hskip. subst v. cbn [snd].
  assert (bool_decide (d :: ds = []) = false) as Hnil by by apply bool_decide_eq_false_2.
  destruct neg.
  - change (span isspace ([x2d] ++ (d :: ds) ++ rest)) with ([] : bytes, x2d :: (d :: ds) ++ rest).
    cbn [snd]. rewrite (bool_decide_eq_true_2 (x2d = x2d)) by done.
    rewrite Hspan. cbn [fst]. by rewrite Hnil.
  - assert (span isspace ([] ++ (d :: ds) ++ rest) = ([], (d :: ds) ++ rest)) as ->
      by (cbn; by rewrite Hsp).
    cbn [snd]. change ((d :: ds) ++ rest) with (d :: ds ++ rest) at 1 2 3.
    cbv iota beta. rewrite (bool_decide_eq_false_2 (d = x2d)), (bool_decide_eq_false_2 (d = x2b)) by done.
    change (d :: ds ++ rest) with ((d :: ds) ++ rest). rewrite Hspan. cbn [fst]. by rewrite Hnil.
Qed.

Lemma stoi_dec z : (- 2 ^ 31 ≤ z < 2 ^ 31)%Z → stoi (dec z) = Ok z.
Proof.
  intros Hz. destruct z as [|p|p]; [done|..]; destruct (dec_positive p) as (Hne & Hd & Hn).
  - pose proof (stoi_digits [] false (str (pretty (N.pos p))) [] (List.Forall_nil _) Hne Hd
      ltac:(done)) as E. cbn [app] in E. rewrite app_nil_r, Hn in E.
    rewrite (proj2 (Z.ltb_ge _ _)), (proj2 (Z.leb_gt _ _)) in E by lia. exact E.
  - pose proof (stoi_digits [] true (str (pretty (N.pos p))) [] (List.Forall_nil _) Hne Hd
      ltac:(done)) as E. cbn [app] in E. rewrite app_nil_r, Hn in E.
    rewrite (proj2 (Z.ltb_ge _ _)), (proj2 (Z.leb_gt _ _)) in E by lia. exact E.
Qed.

(** ** Properties *)

(** The port the server listens on is its second argument modulo 2^16: every [int]
    is accepted, so a number that is no port, a negative one included, stands for another
    port; a text without a number, or one outside the range of [int], ends the process,
    and a missing argument is undefined behaviour. *)
Theorem server_main_port {ord : UMapOrder Z UserMetadata} `{Protobuf} {K : Type} `{Kernel K}
    fuel n prog ip (k : K) :
  (∀ z, (- 2 ^ 31 ≤ z < 2 ^ 31)%Z →
     server_main fuel n [prog; ip; dec z] k =
       ServerApp.run fuel n ip (z mod 2 ^ 16)%Z Database_init k) ∧
  (∀ ws neg ds rest,
     Forall (λ b, isspace b = true) ws → ds ≠ [] → Forall (λ b, isdigit b = true) ds →
     (∀ b, head rest = Some b → isdigit b = false) →
     (2 ^ 31 < number_of ds)%Z →
     server_main fuel n [prog; ip; ws ++ (if neg : bool then [x2d] else []) ++ ds ++ rest] k =
       Abort) ∧
  server_main fuel n [prog; ip; []] k = Abort ∧
  server_main fuel n [prog; ip] k = Oob ∧ server_main fuel n [prog] k = Oob.
Proof.
  split_and!; try done.
  - intros z Hz. unfold server_main. cbn [arg lookup list_lookup mbind outcome_bind].
    by rewrite stoi_dec.
  - intros ws neg ds rest Hws Hne Hds Hrest Hl. unfold server_main.
    cbn [arg lookup list_lookup mbind outcome_bind]. rewrite stoi_digits by done.
    pose proof (number_of_nonneg ds Hds). destruct neg.
    + by rewrite (proj2 (Z.ltb_lt _ _)) by lia.
    + by rewrite (proj2 (Z.leb_le (2 ^ 31) _)), orb_true_r by lia.
Qed.

Lemma client_main_runs {ord : UMapOrder bytes Z} `{Protobuf} {K : Type} `{Kernel K}
    fuel order uninit chars (k : K) :
  client_main fuel order uninit chars k =
  App.run fuel order
    (mkWorld (App_init (str "127.0.0.1") 8080 uninit) Console_init [] chars k).
Proof. done. Qed.

(** [Console()] clears the two bits for line buffering and echo of the terminal's
    local modes and keeps every other bit; doing it again changes nothing. *)
Theorem console_lflag_bits c_lflag :
  (∀ n, (0 ≤ n)%Z →
     Z.testbit (console_lflag c_lflag) n =
       Z.testbit c_lflag n && negb (Z.testbit ICANON n || Z.testbit ECHO n)) ∧
  console_lflag (console_lflag c_lflag) = console_lflag c_lflag.
Proof.
  split.
  - intros n Hn. unfold console_lflag. by rewrite Z.land_spec, Z.lnot_spec, Z.lor_spec.
  - unfold console_lflag. by rewrite <- Z.land_assoc, Z.land_diag.
Qed.

(** A host name that the call puts into the buffer, terminated, is printed; a buffer
    without a null byte is read beyond its end. *)
Lemma printInfo_prints gethostname ss name rest :
  x00 ∉ name →
  (gethostname 100%nat = (0%Z, name ++ x00 :: rest) →
   printInfo gethostname ss = Ok (str "Host name: " ++ name ++ endl)) ∧
  (gethostname 100%nat = (0%Z, name) → printInfo gethostname ss = Oob) ∧
  (∀ res buf, gethostname 100%nat = (res, buf) → res ≠ 0%Z → printInfo gethostname ss = Ok []).
Proof.
  intros Hn. assert (Forall (λ b, negb (bool_decide (b = x00)) = true) name) as Hf.
  { apply Forall_forall. intros b Hb. rewrite bool_decide_eq_false_2; [done|]. by intros ->. }
  assert (∀ r, span (λ b, negb (bool_decide (b = x00))) (name ++ r) =
    (name ++ (span (λ b, negb (bool_decide (b = x00))) r).1,
     (span (λ b, negb (bool_decide (b = x00))) r).2)) as Hspan.
  { intros r. clear Hn. induction Hf as [|b l Hb Hl IH]; cbn; [by destruct (span _ r)|].
    by rewrite Hb, IH. }
  unfold printInfo, printHostName, c_string. split_and!.
  - intros ->. cbn [negb Z.eqb]. rewrite Hspan. cbn. by rewrite app_nil_r.
  - intros ->. cbn [negb Z.eqb]. rewrite <- (app_nil_r name), Hspan. done.
  - intros res buf -> Hr. by rewrite (proj2 (Z.eqb_neq res 0)).
Qed.
