(* ===== verification/Tests.v ===== *)
(** The tests of the repository that are not commented out ([src/client/tests/] and
    [src/server/tests/]): what they print and whether they pass. *)

From S2P Require Import Prelude.
From S2P Require Import Common.
From S2P Require Import Packet.
From S2P Require Import Wire.

(** [TEST(Random, Testing2)]: what a default packet prints; [cout] shows a [bool] as 0 or
    1. It expects nothing. *)
Definition Testing2 : bytes :=
  let packet := Packet_default in
  dec (match resp_users packet with Some _ => 1 | None => 0 end) ++ [x0a] ++
  dec (get_u32 (pu_resp_value (default RespUsers_default (resp_users packet)))) ++ [x0a].

(** [TEST(HelloTest, BasicAssertions)]: whether both expectations hold. *)
Definition BasicAssertions : bool :=
  negb (bool_decide (str "hello" = str "world")) && (7 * 6 =? 42)%Z.

(** A packet without a users response reads as one with the value 0, and so does one that
    has been sent with this value: the client of [periodicGetOnlineUsers] takes an empty
    response for a positive one. *)
Lemma Testing2_prints : Testing2 = str "0" ++ [x0a] ++ str "0" ++ [x0a].
Proof. by vm_compute. Qed.

Lemma BasicAssertions_pass : BasicAssertions = true.
Proof. by vm_compute. Qed.

(** Such a packet is what comes of no bytes at all. *)
Lemma Testing2_packet : ParseFromArray [] = (true, Packet_default).
Proof. by vm_compute. Qed.
