(* ===== verification/Tutorial.v ===== *)
(** The address book programs ([src/protobuf-tutorial/write_message.cpp],
    [src/protobuf-tutorial/read_message.cpp]): one adds a person typed at the standard
    input to a file, the other prints the people of a file. [cin] is a stream with its
    state bits; the serialisation of an address book is a class. The prompts and the
    messages on the standard error are not modelled. *)

From S2P Require Import Prelude.
From S2P Require Import Wire.

(** ** The messages of [addressbook.proto] *)

Inductive PhoneType :=
| PHONE_TYPE_UNSPECIFIED
| PHONE_TYPE_MOBILE
| PHONE_TYPE_HOME
| PHONE_TYPE_WORK.

#[export] Instance PhoneType_eq_decision : EqDecision PhoneType.
Proof. solve_decision. Defined.

Record PhoneNumber := mkPhone { ph_number : option bytes; ph_type : option PhoneType }.
Record Person := mkPerson {
  pe_name : option bytes;
  pe_id : option Z;
  pe_email : option bytes;
  phones : list PhoneNumber;
}.

#[export] Instance PhoneNumber_eq_decision : EqDecision PhoneNumber.
Proof. solve_decision. Defined.
#[export] Instance Person_eq_decision : EqDecision Person.
Proof. solve_decision. Defined.

Definition phone_type (p : PhoneNumber) : PhoneType := default PHONE_TYPE_HOME (ph_type p).

Class AddressBookLib := {
  (** [book.ParseFromIstream(&input)]: the result and the people afterwards. *)
  Book_ParseFromIstream : bytes → bool * list Person;
  (** [book.SerializeToOstream(&output)]: the result and the bytes written. *)
  Book_SerializeToOstream : list Person → bool * bytes;
}.

(** ** The standard input *)

Record istream := mkIstream { chars : bytes; eofbit : bool; failbit : bool }.

Definition good (s : istream) : bool := negb (eofbit s) && negb (failbit s).

(** [cin >> id] for an [int]: [uninit] stays in [id] when there is nothing to read. *)
Definition read_int (uninit : Z) (s : istream) : Z * istream :=
  if negb (good s) then (uninit, mkIstream (chars s) (eofbit s) true) else
  match (span isspace (chars s)).2 with
  | [] => (uninit, mkIstream [] true true)
  | b :: r =>
      let '(neg, l) :=
        if bool_decide (b = x2d) then (true, r)
        else if bool_decide (b = x2b) then (false, r) else (false, b :: r) in
      let '(digits, rest) := span isdigit l in
      let eof := bool_decide (rest = []) in
      let v := if neg then (- number_of digits)%Z else number_of digits in
      if bool_decide (digits = []) then (0%Z, mkIstream rest eof true)
      else if (v <? - 2 ^ 31)%Z then ((- 2 ^ 31)%Z, mkIstream rest eof true)
      else if (2 ^ 31 <=? v)%Z then ((2 ^ 31 - 1)%Z, mkIstream rest eof true)
      else (v, mkIstream rest eof false)
  end.

Fixpoint ignore_chars (n : nat) (delim : byte) (l : bytes) : bytes * bool :=
  match n, l with
  | O, _ => (l, false)
  | _, [] => ([], true)
  | S n, b :: l => if bool_decide (b = delim) then (l, false) else ignore_chars n delim l
  end.

(** [cin.ignore(n, delim)]. *)
Definition ignore (n : nat) (delim : byte) (s : istream) : istream :=
  if negb (good s) then mkIstream (chars s) (eofbit s) true else
  let '(l, eof) := ignore_chars n delim (chars s) in mkIstream l eof false.

(** [getline(cin, str)]: [str] is left alone when the stream is not good. *)
Definition getline (str : bytes) (s : istream) : bytes * istream :=
  if negb (good s) then (str, mkIstream (chars s) (eofbit s) true) else
  match span (λ b, negb (bool_decide (b = x0a))) (chars s) with
  | (l, []) => (l, mkIstream [] true (bool_decide (l = [])))
  | (l, _ :: rest) => (l, mkIstream rest false false)
  end.

(** ** [PromptForAddress] *)

Definition type_of_text (type : bytes) : option PhoneType :=
  if bool_decide (type = str "mobile") then Some PHONE_TYPE_MOBILE
  else if bool_decide (type = str "home") then Some PHONE_TYPE_HOME
  else if bool_decide (type = str "work") then Some PHONE_TYPE_WORK
  else None.

(** The loop over the phone numbers. *)
Fixpoint prompt_phones (fuel : nat) (s : istream) (ps : list PhoneNumber) :
    outcome (list PhoneNumber * istream) :=
  match fuel with
  | O => Blocked
  | S fuel =>
      let '(number, s) := getline [] s in
      if bool_decide (number = []) then Ok (ps, s) else
      let '(type, s) := getline [] s in
      prompt_phones fuel s (ps ++ [mkPhone (Some number) (type_of_text type)])
  end.

Definition PromptForAddress (uninit : Z) (s : istream) : outcome (Person * istream) :=
  let '(id, s) := read_int uninit s in
  let s := ignore 256 x0a s in
  let '(name, s) := getline [] s in
  let '(email, s) := getline [] s in
  let email := if bool_decide (email = []) then None else Some email in
  '(ps, s) ← prompt_phones (S (length (chars s))) s [];
  Ok (mkPerson (Some name) (Some id) email ps, s).

(** ** [ListPeople] *)

Definition phone_label (t : PhoneType) : bytes :=
  match t with
  | PHONE_TYPE_MOBILE => str "  Mobile phone #: "
  | PHONE_TYPE_HOME => str "  Home phone #: "
  | PHONE_TYPE_WORK => str "  Work phone #: "
  | PHONE_TYPE_UNSPECIFIED => []
  end.

Definition list_phone (p : PhoneNumber) : bytes :=
  phone_label (phone_type p) ++ default [] (ph_number p) ++ [x0a].

Definition list_person (p : Person) : bytes :=
  str "Person ID: " ++ dec (default 0%Z (pe_id p)) ++ [x0a] ++
  str "  Name: " ++ default [] (pe_name p) ++ [x0a] ++
  from_option (λ e, str "  E-mail address: " ++ e ++ [x0a]) [] (pe_email p) ++
  concat (map list_phone (phones p)).

Definition ListPeople (people : list Person) : bytes := concat (map list_person people).

(** ** The programs: the exit status, the file and what is printed *)

Section programs.
  Context `{AddressBookLib}.

(** [main] of write_message.cpp; the file is [None] when it does not exist. *)
Definition write_main (argc : Z) (file : option bytes) (uninit : Z) (cin : istream) :
    outcome (Z * option bytes) :=
  if negb (argc =? 2)%Z then Ok ((-1)%Z, file) else
  let '(ok, address_book) :=
    match file with Some input => Book_ParseFromIstream input | None => (true, []) end in
  if negb ok then Ok ((-1)%Z, file) else
  '(person, _) ← PromptForAddress uninit cin;
  let '(ok, output) := Book_SerializeToOstream (address_book ++ [person]) in
  if negb ok then Ok ((-1)%Z, Some output) else Ok (0%Z, Some output).

(** [main] of read_message.cpp: parsing fails on a file that does not exist. *)
Definition read_main (argc : Z) (file : option bytes) : Z * bytes :=
  if negb (argc =? 2)%Z then ((-1)%Z, []) else
  let '(ok, address_book) :=
    match file with Some input => Book_ParseFromIstream input | None => (false, []) end in
  if negb ok then ((-1)%Z, []) else (0%Z, ListPeople address_book).

End programs.

(** ** What is typed and what is recorded *)

(** The lines typed for a person: the digits of the ID, the name, the e-mail address,
    the numbers with their types. *)
Record typed_person := mkTyped {
  t_digits : bytes;
  t_name : bytes;
  t_email : bytes;
  t_phones : list (bytes * bytes);
}.

Definition text_line (l : bytes) : bytes := l ++ [x0a].

Definition typed_text (t : typed_person) : bytes :=
  text_line (t_digits t) ++ text_line (t_name t) ++ text_line (t_email t) ++
  concat (map (λ '(n, k), text_line n ++ text_line k) (t_phones t)) ++ text_line [].

Definition one_line (l : bytes) : Prop := x0a ∉ l.

Record typed_ok (t : typed_person) : Prop := {
  ok_digits : t_digits t ≠ [] ∧ Forall (λ b, isdigit b = true) (t_digits t);
  ok_range : (number_of (t_digits t) < 2 ^ 31)%Z;
  ok_name : one_line (t_name t);
  ok_email : one_line (t_email t);
  ok_phones : Forall (λ '(n, k), n ≠ [] ∧ one_line n ∧ one_line k) (t_phones t);
}.

Definition recorded (t : typed_person) : Person :=
  mkPerson (Some (t_name t)) (Some (number_of (t_digits t)))
    (if bool_decide (t_email t = []) then None else Some (t_email t))
    (map (λ '(n, k), mkPhone (Some n) (type_of_text k)) (t_phones t)).

(** ** Reading lines *)

Lemma span_line l rest :
  one_line l → span (λ b, negb (bool_decide (b = x0a))) (l ++ x0a :: rest) = (l, x0a :: rest).
Proof.
  induction l as [|b l IH]; intros Hl; [done|]. cbn. unfold one_line in Hl.
  apply not_elem_of_cons in Hl as [Hb Hl]. rewrite bool_decide_eq_false_2 by auto. cbn.
  by rewrite IH.
Qed.

Lemma getline_line s0 l rest :
  one_line l →
  getline s0 (mkIstream (l ++ [x0a] ++ rest) false false) = (l, mkIstream rest false false).
Proof.
  intros Hl. unfold getline. cbn [good chars eofbit failbit negb andb].
  change ([x0a] ++ rest) with (x0a :: rest). by rewrite span_line.
Qed.

Lemma span_length p l : length (span p l).1 + length (span p l).2 = length l.
Proof.
  induction l as [|b l IH]; [done|]. cbn. destruct (p b); [|done].
  destruct (span p l). cbn in *. lia.
Qed.

Lemma getline_length s :
  let '(l, s') := getline [] s in
  (length (chars s') ≤ length (chars s))%nat ∧
  (l ≠ [] → length (chars s') < length (chars s))%nat.
Proof.
  unfold getline. destruct (negb (good s)); [cbn; split; [lia|done]|].
  pose proof (span_length (λ b, negb (bool_decide (b = x0a))) (chars s)) as Hl.
  destruct (span _ (chars s)) as [l [|b rest]]; cbn in *; split; try lia.
  intros Hne. destruct l; [done|]. cbn in Hl. lia.
Qed.

(** The loop over the phone numbers ends: every number it records was typed. *)
Lemma prompt_phones_total fuel s ps :
  (length (chars s) < fuel)%nat → is_Ok (prompt_phones fuel s ps).
Proof.
  revert s ps. induction fuel as [|fuel IH]; intros s ps Hf; [lia|]. cbn.
  pose proof (getline_length s) as H1. destruct (getline [] s) as [number s1].
  case_bool_decide; [by eexists|].
  pose proof (getline_length s1) as H2. destruct (getline [] s1) as [type s2].
  apply IH. destruct H1 as [_ H1], H2 as [H2 _]. specialize (H1 H). lia.
Qed.

Lemma prompt_phones_typed l fuel rest ps :
  Forall (λ '(n, k), n ≠ [] ∧ one_line n ∧ one_line k) l → (length l < fuel)%nat →
  prompt_phones fuel (mkIstream (concat (map (λ '(n, k), text_line n ++ text_line k) l) ++
    text_line [] ++ rest) false false) ps =
  Ok (ps ++ map (λ '(n, k), mkPhone (Some n) (type_of_text k)) l, mkIstream rest false false).
Proof.
  intros Hl. revert fuel ps. induction Hl as [|[n k] l (Hne & Hn & Hk) Hl IH];
    intros [|fuel] ps Hf; cbn [length] in Hf; try lia; cbn [prompt_phones].
  {     pose proof (getline_line [] [] rest (not_elem_of_nil _)) as E.
    change (concat _ ++ text_line [] ++ rest) with ([] ++ [x0a] ++ rest). rewrite E.
    cbn [map]. by rewrite app_nil_r. }
  cbn [map concat]. unfold text_line at 1 2. rewrite <- !app_assoc.
  rewrite (getline_line [] n) by done. rewrite bool_decide_eq_false_2 by done.
  rewrite (getline_line [] k) by done. rewrite IH by lia. by rewrite <- app_assoc.
Qed.

Lemma length_phones (l : list (bytes * bytes)) :
  (length l ≤ length (concat (map (λ '(n, k), text_line n ++ text_line k) l)))%nat.
Proof.
  induction l as [|[n k] l IH]; [done|]. cbn [map concat length].
  unfold text_line at 1. rewrite !length_app. cbn [length]. lia.
Qed.

(** The ID line, with the new line that [cin >> id] leaves. *)
Lemma read_int_line uninit ds rest :
  ds ≠ [] → Forall (λ b, isdigit b = true) ds → (number_of ds < 2 ^ 31)%Z →
  ignore 256 x0a (read_int uninit (mkIstream (ds ++ [x0a] ++ rest) false false)).2 =
    mkIstream rest false false ∧
  (read_int uninit (mkIstream (ds ++ [x0a] ++ rest) false false)).1 = number_of ds.
Proof.
  intros Hne Hds Hr. pose proof (number_of_nonneg ds Hds) as Hp.
  destruct ds as [|b ds]; [done|]. pose proof Hds as Hds'.
  apply Forall_cons in Hds' as [Hb _]. destruct (isdigit_facts b Hb) as (Hsp & Hm & Hpl & _).
  unfold read_int. cbn [good chars eofbit failbit negb andb app span]. rewrite Hsp. cbn [snd].
  rewrite !bool_decide_eq_false_2 by done.
  pose proof (span_digits (b :: ds) rest Hds) as E. cbn [app] in E. rewrite E.
  rewrite !bool_decide_eq_false_2 by done.
  rewrite (proj2 (Z.ltb_ge _ _)), (proj2 (Z.leb_gt _ _)) by lia. done.
Qed.

Lemma PromptForAddress_typed uninit t rest :
  typed_ok t →
  PromptForAddress uninit (mkIstream (typed_text t ++ rest) false false) =
    Ok (recorded t, mkIstream rest false false).
Proof.
  intros [[Hd1 Hd2] Hr Hn He Hp]. unfold PromptForAddress, typed_text.
  unfold text_line at 1 2 3. rewrite <- !app_assoc.
  match goal with |- context [mkIstream (t_digits t ++ [x0a] ++ ?r) false false] =>
    destruct (read_int_line uninit (t_digits t) r Hd1 Hd2 Hr) as [Hi Hv] end.
  destruct (read_int _ _) as [id s]. cbn [fst snd] in Hi, Hv. rewrite Hi, Hv.
  rewrite !getline_line by done.
  rewrite prompt_phones_typed; [done|done|]. cbn [chars]. rewrite length_app.
  pose proof (length_phones (t_phones t)). lia.
Qed.

Lemma PromptForAddress_total uninit s : is_Ok (PromptForAddress uninit s).
Proof.
  unfold PromptForAddress. destruct (read_int uninit s) as [id s1].
  destruct (getline [] (ignore 256 x0a s1)) as [name s2]. destruct (getline [] s2) as [email s3].
  destruct (prompt_phones_total (S (length (chars s3))) s3 []) as [[ps s4] ->]; [lia|].
  by eexists.
Qed.

(** After a failure of [cin] nothing more is read. *)
Lemma PromptForAddress_failed uninit s id l :
  read_int uninit s = (id, mkIstream l false true) ∨
  read_int uninit s = (id, mkIstream l true true) →
  ∃ s', PromptForAddress uninit s = Ok (mkPerson (Some []) (Some id) None [], s').
Proof.
  intros Hr. unfold PromptForAddress.
  destruct Hr as [-> | ->]; cbn; by eexists.
Qed.

(** ** Properties *)

(** C40. A person that is added is listed: when a person's lines are typed, the writing
    program terminates with success and the reading program then prints the people that
    were in the file followed by the person with the ID, the name, the e-mail address
    and the phone numbers that were typed, in order, given that the library reads back
    what it has written. *)
Theorem added_person_is_listed `{AddressBookLib} file book uninit t rest out :
  typed_ok t →
  match file with Some input => Book_ParseFromIstream input = (true, book) | None => book = [] end →
  Book_SerializeToOstream (book ++ [recorded t]) = (true, out) →
  Book_ParseFromIstream out = (true, book ++ [recorded t]) →
  write_main 2 file uninit (mkIstream (typed_text t ++ rest) false false) = Ok (0%Z, Some out) ∧
  read_main 2 (Some out) = (0%Z, ListPeople book ++ list_person (recorded t)).
Proof.
  intros Ht Hf Hs Hp. split.
  - unfold write_main. cbn [negb Z.eqb Pos.eqb].
    assert ((match file with Some input => Book_ParseFromIstream input | None => (true, []) end)
      = (true, book)) as -> by (destruct file; [done|by rewrite Hf]).
    cbn [negb]. rewrite PromptForAddress_typed by done. cbn [mbind outcome_bind]. by rewrite Hs.
  - unfold read_main. cbn [negb Z.eqb Pos.eqb]. rewrite Hp. cbn [negb]. unfold ListPeople.
    rewrite map_app, concat_app. cbn [map concat]. by rewrite (app_nil_r (list_person _)).
Qed.

(** The wire format of the address book. *)
Definition f_Phone (p : PhoneNumber) : list field :=
  opt_len 1 (ph_number p) ++
  opt_varint 2 ((λ t, match t with
                      | PHONE_TYPE_UNSPECIFIED => 0
                      | PHONE_TYPE_MOBILE => 1
                      | PHONE_TYPE_HOME => 2
                      | PHONE_TYPE_WORK => 3
                      end)%Z <$> ph_type p).
Definition s_Phone (p : PhoneNumber) (f : field) : PhoneNumber :=
  match f with
  | FLen 1 bs => mkPhone (Some bs) (ph_type p)
  | FVarint 2 0 => mkPhone (ph_number p) (Some PHONE_TYPE_UNSPECIFIED)
  | FVarint 2 1 => mkPhone (ph_number p) (Some PHONE_TYPE_MOBILE)
  | FVarint 2 2 => mkPhone (ph_number p) (Some PHONE_TYPE_HOME)
  | FVarint 2 3 => mkPhone (ph_number p) (Some PHONE_TYPE_WORK)
  | _ => p
  end%Z.

Definition f_Person (p : Person) : list field :=
  opt_len 1 (pe_name p) ++ opt_varint 2 ((λ z, z mod 2 ^ 64)%Z <$> pe_id p) ++
  opt_len 3 (pe_email p) ++ map (λ ph, FLen 4 (enc_fields (f_Phone ph))) (phones p).
Definition s_Person (p : Person) (f : field) : Person :=
  match f with
  | FLen 1 bs => mkPerson (Some bs) (pe_id p) (pe_email p) (phones p)
  | FVarint 2 v => mkPerson (pe_name p) (Some (sint32 v)) (pe_email p) (phones p)
  | FLen 3 bs => mkPerson (pe_name p) (pe_id p) (Some bs) (phones p)
  | FLen 4 bs => mkPerson (pe_name p) (pe_id p) (pe_email p)
                   (phones p ++ [foldl s_Phone (mkPhone None None) (fields bs).2])
  | _ => p
  end%Z.

#[export] Instance wire_book : AddressBookLib := {
  Book_ParseFromIstream bs :=
    let '(ok, fs) := fields bs in
    (ok, omap (λ f, match f with
                    | FLen 1%Z bs =>
                        Some (foldl s_Person (mkPerson None None None []) (fields bs).2)
                    | _ => None
                    end) fs);
  Book_SerializeToOstream book := (true, enc_fields (map (λ p, FLen 1 (enc_fields (f_Person p))) book));
}.

Definition typed_ann : typed_person :=
  mkTyped (str "12") (str "Ann Lee") [] [(str "555 1234", str "work"); (str "99", str "car")].

Lemma added_person_is_listed_witness :
  let bob := mkPerson (Some (str "Bob")) (Some (-3)%Z) (Some (str "b@x.org")) [] in
  let file := Some (Book_SerializeToOstream [bob]).2 in
  let out := (Book_SerializeToOstream [bob; recorded typed_ann]).2 in
  write_main 2 file 0 (mkIstream (typed_text typed_ann) false false) = Ok (0%Z, Some out) ∧
  read_main 2 (Some out) = (0%Z, ListPeople [bob] ++ list_person (recorded typed_ann)).
Proof.
  intros bob file out. rewrite <- (app_nil_r (typed_text typed_ann)).
  apply (added_person_is_listed file [bob] 0 typed_ann [] out).
  - split; [split; [done|]| | | |]; try (by apply (bool_decide_eq_true_1 _); vm_compute).
  - by vm_compute.
  - by vm_compute.
  - by vm_compute.
Defined.

(** [PromptForAddress] terminates on every input, and once the ID cannot be read it
    records nothing of what follows: the person gets an empty name, no e-mail address
    and no phone number. *)
Theorem PromptForAddress_terminates uninit s :
  is_Ok (PromptForAddress uninit s) ∧
  ∀ b l, isspace b = false → isdigit b = false → b ≠ x2d → b ≠ x2b →
    s = mkIstream (b :: l) false false →
    ∃ s', PromptForAddress uninit s = Ok (mkPerson (Some []) (Some 0%Z) None [], s').
Proof.
  split; [apply PromptForAddress_total|]. intros b l Hs Hd Hm Hp ->.
  apply (PromptForAddress_failed _ _ _ (b :: l)). left. unfold read_int.
  cbn [good chars eofbit failbit negb andb span]. rewrite Hs. cbn [snd].
  rewrite !bool_decide_eq_false_2 by done. cbn [span]. by rewrite Hd.
Qed.

Lemma PromptForAddress_terminates_witness :
  ∃ s', PromptForAddress 7 (mkIstream (str "Ann" ++ [x0a] ++ str "Bob" ++ [x0a]) false false) =
          Ok (mkPerson (Some []) (Some 0%Z) None [], s').
Proof.
  by apply (proj2 (PromptForAddress_terminates 7
    (mkIstream (str "Ann" ++ [x0a] ++ str "Bob" ++ [x0a]) false false))
    x41 (str "nn" ++ [x0a] ++ str "Bob" ++ [x0a])).
Defined.
