(* ===== verification/Generated.v ===== *)
(** The messages protoc generated from [addressbook.proto]
    ([src/protobuf-tutorial/addressbook.pb.h], [addressbook.pb.cc]): the fields with
    their presence bits, the accessors, merging, copying, the size computation, which
    caches the sizes of the submessages, and the serialiser, which relies on them. The
    runtime of the protobuf library is a class. Arenas, reflection, the registration of
    descriptors and the tables of the parser are not modelled; an [ArenaStringPtr] is its
    string and a [RepeatedPtrField] the list of its elements. *)

From S2P Require Import Prelude.
From S2P Require Import Wire.
From S2P Require Import Tutorial.

Open Scope Z_scope.

(** ** The runtime library *)

Class ProtoRuntime := {
  (** The fields a parser did not know, as [_internal_metadata_] keeps them. *)
  UnknownFieldSet : Type;
  no_unknown_fields : UnknownFieldSet;
  unknown_MergeFrom : UnknownFieldSet → UnknownFieldSet → UnknownFieldSet;
  have_unknown_fields : UnknownFieldSet → bool;
  InternalSerializeUnknownFieldsToArray : UnknownFieldSet → bytes → bytes;
  (** [MaybeComputeUnknownFieldsSize(total_size, &cached_size)]: the size, and the value
      that is cached. *)
  MaybeComputeUnknownFieldsSize : Z → UnknownFieldSet → Z * Z;
  StringSize : bytes → Z;
  EnumSize : Z → Z;
  Int32SizePlusOne : Z → Z;
  (** [MessageSize(m)] is [LengthDelimitedSize(m.ByteSizeLong())]. *)
  LengthDelimitedSize : Z → Z;
  (** The writers take what has been written and return it extended. *)
  WriteStringMaybeAliased : Z → bytes → bytes → bytes;
  WriteEnumToArray : Z → Z → bytes → bytes;
  WriteInt32ToArrayWithField : Z → Z → bytes → bytes;
  (** The second argument is the [_InternalSerialize] of the submessage. *)
  InternalWriteMessage : Z → (bytes → bytes) → Z → bytes → bytes;
}.

(** A signed value is encoded as 64 bits. *)
Definition varint64 (v : Z) : bytes := enc_varint (v mod 2 ^ 64).

Definition len_varint (n : Z) : Z := Z.of_nat (length (enc_varint n)).

Class ProtoRuntimeLaws `{ProtoRuntime} := {
  (** The unknown fields in the encoding they were read in. *)
  unknown_bytes : UnknownFieldSet → bytes;
  unknown_bytes_none : unknown_bytes no_unknown_fields = [];
  unknown_bytes_merge a b : unknown_bytes (unknown_MergeFrom a b) = unknown_bytes a ++ unknown_bytes b;
  unknown_bytes_have u : have_unknown_fields u = false → unknown_bytes u = [];
  unknown_write u target :
    InternalSerializeUnknownFieldsToArray u target = target ++ unknown_bytes u;
  maybe_compute total u :
    0 ≤ total → total + Z.of_nat (length (unknown_bytes u)) < 2 ^ 31 →
    MaybeComputeUnknownFieldsSize total u =
      (total + Z.of_nat (length (unknown_bytes u)), total + Z.of_nat (length (unknown_bytes u)));
  string_size s :
    Z.of_nat (length s) < 2 ^ 31 →
    StringSize s = len_varint (Z.of_nat (length s)) + Z.of_nat (length s);
  enum_size v : - 2 ^ 31 ≤ v < 2 ^ 31 → EnumSize v = Z.of_nat (length (varint64 v));
  int32_size v :
    - 2 ^ 31 ≤ v < 2 ^ 31 → Int32SizePlusOne v = 1 + Z.of_nat (length (varint64 v));
  delimited_size n : 0 ≤ n < 2 ^ 31 → LengthDelimitedSize n = len_varint n + n;
  write_string num s target :
    Z.of_nat (length s) < 2 ^ 31 →
    WriteStringMaybeAliased num s target = target ++ enc_field (FLen num s);
  write_enum num v target :
    - 2 ^ 31 ≤ v < 2 ^ 31 →
    WriteEnumToArray num v target = target ++ enc_field (FVarint num (v mod 2 ^ 64));
  write_int32 num v target :
    - 2 ^ 31 ≤ v < 2 ^ 31 →
    WriteInt32ToArrayWithField num v target = target ++ enc_field (FVarint num (v mod 2 ^ 64));
  write_message num ser n target :
    0 ≤ n < 2 ^ 31 →
    InternalWriteMessage num ser n target =
      ser (target ++ enc_varint (num * 8 + 2) ++ enc_varint n);
}.

(** ** Presence bits *)

(** [(bits & mask) != 0]. *)
Definition has (bits mask : Z) : bool := negb (Z.land bits mask =? 0).

(** [bits |= mask], [bits &= ~mask]. *)
Definition with_bit (mask bits : Z) : Z := Z.lor bits mask.
Definition without_bit (mask bits : Z) : Z := Z.ldiff bits mask.

(** [total_size += n] on a [size_t]. *)
Definition add64 (total n : Z) : Z := (total + n) mod 2 ^ 64.

(** [field.Get(index)] of a [RepeatedPtrField]. *)
Definition field_get {A} (index : Z) (field : list A) : outcome A :=
  if index <? 0 then Oob else from_option Ok Oob (field !! Z.to_nat index).

Definition Person_PhoneType_IsValid (value : Z) : bool := (0 <=? value) && (value <=? 3).

Section messages.
  Context `{ProtoRuntime}.

(** ** [Person_PhoneNumber] *)

Record PhoneNumber_Impl := mkPhoneImpl {
  pn_has_bits_ : Z;
  pn_cached_size_ : Z;
  number_ : bytes;
  type_ : Z;
  pn_metadata_ : UnknownFieldSet;
}.

Definition PhoneNumber_init : PhoneNumber_Impl := mkPhoneImpl 0 0 [] 2 no_unknown_fields.

Definition pn_update (f : Z → Z) (number : bytes) (type : Z) (p : PhoneNumber_Impl) :
    PhoneNumber_Impl :=
  mkPhoneImpl (f (pn_has_bits_ p)) (pn_cached_size_ p) number type (pn_metadata_ p).

Definition has_number (p : PhoneNumber_Impl) : bool := has (pn_has_bits_ p) 1.
Definition clear_number (p : PhoneNumber_Impl) : PhoneNumber_Impl :=
  pn_update (without_bit 1) [] (type_ p) p.
Definition number (p : PhoneNumber_Impl) : bytes := number_ p.
Definition set_number (arg : bytes) (p : PhoneNumber_Impl) : PhoneNumber_Impl :=
  pn_update (with_bit 1) arg (type_ p) p.
(** [edit] is what the caller does to the string it gets a pointer to. *)
Definition mutable_number (edit : bytes → bytes) (p : PhoneNumber_Impl) : PhoneNumber_Impl :=
  pn_update (with_bit 1) (edit (number_ p)) (type_ p) p.
Definition release_number (p : PhoneNumber_Impl) : option bytes * PhoneNumber_Impl :=
  if negb (has (pn_has_bits_ p) 1) then (None, p)
  else (Some (number_ p), pn_update (without_bit 1) [] (type_ p) p).
Definition set_allocated_number (value : option bytes) (p : PhoneNumber_Impl) :
    PhoneNumber_Impl :=
  pn_update (if bool_decide (is_Some value) then with_bit 1 else without_bit 1)
    (default [] value) (type_ p) p.

Definition has_type (p : PhoneNumber_Impl) : bool := has (pn_has_bits_ p) 2.
Definition clear_type (p : PhoneNumber_Impl) : PhoneNumber_Impl :=
  pn_update (without_bit 2) (number_ p) 2 p.
Definition type (p : PhoneNumber_Impl) : Z := type_ p.
Definition set_type (value : Z) (p : PhoneNumber_Impl) : outcome PhoneNumber_Impl :=
  _ ← cassert (Person_PhoneType_IsValid value);
  Ok (pn_update (with_bit 2) (number_ p) value p).

Definition PhoneNumber_Clear (p : PhoneNumber_Impl) : PhoneNumber_Impl :=
  let bits := pn_has_bits_ p in
  let '(number, type) :=
    if has bits 3 then ((if has bits 1 then [] else number_ p), 2) else (number_ p, type_ p) in
  mkPhoneImpl 0 (pn_cached_size_ p) number type no_unknown_fields.

Definition PhoneNumber_InternalSerialize (p : PhoneNumber_Impl) (target : bytes) : bytes :=
  let bits := pn_has_bits_ p in
  let target := if has bits 1 then WriteStringMaybeAliased 1 (number_ p) target else target in
  let target := if has bits 2 then WriteEnumToArray 2 (type_ p) target else target in
  if have_unknown_fields (pn_metadata_ p)
  then InternalSerializeUnknownFieldsToArray (pn_metadata_ p) target else target.

(** The size, and the message with the cached size set. *)
Definition PhoneNumber_ByteSizeLong (p : PhoneNumber_Impl) : Z * PhoneNumber_Impl :=
  let bits := pn_has_bits_ p in
  let total_size := 0 in
  let total_size :=
    if has bits 3 then
      let total_size :=
        if has bits 1 then add64 total_size (1 + StringSize (number_ p)) else total_size in
      if has bits 2 then add64 total_size (1 + EnumSize (type_ p)) else total_size
    else total_size in
  let '(size, cached) := MaybeComputeUnknownFieldsSize total_size (pn_metadata_ p) in
  (size, mkPhoneImpl bits cached (number_ p) (type_ p) (pn_metadata_ p)).

Definition PhoneNumber_MergeImpl (this from : PhoneNumber_Impl) : PhoneNumber_Impl :=
  let bits := pn_has_bits_ from in
  let this :=
    if has bits 3 then
      let this := if has bits 1 then set_number (number_ from) this else this in
      if has bits 2 then pn_update (λ b, b) (number_ this) (type_ from) this else this
    else this in
  mkPhoneImpl (Z.lor (pn_has_bits_ this) bits) (pn_cached_size_ this) (number_ this)
    (type_ this) (unknown_MergeFrom (pn_metadata_ this) (pn_metadata_ from)).

(** [same]: whether [from] is the object itself. *)
Definition PhoneNumber_CopyFrom (same : bool) (this from : PhoneNumber_Impl) :
    PhoneNumber_Impl :=
  if same then this else PhoneNumber_MergeImpl (PhoneNumber_Clear this) from.

Definition PhoneNumber_copy (from : PhoneNumber_Impl) : PhoneNumber_Impl :=
  mkPhoneImpl (pn_has_bits_ from) 0 (number_ from) (type_ from)
    (unknown_MergeFrom no_unknown_fields (pn_metadata_ from)).

(** The cached sizes are not swapped. *)
Definition PhoneNumber_InternalSwap (this other : PhoneNumber_Impl) :
    PhoneNumber_Impl * PhoneNumber_Impl :=
  (mkPhoneImpl (pn_has_bits_ other) (pn_cached_size_ this) (number_ other) (type_ other)
     (pn_metadata_ other),
   mkPhoneImpl (pn_has_bits_ this) (pn_cached_size_ other) (number_ this) (type_ this)
     (pn_metadata_ this)).

(** ** [Person] *)

Record Person_Impl := mkPersonImpl {
  pe_has_bits_ : Z;
  pe_cached_size_ : Z;
  phones_ : list PhoneNumber_Impl;
  name_ : bytes;
  email_ : bytes;
  pe_id_ : Z;
  pe_metadata_ : UnknownFieldSet;
}.

Definition Person_init : Person_Impl := mkPersonImpl 0 0 [] [] [] 0 no_unknown_fields.

Definition pe_update (f : Z → Z) (name email : bytes) (id : Z) (p : Person_Impl) : Person_Impl :=
  mkPersonImpl (f (pe_has_bits_ p)) (pe_cached_size_ p) (phones_ p) name email id
    (pe_metadata_ p).
Definition pe_update_phones (phones : list PhoneNumber_Impl) (p : Person_Impl) : Person_Impl :=
  mkPersonImpl (pe_has_bits_ p) (pe_cached_size_ p) phones (name_ p) (email_ p) (pe_id_ p)
    (pe_metadata_ p).

Definition has_name (p : Person_Impl) : bool := has (pe_has_bits_ p) 1.
Definition clear_name (p : Person_Impl) : Person_Impl :=
  pe_update (without_bit 1) [] (email_ p) (pe_id_ p) p.
Definition name (p : Person_Impl) : bytes := name_ p.
Definition set_name (arg : bytes) (p : Person_Impl) : Person_Impl :=
  pe_update (with_bit 1) arg (email_ p) (pe_id_ p) p.
Definition mutable_name (edit : bytes → bytes) (p : Person_Impl) : Person_Impl :=
  pe_update (with_bit 1) (edit (name_ p)) (email_ p) (pe_id_ p) p.
Definition release_name (p : Person_Impl) : option bytes * Person_Impl :=
  if negb (has (pe_has_bits_ p) 1) then (None, p)
  else (Some (name_ p), pe_update (without_bit 1) [] (email_ p) (pe_id_ p) p).
Definition set_allocated_name (value : option bytes) (p : Person_Impl) : Person_Impl :=
  pe_update (if bool_decide (is_Some value) then with_bit 1 else without_bit 1)
    (default [] value) (email_ p) (pe_id_ p) p.

Definition has_id (p : Person_Impl) : bool := has (pe_has_bits_ p) 4.
Definition clear_id (p : Person_Impl) : Person_Impl :=
  pe_update (without_bit 4) (name_ p) (email_ p) 0 p.
Definition id (p : Person_Impl) : Z := pe_id_ p.
Definition set_id (value : Z) (p : Person_Impl) : Person_Impl :=
  pe_update (with_bit 4) (name_ p) (email_ p) value p.

Definition has_email (p : Person_Impl) : bool := has (pe_has_bits_ p) 2.
Definition clear_email (p : Person_Impl) : Person_Impl :=
  pe_update (without_bit 2) (name_ p) [] (pe_id_ p) p.
Definition email (p : Person_Impl) : bytes := email_ p.
Definition set_email (arg : bytes) (p : Person_Impl) : Person_Impl :=
  pe_update (with_bit 2) (name_ p) arg (pe_id_ p) p.
Definition mutable_email (edit : bytes → bytes) (p : Person_Impl) : Person_Impl :=
  pe_update (with_bit 2) (name_ p) (edit (email_ p)) (pe_id_ p) p.
Definition release_email (p : Person_Impl) : option bytes * Person_Impl :=
  if negb (has (pe_has_bits_ p) 2) then (None, p)
  else (Some (email_ p), pe_update (without_bit 2) (name_ p) [] (pe_id_ p) p).
Definition set_allocated_email (value : option bytes) (p : Person_Impl) : Person_Impl :=
  pe_update (if bool_decide (is_Some value) then with_bit 2 else without_bit 2)
    (name_ p) (default [] value) (pe_id_ p) p.

Definition phones_size (p : Person_Impl) : nat := length (phones_ p).
Definition clear_phones (p : Person_Impl) : Person_Impl := pe_update_phones [] p.
Definition get_phones (index : Z) (p : Person_Impl) : outcome PhoneNumber_Impl :=
  field_get index (phones_ p).
(** [edit] is what the caller does to the element it gets a pointer to. *)
Definition mutable_phones (index : Z) (edit : PhoneNumber_Impl → outcome PhoneNumber_Impl)
    (p : Person_Impl) : outcome Person_Impl :=
  ph ← get_phones index p;
  ph ← edit ph;
  Ok (pe_update_phones (<[Z.to_nat index := ph]> (phones_ p)) p).
(** The element is new, or one that was cleared and keeps its [cached] size. *)
Definition add_phones (cached : Z) (edit : PhoneNumber_Impl → outcome PhoneNumber_Impl)
    (p : Person_Impl) : outcome Person_Impl :=
  ph ← edit (mkPhoneImpl 0 cached [] 2 no_unknown_fields);
  Ok (pe_update_phones (phones_ p ++ [ph]) p).

Definition Person_Clear (p : Person_Impl) : Person_Impl :=
  let bits := pe_has_bits_ p in
  let '(name, email) :=
    if has bits 3 then
      ((if has bits 1 then [] else name_ p), (if has bits 2 then [] else email_ p))
    else (name_ p, email_ p) in
  mkPersonImpl 0 (pe_cached_size_ p) [] name email 0 no_unknown_fields.

Definition Person_InternalSerialize (p : Person_Impl) (target : bytes) : bytes :=
  let bits := pe_has_bits_ p in
  let target := if has bits 1 then WriteStringMaybeAliased 1 (name_ p) target else target in
  let target := if has bits 4 then WriteInt32ToArrayWithField 2 (pe_id_ p) target else target in
  let target := if has bits 2 then WriteStringMaybeAliased 3 (email_ p) target else target in
  let target :=
    foldl (λ target repfield,
      InternalWriteMessage 4 (PhoneNumber_InternalSerialize repfield)
        (pn_cached_size_ repfield) target) target (phones_ p) in
  if have_unknown_fields (pe_metadata_ p)
  then InternalSerializeUnknownFieldsToArray (pe_metadata_ p) target else target.

(** [for (msg : field) total_size += MessageSize(msg)]: the size of every element is
    computed and cached. *)
Fixpoint message_sizes {A} (ByteSizeLong : A → Z * A) (field : list A) (total_size : Z) :
    Z * list A :=
  match field with
  | [] => (total_size, [])
  | msg :: field =>
      let '(size, msg) := ByteSizeLong msg in
      let '(total_size, field) :=
        message_sizes ByteSizeLong field (add64 total_size (LengthDelimitedSize size)) in
      (total_size, msg :: field)
  end.

Definition Person_ByteSizeLong (p : Person_Impl) : Z * Person_Impl :=
  let bits := pe_has_bits_ p in
  let total_size := add64 0 (Z.of_nat (length (phones_ p))) in
  let '(total_size, phones) := message_sizes PhoneNumber_ByteSizeLong (phones_ p) total_size in
  let total_size :=
    if has bits 7 then
      let total_size :=
        if has bits 1 then add64 total_size (1 + StringSize (name_ p)) else total_size in
      let total_size :=
        if has bits 2 then add64 total_size (1 + StringSize (email_ p)) else total_size in
      if has bits 4 then add64 total_size (Int32SizePlusOne (pe_id_ p)) else total_size
    else total_size in
  let '(size, cached) := MaybeComputeUnknownFieldsSize total_size (pe_metadata_ p) in
  (size, mkPersonImpl bits cached phones (name_ p) (email_ p) (pe_id_ p) (pe_metadata_ p)).

(** [RepeatedPtrField::MergeFrom] appends a copy of every element. *)
Definition Person_MergeImpl (this from : Person_Impl) : Person_Impl :=
  let this := pe_update_phones (phones_ this ++ map PhoneNumber_copy (phones_ from)) this in
  let bits := pe_has_bits_ from in
  let this :=
    if has bits 7 then
      let this := if has bits 1 then set_name (name_ from) this else this in
      let this := if has bits 2 then set_email (email_ from) this else this in
      if has bits 4 then pe_update (λ b, b) (name_ this) (email_ this) (pe_id_ from) this
      else this
    else this in
  mkPersonImpl (Z.lor (pe_has_bits_ this) bits) (pe_cached_size_ this) (phones_ this)
    (name_ this) (email_ this) (pe_id_ this)
    (unknown_MergeFrom (pe_metadata_ this) (pe_metadata_ from)).

Definition Person_CopyFrom (same : bool) (this from : Person_Impl) : Person_Impl :=
  if same then this else Person_MergeImpl (Person_Clear this) from.

Definition Person_copy (from : Person_Impl) : Person_Impl :=
  mkPersonImpl (pe_has_bits_ from) 0 (map PhoneNumber_copy (phones_ from)) (name_ from)
    (email_ from) (pe_id_ from) (unknown_MergeFrom no_unknown_fields (pe_metadata_ from)).

Definition Person_InternalSwap (this other : Person_Impl) : Person_Impl * Person_Impl :=
  (mkPersonImpl (pe_has_bits_ other) (pe_cached_size_ this) (phones_ other) (name_ other)
     (email_ other) (pe_id_ other) (pe_metadata_ other),
   mkPersonImpl (pe_has_bits_ this) (pe_cached_size_ other) (phones_ this) (name_ this)
     (email_ this) (pe_id_ this) (pe_metadata_ this)).

(** ** [AddressBook] *)

Record AddressBook_Impl := mkBookImpl {
  people_ : list Person_Impl;
  ab_cached_size_ : Z;
  ab_metadata_ : UnknownFieldSet;
}.

Definition AddressBook_init : AddressBook_Impl := mkBookImpl [] 0 no_unknown_fields.

Definition people_size (b : AddressBook_Impl) : nat := length (people_ b).
Definition clear_people (b : AddressBook_Impl) : AddressBook_Impl :=
  mkBookImpl [] (ab_cached_size_ b) (ab_metadata_ b).
Definition get_people (index : Z) (b : AddressBook_Impl) : outcome Person_Impl :=
  field_get index (people_ b).
Definition mutable_people (index : Z) (edit : Person_Impl → outcome Person_Impl)
    (b : AddressBook_Impl) : outcome AddressBook_Impl :=
  p ← get_people index b;
  p ← edit p;
  Ok (mkBookImpl (<[Z.to_nat index := p]> (people_ b)) (ab_cached_size_ b) (ab_metadata_ b)).
Definition add_people (cached : Z) (edit : Person_Impl → outcome Person_Impl)
    (b : AddressBook_Impl) : outcome AddressBook_Impl :=
  p ← edit (mkPersonImpl 0 cached [] [] [] 0 no_unknown_fields);
  Ok (mkBookImpl (people_ b ++ [p]) (ab_cached_size_ b) (ab_metadata_ b)).

Definition AddressBook_Clear (b : AddressBook_Impl) : AddressBook_Impl :=
  mkBookImpl [] (ab_cached_size_ b) no_unknown_fields.

Definition AddressBook_InternalSerialize (b : AddressBook_Impl) (target : bytes) : bytes :=
  let target :=
    foldl (λ target repfield,
      InternalWriteMessage 1 (Person_InternalSerialize repfield)
        (pe_cached_size_ repfield) target) target (people_ b) in
  if have_unknown_fields (ab_metadata_ b)
  then InternalSerializeUnknownFieldsToArray (ab_metadata_ b) target else target.

Definition AddressBook_ByteSizeLong (b : AddressBook_Impl) : Z * AddressBook_Impl :=
  let total_size := add64 0 (Z.of_nat (length (people_ b))) in
  let '(total_size, people) := message_sizes Person_ByteSizeLong (people_ b) total_size in
  let '(size, cached) := MaybeComputeUnknownFieldsSize total_size (ab_metadata_ b) in
  (size, mkBookImpl people cached (ab_metadata_ b)).

Definition AddressBook_MergeImpl (this from : AddressBook_Impl) : AddressBook_Impl :=
  mkBookImpl (people_ this ++ map Person_copy (people_ from)) (ab_cached_size_ this)
    (unknown_MergeFrom (ab_metadata_ this) (ab_metadata_ from)).

Definition AddressBook_CopyFrom (same : bool) (this from : AddressBook_Impl) :
    AddressBook_Impl :=
  if same then this else AddressBook_MergeImpl (AddressBook_Clear this) from.

Definition AddressBook_copy (from : AddressBook_Impl) : AddressBook_Impl :=
  mkBookImpl (map Person_copy (people_ from)) 0
    (unknown_MergeFrom no_unknown_fields (ab_metadata_ from)).

Definition AddressBook_InternalSwap (this other : AddressBook_Impl) :
    AddressBook_Impl * AddressBook_Impl :=
  (mkBookImpl (people_ other) (ab_cached_size_ this) (ab_metadata_ other),
   mkBookImpl (people_ this) (ab_cached_size_ other) (ab_metadata_ this)).

End messages.
