(* ===== verification/GeneratedTheorems.v ===== *)
(** The properties of the generated address book messages: the presence bits implement
    optional fields, the cached sizes are those of the encodings, and merging is reading
    the encodings one after the other. *)

From S2P Require Import Prelude.
From S2P Require Import Wire.
From S2P Require Import Tutorial.
From S2P Require Import Generated.

Open Scope Z_scope.

Arguments varint64 : simpl never.
Arguments len_varint : simpl never.

(** ** Presence bits *)

Lemma has_lor a b k : has (Z.lor a b) k = has a k || has b k.
Proof.
  unfold has. rewrite Z.land_lor_distr_l, <- negb_andb. f_equal.
  apply eq_true_iff_eq. rewrite andb_true_iff, !Z.eqb_eq. apply Z.lor_eq_0_iff.
Qed.

Lemma has_mask_lor b k l : has b (Z.lor k l) = has b k || has b l.
Proof. unfold has. rewrite !(Z.land_comm b). apply (has_lor k l b). Qed.

Lemma has_with m b k : has (with_bit m b) k = has b k || has m k.
Proof. apply has_lor. Qed.

Lemma has_without m b k : has (without_bit m b) k = has b (Z.ldiff k m).
Proof.
  unfold has, without_bit. do 2 f_equal. apply Z.bits_inj'. intros n Hn.
  rewrite !Z.land_spec, !Z.ldiff_spec. by destruct (Z.testbit b n), (Z.testbit m n), (Z.testbit k n).
Qed.

Lemma has_3 b : has b 3 = has b 1 || has b 2.
Proof. apply (has_mask_lor b 1 2). Qed.

Lemma has_7 b : has b 7 = has b 1 || has b 2 || has b 4.
Proof. rewrite <- has_3. apply (has_mask_lor b 3 4). Qed.

Lemma has_none b : has b 0 = false.
Proof. unfold has. by rewrite Z.land_0_r. Qed.

Create Rewrite HintDb bits.
#[export] Hint Rewrite has_lor has_with has_without has_3 has_7 has_none : bits.

(** Computes the presence bits of updated messages in the goal. *)
Ltac bits :=
  repeat (progress autorewrite with bits ||
    match goal with
    | |- context [Z.ldiff (Zpos ?k) (Zpos ?m)] =>
        let v := eval vm_compute in (Z.ldiff (Zpos k) (Zpos m)) in
        change (Z.ldiff (Zpos k) (Zpos m)) with v
    | |- context [has ?k (Zpos ?m)] =>
        match k with
        | 0 => change (has 0 (Zpos m)) with false
        | Zpos _ => let v := eval vm_compute in (has k (Zpos m)) in
                    change (has k (Zpos m)) with v
        end
    end; rewrite ?orb_false_r, ?orb_true_r).

(** ** The messages as values *)

Definition PhoneType_of_value (v : Z) : PhoneType :=
  match v with
  | 0 => PHONE_TYPE_UNSPECIFIED
  | 1 => PHONE_TYPE_MOBILE
  | 2 => PHONE_TYPE_HOME
  | _ => PHONE_TYPE_WORK
  end.

Section values.
  Context `{ProtoRuntime}.

Definition abs_phone (p : PhoneNumber_Impl) : PhoneNumber :=
  mkPhone (if has_number p then Some (number_ p) else None)
    (if has_type p then Some (PhoneType_of_value (type_ p)) else None).

Definition abs_person (p : Person_Impl) : Person :=
  mkPerson (if has_name p then Some (name_ p) else None)
    (if has_id p then Some (pe_id_ p) else None)
    (if has_email p then Some (email_ p) else None) (map abs_phone (phones_ p)).

(** An absent field holds its default value. *)
Record wf_phone (p : PhoneNumber_Impl) : Prop := {
  wf_number : has_number p = false → number_ p = [];
  wf_type : has_type p = false → type_ p = 2;
  wf_valid : Person_PhoneType_IsValid (type_ p) = true;
}.

Record wf_person (p : Person_Impl) : Prop := {
  wf_name : has_name p = false → name_ p = [];
  wf_email : has_email p = false → email_ p = [];
  wf_id : has_id p = false → pe_id_ p = 0;
  wf_int32 : - 2 ^ 31 ≤ pe_id_ p < 2 ^ 31;
  wf_phones : Forall wf_phone (phones_ p);
}.

(** ** The accessors *)

Inductive phone_op :=
| SetNumber (arg : bytes)
| ClearNumber
| MutableNumber (edit : bytes → bytes)
| ReleaseNumber
| SetAllocatedNumber (value : option bytes)
| SetType (value : Z)
| ClearType
| ClearPhone.

Definition phone_do (p : PhoneNumber_Impl) (o : phone_op) : outcome PhoneNumber_Impl :=
  match o with
  | SetNumber arg => Ok (set_number arg p)
  | ClearNumber => Ok (clear_number p)
  | MutableNumber edit => Ok (mutable_number edit p)
  | ReleaseNumber => Ok (release_number p).2
  | SetAllocatedNumber value => Ok (set_allocated_number value p)
  | SetType value => set_type value p
  | ClearType => Ok (clear_type p)
  | ClearPhone => Ok (PhoneNumber_Clear p)
  end.

(** The same on optional fields. *)
Definition phone_spec (p : PhoneNumber) (o : phone_op) : outcome PhoneNumber :=
  match o with
  | SetNumber arg => Ok (mkPhone (Some arg) (ph_type p))
  | ClearNumber | ReleaseNumber => Ok (mkPhone None (ph_type p))
  | MutableNumber edit => Ok (mkPhone (Some (edit (default [] (ph_number p)))) (ph_type p))
  | SetAllocatedNumber value => Ok (mkPhone value (ph_type p))
  | SetType value =>
      if Person_PhoneType_IsValid value
      then Ok (mkPhone (ph_number p) (Some (PhoneType_of_value value))) else Abort
  | ClearType => Ok (mkPhone (ph_number p) None)
  | ClearPhone => Ok (mkPhone None None)
  end.

(** [r] is what the specification says and is well formed. *)
Definition refines {A B} (wf : A → Prop) (abs : A → B) (r : outcome A) (s : outcome B) : Prop :=
  abs <$> r = s ∧ ∀ a, r = Ok a → wf a.

Lemma refines_ok {A B} (wf : A → Prop) (abs : A → B) a b :
  abs a = b → wf a → refines wf abs (Ok a) (Ok b).
Proof. intros <- Hwf. split; [done|]. by intros ? [= <-]. Qed.

Lemma refines_fold {A B O} (wf : A → Prop) (abs : A → B) (f : A → O → outcome A) g (l : list O) a :
  (∀ a o, o ∈ l → wf a → refines wf abs (f a o) (g (abs a) o)) → wf a →
  refines wf abs (mfold f l a) (mfold g l (abs a)).
Proof.
  revert a. induction l as [|o l IH]; intros a Hf Ha; [by apply refines_ok|]. cbn [mfold].
  destruct (Hf a o) as [<- Hwf]; [by left|done|].
  destruct (f a o) as [a'| | |]; cbn; try by split. apply IH; [|by apply Hwf].
  intros a0 o0 Ho. apply Hf. by right.
Qed.

(** Unfolds the accessors and computes the presence bits. *)
Ltac presence :=
  unfold abs_phone, abs_person, has_number, has_type, has_name, has_email, has_id, pn_update,
    pe_update, pe_update_phones, default in *; cbn in *; bits; cbn.

Lemma phone_op_refines p o :
  wf_phone p → refines wf_phone abs_phone (phone_do p o) (phone_spec (abs_phone p) o).
Proof.
  intros Hp. destruct p as [b c n t u]. destruct Hp as [Hn Ht Hv].
  destruct o as [arg| |edit| |[value|]|value| |]; cbn [phone_do phone_spec];
    unfold set_type, release_number, PhoneNumber_Clear;
    try (destruct (Person_PhoneType_IsValid value) eqn:?; cbn [cassert mbind outcome_bind];
         [|by split]); cbn [pn_has_bits_ number_ type_ pn_metadata_ pn_cached_size_];
    rewrite ?has_3; destruct (has b 1) eqn:Hb1; try destruct (has b 2) eqn:?;
    cbn [negb fst snd orb]; (apply refines_ok; [|split]); presence;
    rewrite ?Hb1; try done; auto.
  all: by rewrite Hn.
Qed.

Inductive person_op :=
| SetName (arg : bytes)
| ClearName
| MutableName (edit : bytes → bytes)
| ReleaseName
| SetAllocatedName (value : option bytes)
| SetId (value : Z)
| ClearId
| SetEmail (arg : bytes)
| ClearEmail
| MutableEmail (edit : bytes → bytes)
| ReleaseEmail
| SetAllocatedEmail (value : option bytes)
| ClearPhones
| MutablePhones (index : Z) (ops : list phone_op)
| AddPhones (cached : Z) (ops : list phone_op)
| ClearPerson.

Definition person_do (p : Person_Impl) (o : person_op) : outcome Person_Impl :=
  match o with
  | SetName arg => Ok (set_name arg p)
  | ClearName => Ok (clear_name p)
  | MutableName edit => Ok (mutable_name edit p)
  | ReleaseName => Ok (release_name p).2
  | SetAllocatedName value => Ok (set_allocated_name value p)
  | SetId value => Ok (set_id value p)
  | ClearId => Ok (clear_id p)
  | SetEmail arg => Ok (set_email arg p)
  | ClearEmail => Ok (clear_email p)
  | MutableEmail edit => Ok (mutable_email edit p)
  | ReleaseEmail => Ok (release_email p).2
  | SetAllocatedEmail value => Ok (set_allocated_email value p)
  | ClearPhones => Ok (clear_phones p)
  | MutablePhones index ops => mutable_phones index (mfold phone_do ops) p
  | AddPhones cached ops => add_phones cached (mfold phone_do ops) p
  | ClearPerson => Ok (Person_Clear p)
  end.

Definition person_spec (p : Person) (o : person_op) : outcome Person :=
  let '(mkPerson name id email phones) := p in
  match o with
  | SetName arg => Ok (mkPerson (Some arg) id email phones)
  | ClearName | ReleaseName => Ok (mkPerson None id email phones)
  | MutableName edit => Ok (mkPerson (Some (edit (default [] name))) id email phones)
  | SetAllocatedName value => Ok (mkPerson value id email phones)
  | SetId value => Ok (mkPerson name (Some value) email phones)
  | ClearId => Ok (mkPerson name None email phones)
  | SetEmail arg => Ok (mkPerson name id (Some arg) phones)
  | ClearEmail | ReleaseEmail => Ok (mkPerson name id None phones)
  | MutableEmail edit => Ok (mkPerson name id (Some (edit (default [] email))) phones)
  | SetAllocatedEmail value => Ok (mkPerson name id value phones)
  | ClearPhones => Ok (mkPerson name id email [])
  | MutablePhones index ops =>
      ph ← field_get index phones;
      ph ← mfold phone_spec ops ph;
      Ok (mkPerson name id email (<[Z.to_nat index := ph]> phones))
  | AddPhones _ ops =>
      ph ← mfold phone_spec ops (mkPhone None None);
      Ok (mkPerson name id email (phones ++ [ph]))
  | ClearPerson => Ok (mkPerson None None None [])
  end.

(** An argument of [set_id] is an [int32_t]. *)
Definition op_ok (o : person_op) : Prop :=
  match o with SetId value => - 2 ^ 31 ≤ value < 2 ^ 31 | _ => True end.

Lemma person_phones_refines f g b c phs n e i u ops (k : PhoneNumber_Impl → list PhoneNumber_Impl)
    (k' : PhoneNumber → list PhoneNumber) :
  wf_person (mkPersonImpl b c phs n e i u) → wf_phone f → g = abs_phone f →
  (∀ ph, wf_phone ph → Forall wf_phone (k ph) ∧ map abs_phone (k ph) = k' (abs_phone ph)) →
  refines wf_person abs_person
    (ph ← mfold phone_do ops f; Ok (mkPersonImpl b c (k ph) n e i u))
    (ph ← mfold phone_spec ops g;
     Ok (mkPerson (if has b 1 then Some n else None) (if has b 4 then Some i else None)
           (if has b 2 then Some e else None) (k' ph))).
Proof.
  intros [Hn He Hi Hr _] Hf -> Hk.
  destruct (refines_fold wf_phone abs_phone phone_do phone_spec ops f) as [<- Hwf];
    [by auto using phone_op_refines|done|].
  destruct (mfold phone_do ops f) as [ph| | |]; cbn; try by split.
  destruct (Hk ph (Hwf _ eq_refl)) as [Hphs <-]. by apply refines_ok.
Qed.

Lemma person_op_refines p o :
  op_ok o → wf_person p →
  refines wf_person abs_person (person_do p o) (person_spec (abs_person p) o).
Proof.
  intros Ho Hp. pose proof Hp as Hwf.
  destruct p as [b c phs n e i u]. destruct Hp as [Hn He Hi Hr Hphs]. cbn in Hn, He, Hi, Hr, Hphs.
  destruct o as [arg| |edit| |[value|]|value| |arg| |edit| |[value|]| |index ops|cached ops|];
    cbn [person_do person_spec].
  16: { unfold mutable_phones, get_phones, field_get, abs_person at 2. cbn [phones_ person_spec].
    unfold field_get.
    destruct (index <? 0); [by split|]. rewrite list_lookup_fmap.
    destruct (phs !! Z.to_nat index) as [f|] eqn:Ef; [|by split].
    cbn [from_option fmap option_fmap option_map mbind outcome_bind].
    apply (person_phones_refines f _ b c phs n e i u ops (λ ph, <[Z.to_nat index := ph]> phs)
      (λ ph, <[Z.to_nat index := ph]> (map abs_phone phs))); [done|by eapply Forall_lookup_1|done|].
    intros ph Hph. split; [by apply Forall_insert|]. by apply list_fmap_insert. }
  16: { unfold abs_person at 2. apply (person_phones_refines (mkPhoneImpl 0 cached [] 2 no_unknown_fields)
      _ b c phs n e i u ops (λ ph, phs ++ [ph]) (λ ph, map abs_phone phs ++ [ph]));
      [done|by split|done|].
    intros ph Hph. split; [apply Forall_app; split; [done|by constructor]|]. by rewrite map_app. }
  all: try (unfold release_name, release_email, Person_Clear;
    cbn [pe_has_bits_ name_ email_ pe_id_ pe_metadata_ pe_cached_size_ phones_]; 
    rewrite ?has_3; destruct (has b 1) eqn:Hb1; try destruct (has b 2) eqn:Hb2;
    cbn [negb fst snd orb]; (apply refines_ok; [|split]); presence;
    rewrite ?Hb1, ?Hb2; try done; auto; fail).
  all: destruct (has b 1) eqn:Hb1, (has b 2) eqn:Hb2; (apply refines_ok; [|split]); presence; rewrite ?Hb1, ?Hb2; try done; auto.
  all: rewrite ?Hn, ?He by done; done.
Qed.

(** ** Merging *)

Definition first_of {A} (a b : option A) : option A :=
  match a with Some _ => a | None => b end.

Lemma first_of_none {A} (a : option A) : first_of a None = a.
Proof. by destruct a. Qed.

(** What merging does to optional fields: a present field replaces, and the elements of a
    repeated field are appended. *)
Definition merge_person (this from : Person) : Person :=
  mkPerson (first_of (pe_name from) (pe_name this)) (first_of (pe_id from) (pe_id this))
    (first_of (pe_email from) (pe_email this)) (Tutorial.phones this ++ Tutorial.phones from).

Lemma abs_phone_copy l : map abs_phone (map PhoneNumber_copy l) = map abs_phone l.
Proof. rewrite map_map. by apply map_ext. Qed.

Lemma abs_person_merge this from :
  abs_person (Person_MergeImpl this from) = merge_person (abs_person this) (abs_person from).
Proof.
  destruct this as [b c phs n e i u], from as [b' c' phs' n' e' i' u'].
  unfold Person_MergeImpl, merge_person.
  cbn [pe_has_bits_ phones_ name_ email_ pe_id_ pe_metadata_ pe_update_phones set_name set_email].
  rewrite has_7.
  destruct (has b' 1) eqn:E1, (has b' 2) eqn:E2, (has b' 4) eqn:E4; presence;
    rewrite ?E1, ?E2, ?E4, ?map_app, ?abs_phone_copy, ?orb_true_r, ?orb_false_r; cbn;
    repeat case_match; done.
Qed.

Lemma wf_person_merge this from :
  wf_person this → wf_person from → wf_person (Person_MergeImpl this from).
Proof.
  intros [Hn He Hi Hr Hphs] [Hn' He' Hi' Hr' Hphs'].
  destruct this as [b c phs n e i u], from as [b' c' phs' n' e' i' u'].
  unfold has_name, has_email, has_id in *.
  cbn [pe_has_bits_ phones_ name_ email_ pe_id_] in *.
  assert (Forall wf_phone (phs ++ map PhoneNumber_copy phs')) as Hc.
  { apply Forall_app. split; [done|]. apply Forall_fmap. eapply Forall_impl; [exact Hphs'|].
    intros ph [? ? ?]. by split. }
  unfold Person_MergeImpl.
  cbn [pe_has_bits_ phones_ name_ email_ pe_id_ pe_metadata_ pe_update_phones set_name set_email].
  rewrite has_7.
  destruct (has b' 1) eqn:E1, (has b' 2) eqn:E2, (has b' 4) eqn:E4; cbn [orb]; split;
    presence; rewrite ?E1, ?E2, ?E4, ?orb_true_r, ?orb_false_r; done || auto.
Qed.

Lemma wf_person_copy this from :
  wf_person this → wf_person from → wf_person (Person_CopyFrom false this from).
Proof.
  intros Ht Hf. apply wf_person_merge; [|done].
  destruct (person_op_refines this ClearPerson I Ht) as [_ Hc]. by apply Hc.
Qed.

End values.

(** ** The encodings *)

Section encodings.
  Context `{ProtoRuntimeLaws}.

(** The bytes of a message: its present fields in the order of their numbers, and the
    unknown fields. *)
Definition phone_wire (p : PhoneNumber_Impl) : bytes :=
  enc_fields (f_Phone (abs_phone p)) ++ unknown_bytes (pn_metadata_ p).

Definition person_wire (p : Person_Impl) : bytes :=
  enc_fields (opt_len 1 (pe_name (abs_person p)) ++
    opt_varint 2 ((λ z, z mod 2 ^ 64) <$> pe_id (abs_person p)) ++
    opt_len 3 (pe_email (abs_person p)) ++
    map (λ ph, FLen 4 (phone_wire ph)) (phones_ p)) ++ unknown_bytes (pe_metadata_ p).

Definition book_wire (b : AddressBook_Impl) : bytes :=
  enc_fields (map (λ p, FLen 1 (person_wire p)) (people_ b)) ++ unknown_bytes (ab_metadata_ b).

Lemma enc_fields_app l1 l2 : enc_fields (l1 ++ l2) = enc_fields l1 ++ enc_fields l2.
Proof. unfold enc_fields. by rewrite map_app, concat_app. Qed.

Lemma add64_id total n : 0 ≤ total + n < 2 ^ 64 → add64 total n = total + n.
Proof. apply Z.mod_small. Qed.

(** The size of a submessage and what is written for it, once its size is cached. *)
Record sized {A} (BSL : A → Z * A) (ser : A → bytes → bytes) (cached : A → Z)
    (wire : A → bytes) (x : A) : Prop := {
  sized_size : (BSL x).1 = Z.of_nat (length (wire x));
  sized_cached : cached (BSL x).2 = Z.of_nat (length (wire x));
  sized_ser target : ser (BSL x).2 target = target ++ wire x;
}.

(** The tag of a field of a message takes one byte when its number is below 16. *)
Definition short_tag (num : Z) : Prop := length (enc_varint (num * 8 + 2)) = 1%nat.

Lemma length_delimited num bs :
  short_tag num →
  Z.of_nat (length (enc_field (FLen num bs))) =
    1 + (len_varint (Z.of_nat (length bs)) + Z.of_nat (length bs)).
Proof. intros Ht. cbn [enc_field]. rewrite !length_app, Ht. unfold len_varint. lia. Qed.

Lemma len_varint_nonneg n : 0 ≤ len_varint n.
Proof. unfold len_varint. lia. Qed.

Lemma length_enc_fields_ge fs : (length fs ≤ length (enc_fields fs))%nat.
Proof.
  induction fs as [|f fs IH]; [done|].
  change (enc_fields (f :: fs)) with (enc_field f ++ enc_fields fs).
  pose proof (enc_field_nonempty f). rewrite length_app. cbn [length]. lia.
Qed.

(** The loop over a repeated field of messages, in the size computation and in the
    serialiser. *)
Lemma message_sizes_spec {A} BSL ser cached wire num (l : list A) total target :
  short_tag num → 0 ≤ total →
  Forall (λ x, Z.of_nat (length (wire x)) < 2 ^ 31 → sized BSL ser cached wire x) l →
  let field := enc_fields (map (λ x, FLen num (wire x)) l) in
  total + Z.of_nat (length field) - Z.of_nat (length l) < 2 ^ 31 →
  ∃ l', message_sizes BSL l total = (total + Z.of_nat (length field) - Z.of_nat (length l), l') ∧
        foldl (λ target x, InternalWriteMessage num (ser x) (cached x) target) target l' =
          target ++ field.
Proof.
  intros Ht. revert total target.
  induction l as [|x l IH]; intros total target Hto Hl field Hf; subst field.
  { exists []. cbn. split; [f_equal; lia|by rewrite app_nil_r]. }
  apply Forall_cons in Hl as [Hx Hl]. cbn [map length] in *.
  change (enc_fields (?f :: ?fs)) with (enc_field f ++ enc_fields fs) in *.
  rewrite length_app, Nat2Z.inj_add, length_delimited in Hf by done.
  pose proof (length_enc_fields_ge (map (λ x, FLen num (wire x)) l)) as Hge.
  rewrite length_map in Hge.
  pose proof (len_varint_nonneg (Z.of_nat (length (wire x)))).
  destruct Hx as [Hsz Hca Hse]; [lia|].
  cbn [message_sizes]. destruct (BSL x) as [size x'] eqn:E. cbn [fst snd] in *. subst size.
  rewrite delimited_size, add64_id by lia.
  edestruct (IH (total + (len_varint (Z.of_nat (length (wire x))) + Z.of_nat (length (wire x)))))
    as (l' & -> & Hw); [lia|done|lia|].
  exists (x' :: l'). split.
  - f_equal. rewrite length_app, Nat2Z.inj_add, length_delimited by done. cbn [length]. lia.
  - cbn [foldl]. rewrite Hw, Hca, write_message, Hse by lia. cbn [enc_field].
    by rewrite <- !app_assoc.
Qed.

(** A field that may be absent: its bytes, the size the code adds for it, and what the
    code writes for it. *)
Lemma optional_size (b : bool) f n total :
  (b = true → n = Z.of_nat (length (enc_field f))) → 0 ≤ total →
  total + Z.of_nat (length (enc_fields (if b then [f] else []))) < 2 ^ 64 →
  (if b then add64 total n else total) =
    total + Z.of_nat (length (enc_fields (if b then [f] else []))).
Proof.
  intros Hn Ht Hl. destruct b; cbn in *; [|lia]. rewrite app_nil_r in *.
  specialize (Hn eq_refl). rewrite add64_id; lia.
Qed.

Lemma optional_write (b : bool) f (w : bytes → bytes) target :
  (b = true → w target = target ++ enc_field f) →
  (if b then w target else target) = target ++ enc_fields (if b then [f] else []).
Proof. destruct b; cbn; intros Hw; rewrite ?app_nil_r; auto. Qed.

Lemma enc_if_length (b : bool) num s :
  b = true →
  (length s ≤ length (enc_fields (if b then [FLen num s] else [])))%nat.
Proof. intros ->. cbn. rewrite !length_app. lia. Qed.

Lemma unknown_write_if u target :
  (if have_unknown_fields u then InternalSerializeUnknownFieldsToArray u target else target) =
    target ++ unknown_bytes u.
Proof.
  destruct (have_unknown_fields u) eqn:E; [apply unknown_write|].
  by rewrite unknown_bytes_have, app_nil_r.
Qed.

Lemma opt_len_if num (b : bool) s :
  opt_len num (if b then Some s else None) = if b then [FLen num s] else [].
Proof. by destruct b. Qed.

Lemma string_field_size num s :
  short_tag num → Z.of_nat (length s) < 2 ^ 31 →
  1 + StringSize s = Z.of_nat (length (enc_field (FLen num s))).
Proof. intros. rewrite length_delimited, string_size by done. lia. Qed.

Lemma type_value t :
  Person_PhoneType_IsValid t = true →
  (match PhoneType_of_value t with
   | PHONE_TYPE_UNSPECIFIED => 0
   | PHONE_TYPE_MOBILE => 1
   | PHONE_TYPE_HOME => 2
   | PHONE_TYPE_WORK => 3
   end) = t mod 2 ^ 64.
Proof.
  unfold Person_PhoneType_IsValid. intros [H1 H2]%andb_true_iff.
  apply Z.leb_le in H1, H2. assert (t = 0 ∨ t = 1 ∨ t = 2 ∨ t = 3) as Ht by lia.
  by destruct Ht as [-> | [-> | [-> | ->]]].
Qed.

(** The fields of a phone number, as the code tests them. *)
Lemma phone_wire_fields p :
  wf_phone p →
  phone_wire p =
    enc_fields (if has (pn_has_bits_ p) 1 then [FLen 1 (number_ p)] else []) ++
    enc_fields (if has (pn_has_bits_ p) 2 then [FVarint 2 (type_ p mod 2 ^ 64)] else []) ++
    unknown_bytes (pn_metadata_ p).
Proof.
  intros [_ _ Hv]. unfold phone_wire, f_Phone, abs_phone, has_number, has_type.
  cbn [ph_number ph_type]. rewrite opt_len_if, enc_fields_app, <- app_assoc.
  destruct (has (pn_has_bits_ p) 2); [|done].
  cbn [fmap option_fmap option_map opt_varint from_option]. by rewrite type_value.
Qed.

Lemma varint_field_size num v :
  short_tag num → length (enc_varint (num * 8)) = 1%nat →
  Z.of_nat (length (enc_field (FVarint num (v mod 2 ^ 64)))) = 1 + Z.of_nat (length (varint64 v)).
Proof. intros _ Ht. cbn [enc_field]. rewrite length_app, Ht. unfold varint64. lia. Qed.

(** The guard around the optional fields changes nothing. *)
Lemma phone_total b n1 n2 :
  (if has b 3 then
     if has b 2 then add64 (if has b 1 then add64 0 n1 else 0) n2
     else if has b 1 then add64 0 n1 else 0
   else 0) =
  (if has b 2 then add64 (if has b 1 then add64 0 n1 else 0) n2
   else if has b 1 then add64 0 n1 else 0).
Proof. rewrite has_3. by destruct (has b 1), (has b 2). Qed.

Lemma phone_sized p :
  wf_phone p → Z.of_nat (length (phone_wire p)) < 2 ^ 31 →
  sized PhoneNumber_ByteSizeLong PhoneNumber_InternalSerialize pn_cached_size_ phone_wire p.
Proof.
  intros Hwf Hl. pose proof (phone_wire_fields p Hwf) as Hw. rewrite Hw in Hl.
  destruct Hwf as [_ _ Hv]. unfold Person_PhoneType_IsValid in Hv.
  apply andb_true_iff in Hv as [Hv1 Hv2]. apply Z.leb_le in Hv1, Hv2.
  rewrite !length_app in Hl.
  assert (has (pn_has_bits_ p) 1 = true → Z.of_nat (length (number_ p)) < 2 ^ 31) as Hn.
  { intros E. pose proof (enc_if_length _ 1 (number_ p) E). lia. }
  assert (E : PhoneNumber_ByteSizeLong p = (Z.of_nat (length (phone_wire p)),
    mkPhoneImpl (pn_has_bits_ p) (Z.of_nat (length (phone_wire p))) (number_ p) (type_ p)
      (pn_metadata_ p))).
  { unfold PhoneNumber_ByteSizeLong. cbv zeta. rewrite phone_total.
    rewrite (optional_size (has _ 1) (FLen 1 (number_ p)));
      [|intros E; apply string_field_size; auto; done|lia|lia].
    rewrite (optional_size (has _ 2) (FVarint 2 (type_ p mod 2 ^ 64)));
      [|intros E; by rewrite varint_field_size, enum_size by (done || lia)|lia|lia].
    rewrite maybe_compute, Hw, !length_app by lia. do 2 f_equal; [|f_equal]; lia. }
  split; rewrite E; [done|done|]. intros target. rewrite Hw.
  unfold PhoneNumber_InternalSerialize. cbn [snd pn_has_bits_ number_ type_ pn_metadata_].
  rewrite unknown_write_if.
  rewrite (optional_write (has _ 1) (FLen 1 (number_ p))) by (intros; apply write_string; auto).
  rewrite (optional_write (has _ 2) (FVarint 2 (type_ p mod 2 ^ 64)))
    by (intros; apply write_enum; lia).
  by rewrite <- !app_assoc.
Qed.

Lemma person_total b n1 n2 n3 t :
  (if has b 7 then
     if has b 4 then
       add64 (if has b 2 then add64 (if has b 1 then add64 t n1 else t) n2
              else if has b 1 then add64 t n1 else t) n3
     else if has b 2 then add64 (if has b 1 then add64 t n1 else t) n2
          else if has b 1 then add64 t n1 else t
   else t) =
  (if has b 4 then
     add64 (if has b 2 then add64 (if has b 1 then add64 t n1 else t) n2
            else if has b 1 then add64 t n1 else t) n3
   else if has b 2 then add64 (if has b 1 then add64 t n1 else t) n2
        else if has b 1 then add64 t n1 else t).
Proof. rewrite has_7. by destruct (has b 1), (has b 2), (has b 4). Qed.

Lemma person_wire_fields p :
  person_wire p =
    enc_fields (if has (pe_has_bits_ p) 1 then [FLen 1 (name_ p)] else []) ++
    enc_fields (if has (pe_has_bits_ p) 4 then [FVarint 2 (pe_id_ p mod 2 ^ 64)] else []) ++
    enc_fields (if has (pe_has_bits_ p) 2 then [FLen 3 (email_ p)] else []) ++
    enc_fields (map (λ ph, FLen 4 (phone_wire ph)) (phones_ p)) ++
    unknown_bytes (pe_metadata_ p).
Proof.
  unfold person_wire, abs_person, has_name, has_email, has_id. cbn [pe_name pe_id pe_email].
  rewrite !opt_len_if, !enc_fields_app, <- !app_assoc. by destruct (has (pe_has_bits_ p) 4).
Qed.

Lemma phones_sized l target :
  Forall wf_phone l →
  let f4 := enc_fields (map (λ ph, FLen 4 (phone_wire ph)) l) in
  Z.of_nat (length f4) < 2 ^ 31 →
  ∃ l', message_sizes PhoneNumber_ByteSizeLong l (add64 0 (Z.of_nat (length l))) =
          (Z.of_nat (length f4), l') ∧
        foldl (λ target x, InternalWriteMessage 4 (PhoneNumber_InternalSerialize x)
          (pn_cached_size_ x) target) target l' = target ++ f4.
Proof.
  intros Hl f4 Hf.
  pose proof (length_enc_fields_ge (map (λ ph, FLen 4 (phone_wire ph)) l)) as Hge.
  rewrite length_map in Hge. fold f4 in Hge. rewrite add64_id, Z.add_0_l by lia.
  destruct (message_sizes_spec PhoneNumber_ByteSizeLong PhoneNumber_InternalSerialize
    pn_cached_size_ phone_wire 4 l (Z.of_nat (length l)) target) as (l' & E & Hs);
    [done|lia| |fold f4; lia|].
  - eapply Forall_impl; [exact Hl|]. intros ph Hph. by apply phone_sized.
  - exists l'. split; [|done]. rewrite E. fold f4. f_equal. lia.
Qed.

Lemma person_sizes p phs :
  wf_person p → Z.of_nat (length (person_wire p)) < 2 ^ 31 →
  message_sizes PhoneNumber_ByteSizeLong (phones_ p) (add64 0 (Z.of_nat (length (phones_ p)))) =
    (Z.of_nat (length (enc_fields (map (λ ph, FLen 4 (phone_wire ph)) (phones_ p)))), phs) →
  (has (pe_has_bits_ p) 1 = true → Z.of_nat (length (name_ p)) < 2 ^ 31) →
  (has (pe_has_bits_ p) 2 = true → Z.of_nat (length (email_ p)) < 2 ^ 31) →
  Person_ByteSizeLong p = (Z.of_nat (length (person_wire p)),
    mkPersonImpl (pe_has_bits_ p) (Z.of_nat (length (person_wire p))) phs (name_ p) (email_ p)
      (pe_id_ p) (pe_metadata_ p)).
Proof.
  intros [_ _ _ Hr _] Hl Ems Hn He. pose proof (person_wire_fields p) as Hw.
  rewrite Hw, !length_app in Hl.
  unfold Person_ByteSizeLong. cbv zeta. rewrite Ems, person_total.
  rewrite (optional_size (has _ 1) (FLen 1 (name_ p)));
    [|intros E; apply string_field_size; auto; done|lia|lia].
  rewrite (optional_size (has _ 2) (FLen 3 (email_ p)));
    [|intros E; apply string_field_size; auto; done|lia|lia].
  rewrite (optional_size (has _ 4) (FVarint 2 (pe_id_ p mod 2 ^ 64)));
    [|intros E; by rewrite varint_field_size, int32_size by (done || lia)|lia|lia].
  rewrite maybe_compute, Hw, !length_app by lia. do 2 f_equal; [|f_equal]; lia.
Qed.

Lemma person_sized p :
  wf_person p → Z.of_nat (length (person_wire p)) < 2 ^ 31 →
  sized Person_ByteSizeLong Person_InternalSerialize pe_cached_size_ person_wire p.
Proof.
  intros Hwf Hl. pose proof (person_wire_fields p) as Hw. pose proof Hl as Hl'.
  rewrite Hw, !length_app in Hl'. pose proof Hwf as [_ _ _ Hr Hphs].
  assert (has (pe_has_bits_ p) 1 = true → Z.of_nat (length (name_ p)) < 2 ^ 31) as Hn.
  { intros E. pose proof (enc_if_length _ 1 (name_ p) E). lia. }
  assert (has (pe_has_bits_ p) 2 = true → Z.of_nat (length (email_ p)) < 2 ^ 31) as He.
  { intros E. pose proof (enc_if_length _ 3 (email_ p) E). lia. }
  destruct (phones_sized (phones_ p) [] Hphs ltac:(lia)) as (phs & Ems & _).
  pose proof (person_sizes p phs Hwf Hl Ems Hn He) as E.
  split; rewrite E; [done|done|]. intros target. rewrite Hw.
  unfold Person_InternalSerialize. cbn [snd pe_has_bits_ name_ email_ pe_id_ phones_ pe_metadata_].
  rewrite unknown_write_if.
  rewrite (optional_write (has _ 1) (FLen 1 (name_ p))) by (intros; apply write_string; auto).
  rewrite (optional_write (has _ 4) (FVarint 2 (pe_id_ p mod 2 ^ 64)))
    by (intros; apply write_int32; lia).
  rewrite (optional_write (has _ 2) (FLen 3 (email_ p))) by (intros; apply write_string; auto).
  match goal with |- foldl _ ?t _ ++ _ = _ =>
    destruct (phones_sized (phones_ p) t Hphs ltac:(lia)) as (phs' & Ems' & Hs) end.
  rewrite Ems in Ems'. injection Ems' as <-. rewrite Hs. by rewrite <- !app_assoc.
Qed.

Lemma book_sized b target :
  Forall wf_person (people_ b) → Z.of_nat (length (book_wire b)) < 2 ^ 31 →
  (AddressBook_ByteSizeLong b).1 = Z.of_nat (length (book_wire b)) ∧
  AddressBook_InternalSerialize (AddressBook_ByteSizeLong b).2 target = target ++ book_wire b.
Proof.
  intros Hl Hf. unfold book_wire in Hf. rewrite length_app in Hf.
  pose proof (length_enc_fields_ge (map (λ p, FLen 1 (person_wire p)) (people_ b))) as Hge.
  rewrite length_map in Hge.
  destruct (message_sizes_spec Person_ByteSizeLong Person_InternalSerialize
    pe_cached_size_ person_wire 1 (people_ b) (Z.of_nat (length (people_ b))) target)
    as (l' & E & Hs); [done|lia| |lia|].
  { eapply Forall_impl; [exact Hl|]. intros p Hp. by apply person_sized. }
  unfold AddressBook_ByteSizeLong. rewrite add64_id, Z.add_0_l, E by lia.
  replace (_ + _ - _) with
    (Z.of_nat (length (enc_fields (map (λ p, FLen 1 (person_wire p)) (people_ b))))) by lia.
  rewrite maybe_compute by lia. cbn [fst snd]. unfold AddressBook_InternalSerialize.
  cbn [people_ ab_metadata_]. rewrite unknown_write_if, Hs. unfold book_wire.
  rewrite length_app, <- app_assoc. split; [lia|done].
Qed.

(** ** Messages without unknown fields *)

Definition known_phone (p : PhoneNumber_Impl) : Prop := unknown_bytes (pn_metadata_ p) = [].
Definition known_person (p : Person_Impl) : Prop :=
  unknown_bytes (pe_metadata_ p) = [] ∧ Forall known_phone (phones_ p).

Lemma phone_wire_known p : known_phone p → phone_wire p = enc_fields (f_Phone (abs_phone p)).
Proof. unfold phone_wire. intros ->. apply app_nil_r. Qed.

Lemma person_wire_known p : known_person p → person_wire p = enc_fields (f_Person (abs_person p)).
Proof.
  intros [Hu Hphs]. unfold person_wire, f_Person. rewrite Hu, app_nil_r.
  do 4 f_equal. cbn [abs_person Tutorial.phones]. rewrite map_map.
  induction Hphs as [|ph l Hph Hl IH]; [done|]. cbn [map]. by rewrite IH, phone_wire_known.
Qed.

Lemma book_wire_known b :
  Forall known_person (people_ b) → unknown_bytes (ab_metadata_ b) = [] →
  book_wire b = (Book_SerializeToOstream (map abs_person (people_ b))).2.
Proof.
  intros Hl Hu. unfold book_wire. rewrite Hu, app_nil_r. cbn [Book_SerializeToOstream wire_book snd].
  f_equal. rewrite map_map. induction Hl as [|p l Hp Hl IH]; [done|].
  cbn [map]. by rewrite IH, person_wire_known.
Qed.

(** ** Reading back what is written *)

Lemma sint32_mod64 v : - 2 ^ 31 ≤ v < 2 ^ 31 → sint32 (v mod 2 ^ 64) = v.
Proof.
  intros Hv. rewrite <- (sint32_id v Hv) at 2. unfold sint32. f_equal.
  rewrite <- (Zplus_mod_idemp_l v), <- (Zplus_mod_idemp_l (v mod _)).
  do 2 f_equal. apply Z.mod_mod_divide. by exists (2 ^ 32).
Qed.

Lemma num_ok_Phone p : Forall num_ok (f_Phone p).
Proof.
  unfold f_Phone. apply Forall_app_2; [apply num_ok_opt_len; lia|].
  destruct (ph_type p) as [[]|]; [..|constructor]; by apply Forall_singleton.
Qed.

Lemma num_ok_Person p : Forall num_ok (f_Person p).
Proof.
  unfold f_Person. repeat apply Forall_app_2; try (apply num_ok_opt_len || apply num_ok_map; lia).
  destruct (pe_id p) as [z|]; [|constructor]. apply Forall_singleton.
  pose proof (Z.mod_pos_bound z (2 ^ 64)). cbn. lia.
Qed.

Lemma parse_phone p :
  known_phone p → Z.of_nat (length (phone_wire p)) < 2 ^ 31 →
  foldl s_Phone (mkPhone None None) (fields (phone_wire p)).2 = abs_phone p.
Proof.
  intros Hk Hl. rewrite phone_wire_known in * by done.
  rewrite fields_enc by (by apply field_ok_intro; [apply num_ok_Phone|]).
  unfold f_Phone, abs_phone. cbn [ph_number ph_type].
  destruct (has_number p), (has_type p); cbn; try done; by destruct (PhoneType_of_value _).
Qed.

Lemma parse_phones l q :
  Forall known_phone l →
  Z.of_nat (length (enc_fields (map (λ ph, FLen 4 (phone_wire ph)) l))) < 2 ^ 31 →
  foldl s_Person q (map (λ ph, FLen 4 (phone_wire ph)) l) =
    mkPerson (pe_name q) (pe_id q) (pe_email q) (Tutorial.phones q ++ map abs_phone l).
Proof.
  intros Hk. revert q. induction Hk as [|ph l Hph Hk IH]; intros q Hl.
  { cbn. rewrite app_nil_r. by destruct q. }
  cbn [map foldl s_Person] in *. change (enc_fields (?f :: ?fs)) with (enc_field f ++ enc_fields fs) in Hl.
  rewrite length_app, Nat2Z.inj_add, length_delimited in Hl by done.
  pose proof (len_varint_nonneg (Z.of_nat (length (phone_wire ph)))).
  rewrite parse_phone, IH by (done || lia). cbn [pe_name pe_id pe_email Tutorial.phones].
  by rewrite <- app_assoc.
Qed.

(** The fields of a person, read into a message that has some fields already. *)
Lemma parse_person_fields q p :
  wf_person p → known_person p → Z.of_nat (length (person_wire p)) < 2 ^ 31 →
  foldl s_Person q (f_Person (abs_person p)) = merge_person q (abs_person p).
Proof.
  intros [_ _ _ Hr Hphs] [_ Hk] Hl. rewrite person_wire_fields, !length_app in Hl.
  assert (map (λ ph, FLen 4 (enc_fields (f_Phone ph))) (Tutorial.phones (abs_person p)) =
          map (λ ph, FLen 4 (phone_wire ph)) (phones_ p)) as E.
  { cbn [abs_person Tutorial.phones]. clear Hl Hphs. induction Hk as [|ph l Hph Hk IH]; [done|].
    cbn [map]. by rewrite IH, phone_wire_known. }
  unfold f_Person. rewrite E, !foldl_app, parse_phones by (done || lia).
  unfold merge_person, abs_person. cbn [pe_name pe_id pe_email Tutorial.phones]. 
  destruct q, (has_name p), (has_id p), (has_email p); cbn; by rewrite ?sint32_mod64.
Qed.

Definition read_person (bs : bytes) : Person :=
  foldl s_Person (mkPerson None None None []) (fields bs).2.

(** Merging is reading the two encodings one after the other. *)
Lemma read_concatenation a b :
  wf_person a → wf_person b → known_person a → known_person b →
  Z.of_nat (length (person_wire a ++ person_wire b)) < 2 ^ 31 →
  read_person (person_wire a ++ person_wire b) = abs_person (Person_MergeImpl a b).
Proof.
  intros Ha Hb Hka Hkb Hl. rewrite length_app in Hl.
  unfold read_person.
  rewrite (person_wire_known a), (person_wire_known b), <- enc_fields_app by done.
  rewrite fields_enc.
  - rewrite foldl_app, !parse_person_fields by (done || lia). rewrite abs_person_merge.
    f_equal. unfold merge_person. cbn [pe_name pe_id pe_email Tutorial.phones app].
    by rewrite !first_of_none.
  - apply field_ok_intro; [apply Forall_app_2; apply num_ok_Person|].
    rewrite enc_fields_app, <- !person_wire_known, length_app by done. lia.
Qed.

Lemma abs_person_clear p :
  wf_person p → abs_person (Person_Clear p) = mkPerson None None None [].
Proof.
  intros Hp. destruct (person_op_refines p ClearPerson I Hp) as [E _].
  change (Ok (abs_person (Person_Clear p)) = person_spec (abs_person p) ClearPerson) in E.
  destruct (abs_person p). cbn [person_spec] in E. congruence.
Qed.

Lemma phone_wire_copy p : phone_wire (PhoneNumber_copy p) = phone_wire p.
Proof.
  unfold phone_wire. f_equal. cbn [PhoneNumber_copy pn_metadata_].
  by rewrite unknown_bytes_merge, unknown_bytes_none.
Qed.

(** [CopyFrom] gives a message with the fields of the other, unknown ones included. *)
Lemma copy_wire this from :
  wf_person this →
  abs_person (Person_CopyFrom false this from) = abs_person from ∧
  person_wire (Person_CopyFrom false this from) = person_wire from.
Proof.
  intros Ht.
  assert (E : abs_person (Person_CopyFrom false this from) = abs_person from).
  { unfold Person_CopyFrom. rewrite abs_person_merge, abs_person_clear by done.
    unfold merge_person. cbn [pe_name pe_id pe_email Tutorial.phones app].
    rewrite !first_of_none. by destruct (abs_person from). }
  split; [done|]. unfold person_wire. rewrite E.
  assert (phones_ (Person_CopyFrom false this from) = map PhoneNumber_copy (phones_ from)) as ->.
  { unfold Person_CopyFrom, Person_MergeImpl, Person_Clear. cbn. repeat case_match; done. }
  assert (pe_metadata_ (Person_CopyFrom false this from) =
          unknown_MergeFrom no_unknown_fields (pe_metadata_ from)) as ->.
  { unfold Person_CopyFrom, Person_MergeImpl, Person_Clear. cbn. repeat case_match; done. }
  rewrite unknown_bytes_merge, unknown_bytes_none, map_map. do 5 f_equal.
  apply map_ext. intros ph. by rewrite phone_wire_copy.
Qed.

Lemma unknown_merge this from :
  unknown_bytes (pe_metadata_ (Person_MergeImpl this from)) =
  unknown_bytes (pe_metadata_ this) ++ unknown_bytes (pe_metadata_ from).
Proof.
  unfold Person_MergeImpl. cbn [pe_metadata_]. rewrite unknown_bytes_merge. f_equal.
  cbn. by repeat case_match.
Qed.

Lemma unknown_copy this from :
  unknown_bytes (pe_metadata_ (Person_CopyFrom false this from)) =
  unknown_bytes (pe_metadata_ from).
Proof.
  unfold Person_CopyFrom. rewrite unknown_merge. unfold Person_Clear.
  repeat case_match; cbn; by rewrite unknown_bytes_none.
Qed.

End encodings.

(** ** A runtime *)

#[export] Instance wire_runtime : ProtoRuntime := {
  UnknownFieldSet := bytes;
  no_unknown_fields := [];
  unknown_MergeFrom := app;
  have_unknown_fields u := negb (bool_decide (u = []));
  InternalSerializeUnknownFieldsToArray u target := target ++ u;
  MaybeComputeUnknownFieldsSize total u :=
    (total + Z.of_nat (length u), total + Z.of_nat (length u));
  StringSize s := len_varint (Z.of_nat (length s)) + Z.of_nat (length s);
  EnumSize v := Z.of_nat (length (varint64 v));
  Int32SizePlusOne v := 1 + Z.of_nat (length (varint64 v));
  LengthDelimitedSize n := len_varint n + n;
  WriteStringMaybeAliased num s target := target ++ enc_field (FLen num s);
  WriteEnumToArray num v target := target ++ enc_field (FVarint num (v mod 2 ^ 64));
  WriteInt32ToArrayWithField num v target := target ++ enc_field (FVarint num (v mod 2 ^ 64));
  InternalWriteMessage num ser n target :=
    ser (target ++ enc_varint (num * 8 + 2) ++ enc_varint n);
}.

#[export] Instance wire_runtime_laws : @ProtoRuntimeLaws wire_runtime.
Proof.
  apply (Build_ProtoRuntimeLaws wire_runtime (λ u : bytes, u)); try done.
  intros u Hu. cbn in Hu. by apply negb_false_iff, bool_decide_eq_true_1 in Hu.
Defined.

(** ** Properties *)

(** C35. The size that [AddressBook::ByteSizeLong] computes is the number of bytes that
    [_InternalSerialize] then appends, through the sizes it has cached in every
    submessage, and these bytes are the wire encoding of the book: every present field
    and no other, in order, with the unknown fields. Without unknown fields they are what
    the library of the tutorial programs writes for these people. *)
Theorem book_serialized `{ProtoRuntimeLaws} b target :
  Forall wf_person (people_ b) → Z.of_nat (length (book_wire b)) < 2 ^ 31 →
  let '(size, b') := AddressBook_ByteSizeLong b in
  size = Z.of_nat (length (book_wire b)) ∧
  AddressBook_InternalSerialize b' target = target ++ book_wire b ∧
  (Forall known_person (people_ b) → unknown_bytes (ab_metadata_ b) = [] →
   AddressBook_InternalSerialize b' target =
     target ++ (Book_SerializeToOstream (map abs_person (people_ b))).2).
Proof.
  intros Hwf Hl. destruct (book_sized b target Hwf Hl) as [Hs Hw].
  destruct (AddressBook_ByteSizeLong b) as [size b']. cbn [fst snd] in *.
  split_and!; [done|done|]. intros Hk Hu. by rewrite Hw, book_wire_known.
Qed.

(** A book with a person whose cached sizes are stale. *)
Definition demo_book : AddressBook_Impl :=
  mkBookImpl
    [mkPersonImpl 5 99 [mkPhoneImpl 3 77 (str "555 1234") 3 []; mkPhoneImpl 0 8 [] 2 []]
       (str "Ann") [] (-7) []] 0 [].

Lemma demo_book_wf : Forall wf_person (people_ demo_book).
Proof.
  apply Forall_singleton. split; try done.
  constructor; [|constructor; [|constructor]]; by split.
Qed.

Lemma demo_book_small : Z.of_nat (length (book_wire demo_book)) < 2 ^ 31.
Proof. by vm_compute. Qed.

Lemma book_serialized_witness :
  let '(size, b') := AddressBook_ByteSizeLong demo_book in
  size = 34 ∧ AddressBook_InternalSerialize b' [] = book_wire demo_book.
Proof.
  pose proof (book_serialized demo_book [] demo_book_wf demo_book_small) as P.
  destruct (AddressBook_ByteSizeLong demo_book) as [size b'] eqn:E.
  destruct P as (-> & Hw & _). split; [by vm_compute|exact Hw].
Defined.

(** C36. The presence bits implement optional fields: any sequence of the accessors of
    [Person] and, through [mutable_phones] and [add_phones], of [PhoneNumber], does to
    the fields what it would do to optional values, with the same failures, and leaves
    absent fields at their defaults, so that the getters return the value of the field or
    its default and [release] the value or a null pointer. *)
Theorem person_accessors_refine `{ProtoRuntime} ops p :
  Forall op_ok ops → wf_person p →
  abs_person <$> mfold person_do ops p = mfold person_spec ops (abs_person p) ∧
  ∀ p', mfold person_do ops p = Ok p' →
    wf_person p' ∧
    name p' = default [] (pe_name (abs_person p')) ∧
    email p' = default [] (pe_email (abs_person p')) ∧
    id p' = default 0 (pe_id (abs_person p')) ∧
    (release_name p').1 = pe_name (abs_person p') ∧
    (release_email p').1 = pe_email (abs_person p').
Proof.
  intros Ho Hp. rewrite Forall_forall in Ho.
  destruct (refines_fold wf_person abs_person person_do person_spec ops p) as [E Hwf];
    [by auto using person_op_refines|done|].
  split; [done|]. intros p' Hp'. specialize (Hwf p' Hp') as Hw. destruct Hw as [Hn He Hi _ _].
  split; [by apply Hwf|]. unfold name, email, id, release_name, release_email, abs_person.
  cbn [pe_name pe_email pe_id]. unfold has_name, has_email, has_id in *.
  destruct (has _ 1), (has _ 2), (has _ 4); cbn; auto 10.
Qed.

Lemma person_accessors_refine_witness :
  let ops := [SetName (str "Ann"); AddPhones 0 [SetNumber (str "1"); SetType 3]; SetId 12;
              MutableEmail (λ e, e ++ str "x"); MutablePhones 0 [ClearType]; ReleaseName] in
  abs_person <$> mfold person_do ops Person_init =
    Ok (mkPerson None (Some 12) (Some (str "x")) [mkPhone (Some (str "1")) None]).
Proof.
  intros ops. destruct (person_accessors_refine ops Person_init) as [-> _].
  - repeat constructor; cbn; lia.
  - by split.
  - by vm_compute.
Defined.

(** C37. Merging: the bytes of two messages one after the other read as the merged message,
    when neither has unknown fields; the unknown fields are concatenated in any case.
    [CopyFrom] another message, whatever was there before: the copy has the fields of the
    other and its unknown fields, of the old ones nothing is left, and it is serialised to
    the same size and the same bytes as the other. *)
Theorem merge_reads_concatenation `{ProtoRuntimeLaws} a b :
  wf_person a → wf_person b →
  Z.of_nat (length (person_wire a ++ person_wire b)) < 2 ^ 31 →
  let merged := Person_MergeImpl a b in
  let copy := Person_CopyFrom false a b in
  (known_person a → known_person b →
   read_person (person_wire a ++ person_wire b) = abs_person merged) ∧
  unknown_bytes (pe_metadata_ merged) =
    unknown_bytes (pe_metadata_ a) ++ unknown_bytes (pe_metadata_ b) ∧
  abs_person copy = abs_person b ∧
  unknown_bytes (pe_metadata_ copy) = unknown_bytes (pe_metadata_ b) ∧
  (Person_ByteSizeLong copy).1 = (Person_ByteSizeLong b).1 ∧
  ∀ target,
    Person_InternalSerialize (Person_ByteSizeLong copy).2 target =
      Person_InternalSerialize (Person_ByteSizeLong b).2 target ∧
    Person_InternalSerialize (Person_ByteSizeLong b).2 target = target ++ person_wire b.
Proof.
  intros Ha Hb Hl merged copy. pose proof Hl as Hlb. rewrite length_app in Hlb.
  destruct (copy_wire a b Ha) as [Hf Hw].
  assert (Z.of_nat (length (person_wire b)) < 2 ^ 31) as Hb' by lia.
  destruct (person_sized b Hb Hb') as [Sb _ Wb]. rewrite <- Hw in Hb'.
  destruct (person_sized _ (wf_person_copy a b Ha Hb) Hb') as [Sc _ Wc].
  rewrite Hw in Sc. fold copy in Hf, Hw, Sc, Wc.
  split_and!; [intros; by apply read_concatenation|apply unknown_merge|done|
    apply unknown_copy|congruence|].
  intros target. by rewrite Wb, Wc, Hw.
Qed.

(** Unknown fields (the bytes of the fields 9 and 10) on both sides: those of the receiver
    are forgotten. *)
Lemma merge_reads_concatenation_witness :
  let a := mkPersonImpl 5 0 [mkPhoneImpl 1 0 (str "1") 2 []] (str "Ann") [] 4 [x48; x01] in
  let b := mkPersonImpl 6 0 [mkPhoneImpl 3 0 (str "2") 0 []] [] (str "a@b") 0 [x50; x02] in
  unknown_bytes (pe_metadata_ (Person_MergeImpl a b)) = [x48; x01; x50; x02] ∧
  Person_InternalSerialize (Person_ByteSizeLong (Person_CopyFrom false a b)).2 [] =
    [x10; x00; x1a; x03] ++ str "a@b" ++ [x22; x05; x0a; x01] ++ str "2" ++ [x10; x00; x50; x02].
Proof.
  intros a b.
  destruct (merge_reads_concatenation a b) as (_ & -> & _ & _ & _ & Hw).
  1-2: split; try done; constructor; [|constructor]; by split.
  { by vm_compute. }
  split; [done|]. destruct (Hw []) as [-> ->]. by vm_compute.
Defined.
